(** * GraphTsetlinMachine: the training/inference orchestrator of [tm.py]

    A shallow embedding of [GraphTsetlinMachine/tm.py]: the Python object is
    a typed attribute store, the device is a store of named buffers, the
    CUDA kernels of [kernels.py] are an interface ([Backend]), and every
    method is a computation in a state-and-exception monad. *)

From Stdlib Require Import ZArith String List Lia Bool Eqdep_dec PrimFloat.
From stdpp Require Import base decidable option list functions.

Local Open Scope Z_scope.

(** ** Python exceptions *)

Inductive exn :=
| ValueError (msg : string)
| AttributeError (name : string)
| IndexError (msg : string)
| CudaError (msg : string)
| SystemExit (code : Z).

(** ** NumPy integers and arrays *)

(** [np.uint32] and [np.int32] conversions of a Python integer. *)
Definition to_uint32 (z : Z) : Z := z mod 2 ^ 32.
Definition to_int32 (z : Z) : Z := (z + 2 ^ 31) mod 2 ^ 32 - 2 ^ 31.

(** An integer ndarray of rank one or two.  A rank-two array carries its
    number of columns, so that the shape [(0, k)] is distinct from the shape
    [(0,)] of [np.array([])]. *)
Inductive ndarray :=
| Arr1 (v : list Z)
| Arr2 (ncols : nat) (rows : list (list Z)).

Definition shape (a : ndarray) : list nat :=
  match a with
  | Arr1 v => [length v]
  | Arr2 c rows => [length rows; c]
  end.

(** Number of elements; [nbytes] for a four-byte dtype. *)
Definition size (a : ndarray) : nat :=
  match a with
  | Arr1 v => length v
  | Arr2 c rows => (length rows * c)%nat
  end.

Definition nbytes (a : ndarray) : nat := (4 * size a)%nat.

(** Row-major contents, as [memcpy_htod] sees them. *)
Definition ravel (a : ndarray) : list Z :=
  match a with
  | Arr1 v => v
  | Arr2 _ rows => concat rows
  end.

#[global] Instance ndarray_eq_dec : EqDecision ndarray.
Proof. solve_decision. Defined.

(** [np.array_equal a b]: same shape and same elements. *)
Definition array_equal (a b : ndarray) : bool :=
  bool_decide (shape a = shape b) && bool_decide (ravel a = ravel b).

(** [np.array([])] *)
Definition np_array_nil : ndarray := Arr1 [].

(** [np.zeros((r, c))] *)
Definition np_zeros2 (r c : nat) : ndarray := Arr2 c (replicate r (replicate c 0)).

(** [np.zeros(n)] *)
Definition np_zeros1 (n : nat) : ndarray := Arr1 (replicate n 0).

(** [np.where(a == k, x, y)], elementwise; the shape is kept. *)
Definition np_where_eq (a : ndarray) (k x y : Z) : ndarray :=
  let f := fun v : Z => if Z.eqb v k then x else y in
  match a with
  | Arr1 v => Arr1 (map f v)
  | Arr2 c rows => Arr2 c (map (map f) rows)
  end.

(** [a.astype(np.int32)] *)
Definition astype_int32 (a : ndarray) : ndarray :=
  match a with
  | Arr1 v => Arr1 (map to_int32 v)
  | Arr2 c rows => Arr2 c (map (map to_int32) rows)
  end.

(** [a[:, i] = col] on a rank-two array: row [e] receives [col[e]] at
    column [i].  NumPy raises [IndexError] when [i] is not a column. *)
Definition set_column (a : ndarray) (i : nat) (col : list Z) : exn + ndarray :=
  match a with
  | Arr2 c rows =>
      if (i <? c)%nat
      then inr (Arr2 c (zip_with (fun row x => <[i := x]> row) rows col))
      else inl (IndexError "index out of bounds for axis 1")
  | Arr1 _ => inl (IndexError "too many indices for array")
  end.

(** [a[i, j] = x] on a rank-two array. *)
Definition set_item2 (a : ndarray) (i j : nat) (x : Z) : exn + ndarray :=
  match a with
  | Arr2 c rows =>
      match rows !! i with
      | Some row =>
          if (j <? c)%nat
          then inr (Arr2 c (<[i := <[j := x]> row]> rows))
          else inl (IndexError "index out of bounds for axis 1")
      | None => inl (IndexError "index out of bounds for axis 0")
      end
  | Arr1 _ => inl (IndexError "too many indices for array")
  end.

(** [a[i, :] = row] on a rank-two array; the row must have [ncols] entries. *)
Definition set_row (a : ndarray) (i : nat) (row : list Z) : exn + ndarray :=
  match a with
  | Arr2 c rows =>
      if (i <? length rows)%nat
      then if (length row =? c)%nat
           then inr (Arr2 c (<[i := row]> rows))
           else inl (ValueError "could not broadcast input array")
      else inl (IndexError "index out of bounds for axis 0")
  | Arr1 _ => inl (IndexError "too many indices for array")
  end.

(** [a[i, :]] *)
Definition get_row (a : ndarray) (i : nat) : exn + list Z :=
  match a with
  | Arr2 c rows =>
      match rows !! i with
      | Some row => inr row
      | None => inl (IndexError "index out of bounds for axis 0")
      end
  | Arr1 _ => inl (IndexError "too many indices for array")
  end.

(** [a[:, 0]]: the first column as a rank-one array. *)
Definition column0 (a : ndarray) : exn + ndarray :=
  match a with
  | Arr2 c rows =>
      if (0 <? c)%nat
      then inr (Arr1 (map (fun row => nth 0 row 0) rows))
      else inl (IndexError "index 0 is out of bounds for axis 1 with size 0")
  | Arr1 _ => inl (IndexError "too many indices for array")
  end.

(** [np.max] of a rank-one array; empty input raises [ValueError]. *)
Definition np_max (v : list Z) : exn + Z :=
  match v with
  | [] => inl (ValueError "zero-size array to reduction operation maximum which has no identity")
  | x :: v' => inr (fold_left Z.max v' x)
  end.

(** [np.argmax] of one row: the first index holding the maximum. *)
Fixpoint argmax_from (best : Z) (besti : nat) (i : nat) (v : list Z) : nat :=
  match v with
  | [] => besti
  | x :: v' =>
      if best <? x then argmax_from x i (S i) v' else argmax_from best besti (S i) v'
  end.

Definition argmax (v : list Z) : exn + Z :=
  match v with
  | [] => inl (ValueError "attempt to get argmax of an empty sequence")
  | x :: v' => inr (Z.of_nat (argmax_from x 0%nat 1%nat v'))
  end.

(** [np.argmax(a, axis=1)] *)
Fixpoint argmax_rows (rows : list (list Z)) : exn + list Z :=
  match rows with
  | [] => inr []
  | r :: rows' =>
      match argmax r with
      | inl e => inl e
      | inr i =>
          match argmax_rows rows' with
          | inl e => inl e
          | inr js => inr (i :: js)
          end
      end
  end.

Definition argmax_axis1 (a : ndarray) : exn + ndarray :=
  match a with
  | Arr2 c rows =>
      match argmax_rows rows with
      | inl e => inl e
      | inr js => inr (Arr1 js)
      end
  | Arr1 _ => inl (ValueError "axis 1 is out of bounds for array of dimension 1")
  end.

(** [a >= 0], elementwise, with [True] as 1 and [False] as 0. *)
Definition ge0 (a : ndarray) : ndarray :=
  let f := fun v : Z => if 0 <=? v then 1 else 0 in
  match a with
  | Arr1 v => Arr1 (map f v)
  | Arr2 c rows => Arr2 c (map (map f) rows)
  end.

(** ** sympy.prevprime *)

Definition is_prime (n : nat) : bool :=
  (2 <=? n)%nat && forallb (fun d => negb (n mod d =? 0)%nat) (seq 2 (n - 2)).

(** The largest prime not above [k]. *)
Fixpoint prime_at_most (k : nat) : option nat :=
  match k with
  | O => None
  | S k' => if is_prime k then Some k else prime_at_most k'
  end.

(** [prevprime(n)]: the largest prime strictly below [n]; [ValueError] when
    there is none ([n < 3]). *)
Definition prevprime (n : nat) : exn + nat :=
  match prime_at_most (n - 1) with
  | Some p => inr p
  | None => inl (ValueError "no preceding primes")
  end.

(** ** numpy.random.choice without replacement

    NumPy's generator is outside the repository.  [choice] draws [k]
    elements of the population one after the other, each from what is left,
    the position of each draw being read from an entropy stream. *)
Fixpoint draw (pop : list Z) (k : nat) (entropy : list nat) : list Z * list nat :=
  match k with
  | O => ([], entropy)
  | S k' =>
      let j := (hd 0%nat entropy mod length pop)%nat in
      let '(rest, entropy') := draw (delete j pop) k' (tl entropy) in
      (nth j pop 0 :: rest, entropy')
  end.

Definition random_choice (pop : list Z) (k : nat) (entropy : list nat)
  : exn + (list Z * list nat) :=
  if (length pop <? k)%nat
  then inl (ValueError "Cannot take a larger sample than population when 'replace=False'")
  else inr (draw pop k entropy).

(** [np.arange(n, dtype=np.uint32)] *)
Definition np_arange (n : nat) : list Z := map (fun i => to_uint32 (Z.of_nat i)) (seq 0 n).

(** ** The graph set handed over by the graph builder

    The fields of a [Graphs] object that [tm.py] reads. *)
Record Graphs := {
  hypervector_size : nat;
  number_of_graphs : nat;
  max_number_of_graph_nodes : nat;
  max_number_of_graph_node_chunks : nat;
  signature : ndarray;
  X : ndarray;
  number_of_graph_node_edges : ndarray;
  edge : ndarray;
  number_of_graph_nodes : list nat;
  node_index : list nat;
  edge_index : list nat
}.

(** ** The compiled-in kernel parameters

    The [#define] block that [_init] puts in front of every kernel source. *)
Record params := {
  CLASSES : Z;
  CLAUSES : nat;
  LITERALS : nat;
  STATE_BITS : nat;
  BOOST_TRUE_POSITIVE_FEEDBACK : Z;
  THRESHOLD : Z;
  Q : float;
  MAX_INCLUDED_LITERALS : nat;
  NEGATIVE_CLAUSES : Z;
  MAX_NODES : nat;
  MESSAGE_SIZE : nat;
  MESSAGE_BITS : nat
}.

(** ** The device

    Every device allocation the object holds is named after the attribute
    (or the element of a list attribute) that points at it.  A buffer is a
    list of 32-bit words; [None] is an attribute not assigned yet. *)
Inductive dptr :=
| g_state
| ta_state_gpu
| message_ta_state_gpu (d : nat)
| clause_weights_gpu
| clause_weights_dummy_gpu
| class_sum_gpu
| clause_node_gpu
| number_of_include_actions
| hypervectors_gpu
| encoded_X_train_gpu
| current_clause_node_output_train_gpu
| next_clause_node_output_train_gpu
| clause_X_int_train_gpu
| clause_X_train_gpu (d : nat)
| number_of_graph_node_edges_train_gpu
| edge_train_gpu
| class_clause_update_gpu
| encoded_Y_gpu
| encoded_X_test_gpu
| current_clause_node_output_test_gpu
| next_clause_node_output_test_gpu
| clause_X_int_test_gpu
| clause_X_test_gpu (d : nat)
| number_of_graph_node_edges_test_gpu
| edge_test_gpu
| transformed_X_sample_gpu.

#[global] Instance dptr_eq_dec : EqDecision dptr.
Proof. solve_decision. Defined.

Abbreviation device := (dptr -> option (list Z)).

(** ** The Python object

    The attributes of a [CommonTsetlinMachine] other than device pointers,
    each with the type of the values the code stores in it. *)
Inductive attr :=
| self_number_of_clauses
| self_number_of_clause_chunks
| self_T
| self_depth
| self_s
| self_q
| self_max_included_literals
| self_boost_true_positive_feedback
| self_number_of_state_bits
| self_message_size
| self_message_bits
| self_message_literals
| self_double_hashing
| self_graphs_signature_train
| self_graphs_signature_test
| self_encoded_Y
| self_ta_state
| self_message_ta_state
| self_clause_weights
| self_hypervectors
| self_initialized
| self_negative_clauses
| self_number_of_features
| self_number_of_literals
| self_number_of_ta_chunks
| self_number_of_message_features
| self_number_of_message_literals
| self_number_of_message_chunks
| self_kernels
| self_message_ta_state_gpu
| self_clause_X_train_gpu
| self_clause_X_test_gpu
| self_number_of_outputs
| self_max_y
| self_min_y.

Definition attr_eq_dec (a b : attr) : {a = b} + {a <> b}.
Proof. decide equality. Defined.

Definition attr_type (a : attr) : Type :=
  match a with
  | self_number_of_clauses | self_number_of_clause_chunks | self_depth
  | self_number_of_state_bits | self_message_size | self_message_bits
  | self_message_literals | self_number_of_features | self_number_of_literals
  | self_number_of_ta_chunks | self_number_of_message_features
  | self_number_of_message_literals | self_number_of_message_chunks => nat
  | self_T | self_boost_true_positive_feedback | self_negative_clauses
  | self_number_of_outputs => Z
  | self_s => list float
  | self_q => float
  | self_max_included_literals => option nat
  | self_double_hashing | self_initialized => bool
  | self_graphs_signature_train | self_graphs_signature_test | self_encoded_Y
  | self_ta_state | self_message_ta_state | self_clause_weights
  | self_hypervectors => ndarray
  | self_kernels => params
  | self_message_ta_state_gpu | self_clause_X_train_gpu | self_clause_X_test_gpu => list dptr
  | self_max_y | self_min_y => option Z
  end.

Definition object := forall a : attr, option (attr_type a).

(** An object without attributes. *)
Definition blank : object := fun _ => None.

Definition object_set (a : attr) (v : attr_type a) (o : object) : object :=
  fun b =>
    match attr_eq_dec a b with
    | left e => Some (eq_rect a attr_type v b e)
    | right _ => o b
    end.

(** The kernels of [kernels.py], by the name [get_function] looks them up
    under, and a launch: a kernel with the buffers it is handed. *)
Inductive kernel :=
| Kprepare | Kprepare_message_ta_state
| Kcalculate_messages | Kprepare_messages | Kexchange_messages | Kencode_messages
| Kcalculate_messages_conditional | Kevaluate
| Kselect_clause_node | Kselect_clause_updates | Kupdate | Kupdate_message
| Ktransform | Ktransform_nodewise.

Record launch := Launch { kernel_of : kernel; buffers : list dptr }.

(** ** The world a method runs in *)
Record world := {
  self : object;
  gpu : device;
  allocations : nat;        (* device allocations made so far *)
  stream : list launch;     (* kernel launches issued so far, oldest first *)
  np_random : list nat;     (* entropy of numpy's global generator *)
  stdout : list string      (* lines printed *)
}.

Definition with_self (f : object -> object) (w : world) : world :=
  {| self := f (self w); gpu := gpu w; allocations := allocations w; stream := stream w;
     np_random := np_random w; stdout := stdout w |}.

Definition with_gpu (f : device -> device) (w : world) : world :=
  {| self := self w; gpu := f (gpu w); allocations := allocations w; stream := stream w;
     np_random := np_random w; stdout := stdout w |}.

Definition with_allocations (n : nat) (w : world) : world :=
  {| self := self w; gpu := gpu w; allocations := n; stream := stream w;
     np_random := np_random w; stdout := stdout w |}.

Definition with_stream (f : list launch -> list launch) (w : world) : world :=
  {| self := self w; gpu := gpu w; allocations := allocations w; stream := f (stream w);
     np_random := np_random w; stdout := stdout w |}.

Definition with_np_random (r : list nat) (w : world) : world :=
  {| self := self w; gpu := gpu w; allocations := allocations w; stream := stream w;
     np_random := r; stdout := stdout w |}.

Definition with_stdout (f : list string -> list string) (w : world) : world :=
  {| self := self w; gpu := gpu w; allocations := allocations w; stream := stream w;
     np_random := np_random w; stdout := f (stdout w) |}.

(** A process that has just imported the module: no object attribute, no
    device buffer but the generator state [g.state], nothing printed. *)
Definition boot (g : list Z) (entropy : list nat) : world :=
  {| self := blank;
     gpu := fun p => match p with g_state => Some (map to_uint32 g) | _ => None end;
     allocations := 0; stream := []; np_random := entropy; stdout := [] |}.

(** ** The monad of methods: state and exceptions *)
Definition M (A : Type) : Type := world -> (exn + A) * world.

Definition ret {A} (a : A) : M A := fun w => (inr a, w).

Definition bind {A B} (m : M A) (f : A -> M B) : M B :=
  fun w =>
    match m w with
    | (inl e, w') => (inl e, w')
    | (inr a, w') => f a w'
    end.

Definition raise {A} (e : exn) : M A := fun w => (inl e, w).

(** A host computation that may raise. *)
Definition lift {A} (r : exn + A) : M A :=
  match r with
  | inl e => raise e
  | inr a => ret a
  end.

Declare Scope method_scope.
Delimit Scope method_scope with method.
Bind Scope method_scope with M.

Notation "x <- c1 ;; c2" := (bind c1 (fun x => c2))
  (at level 100, c1 at next level, c2 at level 200, right associativity) : method_scope.
Notation "c1 ;; c2" := (bind c1 (fun _ => c2))
  (at level 100, c2 at level 200, right associativity) : method_scope.

Local Open Scope method_scope.

(** [for x in l: body] *)
Fixpoint for_each {A} (l : list A) (body : A -> M unit) : M unit :=
  match l with
  | [] => ret tt
  | x :: l' => body x ;; for_each l' body
  end.

(** [for i in range(n): body] *)
Definition for_range (n : nat) (body : nat -> M unit) : M unit := for_each (seq 0 n) body.

(** [for x in l] with local variables the body reassigns. *)
Fixpoint for_each_with {A S} (l : list A) (locals : S) (body : A -> S -> M S) : M S :=
  match l with
  | [] => ret locals
  | x :: l' => locals' <- body x locals ;; for_each_with l' locals' body
  end.

Definition for_range_with {S} (n : nat) (locals : S) (body : nat -> S -> M S) : M S :=
  for_each_with (seq 0 n) locals body.

(** [self.a], raising [AttributeError] when it was never assigned. *)
Definition getattr (a : attr) : M (attr_type a) :=
  fun w =>
    match self w a with
    | Some v => (inr v, w)
    | None => (inl (AttributeError "object has no such attribute"), w)
    end.

(** [self.a = v] *)
Definition setattr (a : attr) (v : attr_type a) : M unit :=
  fun w => (inr tt, with_self (object_set a v) w).

Definition print (line : string) : M unit :=
  fun w => (inr tt, with_stdout (fun out => out ++ [line]) w).

(** [sys.exit(code)] *)
Definition sys_exit {A} (code : Z) : M A := raise (SystemExit code).

(** [l[i]] on a Python list or a rank-one array. *)
Definition index {A} (l : list A) (i : nat) : M A :=
  match l !! i with
  | Some x => ret x
  | None => raise (IndexError "index out of range")
  end.

(** NumPy's and Python's reading of an index on an axis of [n] entries: a
    negative index counts from the end. *)
Definition axis_index (n : nat) (i : Z) : option nat :=
  if (0 <=? i) && (i <? Z.of_nat n) then Some (Z.to_nat i)
  else if (- Z.of_nat n <=? i) && (i <? 0) then Some (Z.to_nat (Z.of_nat n + i))
  else None.

(** [l[i]] on a Python list. *)
Definition list_item {A} (l : list A) (i : Z) : M A :=
  match axis_index (length l) i with
  | Some k => index l k
  | None => raise (IndexError "list index out of range")
  end.

(** [a.reshape((d0, d1, d2))[i, j, k]]: the reshape needs [d0 * d1 * d2]
    elements, and the indices are checked axis by axis. *)
Definition reshape3_item (a : ndarray) (d0 d1 d2 : nat) (i j k : Z) : exn + Z :=
  if (size a =? d0 * d1 * d2)%nat then
    match axis_index d0 i with
    | None => inl (IndexError "index is out of bounds for axis 0")
    | Some i' =>
        match axis_index d1 j with
        | None => inl (IndexError "index is out of bounds for axis 1")
        | Some j' =>
            match axis_index d2 k with
            | None => inl (IndexError "index is out of bounds for axis 2")
            | Some k' =>
                match ravel a !! ((i' * d1 + j') * d2 + k')%nat with
                | Some x => inr x
                | None => inl (IndexError "index is out of bounds")
                end
            end
        end
    end
  else inl (ValueError "cannot reshape array").

(** [(word & (1 << (ta % 32))) > 0] *)
Definition bit_set (word ta : Z) : bool := 0 <? Z.land word (Z.shiftl 1 (ta mod 32)).

(** [np.array(rows, dtype=np.uint8)] of a list of equally long lists of
    booleans; of the empty list it is [np.array([])]. *)
Definition np_array_uint8 (rows : list (list bool)) : ndarray :=
  match rows with
  | [] => Arr1 []
  | row :: _ => Arr2 (length row) (map (map (fun b : bool => if b then 1 else 0)) rows)
  end.

(** [(n - 1) // 32 + 1] with Python's floor division. *)
Definition chunks (n : nat) : nat := Z.to_nat ((Z.of_nat n - 1) / 32 + 1).

(** The words of [ta_state] a kernel addresses, by clause, chunk and state
    bit: [CLAUSES * TA_CHUNKS * STATE_BITS], the extent [allocate_gpu_memory]
    gives the buffer. *)
Definition ta_extent (P : params) : nat :=
  (CLAUSES P * chunks (LITERALS P) * STATE_BITS P)%nat.

(** ** Device memory *)

(** The buffer behind a pointer attribute. *)
Definition deref (p : dptr) : M (list Z) :=
  fun w =>
    match gpu w p with
    | Some buf => (inr buf, w)
    | None => (inl (AttributeError "object has no such attribute"), w)
    end.

Definition poke (p : dptr) (buf : list Z) : M unit :=
  fun w => (inr tt, with_gpu (<[p := Some buf]>) w).

(** What a kernel leaves in a buffer it was handed: the buffer keeps its
    extent and holds 32-bit words. *)
Definition kernel_store (p : dptr) (new : list Z) : M unit :=
  old <- deref p ;;
  poke p (map to_uint32 (resize (length old) 0 new)).

(** [cuda.memcpy_htod(p, a)]: the bytes of the host array overwrite the start
    of the buffer. *)
Definition memcpy_htod (p : dptr) (src : list Z) : M unit :=
  buf <- deref p ;;
  if (length src <=? length buf)%nat
  then poke p (map to_uint32 src ++ drop (length src) buf)
  else raise (CudaError "cuMemcpyHtoD failed: invalid argument").

Inductive dtype := int32 | uint32.

Definition reinterpret (t : dtype) (word : Z) : Z :=
  match t with
  | int32 => to_int32 word
  | uint32 => to_uint32 word
  end.

(** [cuda.memcpy_dtoh(a, p)] for a host array of [n] elements of type [t]:
    the host array receives the first [n] words of the buffer. *)
Definition memcpy_dtoh (t : dtype) (n : nat) (p : dptr) : M (list Z) :=
  buf <- deref p ;;
  if (n <=? length buf)%nat
  then ret (map (reinterpret t) (take n buf))
  else raise (CudaError "cuMemcpyDtoH failed: invalid argument").

(** ** The CUDA backend

    Modelled from the spec: [kernels.py] is not among the sources, so each
    kernel is a member of this interface, a function from the contents of the
    buffers it is handed (and its scalar arguments, after the compiled-in
    parameters) to the new contents of the buffers it writes.  Which buffers a
    kernel writes follows sections 4.1 to 4.4 of the specification.  The
    interface also supplies what a new device allocation and what
    [np.empty] happen to contain. *)
Class Backend := {
  fresh_memory : nat -> nat -> Z;
  host_junk : nat -> Z;
  kernel_prepare :
    params -> forall (rng ta weights class_sum : list Z),
      list Z * list Z * list Z * list Z;
  kernel_prepare_message_ta_state : params -> forall (msg_ta : list Z), list Z;
  kernel_calculate_messages :
    params -> forall (ta : list Z) (number_of_nodes node_index : Z)
                     (cur incl features : list Z), list Z * list Z;
  kernel_prepare_messages :
    params -> forall (number_of_nodes : Z) (msg_int : list Z), list Z;
  kernel_exchange_messages :
    params -> forall (number_of_nodes : Z) (hv cur : list Z) (node_index edge_index : Z)
                     (nedges edges msg_int : list Z), list Z;
  kernel_encode_messages :
    params -> forall (number_of_nodes : Z) (msg_int msg : list Z), list Z;
  kernel_calculate_messages_conditional :
    params -> forall (msg_ta : list Z) (number_of_nodes : Z)
                     (cur nxt incl msg : list Z), list Z * list Z;
  kernel_evaluate :
    params -> forall (cur weights : list Z) (number_of_nodes : Z) (class_sum : list Z),
      list Z;
  kernel_select_clause_node :
    params -> forall (rng cur : list Z) (number_of_nodes : Z) (clause_node : list Z),
      list Z * list Z;
  kernel_select_clause_updates :
    params -> forall (rng weights class_sum targets : list Z) (example : Z)
                     (clause_node updates : list Z), list Z * list Z * list Z;
  kernel_update :
    params -> forall (rng : list Z) (s : float) (ta : list Z)
                     (number_of_nodes node_index : Z)
                     (clause_node incl features updates : list Z),
      list Z * list Z * list Z;
  kernel_update_message :
    params -> forall (rng : list Z) (s : float) (msg_ta : list Z) (number_of_nodes : Z)
                     (clause_node incl msg updates : list Z),
      list Z * list Z * list Z;
  kernel_transform :
    params -> forall (cur : list Z) (number_of_nodes : Z) (out : list Z), list Z;
  kernel_transform_nodewise :
    params -> forall (cur : list Z) (number_of_nodes : Z) (out : list Z), list Z
}.

(** The tuple [get_state] returns and [set_state] reads, by position. *)
Record state := {
  state_0 : ndarray;    (* ta_state *)
  state_1 : ndarray;    (* clause_weights *)
  state_2 : Z;          (* number_of_outputs *)
  state_3 : nat;        (* number_of_clauses *)
  state_4 : nat;        (* number_of_literals *)
  state_5 : nat;        (* depth *)
  state_6 : nat;        (* number_of_state_bits *)
  state_7 : nat;        (* number_of_ta_chunks *)
  state_8 : option Z;   (* min_y *)
  state_9 : option Z    (* max_y *)
}.

(** A size given as a Python integer: NumPy and the driver reject a negative
    one. *)
Definition as_size (z : Z) : M nat :=
  if z <? 0 then raise (ValueError "negative dimensions are not allowed")
  else ret (Z.to_nat z).

(** [np.int32(n)] of an entry of one of the graph set's index arrays. *)
Definition np_int32 (n : nat) : Z := to_int32 (Z.of_nat n).

(** [cuda.Context.synchronize()]: launches are modelled as completing in
    issue order, so the barrier has no effect of its own. *)
Definition synchronize : M unit := ret tt.

Module CommonTsetlinMachine.
Section Methods.
Context `{B : Backend}.

(** [cuda.mem_alloc(nbytes)] assigned to the pointer attribute [p].  The
    driver rejects an empty allocation (the source allocates one byte for an
    empty edge array for that reason). *)
Definition mem_alloc (p : dptr) (nbytes : nat) : M unit :=
  fun w =>
    if (nbytes =? 0)%nat
    then (inl (CudaError "cuMemAlloc failed: invalid argument"), w)
    else
      let buf := map (fun i => to_uint32 (fresh_memory (allocations w) i)) (seq 0 (nbytes / 4)) in
      (inr tt, with_allocations (S (allocations w)) (with_gpu (<[p := Some buf]>) w)).

(** [np.empty(n, dtype)] and [np.empty((r, c), dtype=np.int32)] *)
Definition np_empty1 (t : dtype) (n : nat) : ndarray :=
  Arr1 (map (fun i => reinterpret t (host_junk i)) (seq 0 n)).

Definition np_empty2 (r c : nat) : ndarray :=
  Arr2 c (map (fun e => map (fun i => to_int32 (host_junk (e * c + i))) (seq 0 c)) (seq 0 r)).

(** *** Kernel launches

    [self.k(args)] and [self.k.prepared_call(grid, block, args)]: the launch
    joins the stream, the kernel runs on the contents of the buffers it is
    handed, and what it writes is stored back. *)
Definition issue (k : kernel) (args : list dptr) : M unit :=
  fun w => (inr tt, with_stream (fun q => q ++ [Launch k args]) w).

Definition prepare (rng ta weights class_sum : dptr) : M unit :=
  P <- getattr self_kernels ;;
  a <- deref rng ;; b <- deref ta ;; c <- deref weights ;; d <- deref class_sum ;;
  issue Kprepare [rng; ta; weights; class_sum] ;;
  let '(a', b', c', d') := kernel_prepare P a b c d in
  kernel_store rng a' ;; kernel_store ta b' ;;
  kernel_store weights c' ;; kernel_store class_sum d'.

Definition prepare_message_ta_state (msg_ta : dptr) : M unit :=
  P <- getattr self_kernels ;;
  a <- deref msg_ta ;;
  issue Kprepare_message_ta_state [msg_ta] ;;
  kernel_store msg_ta (kernel_prepare_message_ta_state P a).

Definition calculate_messages (ta : dptr) (number_of_nodes node_index : Z)
    (cur incl features : dptr) : M unit :=
  P <- getattr self_kernels ;;
  a <- deref ta ;; c <- deref cur ;; i <- deref incl ;; x <- deref features ;;
  issue Kcalculate_messages [ta; cur; incl; features] ;;
  let '(c', i') := kernel_calculate_messages P a number_of_nodes node_index c i x in
  kernel_store cur c' ;; kernel_store incl i'.

Definition prepare_messages (number_of_nodes : Z) (msg_int : dptr) : M unit :=
  P <- getattr self_kernels ;;
  m <- deref msg_int ;;
  issue Kprepare_messages [msg_int] ;;
  kernel_store msg_int (kernel_prepare_messages P number_of_nodes m).

Definition exchange_messages (number_of_nodes : Z) (hv cur : dptr)
    (node_index edge_index : Z) (nedges edges msg_int : dptr) : M unit :=
  P <- getattr self_kernels ;;
  h <- deref hv ;; c <- deref cur ;; n <- deref nedges ;; e <- deref edges ;;
  m <- deref msg_int ;;
  issue Kexchange_messages [hv; cur; nedges; edges; msg_int] ;;
  kernel_store msg_int
    (kernel_exchange_messages P number_of_nodes h c node_index edge_index n e m).

Definition encode_messages (number_of_nodes : Z) (msg_int msg : dptr) : M unit :=
  P <- getattr self_kernels ;;
  m <- deref msg_int ;; x <- deref msg ;;
  issue Kencode_messages [msg_int; msg] ;;
  kernel_store msg (kernel_encode_messages P number_of_nodes m x).

Definition calculate_messages_conditional (msg_ta : dptr) (number_of_nodes : Z)
    (cur nxt incl msg : dptr) : M unit :=
  P <- getattr self_kernels ;;
  a <- deref msg_ta ;; c <- deref cur ;; n <- deref nxt ;; i <- deref incl ;;
  x <- deref msg ;;
  issue Kcalculate_messages_conditional [msg_ta; cur; nxt; incl; msg] ;;
  let '(n', i') := kernel_calculate_messages_conditional P a number_of_nodes c n i x in
  kernel_store nxt n' ;; kernel_store incl i'.

Definition evaluate (cur weights : dptr) (number_of_nodes : Z) (class_sum : dptr) : M unit :=
  P <- getattr self_kernels ;;
  c <- deref cur ;; v <- deref weights ;; s <- deref class_sum ;;
  issue Kevaluate [cur; weights; class_sum] ;;
  kernel_store class_sum (kernel_evaluate P c v number_of_nodes s).

Definition select_clause_node (rng cur : dptr) (number_of_nodes : Z) (clause_node : dptr)
  : M unit :=
  P <- getattr self_kernels ;;
  r <- deref rng ;; c <- deref cur ;; n <- deref clause_node ;;
  issue Kselect_clause_node [rng; cur; clause_node] ;;
  let '(r', n') := kernel_select_clause_node P r c number_of_nodes n in
  kernel_store rng r' ;; kernel_store clause_node n'.

Definition select_clause_updates (rng weights class_sum targets : dptr) (example : Z)
    (clause_node updates : dptr) : M unit :=
  P <- getattr self_kernels ;;
  r <- deref rng ;; v <- deref weights ;; s <- deref class_sum ;; y <- deref targets ;;
  n <- deref clause_node ;; u <- deref updates ;;
  issue Kselect_clause_updates [rng; weights; class_sum; targets; clause_node; updates] ;;
  let '(r', v', u') := kernel_select_clause_updates P r v s y example n u in
  kernel_store rng r' ;; kernel_store weights v' ;; kernel_store updates u'.

Definition update (rng : dptr) (s : float) (ta : dptr) (number_of_nodes node_index : Z)
    (clause_node incl features updates : dptr) : M unit :=
  P <- getattr self_kernels ;;
  r <- deref rng ;; a <- deref ta ;; n <- deref clause_node ;; i <- deref incl ;;
  x <- deref features ;; u <- deref updates ;;
  issue Kupdate [rng; ta; clause_node; incl; features; updates] ;;
  let '(r', a', i') := kernel_update P r s a number_of_nodes node_index n i x u in
  kernel_store rng r' ;; kernel_store ta a' ;; kernel_store incl i'.

Definition update_message (rng : dptr) (s : float) (msg_ta : dptr) (number_of_nodes : Z)
    (clause_node incl msg updates : dptr) : M unit :=
  P <- getattr self_kernels ;;
  r <- deref rng ;; a <- deref msg_ta ;; n <- deref clause_node ;; i <- deref incl ;;
  x <- deref msg ;; u <- deref updates ;;
  issue Kupdate_message [rng; msg_ta; clause_node; incl; msg; updates] ;;
  let '(r', a', i') := kernel_update_message P r s a number_of_nodes n i x u in
  kernel_store rng r' ;; kernel_store msg_ta a' ;; kernel_store incl i'.

Definition transform_gpu (cur : dptr) (number_of_nodes : Z) (out : dptr) : M unit :=
  P <- getattr self_kernels ;;
  c <- deref cur ;; o <- deref out ;;
  issue Ktransform [cur; out] ;;
  kernel_store out (kernel_transform P c number_of_nodes o).

Definition transform_nodewise_gpu (cur : dptr) (number_of_nodes : Z) (out : dptr) : M unit :=
  P <- getattr self_kernels ;;
  c <- deref cur ;; o <- deref out ;;
  issue Ktransform_nodewise [cur; out] ;;
  kernel_store out (kernel_transform_nodewise P c number_of_nodes o).

(** [np.random.choice(pop, size=k, replace=False)] on the global generator. *)
Definition np_random_choice (pop : list Z) (k : nat) : M (list Z) :=
  fun w =>
    match random_choice pop k (np_random w) with
    | inl e => (inl e, w)
    | inr (r, entropy') => (inr r, with_np_random entropy' w)
    end.

(** *** [CommonTsetlinMachine.__init__]

    [s] is either one value or a tuple; [grid] and [block] only size the
    launches and are left out.  In the double-hashing branch
    [prevprime(message_size)] raises before the loop when [message_size < 3],
    so neither modulus is zero there. *)
Definition __init__ (number_of_clauses : nat) (T : Z) (s : float + list float) (q : float)
    (max_included_literals : option nat) (boost_true_positive_feedback : Z)
    (number_of_state_bits depth message_size message_bits : nat) (double_hashing : bool)
  : M unit :=
  print "Initialization of sparse structure." ;;
  setattr self_number_of_clauses number_of_clauses ;;
  setattr self_number_of_clause_chunks (chunks number_of_clauses) ;;
  setattr self_T T ;;
  setattr self_depth depth ;;
  match s with
  | inl x => d <- getattr self_depth ;; setattr self_s (replicate d x)
  | inr t => setattr self_s t
  end ;;
  setattr self_q q ;;
  setattr self_max_included_literals max_included_literals ;;
  setattr self_boost_true_positive_feedback boost_true_positive_feedback ;;
  setattr self_number_of_state_bits number_of_state_bits ;;
  setattr self_message_size message_size ;;
  setattr self_message_bits message_bits ;;
  setattr self_message_literals (message_size * 2)%nat ;;
  setattr self_double_hashing double_hashing ;;
  setattr self_graphs_signature_train np_array_nil ;;
  setattr self_graphs_signature_test np_array_nil ;;
  setattr self_encoded_Y np_array_nil ;;
  setattr self_ta_state np_array_nil ;;
  setattr self_message_ta_state np_array_nil ;;
  setattr self_clause_weights np_array_nil ;;
  dh <- getattr self_double_hashing ;;
  (if dh then
     setattr self_message_bits 2%nat ;;
     nc <- getattr self_number_of_clauses ;;
     mb <- getattr self_message_bits ;;
     setattr self_hypervectors (np_zeros2 nc mb) ;;
     ms <- getattr self_message_size ;;
     prime <- lift (prevprime ms) ;;
     for_range nc (fun i =>
       ms <- getattr self_message_size ;;
       hv <- getattr self_hypervectors ;;
       hv <- lift (set_item2 hv i 0 (to_uint32 (Z.of_nat (i mod ms)))) ;;
       setattr self_hypervectors hv ;;
       hv <- getattr self_hypervectors ;;
       hv <- lift (set_item2 hv i 1
                     (to_uint32 (Z.of_nat ms + Z.of_nat prime - Z.of_nat (i mod prime)))) ;;
       setattr self_hypervectors hv)
   else
     ms <- getattr self_message_size ;;
     let indexes := np_arange ms in
     nc <- getattr self_number_of_clauses ;;
     mb <- getattr self_message_bits ;;
     setattr self_hypervectors (np_zeros2 nc mb) ;;
     for_range nc (fun i =>
       mb <- getattr self_message_bits ;;
       row <- np_random_choice indexes mb ;;
       hv <- getattr self_hypervectors ;;
       hv <- lift (set_row hv i row) ;;
       setattr self_hypervectors hv)) ;;
  setattr self_initialized false.

(** *** [allocate_gpu_memory] *)
Definition allocate_gpu_memory : M unit :=
  nc <- getattr self_number_of_clauses ;;
  tc <- getattr self_number_of_ta_chunks ;;
  sb <- getattr self_number_of_state_bits ;;
  mem_alloc ta_state_gpu (nc * tc * sb * 4) ;;
  setattr self_message_ta_state_gpu [] ;;
  d <- getattr self_depth ;;
  for_range (d - 1) (fun _ =>
    mc <- getattr self_number_of_message_chunks ;;
    l <- getattr self_message_ta_state_gpu ;;
    let p := message_ta_state_gpu (length l) in
    mem_alloc p (nc * mc * sb * 4) ;;
    setattr self_message_ta_state_gpu (l ++ [p])) ;;
  no <- getattr self_number_of_outputs ;;
  n <- as_size (no * Z.of_nat nc * 4) ;;
  mem_alloc clause_weights_gpu n ;;
  mem_alloc clause_weights_dummy_gpu n ;;
  n <- as_size (no * 4) ;;
  mem_alloc class_sum_gpu n ;;
  mem_alloc clause_node_gpu (nc * 4) ;;
  mem_alloc number_of_include_actions (nc * 4) ;;
  hv <- getattr self_hypervectors ;;
  mem_alloc hypervectors_gpu (nbytes hv) ;;
  memcpy_htod hypervectors_gpu (ravel hv).

(** *** [ta_action]

    The action of automaton [ta] of [clause]: bit [ta % 32] of the word of
    state bit [number_of_state_bits - 1] in chunk [ta // 32].  For the
    surface layer the words come from the host copy [self.ta_state], which is
    read from the device when it is empty; for a message layer they are read
    from the device at every call. *)
Definition ta_action (depth clause ta : Z) : M bool :=
  if depth =? 0 then
    cached <- getattr self_ta_state ;;
    (if array_equal cached np_array_nil then
       nc <- getattr self_number_of_clauses ;;
       tc <- getattr self_number_of_ta_chunks ;;
       sb <- getattr self_number_of_state_bits ;;
       setattr self_ta_state (np_empty1 uint32 (nc * tc * sb)) ;;
       words <- memcpy_dtoh uint32 (nc * tc * sb) ta_state_gpu ;;
       setattr self_ta_state (Arr1 words)
     else ret tt) ;;
    a <- getattr self_ta_state ;;
    nc <- getattr self_number_of_clauses ;;
    tc <- getattr self_number_of_ta_chunks ;;
    sb <- getattr self_number_of_state_bits ;;
    word <- lift (reshape3_item a nc tc sb clause (ta / 32) (Z.of_nat sb - 1)) ;;
    ret (bit_set word ta)
  else
    nc <- getattr self_number_of_clauses ;;
    mc <- getattr self_number_of_message_chunks ;;
    sb <- getattr self_number_of_state_bits ;;
    setattr self_message_ta_state (np_empty1 uint32 (nc * mc * sb)) ;;
    l <- getattr self_message_ta_state_gpu ;;
    p <- list_item l (depth - 1) ;;
    words <- memcpy_dtoh uint32 (nc * mc * sb) p ;;
    setattr self_message_ta_state (Arr1 words) ;;
    a <- getattr self_message_ta_state ;;
    nc <- getattr self_number_of_clauses ;;
    mc <- getattr self_number_of_message_chunks ;;
    sb <- getattr self_number_of_state_bits ;;
    word <- lift (reshape3_item a nc mc sb clause (ta / 32) (Z.of_nat sb - 1)) ;;
    ret (bit_set word ta).

(** *** [get_hyperliterals]

    The two list comprehensions: the rows are built clause by clause, each
    entry by one call of [ta_action]. *)
Definition hyperliteral_rows (depth : Z) (width : M nat) : M (list (list bool)) :=
  nc <- getattr self_number_of_clauses ;;
  for_range_with nc [] (fun clause rows =>
    n <- width ;;
    row <- for_range_with n [] (fun ta row =>
      b <- ta_action depth (Z.of_nat clause) (Z.of_nat ta) ;;
      ret (row ++ [b])) ;;
    ret (rows ++ [row])).

Definition get_hyperliterals (depth : Z) : M ndarray :=
  if depth =? 0 then
    rows <- hyperliteral_rows 0 (getattr self_number_of_literals) ;;
    ret (np_array_uint8 rows)
  else
    rows <- hyperliteral_rows depth (getattr self_number_of_message_literals) ;;
    ret (np_array_uint8 rows).

(** *** [get_messages]

    The positions at which [get_messages] looks a symbol up in a message
    clause, for one edge type: [sym_hv = self.hypervectors[sym_id].ravel()]
    followed by [sym_hv = (sym_hv + edge_type) % self.message_size], on
    [np.uint32] words.  The edge type is a value of [range(edge_types)].  The
    matching that follows averages in floating point and is not modelled. *)
Definition sym_hv (message_size edge_type : nat) (row : list Z) : list Z :=
  map (fun p => if (message_size =? 0)%nat then 0
                else to_uint32 (p + Z.of_nat edge_type) mod Z.of_nat message_size) row.

(** *** [get_state] *)
Definition get_state : M state :=
  cw <- getattr self_clause_weights ;;
  (if array_equal cw np_array_nil then
     nc <- getattr self_number_of_clauses ;;
     tc <- getattr self_number_of_ta_chunks ;;
     sb <- getattr self_number_of_state_bits ;;
     setattr self_ta_state (np_empty1 uint32 (nc * tc * sb)) ;;
     ta <- memcpy_dtoh uint32 (nc * tc * sb) ta_state_gpu ;;
     setattr self_ta_state (Arr1 ta) ;;
     no <- getattr self_number_of_outputs ;;
     n <- as_size (no * Z.of_nat nc) ;;
     setattr self_clause_weights (np_empty1 int32 n) ;;
     cw <- memcpy_dtoh int32 n clause_weights_gpu ;;
     setattr self_clause_weights (Arr1 cw)
   else ret tt) ;;
  ta <- getattr self_ta_state ;;
  cw <- getattr self_clause_weights ;;
  no <- getattr self_number_of_outputs ;;
  nc <- getattr self_number_of_clauses ;;
  nl <- getattr self_number_of_literals ;;
  d <- getattr self_depth ;;
  sb <- getattr self_number_of_state_bits ;;
  tc <- getattr self_number_of_ta_chunks ;;
  lo <- getattr self_min_y ;;
  hi <- getattr self_max_y ;;
  ret {| state_0 := ta; state_1 := cw; state_2 := no; state_3 := nc; state_4 := nl;
         state_5 := d; state_6 := sb; state_7 := tc; state_8 := lo; state_9 := hi |}.

(** *** [set_state] *)
Definition set_state (st : state) : M unit :=
  setattr self_number_of_outputs (state_2 st) ;;
  setattr self_number_of_clauses (state_3 st) ;;
  setattr self_number_of_literals (state_4 st) ;;
  setattr self_depth (state_5 st) ;;
  setattr self_number_of_state_bits (state_6 st) ;;
  setattr self_number_of_ta_chunks (state_7 st) ;;
  setattr self_min_y (state_8 st) ;;
  setattr self_max_y (state_9 st) ;;
  d <- getattr self_depth ;;
  nc <- getattr self_number_of_clauses ;;
  tc <- getattr self_number_of_ta_chunks ;;
  sb <- getattr self_number_of_state_bits ;;
  mem_alloc ta_state_gpu (d * nc * tc * sb * 4) ;;
  no <- getattr self_number_of_outputs ;;
  n <- as_size (no * Z.of_nat nc * 4) ;;
  mem_alloc clause_weights_gpu n ;;
  memcpy_htod ta_state_gpu (ravel (state_0 st)) ;;
  memcpy_htod clause_weights_gpu (ravel (state_1 st)) ;;
  setattr self_graphs_signature_train np_array_nil ;;
  setattr self_graphs_signature_test np_array_nil ;;
  setattr self_encoded_Y np_array_nil ;;
  setattr self_ta_state np_array_nil ;;
  setattr self_clause_weights np_array_nil.

(** *** [_init]

    The four [SourceModule]s are compiled from one parameter block; the
    attribute [self_kernels] stands for the functions looked up in them. *)
Definition _init (graphs : Graphs) : M unit :=
  setattr self_number_of_features (hypervector_size graphs) ;;
  nf <- getattr self_number_of_features ;;
  setattr self_number_of_literals (nf * 2)%nat ;;
  nl <- getattr self_number_of_literals ;;
  setattr self_number_of_ta_chunks (chunks nl) ;;
  ms <- getattr self_message_size ;;
  setattr self_number_of_message_features ms ;;
  mf <- getattr self_number_of_message_features ;;
  setattr self_number_of_message_literals (mf * 2)%nat ;;
  ml <- getattr self_number_of_message_literals ;;
  setattr self_number_of_message_chunks (chunks ml) ;;
  mil <- getattr self_max_included_literals ;;
  match mil with
  | None => setattr self_max_included_literals (Some nl)
  | Some _ => ret tt
  end ;;
  no <- getattr self_number_of_outputs ;;
  nc <- getattr self_number_of_clauses ;;
  sb <- getattr self_number_of_state_bits ;;
  boost <- getattr self_boost_true_positive_feedback ;;
  T <- getattr self_T ;;
  q <- getattr self_q ;;
  mil <- getattr self_max_included_literals ;;
  neg <- getattr self_negative_clauses ;;
  mb <- getattr self_message_bits ;;
  setattr self_kernels
    {| CLASSES := no; CLAUSES := nc; LITERALS := nl; STATE_BITS := sb;
       BOOST_TRUE_POSITIVE_FEEDBACK := boost; THRESHOLD := T; Q := q;
       MAX_INCLUDED_LITERALS := default 0%nat mil; NEGATIVE_CLAUSES := neg;
       MAX_NODES := max_number_of_graph_nodes graphs; MESSAGE_SIZE := ms;
       MESSAGE_BITS := mb |} ;;
  allocate_gpu_memory ;;
  setattr self_initialized true.

(** The allocations of [_init_fit] and [_score_init] that hold the edges. *)
Definition alloc_edges (p : dptr) (graphs : Graphs) : M unit :=
  if (0 <? nbytes (edge graphs))%nat
  then mem_alloc p (nbytes (edge graphs)) ;; memcpy_htod p (ravel (edge graphs))
  else mem_alloc p 1.

(** *** [_init_fit] *)
Definition _init_fit (graphs : Graphs) (encoded_Y : ndarray) (incremental : bool) : M unit :=
  initialized <- getattr self_initialized ;;
  (if negb initialized then
     _init graphs ;;
     prepare g_state ta_state_gpu clause_weights_gpu class_sum_gpu ;;
     d <- getattr self_depth ;;
     for_range (d - 1) (fun depth =>
       l <- getattr self_message_ta_state_gpu ;;
       p <- index l depth ;;
       prepare_message_ta_state p) ;;
     synchronize
   else if negb incremental then
     prepare g_state ta_state_gpu clause_weights_gpu class_sum_gpu ;;
     synchronize
   else ret tt) ;;
  sig <- getattr self_graphs_signature_train ;;
  (if negb (array_equal sig (signature graphs)) then
     setattr self_graphs_signature_train (signature graphs) ;;
     mem_alloc encoded_X_train_gpu (nbytes (X graphs)) ;;
     memcpy_htod encoded_X_train_gpu (ravel (X graphs)) ;;
     nc <- getattr self_number_of_clauses ;;
     mem_alloc current_clause_node_output_train_gpu
       (nc * max_number_of_graph_node_chunks graphs * 4) ;;
     mem_alloc next_clause_node_output_train_gpu
       (nc * max_number_of_graph_node_chunks graphs * 4) ;;
     ml <- getattr self_message_literals ;;
     mem_alloc clause_X_int_train_gpu (max_number_of_graph_nodes graphs * ml * 4) ;;
     setattr self_clause_X_train_gpu [] ;;
     d <- getattr self_depth ;;
     for_range (d - 1) (fun _ =>
       mc <- getattr self_number_of_message_chunks ;;
       l <- getattr self_clause_X_train_gpu ;;
       let p := clause_X_train_gpu (length l) in
       mem_alloc p (max_number_of_graph_nodes graphs * mc * 4) ;;
       setattr self_clause_X_train_gpu (l ++ [p])) ;;
     mem_alloc number_of_graph_node_edges_train_gpu
       (nbytes (number_of_graph_node_edges graphs)) ;;
     memcpy_htod number_of_graph_node_edges_train_gpu
       (ravel (number_of_graph_node_edges graphs)) ;;
     alloc_edges edge_train_gpu graphs ;;
     no <- getattr self_number_of_outputs ;;
     n <- as_size (no * Z.of_nat nc * 4) ;;
     mem_alloc class_clause_update_gpu n
   else ret tt) ;;
  old <- getattr self_encoded_Y ;;
  (if negb (array_equal old encoded_Y) then
     setattr self_encoded_Y encoded_Y ;;
     mem_alloc encoded_Y_gpu (nbytes encoded_Y) ;;
     memcpy_htod encoded_Y_gpu (ravel encoded_Y)
   else ret tt).

(** *** [_evaluate]

    The two clause-node-output buffers and the other per-graph-set buffers
    come in as pointers; the local variables [current_clause_node_output] and
    [next_clause_node_output] are the pair the loop threads.  The pointer
    the method returns is the last value of [current_clause_node_output]. *)
Definition _evaluate (graphs : Graphs) (number_of_graph_nodes node_index edge_index : Z)
    (current_clause_node_output next_clause_node_output : dptr)
    (number_of_graph_node_edges edge clause_X_int : dptr) (clause_X : list dptr)
    (encoded_X : dptr) : M dptr :=
  no <- getattr self_number_of_outputs ;;
  n <- as_size no ;;
  let class_sum := astype_int32 (np_zeros1 n) in
  memcpy_htod class_sum_gpu (ravel class_sum) ;;
  calculate_messages ta_state_gpu number_of_graph_nodes node_index
    current_clause_node_output number_of_include_actions encoded_X ;;
  synchronize ;;
  d <- getattr self_depth ;;
  locals <- for_range_with (d - 1) (current_clause_node_output, next_clause_node_output)
    (fun depth locals =>
       let '(current_clause_node_output, next_clause_node_output) := locals in
       prepare_messages number_of_graph_nodes clause_X_int ;;
       synchronize ;;
       exchange_messages number_of_graph_nodes hypervectors_gpu current_clause_node_output
         node_index edge_index number_of_graph_node_edges edge clause_X_int ;;
       synchronize ;;
       msg <- index clause_X depth ;;
       encode_messages number_of_graph_nodes clause_X_int msg ;;
       synchronize ;;
       l <- getattr self_message_ta_state_gpu ;;
       msg_ta <- index l depth ;;
       msg <- index clause_X depth ;;
       calculate_messages_conditional msg_ta number_of_graph_nodes
         current_clause_node_output next_clause_node_output
         number_of_include_actions msg ;;
       synchronize ;;
       let tmp := current_clause_node_output in
       let current_clause_node_output := next_clause_node_output in
       let next_clause_node_output := tmp in
       ret (current_clause_node_output, next_clause_node_output)) ;;
  let '(current_clause_node_output, next_clause_node_output) := locals in
  evaluate current_clause_node_output clause_weights_gpu number_of_graph_nodes class_sum_gpu ;;
  synchronize ;;
  ret current_clause_node_output.

(** The three index-array reads every per-example call of [_evaluate] is
    given: [number_of_graph_nodes[e]], [node_index[e]] and
    [edge_index[node_index[e]]], as [np.int32]. *)
Definition example_args (graphs : Graphs) (e : nat) : M (Z * Z * Z) :=
  n <- index (number_of_graph_nodes graphs) e ;;
  ni <- index (node_index graphs) e ;;
  ei <- index (edge_index graphs) ni ;;
  ret (np_int32 n, np_int32 ni, np_int32 ei).

(** *** [_fit] *)
Definition _fit (graphs : Graphs) (encoded_Y : ndarray) (epochs : nat) (incremental : bool)
  : M unit :=
  _init_fit graphs encoded_Y incremental ;;
  no <- getattr self_number_of_outputs ;;
  n <- as_size no ;;
  let class_sum := astype_int32 (np_zeros1 n) in
  for_range epochs (fun epoch =>
    for_range (number_of_graphs graphs) (fun e =>
      memcpy_htod class_sum_gpu (ravel class_sum) ;;
      a <- example_args graphs e ;;
      let '(nodes, ni, ei) := a in
      clause_X <- getattr self_clause_X_train_gpu ;;
      current_clause_node_output <-
        _evaluate graphs nodes ni ei
          current_clause_node_output_train_gpu next_clause_node_output_train_gpu
          number_of_graph_node_edges_train_gpu edge_train_gpu
          clause_X_int_train_gpu clause_X encoded_X_train_gpu ;;
      select_clause_node g_state current_clause_node_output nodes clause_node_gpu ;;
      synchronize ;;
      select_clause_updates g_state clause_weights_gpu class_sum_gpu encoded_Y_gpu
        (np_int32 e) clause_node_gpu class_clause_update_gpu ;;
      synchronize ;;
      s <- getattr self_s ;;
      s0 <- index s 0 ;;
      update g_state s0 ta_state_gpu nodes ni clause_node_gpu
        number_of_include_actions encoded_X_train_gpu class_clause_update_gpu ;;
      synchronize ;;
      d <- getattr self_depth ;;
      for_range (d - 1) (fun depth =>
        s <- getattr self_s ;;
        sd <- index s (depth + 1) ;;
        l <- getattr self_message_ta_state_gpu ;;
        msg_ta <- index l depth ;;
        clause_X <- getattr self_clause_X_train_gpu ;;
        msg <- index clause_X depth ;;
        update_message g_state sd msg_ta nodes clause_node_gpu
          number_of_include_actions msg class_clause_update_gpu ;;
        synchronize))) ;;
  setattr self_ta_state np_array_nil ;;
  setattr self_clause_weights np_array_nil.

(** *** [_score_init] *)
Definition _score_init (graphs : Graphs) : M unit :=
  initialized <- getattr self_initialized ;;
  (if negb initialized then
     print "Error: Model not trained." ;;
     sys_exit (-1)
   else ret tt) ;;
  sig <- getattr self_graphs_signature_test ;;
  if negb (array_equal sig (signature graphs)) then
    setattr self_graphs_signature_test (signature graphs) ;;
    mem_alloc encoded_X_test_gpu (nbytes (X graphs)) ;;
    memcpy_htod encoded_X_test_gpu (ravel (X graphs)) ;;
    nc <- getattr self_number_of_clauses ;;
    mem_alloc current_clause_node_output_test_gpu
      (nc * max_number_of_graph_node_chunks graphs * 4) ;;
    mem_alloc next_clause_node_output_test_gpu
      (nc * max_number_of_graph_node_chunks graphs * 4) ;;
    ml <- getattr self_number_of_message_literals ;;
    mem_alloc clause_X_int_test_gpu (max_number_of_graph_nodes graphs * ml * 4) ;;
    setattr self_clause_X_test_gpu [] ;;
    d <- getattr self_depth ;;
    for_range (d - 1) (fun _ =>
      mc <- getattr self_number_of_message_chunks ;;
      l <- getattr self_clause_X_test_gpu ;;
      let p := clause_X_test_gpu (length l) in
      mem_alloc p (max_number_of_graph_nodes graphs * mc * 4) ;;
      setattr self_clause_X_test_gpu (l ++ [p])) ;;
    mem_alloc number_of_graph_node_edges_test_gpu
      (nbytes (number_of_graph_node_edges graphs)) ;;
    memcpy_htod number_of_graph_node_edges_test_gpu
      (ravel (number_of_graph_node_edges graphs)) ;;
    alloc_edges edge_test_gpu graphs
  else ret tt.

(** The call of [_evaluate] on the test buffers for example [e], shared by
    [_score], [transform] and [transform_nodewise]. *)
Definition evaluate_test (graphs : Graphs) (e : nat) : M dptr :=
  a <- example_args graphs e ;;
  let '(nodes, ni, ei) := a in
  clause_X <- getattr self_clause_X_test_gpu ;;
  _evaluate graphs nodes ni ei
    current_clause_node_output_test_gpu next_clause_node_output_test_gpu
    number_of_graph_node_edges_test_gpu edge_test_gpu
    clause_X_int_test_gpu clause_X encoded_X_test_gpu.

(** *** [_score] *)
Definition _score (graphs : Graphs) : M ndarray :=
  _score_init graphs ;;
  no <- getattr self_number_of_outputs ;;
  n <- as_size no ;;
  let class_sum := np_zeros2 (number_of_graphs graphs) n in
  for_range_with (number_of_graphs graphs) class_sum (fun e class_sum =>
    row <- lift (get_row class_sum e) ;;
    memcpy_htod class_sum_gpu row ;;
    evaluate_test graphs e ;;
    row <- memcpy_dtoh int32 (length row) class_sum_gpu ;;
    lift (set_row class_sum e row)).

(** *** [transform] *)
Definition transform (graphs : Graphs) : M (ndarray * ndarray) :=
  _score_init graphs ;;
  no <- getattr self_number_of_outputs ;;
  n <- as_size no ;;
  nc <- getattr self_number_of_clauses ;;
  let class_sum := np_zeros2 (number_of_graphs graphs) n in
  let transformed_X := np_zeros2 (number_of_graphs graphs) nc in
  for_range_with (number_of_graphs graphs) (transformed_X, class_sum) (fun e locals =>
    let '(transformed_X, class_sum) := locals in
    row <- lift (get_row class_sum e) ;;
    memcpy_htod class_sum_gpu row ;;
    current_clause_node_output <- evaluate_test graphs e ;;
    nc <- getattr self_number_of_clauses ;;
    mem_alloc transformed_X_sample_gpu (nc * 4) ;;
    nodes <- index (number_of_graph_nodes graphs) e ;;
    transform_gpu current_clause_node_output (np_int32 nodes) transformed_X_sample_gpu ;;
    row <- memcpy_dtoh int32 (length row) class_sum_gpu ;;
    class_sum <- lift (set_row class_sum e row) ;;
    out <- lift (get_row transformed_X e) ;;
    out <- memcpy_dtoh int32 (length out) transformed_X_sample_gpu ;;
    transformed_X <- lift (set_row transformed_X e out) ;;
    ret (transformed_X, class_sum)).

(** [np.max(graphs.number_of_graph_nodes)] *)
Definition max_nodes (graphs : Graphs) : M nat :=
  m <- lift (np_max (map Z.of_nat (number_of_graph_nodes graphs))) ;;
  ret (Z.to_nat m).

(** *** [transform_nodewise]

    The result is returned before its final [reshape] to
    [(graphs, clauses, nodes)], together with the class sums. *)
Definition transform_nodewise (graphs : Graphs) : M (ndarray * ndarray) :=
  _score_init graphs ;;
  no <- getattr self_number_of_outputs ;;
  n <- as_size no ;;
  nc <- getattr self_number_of_clauses ;;
  width <- max_nodes graphs ;;
  let class_sum := np_zeros2 (number_of_graphs graphs) n in
  let transformed_X := np_zeros2 (number_of_graphs graphs) (nc * width) in
  locals <- for_range_with (number_of_graphs graphs) (transformed_X, class_sum)
    (fun e locals =>
       let '(transformed_X, class_sum) := locals in
       row <- lift (get_row class_sum e) ;;
       memcpy_htod class_sum_gpu row ;;
       current_clause_node_output <- evaluate_test graphs e ;;
       nc <- getattr self_number_of_clauses ;;
       width <- max_nodes graphs ;;
       mem_alloc transformed_X_sample_gpu (nc * width * 4) ;;
       nodes <- index (number_of_graph_nodes graphs) e ;;
       transform_nodewise_gpu current_clause_node_output (np_int32 nodes)
         transformed_X_sample_gpu ;;
       row <- memcpy_dtoh int32 (length row) class_sum_gpu ;;
       class_sum <- lift (set_row class_sum e row) ;;
       out <- lift (get_row transformed_X e) ;;
       out <- memcpy_dtoh int32 (length out) transformed_X_sample_gpu ;;
       transformed_X <- lift (set_row transformed_X e out) ;;
       ret (transformed_X, class_sum)) ;;
  ret locals.

End Methods.
End CommonTsetlinMachine.

(** ** The three label codecs *)

Module MultiClassGraphTsetlinMachine.
Section Methods.
Context `{B : Backend}.
Import CommonTsetlinMachine.

Definition __init__ (number_of_clauses : nat) (T : Z) (s : float + list float) (q : float)
    (max_included_literals : option nat) (boost_true_positive_feedback : Z)
    (number_of_state_bits depth message_size message_bits : nat) (double_hashing : bool)
  : M unit :=
  CommonTsetlinMachine.__init__ number_of_clauses T s q max_included_literals
    boost_true_positive_feedback number_of_state_bits depth message_size message_bits
    double_hashing ;;
  setattr self_negative_clauses 1.

(** [Y] is a vector of class labels. *)
Definition fit (graphs : Graphs) (Y : list Z) (epochs : nat) (incremental : bool) : M unit :=
  top <- lift (np_max Y) ;;
  setattr self_number_of_outputs (top + 1) ;;
  setattr self_max_y None ;;
  setattr self_min_y None ;;
  no <- getattr self_number_of_outputs ;;
  n <- as_size no ;;
  let encoded_Y := np_empty2 (length Y) n in
  encoded_Y <- for_range_with n encoded_Y (fun i encoded_Y =>
    T <- getattr self_T ;;
    lift (set_column encoded_Y i
            (map to_int32 (ravel (np_where_eq (Arr1 Y) (Z.of_nat i) T (- T)))))) ;;
  _fit graphs encoded_Y epochs incremental.

Definition score (graphs : Graphs) : M ndarray := _score graphs.

Definition predict (graphs : Graphs) : M ndarray :=
  class_sums <- score graphs ;;
  lift (argmax_axis1 class_sums).

End Methods.
End MultiClassGraphTsetlinMachine.

Module MultiOutputGraphTsetlinMachine.
Section Methods.
Context `{B : Backend}.
Import CommonTsetlinMachine.

Definition __init__ (number_of_clauses : nat) (T : Z) (s : float + list float) (q : float)
    (max_included_literals : option nat) (boost_true_positive_feedback : Z)
    (number_of_state_bits depth message_size message_bits : nat) (double_hashing : bool)
  : M unit :=
  CommonTsetlinMachine.__init__ number_of_clauses T s q max_included_literals
    boost_true_positive_feedback number_of_state_bits depth message_size message_bits
    double_hashing ;;
  setattr self_negative_clauses 1.

(** [Y.shape[1]] *)
Definition shape_1 (Y : ndarray) : M nat := index (shape Y) 1.

(** [Y] is a matrix with one column per output bit. *)
Definition fit (graphs : Graphs) (Y : ndarray) (epochs : nat) (incremental : bool) : M unit :=
  columns <- shape_1 Y ;;
  setattr self_number_of_outputs (Z.of_nat columns) ;;
  setattr self_max_y None ;;
  setattr self_min_y None ;;
  T <- getattr self_T ;;
  let encoded_Y := astype_int32 (np_where_eq Y 1 T (- T)) in
  _fit graphs encoded_Y epochs incremental.

Definition score (graphs : Graphs) : M ndarray := _score graphs.

(** [(class_sums >= 0).astype(np.uint32)] *)
Definition predict (graphs : Graphs) : M ndarray :=
  class_sums <- score graphs ;;
  let preds := ge0 class_sums in
  ret preds.

End Methods.
End MultiOutputGraphTsetlinMachine.

Module GraphTsetlinMachine.
Section Methods.
Context `{B : Backend}.
Import CommonTsetlinMachine.

Definition __init__ (number_of_clauses : nat) (T : Z) (s : float + list float) (q : float)
    (max_included_literals : option nat) (boost_true_positive_feedback : Z)
    (number_of_state_bits depth message_size message_bits : nat) (double_hashing : bool)
  : M unit :=
  CommonTsetlinMachine.__init__ number_of_clauses T s q max_included_literals
    boost_true_positive_feedback number_of_state_bits depth message_size message_bits
    double_hashing ;;
  setattr self_negative_clauses 1.

(** [_fit] runs with its defaults: 100 epochs, not incremental. *)
Definition fit (graphs : Graphs) (Y : ndarray) : M unit :=
  setattr self_number_of_outputs 1 ;;
  setattr self_max_y None ;;
  setattr self_min_y None ;;
  T <- getattr self_T ;;
  let encoded_Y := astype_int32 (np_where_eq Y 1 T (- T)) in
  _fit graphs encoded_Y 100 false.

(** [self._score(graphs)[:,0]] *)
Definition score (graphs : Graphs) : M ndarray :=
  class_sums <- _score graphs ;;
  lift (column0 class_sums).

(** [score >= 0] *)
Definition predict (graphs : Graphs) : M ndarray :=
  score <- score graphs ;;
  ret (ge0 score).

End Methods.
End GraphTsetlinMachine.

(** ** A small backend and a small graph set

    A backend to run the methods on: its kernels are arithmetic on the
    buffers they are handed, new memory is non-zero, and every buffer a kernel
    produces carries its inputs into the class sums. *)
Module Toy.

Definition total (l : list Z) : Z := fold_right Z.add 0 l.

Definition backend : Backend := {|
  fresh_memory := fun k i => Z.of_nat (7 * k + i + 1);
  host_junk := fun i => Z.of_nat i + 5;
  kernel_prepare := fun P rng ta weights class_sum =>
    (map Z.succ rng,
     map (fun _ => 127) ta,
     imap (fun i _ => if Nat.even i then 1 else -1) weights,
     map (fun _ => 0) class_sum);
  kernel_prepare_message_ta_state := fun P msg_ta => map (fun _ => 127) msg_ta;
  kernel_calculate_messages := fun P ta n ni cur incl features =>
    (imap (fun i _ => total (take (ta_extent P) ta) + n + ni + total features + Z.of_nat i) cur,
     map (fun _ => total (take (ta_extent P) ta)) incl);
  kernel_prepare_messages := fun P n msg_int => map (fun _ => 0) msg_int;
  kernel_exchange_messages := fun P n hv cur ni ei nedges edges msg_int =>
    map (fun x => x + total hv + total cur + ni + ei + total nedges + total edges) msg_int;
  kernel_encode_messages := fun P n msg_int msg => map (fun _ => total msg_int + n) msg;
  kernel_calculate_messages_conditional := fun P msg_ta n cur nxt incl msg =>
    (imap (fun i _ => total msg_ta + total cur + total msg + total incl + Z.of_nat i) nxt,
     map Z.succ incl);
  kernel_evaluate := fun P cur weights n class_sum =>
    imap (fun k z => z + total cur * nth k weights 0 + n) class_sum;
  kernel_select_clause_node := fun P rng cur n clause_node =>
    (map Z.succ rng, map (fun _ => total cur + total rng) clause_node);
  kernel_select_clause_updates := fun P rng weights class_sum targets e clause_node updates =>
    (map Z.succ rng,
     imap (fun k z => z + nth k targets 0 - nth 0 class_sum 0) weights,
     map (fun _ => e + total clause_node) updates);
  kernel_update := fun P rng s ta n ni clause_node incl features updates =>
    (map Z.succ rng, map (fun z => z + total updates + total features) ta, incl);
  kernel_update_message := fun P rng s msg_ta n clause_node incl msg updates =>
    (map Z.succ rng, map (fun z => z + total updates + total msg) msg_ta, incl);
  kernel_transform := fun P cur n out => map (fun _ => total cur + n) out;
  kernel_transform_nodewise := fun P cur n out => imap (fun i _ => total cur + n + Z.of_nat i) out
|}.

(** Two graphs of two nodes each, every node with one outgoing edge. *)
Definition graphs : Graphs := {|
  hypervector_size := 2;
  number_of_graphs := 2;
  max_number_of_graph_nodes := 2;
  max_number_of_graph_node_chunks := 1;
  signature := Arr1 [42];
  X := Arr2 1 [[5]; [6]; [9]; [10]];
  number_of_graph_node_edges := Arr1 [1; 1; 1; 1];
  edge := Arr2 2 [[1; 0]; [0; 0]; [3; 0]; [2; 0]];
  number_of_graph_nodes := [2; 2]%nat;
  node_index := [0; 2]%nat;
  edge_index := [0; 1; 2; 3]%nat
|}.

(** The world a method leaves behind, and what it returned or raised. *)
Definition after {A} (m : M A) (w : world) : world := snd (m w).
Definition outcome {A} (m : M A) (w : world) : exn + A := fst (m w).

(** A process with a multi-class machine of three clauses, constructed with
    the given depth and hashing scheme. *)
Definition constructed (depth : nat) (double_hashing : bool) : world :=
  after (MultiClassGraphTsetlinMachine.__init__ 3 10 (inl 2.0%float)
           1.0%float None 1 8 depth 8 2 double_hashing)
        (boot [1; 2; 3] [3; 1; 4; 1; 5; 9; 2; 6]%nat).

(** The same machine after one call of [fit] with two epochs. *)
Definition trained (depth : nat) : world :=
  after (MultiClassGraphTsetlinMachine.fit (B := backend) graphs [0; 1] 2 false)
        (constructed depth false).

(** The machine right after its first [fit] set it up, no epoch run: every
    automaton and weight is as the [prepare] kernels leave it. *)
Definition fresh (depth : nat) : world :=
  after (MultiClassGraphTsetlinMachine.fit (B := backend) graphs [0; 1] 0 false)
        (constructed depth false).

(** The trained machine after a second, non-incremental [fit], stopped before
    its first epoch. *)
Definition refitted (depth : nat) : world :=
  after (MultiClassGraphTsetlinMachine.fit (B := backend) graphs [0; 1] 0 false)
        (trained depth).

(** A single-output machine, constructed and fitted. *)
Definition binary : world :=
  after (GraphTsetlinMachine.__init__ 3 10 (inl 2.0%float) 1.0%float None 1 8 2 8 2 false)
        (boot [1; 2; 3] [3; 1; 4; 1; 5; 9; 2; 6]%nat).

Definition trained_binary : world :=
  after (GraphTsetlinMachine.fit (B := backend) graphs (Arr1 [0; 1])) binary.

End Toy.

(** * Specifications *)

(** A method returns from every world that satisfies [P], with a result and
    a world that satisfy [Q]. *)
Definition returns {A} (P : world -> Prop) (m : M A) (Q : A -> world -> Prop) : Prop :=
  forall w, P w -> exists a w', m w = (inr a, w') /\ Q a w'.

(** ** The hypervector table *)

(** The row the double-hashing branch writes for clause [i]. *)
Definition double_hashing_row (message_size prime i : nat) : list Z :=
  [to_uint32 (Z.of_nat (i mod message_size));
   to_uint32 (Z.of_nat message_size + Z.of_nat prime - Z.of_nat (i mod prime))].

(** A row of [bits] pairwise-distinct positions. *)
Definition distinct_row (bits : nat) (row : list Z) : Prop :=
  length row = bits /\ NoDup row.

(** A row whose positions all lie in [[0, message_size)]. *)
Definition in_range_row (message_size : nat) (row : list Z) : Prop :=
  Forall (fun x => 0 <= x < Z.of_nat message_size) row.

(** When the constructor runs to its end. *)
Definition constructible (number_of_clauses message_size message_bits : nat)
    (double_hashing : bool) : Prop :=
  if double_hashing then (3 <= message_size)%nat
  else number_of_clauses = 0%nat \/ (message_bits <= message_size)%nat.

(** The constructors of the three subclasses run the common one and then set
    [negative_clauses]. *)
Definition labelled (w : world) : world :=
  with_self (object_set self_negative_clauses 1) w.

(** ** Label codecs *)

(** [a[e, i]] of a rank-two array and [a[e]] of a rank-one array. *)
Definition entry2 (a : ndarray) (e i : nat) : option Z :=
  match a with
  | Arr2 _ rows => row ← rows !! e; row !! i
  | Arr1 _ => None
  end.

Definition entry1 (a : ndarray) (e : nat) : option Z :=
  match a with
  | Arr1 v => v !! e
  | Arr2 _ _ => None
  end.

(** The target of one output: [+T] on a hit, [-T] otherwise. *)
Definition target (T : Z) (hit : bool) : Z := if hit then T else - T.

(** [T] and [-T] are [np.int32] values. *)
Definition fits_int32 (T : Z) : Prop := - 2 ^ 31 < T < 2 ^ 31.

(** The world [MultiClassGraphTsetlinMachine.fit] hands to [_fit]: the output
    count and the two label bounds are assigned. *)
Definition with_outputs (outputs : Z) (w : world) : world :=
  with_self (object_set self_min_y None)
    (with_self (object_set self_max_y None)
       (with_self (object_set self_number_of_outputs outputs) w)).

(** [i] is the position [np.argmax] reports for [row]: the first one that
    holds the largest element. *)
Definition first_maximum (row : list Z) (i : Z) : Prop :=
  exists m, row !! Z.to_nat i = Some m /\ 0 <= i /\
            Forall (fun x => x <= m) row /\
            forall j x, (j < Z.to_nat i)%nat -> row !! j = Some x -> x < m.

(** The line [_score_init] prints before it exits. *)
Definition not_trained (w : world) : world :=
  with_stdout (fun out => out ++ ["Error: Model not trained."%string]) w.

(** ** Frames *)

(** [m] keeps [P]: whatever it returns or raises, the world it leaves
    satisfies [P] if the world it started in did. *)
Definition keeps {A} (P : world -> Prop) (m : M A) : Prop :=
  forall w, P w -> P (snd (m w)).

Definition attr_is (a : attr) (v : attr_type a) (w : world) : Prop := self w a = Some v.

Definition buffer_is (p : dptr) (buf : list Z) (w : world) : Prop := gpu w p = Some buf.

(** ** Device effects *)

(** What [kernel_store] leaves in a buffer that held [old]. *)
Definition stored (old new : list Z) : list Z := map to_uint32 (resize (length old) 0 new).

(** The device after a store through [p]. *)
Definition store_at (p : dptr) (new : list Z) (g : device) : device :=
  match g p with
  | Some old => <[p := Some (stored old new)]> g
  | None => g
  end.

(** The world after a launch of [k] on [args] that stored [writes], in
    order. *)
Definition launched (k : kernel) (args : list dptr) (writes : list (dptr * list Z))
    (w : world) : world :=
  with_gpu (fun g => fold_left (fun g pn => store_at (fst pn) (snd pn) g) writes g)
    (with_stream (fun q => q ++ [Launch k args]) w).

Definition allocated (w : world) (p : dptr) : Prop := is_Some (gpu w p).

(** The extent of a buffer, in words. *)
Definition extent (w : world) (p : dptr) : option nat := length <$> gpu w p.

(** Two worlds with the same object and the same buffers, up to what the
    buffers hold. *)
Definition same_layout (w w' : world) : Prop :=
  self w' = self w /\ forall p, extent w' p = extent w p.

(** A launch on allocated buffers returns, keeps the layout and joins the
    stream. *)
Definition launches (m : M unit) (w : world) (k : kernel) (args : list dptr) : Prop :=
  exists w', m w = (inr tt, w') /\ same_layout w w' /\
             stream w' = stream w ++ [Launch k args].

(** ** One evaluation pass *)

(** The buffers the local variables [current_clause_node_output] and
    [next_clause_node_output] of [_evaluate] point at after [k] rounds, given
    the two buffers the caller handed over. *)
Definition current_after (k : nat) (cur nxt : dptr) : dptr :=
  if Nat.even k then cur else nxt.

Definition next_after (k : nat) (cur nxt : dptr) : dptr :=
  if Nat.even k then nxt else cur.

(** The launches of one message round: it reads [cur] and writes [nxt]. *)
Definition round_launches (cur nxt nedges edge msg_int msg msg_ta : dptr) : list launch :=
  [Launch Kprepare_messages [msg_int];
   Launch Kexchange_messages [hypervectors_gpu; cur; nedges; edge; msg_int];
   Launch Kencode_messages [msg_int; msg];
   Launch Kcalculate_messages_conditional
     [msg_ta; cur; nxt; number_of_include_actions; msg]].

Definition rounds_launches (rounds : nat) (cur nxt nedges edge msg_int : dptr)
    (clause_X msg_tas : list dptr) : list launch :=
  concat (map (fun k => round_launches (current_after k cur nxt) (next_after k cur nxt)
                          nedges edge msg_int
                          (nth k clause_X class_sum_gpu) (nth k msg_tas class_sum_gpu))
              (seq 0 rounds)).

(** The launches of one evaluation pass with [rounds] message rounds. *)
Definition evaluation_launches (rounds : nat) (cur nxt nedges edge msg_int : dptr)
    (clause_X msg_tas : list dptr) (features : dptr) : list launch :=
  Launch Kcalculate_messages [ta_state_gpu; cur; number_of_include_actions; features]
  :: rounds_launches rounds cur nxt nedges edge msg_int clause_X msg_tas
  ++ [Launch Kevaluate [current_after rounds cur nxt; clause_weights_gpu; class_sum_gpu]].

Definition is_round (l : launch) : bool :=
  match kernel_of l with
  | Kcalculate_messages_conditional => true
  | _ => false
  end.

(** What [_evaluate] needs of the world: the kernels are compiled, the
    buffers it is handed and the model's own are allocated, the class-sum
    buffer has room for the outputs, and there is a message buffer and an
    automaton buffer for every round. *)
Definition evaluable (w : world) (depth : nat) (msg_tas : list dptr)
    (cur nxt nedges edge msg_int : dptr) (clause_X : list dptr) (features : dptr) : Prop :=
  is_Some (self w self_kernels) /\
  self w self_depth = Some depth /\
  (exists outputs len,
      self w self_number_of_outputs = Some outputs /\ 0 <= outputs /\
      extent w class_sum_gpu = Some len /\ (Z.to_nat outputs <= len)%nat) /\
  self w self_message_ta_state_gpu = Some msg_tas /\
  (depth - 1 <= length msg_tas)%nat /\ (depth - 1 <= length clause_X)%nat /\
  Forall (allocated w) msg_tas /\ Forall (allocated w) clause_X /\
  Forall (allocated w)
    [ta_state_gpu; cur; nxt; number_of_include_actions; features; hypervectors_gpu;
     nedges; edge; msg_int; clause_weights_gpu; class_sum_gpu].

(** ** Scoring *)

(** A rank-two array whose rows all have the declared width has as many
    elements as its shape says. *)
Definition well_formed (a : ndarray) : Prop := length (ravel a) = size a.

(** A graph set [_score] can run on: its arrays are non-empty and
    rectangular, and the index arrays cover every example. *)
Definition graphs_ok (g : Graphs) : Prop :=
  well_formed (X g) /\ well_formed (number_of_graph_node_edges g) /\
  well_formed (edge g) /\
  (0 < size (X g))%nat /\ (0 < size (number_of_graph_node_edges g))%nat /\
  (0 < max_number_of_graph_nodes g)%nat /\ (0 < max_number_of_graph_node_chunks g)%nat /\
  forall e, (e < number_of_graphs g)%nat ->
    exists n ni ei,
      number_of_graph_nodes g !! e = Some n /\ node_index g !! e = Some ni /\
      edge_index g !! ni = Some ei.

(** The shape attributes of an initialized model. *)
Record layout := {
  L_kernels : params;
  L_depth : nat;
  L_outputs : Z;
  L_clauses : nat;
  L_message_literals : nat;
  L_message_chunks : nat
}.

(** The buffers of the message automata, one per round. *)
Definition message_ta_buffers (L : layout) : list dptr :=
  map message_ta_state_gpu (seq 0 (L_depth L - 1)).

(** The message buffers of the test side, one per round. *)
Definition clause_X_test_buffers (L : layout) : list dptr :=
  map clause_X_test_gpu (seq 0 (L_depth L - 1)).

(** What [_init] and [allocate_gpu_memory] leave: the model is initialized,
    its shape attributes are set, and its own buffers are allocated, the
    class-sum buffer with one word per output. *)
Definition model_ready (L : layout) (w : world) : Prop :=
  self w self_initialized = Some true /\
  self w self_kernels = Some (L_kernels L) /\
  self w self_depth = Some (L_depth L) /\
  self w self_number_of_outputs = Some (L_outputs L) /\ 0 <= L_outputs L /\
  self w self_number_of_clauses = Some (L_clauses L) /\ (0 < L_clauses L)%nat /\
  self w self_number_of_message_literals = Some (L_message_literals L) /\
  (0 < L_message_literals L)%nat /\
  self w self_number_of_message_chunks = Some (L_message_chunks L) /\
  (0 < L_message_chunks L)%nat /\
  self w self_message_ta_state_gpu = Some (message_ta_buffers L) /\
  Forall (allocated w) (message_ta_buffers L) /\
  Forall (allocated w)
    [ta_state_gpu; number_of_include_actions; hypervectors_gpu; clause_weights_gpu] /\
  extent w class_sum_gpu = Some (Z.to_nat (L_outputs L)).

(** What [_score_init] leaves on the test side for the graph set [g]. *)
Definition test_buffers (L : layout) (g : Graphs) (w : world) : Prop :=
  gpu w encoded_X_test_gpu = Some (map to_uint32 (ravel (X g))) /\
  extent w current_clause_node_output_test_gpu
  = Some (L_clauses L * max_number_of_graph_node_chunks g)%nat /\
  extent w next_clause_node_output_test_gpu
  = Some (L_clauses L * max_number_of_graph_node_chunks g)%nat /\
  extent w clause_X_int_test_gpu
  = Some (max_number_of_graph_nodes g * L_message_literals L)%nat /\
  self w self_clause_X_test_gpu = Some (clause_X_test_buffers L) /\
  (forall k, (k < L_depth L - 1)%nat ->
     extent w (clause_X_test_gpu k)
     = Some (max_number_of_graph_nodes g * L_message_chunks L)%nat) /\
  gpu w number_of_graph_node_edges_test_gpu
  = Some (map to_uint32 (ravel (number_of_graph_node_edges g))) /\
  gpu w edge_test_gpu = Some (map to_uint32 (ravel (edge g))).

(** A world [score] can run in: the model is ready, the graph set is fine,
    and when the test side is already bound to the graph set (by its
    signature) it holds that set's buffers. *)
Definition scorable (L : layout) (g : Graphs) (w : world) : Prop :=
  model_ready L w /\ graphs_ok g /\
  exists sig,
    self w self_graphs_signature_test = Some sig /\
    (array_equal sig (signature g) = true -> test_buffers L g w).

(** The buffers of the model that scoring reads and never reallocates. *)
Definition model_buffer (p : dptr) : Prop :=
  match p with
  | ta_state_gpu | message_ta_state_gpu _ | clause_weights_gpu | class_sum_gpu
  | number_of_include_actions | hypervectors_gpu | g_state => True
  | _ => False
  end.

(** The attributes scoring assigns. *)
Definition test_attribute (a : attr) : Prop :=
  a = self_graphs_signature_test \/ a = self_clause_X_test_gpu.

(** The values of [np.int32]. *)
Definition is_int32 (x : Z) : Prop := - 2 ^ 31 <= x < 2 ^ 31.

(** A rank-two [np.int32] array of [r] rows, all of width [c]. *)
Definition matrix (r c : nat) (a : ndarray) : Prop :=
  exists rows,
    a = Arr2 c rows /\ length rows = r /\
    Forall (fun row => length row = c /\ Forall is_int32 row) rows.

(** A rank-one [np.int32] array of [n] entries. *)
Definition vector (n : nat) (a : ndarray) : Prop :=
  exists v, a = Arr1 v /\ length v = n /\ Forall is_int32 v.

(** [w'] differs from [w] on the device at most in the buffers that satisfy
    [touched]; the object is the same. *)
Definition touches (touched : dptr -> Prop) (w w' : world) : Prop :=
  self w' = self w /\ forall q, ~ touched q -> gpu w' q = gpu w q.

(** What [_score_init] may change: the two test attributes and the test
    buffers.  The other attributes, the model's own buffers and the stream
    are as before. *)
Definition rebinds (w w' : world) : Prop :=
  (forall a, ~ test_attribute a -> self w' a = self w a) /\
  (forall p, model_buffer p -> gpu w' p = gpu w p) /\
  stream w' = stream w.

(** What the loop of [_score] needs of the world, all of it layout. *)
Definition score_ready (L : layout) (w : world) : Prop :=
  evaluable w (L_depth L) (message_ta_buffers L)
    current_clause_node_output_test_gpu next_clause_node_output_test_gpu
    number_of_graph_node_edges_test_gpu edge_test_gpu clause_X_int_test_gpu
    (clause_X_test_buffers L) encoded_X_test_gpu /\
  self w self_clause_X_test_gpu = Some (clause_X_test_buffers L) /\
  self w self_number_of_outputs = Some (L_outputs L) /\ 0 <= L_outputs L /\
  extent w class_sum_gpu = Some (Z.to_nat (L_outputs L)).

(** The shape attributes of the toy machine [Toy.trained 2]. *)
Definition trained_layout : layout := {|
  L_kernels := {| CLASSES := 2; CLAUSES := 3; LITERALS := 4; STATE_BITS := 8;
                  BOOST_TRUE_POSITIVE_FEEDBACK := 1; THRESHOLD := 10; Q := 1.0%float;
                  MAX_INCLUDED_LITERALS := 4; NEGATIVE_CLAUSES := 1; MAX_NODES := 2;
                  MESSAGE_SIZE := 8; MESSAGE_BITS := 2 |};
  L_depth := 2;
  L_outputs := 2;
  L_clauses := 3;
  L_message_literals := 16;
  L_message_chunks := 1
|}.

(** ** Two runs side by side

    The round trip is settled by running [score] in two worlds at once.  *)

(** Modelled from the spec: [kernels.py] is not among the sources, so what a
    kernel reads is taken from the specification.  The clause evaluator
    reads the automaton state of the surface layer, the [CLAUSES * TA_CHUNKS
    * STATE_BITS] words at the start of [ta_state], and writes the node
    outputs and the include counts anew (section 4.2; the round buffers are
    never retained across examples, section 3).  Of the message engine
    (section 4.3), prepare clears the accumulator, encode packs the
    accumulator into the message literals, and the conditional evaluation
    writes the alternate buffer: none of them reads what it overwrites. *)
Record kernel_frames `{B : Backend} (P : params) : Prop := {
  frame_calculate_messages :
    forall ta ta' n ni c c' i i' x,
      take (ta_extent P) ta = take (ta_extent P) ta' ->
      length c = length c' -> length i = length i' ->
      kernel_calculate_messages P ta n ni c i x
      = kernel_calculate_messages P ta' n ni c' i' x;
  frame_prepare_messages :
    forall n m m',
      length m = length m' ->
      kernel_prepare_messages P n m = kernel_prepare_messages P n m';
  frame_encode_messages :
    forall n m x x',
      length x = length x' ->
      kernel_encode_messages P n m x = kernel_encode_messages P n m x';
  frame_calculate_messages_conditional :
    forall a n c x x' i m,
      length x = length x' ->
      kernel_calculate_messages_conditional P a n c x i m
      = kernel_calculate_messages_conditional P a n c x' i m
}.

(** The two worlds hold the same words behind [q]. *)
Definition agrees (wA wB : world) (q : dptr) : Prop := gpu wB q = gpu wA q.

(** The two worlds hold buffers of the same extent behind [q]. *)
Definition aligned (wA wB : world) (q : dptr) : Prop := extent wB q = extent wA q.

(** The two worlds hold the same first [n] words behind [q]. *)
Definition agrees_upto (n : nat) (wA wB : world) (q : dptr) : Prop :=
  exists a b,
    gpu wA q = Some a /\ gpu wB q = Some b /\
    (n <= length a)%nat /\ (n <= length b)%nat /\ take n a = take n b.

(** Two worlds in which the same kernels run on the same surface automata,
    the buffers of [reads] hold the same words and the buffers of [writes]
    have the same extents. *)
Definition synced (P : params) (reads writes : list dptr) (wA wB : world) : Prop :=
  self wA self_kernels = Some P /\ self wB self_kernels = Some P /\
  agrees_upto (ta_extent P) wA wB ta_state_gpu /\
  Forall (fun q => allocated wA q /\ agrees wA wB q) reads /\
  Forall (fun q => allocated wA q /\ aligned wA wB q) writes.

(** Both runs kept their layout and wrote at most the buffers of [W]. *)
Definition in_step (W : list dptr) (wA wB wA' wB' : world) : Prop :=
  same_layout wA wA' /\ same_layout wB wB' /\
  (forall q, ~ In q W -> gpu wA' q = gpu wA q) /\
  (forall q, ~ In q W -> gpu wB' q = gpu wB q).

(** The buffers one evaluation pass reads without writing them, and the
    ones it writes. *)
Definition pass_reads (nedges edge : dptr) (msg_tas : list dptr) (features : dptr)
  : list dptr :=
  [features; hypervectors_gpu; nedges; edge; clause_weights_gpu] ++ msg_tas.

Definition pass_writes (cur nxt msg_int : dptr) (clause_X : list dptr) : list dptr :=
  [cur; nxt; msg_int; number_of_include_actions; class_sum_gpu] ++ clause_X.

(** The attributes one evaluation pass reads. *)
Definition pass_attributes (depth : nat) (outputs : Z) (msg_tas : list dptr) (w : world)
  : Prop :=
  self w self_depth = Some depth /\
  self w self_number_of_outputs = Some outputs /\ 0 <= outputs /\
  self w self_message_ta_state_gpu = Some msg_tas /\
  extent w class_sum_gpu = Some (Z.to_nat outputs).

(** The buffers a pass on the test side reads, and the ones it writes. *)
Definition test_reads (L : layout) : list dptr :=
  pass_reads number_of_graph_node_edges_test_gpu edge_test_gpu (message_ta_buffers L)
    encoded_X_test_gpu.

Definition test_writes (L : layout) : list dptr :=
  pass_writes current_clause_node_output_test_gpu next_clause_node_output_test_gpu
    clause_X_int_test_gpu (clause_X_test_buffers L).

(** ** Export and import of the state *)

(** The words a device buffer holds. *)
Definition is_uint32 (x : Z) : Prop := 0 <= x < 2 ^ 32.

(** What [get_state] and [set_state] need of a model with the shape [L]: the
    attributes of the exported tuple are assigned; the automaton buffer has
    the [number_of_clauses * number_of_ta_chunks * number_of_state_bits]
    words [get_state] reads, which cover what the kernels address; the
    weight buffer has one word per output and clause; and the host copies
    [get_state] caches are either empty, as [_fit] and [set_state] leave
    them, or what an earlier [get_state] read from these buffers. *)
Definition exportable (L : layout) (w : world) : Prop :=
  (1 <= L_depth L)%nat /\ 0 < L_outputs L /\
  exists nl tc sb lo hi ta_cache cw_cache ta wts,
    self w self_number_of_literals = Some nl /\
    self w self_number_of_ta_chunks = Some tc /\
    self w self_number_of_state_bits = Some sb /\
    self w self_min_y = Some lo /\ self w self_max_y = Some hi /\
    self w self_ta_state = Some ta_cache /\
    self w self_clause_weights = Some cw_cache /\
    gpu w ta_state_gpu = Some ta /\ gpu w clause_weights_gpu = Some wts /\
    (0 < L_clauses L * tc * sb)%nat /\
    (ta_extent (L_kernels L) <= L_clauses L * tc * sb)%nat /\
    (L_clauses L * tc * sb <= length ta)%nat /\
    length wts = Z.to_nat (L_outputs L * Z.of_nat (L_clauses L)) /\
    Forall is_uint32 (take (L_clauses L * tc * sb) ta) /\ Forall is_uint32 wts /\
    (array_equal cw_cache np_array_nil = false ->
     ravel ta_cache = map to_uint32 (take (L_clauses L * tc * sb) ta) /\
     ravel cw_cache = map to_int32 wts).

(** A trained model that can score the graph set [g]. *)
Definition trained (L : layout) (g : Graphs) (w : world) : Prop :=
  scorable L g w /\ exportable L w.

(** The tuple [get_state] returns for the model in [w]: the automaton words
    as [np.uint32], the weights as [np.int32], and the shape attributes. *)
Definition snapshot_of (L : layout) (w : world) (st : state) : Prop :=
  exists nl tc sb lo hi ta wts,
    self w self_number_of_literals = Some nl /\
    self w self_number_of_ta_chunks = Some tc /\
    self w self_number_of_state_bits = Some sb /\
    self w self_min_y = Some lo /\ self w self_max_y = Some hi /\
    gpu w ta_state_gpu = Some ta /\ gpu w clause_weights_gpu = Some wts /\
    ravel (state_0 st) = map to_uint32 (take (L_clauses L * tc * sb) ta) /\
    ravel (state_1 st) = map to_int32 wts /\
    state_2 st = L_outputs L /\ state_3 st = L_clauses L /\ state_4 st = nl /\
    state_5 st = L_depth L /\ state_6 st = sb /\ state_7 st = tc /\
    state_8 st = lo /\ state_9 st = hi.

(** ** What a run writes *)

(** [w'] has the layout of [w] and differs from it on the device at most in
    the buffers of [W]. *)
Definition writes_within (W : list dptr) (w w' : world) : Prop :=
  same_layout w w' /\ forall q, ~ In q W -> gpu w' q = gpu w q.

(** The learned state of a model on the device: the automata of both layers,
    the weights, the hypervectors and the generator state. *)
Definition learned (p : dptr) : Prop :=
  match p with
  | ta_state_gpu | message_ta_state_gpu _ | clause_weights_gpu | hypervectors_gpu
  | g_state => True
  | _ => False
  end.

(** A state tuple for a machine of depth 2 with three clauses, four
    literals and two outputs. *)
Definition toy_state : state := {|
  state_0 := Arr1 (replicate 24 127);
  state_1 := Arr1 [1; -1; 1; -1; 1; -1];
  state_2 := 2;
  state_3 := 3%nat;
  state_4 := 4%nat;
  state_5 := 2%nat;
  state_6 := 8%nat;
  state_7 := 1%nat;
  state_8 := None;
  state_9 := None
|}.

(** ** The actions of the automata *)

(** Where [ta_action] finds automaton [ta] of [clause]: in the flat array of
    [clauses * chunks * state_bits] words, the word of the last state bit of
    chunk [ta // 32]. *)
Definition action_word (chunks state_bits : nat) (clause ta : Z) : nat :=
  ((Z.to_nat clause * chunks + Z.to_nat (ta / 32)) * state_bits + (state_bits - 1))%nat.

(** The words [ta_action] answers from for the surface layer: the host copy
    when there is one, an [np.uint32] array of [n] elements, and otherwise
    the first [n] words of the device buffer. *)
Definition surface_words (w : world) (n : nat) (ws : list Z) : Prop :=
  exists cached,
    self w self_ta_state = Some cached /\
    ((array_equal cached np_array_nil = true /\
      exists buf, gpu w ta_state_gpu = Some buf /\ (n <= length buf)%nat /\
                  ws = map to_uint32 (take n buf)) \/
     (array_equal cached np_array_nil = false /\ size cached = n /\
      length (ravel cached) = n /\ Forall is_uint32 (ravel cached) /\
      ravel cached = ws)).

(** The matrix [get_hyperliterals] builds from the words [ws]: one row per
    clause, one entry per automaton, the entry being the bit of the
    automaton in the word of the last state bit of its chunk. *)
Definition hyperliterals_of (clauses chunks state_bits width : nat) (ws : list Z)
  : list (list bool) :=
  map (fun clause =>
         map (fun ta => Z.testbit (nth (action_word chunks state_bits (Z.of_nat clause)
                                          (Z.of_nat ta)) ws 0) (Z.of_nat ta mod 32))
             (seq 0 width))
      (seq 0 clauses).

(** ** Training *)

(** The message buffers of the training side, one per round. *)
Definition clause_X_train_buffers (L : layout) : list dptr :=
  map clause_X_train_gpu (seq 0 (L_depth L - 1)).

(** The buffers training writes: those of an evaluation pass on the training
    side, the generator state, the selections, the weights and the automata
    of every layer. *)
Definition train_writes (L : layout) : list dptr :=
  pass_writes current_clause_node_output_train_gpu next_clause_node_output_train_gpu
    clause_X_int_train_gpu (clause_X_train_buffers L)
  ++ [g_state; clause_node_gpu; clause_weights_gpu; class_clause_update_gpu; ta_state_gpu]
  ++ message_ta_buffers L.

(** The launches of [_fit] for one example: an evaluation pass, the two
    selections, the update of the surface automata and one update per
    message layer. *)
Definition step_launches (L : layout) : list launch :=
  evaluation_launches (L_depth L - 1)
    current_clause_node_output_train_gpu next_clause_node_output_train_gpu
    number_of_graph_node_edges_train_gpu edge_train_gpu clause_X_int_train_gpu
    (clause_X_train_buffers L) (message_ta_buffers L) encoded_X_train_gpu
  ++ [Launch Kselect_clause_node
        [g_state;
         current_after (L_depth L - 1) current_clause_node_output_train_gpu
           next_clause_node_output_train_gpu;
         clause_node_gpu];
      Launch Kselect_clause_updates
        [g_state; clause_weights_gpu; class_sum_gpu; encoded_Y_gpu; clause_node_gpu;
         class_clause_update_gpu];
      Launch Kupdate
        [g_state; ta_state_gpu; clause_node_gpu; number_of_include_actions;
         encoded_X_train_gpu; class_clause_update_gpu]]
  ++ map (fun d => Launch Kupdate_message
                     [g_state; message_ta_state_gpu d; clause_node_gpu;
                      number_of_include_actions; clause_X_train_gpu d;
                      class_clause_update_gpu])
         (seq 0 (L_depth L - 1)).

(** What [_init_fit] launches on a model that is initialized already. *)
Definition refit_launches (incremental : bool) : list launch :=
  if incremental then []
  else [Launch Kprepare [g_state; ta_state_gpu; clause_weights_gpu; class_sum_gpu]].

(** A model that an earlier [_fit] initialized and bound to the graph set
    [g] and the targets [encoded_Y]: the signature and the targets are the
    cached ones, the buffers of the training side and the model's own are
    allocated, and there is a specificity for every layer. *)
Definition fit_ready (L : layout) (g : Graphs) (encoded_Y : ndarray) (w : world) : Prop :=
  self w self_initialized = Some true /\
  (exists sig, self w self_graphs_signature_train = Some sig /\
               array_equal sig (signature g) = true) /\
  (exists y, self w self_encoded_Y = Some y /\ array_equal y encoded_Y = true) /\
  graphs_ok g /\
  evaluable w (L_depth L) (message_ta_buffers L)
    current_clause_node_output_train_gpu next_clause_node_output_train_gpu
    number_of_graph_node_edges_train_gpu edge_train_gpu clause_X_int_train_gpu
    (clause_X_train_buffers L) encoded_X_train_gpu /\
  self w self_clause_X_train_gpu = Some (clause_X_train_buffers L) /\
  (exists s, self w self_s = Some s /\ (1 <= length s)%nat /\ (L_depth L <= length s)%nat) /\
  Forall (allocated w) [g_state; clause_node_gpu; encoded_Y_gpu; class_clause_update_gpu].

(** [w'] has the layout of [w], differs from it on the device at most in the
    buffers of [W], and its stream is that of [w] followed by [launches]. *)
Definition advanced (W : list dptr) (launches : list launch) (w w' : world) : Prop :=
  writes_within W w w' /\ stream w' = stream w ++ launches.

(** ** The first fit *)

(** The launches of [_init_fit] on a model that is not initialized:
    [prepare], and [prepare_message_ta_state] for every message layer. *)
Definition first_launches (L : layout) : list launch :=
  Launch Kprepare [g_state; ta_state_gpu; clause_weights_gpu; class_sum_gpu]
  :: map (fun d => Launch Kprepare_message_ta_state [message_ta_state_gpu d])
         (seq 0 (L_depth L - 1)).

(** A machine as its constructor and the first lines of [fit] leave it,
    about to be fitted to the graph set [g] and the targets [encoded_Y] for
    the first time.  The shape [L] is the one [_init] will derive from the
    attributes and the graph set. *)
Definition fittable (L : layout) (g : Graphs) (encoded_Y : ndarray) (w : world) : Prop :=
  self w self_initialized = Some false /\
  self w self_depth = Some (L_depth L) /\
  self w self_number_of_outputs = Some (L_outputs L) /\ 0 < L_outputs L /\
  self w self_number_of_clauses = Some (L_clauses L) /\ (0 < L_clauses L)%nat /\
  (exists sb boost T q mil neg mb ms hv s,
      self w self_number_of_state_bits = Some sb /\ (0 < sb)%nat /\
      self w self_boost_true_positive_feedback = Some boost /\
      self w self_T = Some T /\ self w self_q = Some q /\
      self w self_max_included_literals = Some mil /\
      self w self_negative_clauses = Some neg /\
      self w self_message_bits = Some mb /\
      self w self_message_size = Some ms /\ (0 < ms)%nat /\
      self w self_message_literals = Some (ms * 2)%nat /\
      self w self_hypervectors = Some hv /\ well_formed hv /\ (0 < size hv)%nat /\
      self w self_s = Some s /\ (1 <= length s)%nat /\ (L_depth L <= length s)%nat /\
      L_message_literals L = (ms * 2)%nat /\ L_message_chunks L = chunks (ms * 2) /\
      L_kernels L
      = {| CLASSES := L_outputs L; CLAUSES := L_clauses L;
           LITERALS := (hypervector_size g * 2)%nat; STATE_BITS := sb;
           BOOST_TRUE_POSITIVE_FEEDBACK := boost; THRESHOLD := T; Q := q;
           MAX_INCLUDED_LITERALS :=
             match mil with Some m => m | None => (hypervector_size g * 2)%nat end;
           NEGATIVE_CLAUSES := neg; MAX_NODES := max_number_of_graph_nodes g;
           MESSAGE_SIZE := ms; MESSAGE_BITS := mb |}) /\
  self w self_graphs_signature_train = Some np_array_nil /\
  self w self_graphs_signature_test = Some np_array_nil /\
  self w self_encoded_Y = Some np_array_nil /\
  array_equal np_array_nil (signature g) = false /\
  array_equal np_array_nil encoded_Y = false /\
  well_formed encoded_Y /\ (0 < size encoded_Y)%nat /\
  graphs_ok g /\ (0 < hypervector_size g)%nat /\
  allocated w g_state.

(** The shape [_init] derives for a machine constructed with these arguments
    ([message_bits] being the value the constructor kept) once [fit] has set
    the output count and named the graph set. *)
Definition constructed_layout (number_of_clauses : nat) (T : Z) (q : float)
    (max_included_literals : option nat) (boost_true_positive_feedback : Z)
    (number_of_state_bits depth message_size message_bits : nat)
    (g : Graphs) (outputs : Z) : layout :=
  {| L_kernels :=
       {| CLASSES := outputs; CLAUSES := number_of_clauses;
          LITERALS := (hypervector_size g * 2)%nat; STATE_BITS := number_of_state_bits;
          BOOST_TRUE_POSITIVE_FEEDBACK := boost_true_positive_feedback; THRESHOLD := T;
          Q := q;
          MAX_INCLUDED_LITERALS :=
            match max_included_literals with
            | Some m => m
            | None => (hypervector_size g * 2)%nat
            end;
          NEGATIVE_CLAUSES := 1; MAX_NODES := max_number_of_graph_nodes g;
          MESSAGE_SIZE := message_size; MESSAGE_BITS := message_bits |};
     L_depth := depth; L_outputs := outputs; L_clauses := number_of_clauses;
     L_message_literals := (message_size * 2)%nat;
     L_message_chunks := chunks (message_size * 2) |}.


(** * Verification *)

(** ** Running a method *)

Lemma bind_ok {A B} (m : M A) (f : A -> M B) w a w' :
  m w = (inr a, w') -> bind m f w = f a w'.
Proof. unfold bind. intros ->. reflexivity. Qed.

Lemma bind_err {A B} (m : M A) (f : A -> M B) w e w' :
  m w = (inl e, w') -> bind m f w = (inl e, w').
Proof. unfold bind. intros ->. reflexivity. Qed.

(** A method that returned went through every statement before its last. *)
Lemma bind_inv {A B} (m : M A) (f : A -> M B) w b w' :
  bind m f w = (inr b, w') ->
  exists a w1, m w = (inr a, w1) /\ f a w1 = (inr b, w').
Proof.
  unfold bind. destruct (m w) as [[e|a] w1]; intros H; [discriminate|].
  exists a, w1. split; [reflexivity|exact H].
Qed.

Lemma getattr_ok a v w : self w a = Some v -> getattr a w = (inr v, w).
Proof. unfold getattr. intros ->. reflexivity. Qed.

Lemma object_set_eq a v o : object_set a v o a = Some v.
Proof.
  unfold object_set. destruct (attr_eq_dec a a) as [e|n]; [|congruence].
  rewrite (UIP_dec attr_eq_dec e eq_refl). reflexivity.
Qed.

Lemma object_set_ne a b v o : a <> b -> object_set a v o b = o b.
Proof. unfold object_set. destruct (attr_eq_dec a b); congruence. Qed.

Lemma bind_assoc {A B C} (m : M A) (f : A -> M B) (g : B -> M C) w :
  bind (bind m f) g w = bind m (fun x => bind (f x) g) w.
Proof. unfold bind. destruct (m w) as [[e|a] w1]; reflexivity. Qed.

Lemma bind_getattr {B} a v (f : attr_type a -> M B) w :
  self w a = Some v -> bind (getattr a) f w = f v w.
Proof. intros H. apply bind_ok, getattr_ok, H. Qed.

Lemma bind_lift {A B} (r : exn + A) a (f : A -> M B) w :
  r = inr a -> bind (lift r) f w = f a w.
Proof. intros ->. reflexivity. Qed.

Ltac world_cbn :=
  cbn [self gpu allocations stream np_random stdout
       with_self with_gpu with_allocations with_stream with_np_random with_stdout
       object_set attr_eq_dec attr_rec attr_rect eq_rect].

Ltac run_cbn :=
  cbn [bind ret raise lift getattr setattr print sys_exit synchronize
       self gpu allocations stream np_random stdout
       with_self with_gpu with_allocations with_stream with_np_random with_stdout
       object_set attr_eq_dec attr_rec attr_rect eq_rect negb].

(** Reads an attribute off a world built by assignments on top of one the
    context describes. *)
Ltac attr := world_cbn; first [reflexivity | eassumption].

Ltac step :=
  first [ rewrite bind_assoc
        | erewrite bind_getattr by attr
        | erewrite bind_lift by eassumption
        | progress run_cbn ].

Ltac run := repeat step.

(** [for x in l] with an invariant indexed by the number of rounds done. *)
Lemma for_each_returns {A} (I : nat -> world -> Prop) (l : list A) body :
  (forall k x w, l !! k = Some x -> I k w ->
     exists w', body x w = (inr tt, w') /\ I (S k) w') ->
  forall w, I 0%nat w -> exists w', for_each l body w = (inr tt, w') /\ I (length l) w'.
Proof.
  revert I. induction l as [|x l IH]; intros I Hbody w Hw.
  - exists w. split; [reflexivity|exact Hw].
  - destruct (Hbody 0%nat x w eq_refl Hw) as (w1 & E1 & H1).
    destruct (IH (fun k => I (S k)) (fun k y => Hbody (S k) y) w1 H1) as (w2 & E2 & H2).
    exists w2. split; [|exact H2].
    cbn [for_each]. rewrite (bind_ok _ _ _ _ _ E1). exact E2.
Qed.

Lemma for_range_returns (I : nat -> world -> Prop) n body :
  (forall i w, (i < n)%nat -> I i w -> exists w', body i w = (inr tt, w') /\ I (S i) w') ->
  forall w, I 0%nat w -> exists w', for_range n body w = (inr tt, w') /\ I n w'.
Proof.
  intros Hbody w Hw. unfold for_range.
  destruct (for_each_returns I (seq 0 n) body) with (w := w) as (w' & E & H); [|exact Hw|].
  - intros k x w0 Hk. apply lookup_seq in Hk as [-> Hk]. apply Hbody. exact Hk.
  - rewrite length_seq in H. exists w'. split; assumption.
Qed.

Lemma for_each_with_returns {A S} (I : nat -> S -> world -> Prop) (l : list A) body :
  (forall k x s w, l !! k = Some x -> I k s w ->
     exists s' w', body x s w = (inr s', w') /\ I (Datatypes.S k) s' w') ->
  forall s w, I 0%nat s w ->
    exists s' w', for_each_with l s body w = (inr s', w') /\ I (length l) s' w'.
Proof.
  revert I. induction l as [|x l IH]; intros I Hbody s w Hw.
  - exists s, w. split; [reflexivity|exact Hw].
  - destruct (Hbody 0%nat x s w eq_refl Hw) as (s1 & w1 & E1 & H1).
    destruct (IH (fun k => I (Datatypes.S k)) (fun k y => Hbody (Datatypes.S k) y) s1 w1 H1)
      as (s2 & w2 & E2 & H2).
    exists s2, w2. split; [|exact H2].
    cbn [for_each_with]. rewrite (bind_ok _ _ _ _ _ E1). exact E2.
Qed.

Lemma for_range_with_returns {S} (I : nat -> S -> world -> Prop) n body :
  (forall i s w, (i < n)%nat -> I i s w ->
     exists s' w', body i s w = (inr s', w') /\ I (Datatypes.S i) s' w') ->
  forall s w, I 0%nat s w ->
    exists s' w', for_range_with n s body w = (inr s', w') /\ I n s' w'.
Proof.
  intros Hbody s w Hw. unfold for_range_with.
  destruct (for_each_with_returns I (seq 0 n) body) with (s := s) (w := w)
    as (s' & w' & E & H); [|exact Hw|].
  - intros k x s0 w0 Hk. apply lookup_seq in Hk as [-> Hk]. apply Hbody. exact Hk.
  - rewrite length_seq in H. exists s', w'. split; assumption.
Qed.

(** ** The constructor *)

Lemma is_prime_ge_2 n : is_prime n = true -> (2 <= n)%nat.
Proof.
  unfold is_prime. intros H. apply andb_prop in H as [H _].
  apply Nat.leb_le in H. exact H.
Qed.

Lemma prime_at_most_spec k p : prime_at_most k = Some p -> (2 <= p <= k)%nat.
Proof.
  induction k as [|k IH]; [discriminate|].
  cbn [prime_at_most]. destruct (is_prime (S k)) eqn:E.
  - intros [= <-]. apply is_prime_ge_2 in E. lia.
  - intros H. apply IH in H. lia.
Qed.

Lemma prime_at_most_found k : (2 <= k)%nat -> exists p, prime_at_most k = Some p.
Proof.
  induction k as [|k IH]; [lia|]. intros Hk.
  cbn [prime_at_most]. destruct (is_prime (S k)) eqn:E; [eauto|].
  destruct (decide (k = 1%nat)) as [->|]; [discriminate E|].
  apply IH. lia.
Qed.

Lemma prevprime_spec n :
  (3 <= n)%nat -> exists p, prevprime n = inr p /\ (2 <= p < n)%nat.
Proof.
  intros Hn. unfold prevprime.
  destruct (prime_at_most_found (n - 1)) as [p Hp]; [lia|].
  rewrite Hp. exists p. split; [reflexivity|].
  apply prime_at_most_spec in Hp. lia.
Qed.

Lemma set_item2_fill c (done : list (list Z)) row rest j x :
  (j < c)%nat ->
  set_item2 (Arr2 c (done ++ row :: rest)) (length done) j x
  = inr (Arr2 c (done ++ <[j := x]> row :: rest)).
Proof.
  intros Hj. unfold set_item2.
  rewrite list_lookup_middle by reflexivity.
  apply Nat.ltb_lt in Hj. rewrite Hj.
  rewrite insert_app_r_alt by lia. rewrite Nat.sub_diag. reflexivity.
Qed.

Lemma set_row_fill c (done : list (list Z)) row rest new :
  length new = c ->
  set_row (Arr2 c (done ++ row :: rest)) (length done) new
  = inr (Arr2 c (done ++ new :: rest)).
Proof.
  intros Hc. unfold set_row.
  assert (Hlt : (length done <? length (done ++ row :: rest))%nat = true).
  { apply Nat.ltb_lt. rewrite length_app. cbn. lia. }
  rewrite Hlt. apply Nat.eqb_eq in Hc. rewrite Hc.
  rewrite insert_app_r_alt by lia. rewrite Nat.sub_diag. reflexivity.
Qed.

(** With double hashing the constructor returns as soon as a prime lies below
    [message_size], and the table it leaves holds, for clause [i], the pair
    [i % message_size], [message_size + prime - i % prime]. *)
Lemma init_double_hashing nc T s q mil boost sb depth ms mb w :
  (3 <= ms)%nat ->
  exists p w',
    prevprime ms = inr p /\ (2 <= p < ms)%nat /\
    CommonTsetlinMachine.__init__ nc T s q mil boost sb depth ms mb true w = (inr tt, w') /\
    self w' self_message_bits = Some 2%nat /\
    self w' self_hypervectors = Some (Arr2 2 (map (double_hashing_row ms p) (seq 0 nc))) /\
    self w' self_initialized = Some false.
Proof.
  intros Hms. destruct (prevprime_spec ms Hms) as (p & Ep & Hp).
  exists p. unfold CommonTsetlinMachine.__init__.
  run.
  assert (Hloop : forall w0,
    self w0 self_message_size = Some ms ->
    self w0 self_hypervectors = Some (Arr2 2 (replicate nc [0; 0])) ->
    self w0 self_message_bits = Some 2%nat ->
    exists w1,
      for_range nc (fun i =>
        ms <- getattr self_message_size ;;
        hv <- getattr self_hypervectors ;;
        hv <- lift (set_item2 hv i 0 (to_uint32 (Z.of_nat (i mod ms)))) ;;
        setattr self_hypervectors hv ;;
        hv <- getattr self_hypervectors ;;
        hv <- lift (set_item2 hv i 1
                 (to_uint32 (Z.of_nat ms + Z.of_nat p - Z.of_nat (i mod p)))) ;;
        setattr self_hypervectors hv) w0 = (inr tt, w1) /\
      self w1 self_hypervectors = Some (Arr2 2 (map (double_hashing_row ms p) (seq 0 nc))) /\
      self w1 self_message_bits = Some 2%nat).
  { intros w0 A1 A2 A3.
    destruct (for_range_returns
      (fun k w => self w self_message_size = Some ms /\
                  self w self_hypervectors
                  = Some (Arr2 2 (map (double_hashing_row ms p) (seq 0 k)
                                  ++ replicate (nc - k) [0; 0])) /\
                  self w self_message_bits = Some 2%nat)
      nc (fun i =>
        ms <- getattr self_message_size ;;
        hv <- getattr self_hypervectors ;;
        hv <- lift (set_item2 hv i 0 (to_uint32 (Z.of_nat (i mod ms)))) ;;
        setattr self_hypervectors hv ;;
        hv <- getattr self_hypervectors ;;
        hv <- lift (set_item2 hv i 1
                 (to_uint32 (Z.of_nat ms + Z.of_nat p - Z.of_nat (i mod p)))) ;;
        setattr self_hypervectors hv)) with (w := w0) as (w1 & E1 & H1 & H2 & H3).
    - intros i wi Hi (I1 & I2 & I3).
      replace (nc - i)%nat with (S (nc - S i)) in I2 by lia. cbn [replicate] in I2.
      run.
      pose proof (length_map (double_hashing_row ms p) (seq 0 i)) as L.
      rewrite length_seq in L.
      pose proof (set_item2_fill 2 (map (double_hashing_row ms p) (seq 0 i)) [0; 0]
                    (replicate (nc - S i) [0; 0]) 0
                    (to_uint32 (Z.of_nat (i mod ms))) ltac:(lia)) as S0.
      rewrite L in S0. rewrite (bind_lift _ _ _ _ S0). run.
      pose proof (set_item2_fill 2 (map (double_hashing_row ms p) (seq 0 i))
                    (<[0%nat := to_uint32 (Z.of_nat (i mod ms))]> [0; 0])
                    (replicate (nc - S i) [0; 0]) 1
                    (to_uint32 (Z.of_nat ms + Z.of_nat p - Z.of_nat (i mod p)))
                    ltac:(lia)) as S1.
      rewrite L in S1. rewrite (bind_lift _ _ _ _ S1). run.
      eexists. split; [reflexivity|]. world_cbn.
      split; [exact I1|split; [|exact I3]].
      rewrite seq_S, map_app, <- app_assoc. reflexivity.
    - split; [exact A1|split; [|exact A3]]. cbn [seq map app].
      rewrite Nat.sub_0_r. exact A2.
    - exists w1. rewrite Nat.sub_diag, app_nil_r in H2. auto. }
  destruct s as [x|t]; run.
  all: match goal with
       | |- context [bind (for_range _ _) _ ?w0] =>
           destruct (Hloop w0) as (w1 & E1 & H2 & H3); [reflexivity..|]
       end.
  all: exists (with_self (object_set self_initialized false) w1).
  all: split; [exact Ep|split; [exact Hp|]].
  all: split; [rewrite (bind_ok _ _ _ _ _ E1); reflexivity|].
  all: world_cbn; auto.
Qed.

(** *** Sampling without replacement *)

Lemma NoDup_delete_notin (l : list Z) j x :
  NoDup l -> l !! j = Some x -> x ∉ delete j l.
Proof.
  intros Hnd Hx. rewrite <- (take_drop_middle l j x Hx) in Hnd.
  apply list.NoDup_app in Hnd as (_ & H1 & H2).
  apply list.NoDup_cons in H2 as [H2 _].
  rewrite delete_take_drop. intros [H|H]%elem_of_app; [|exact (H2 H)].
  apply (H1 x H). left.
Qed.

Lemma draw_spec pop k e :
  NoDup pop -> (k <= length pop)%nat ->
  length (draw pop k e).1 = k /\ NoDup (draw pop k e).1 /\
  forall x, x ∈ (draw pop k e).1 -> x ∈ pop.
Proof.
  revert pop e. induction k as [|k IH]; intros pop e Hnd Hk.
  - cbn. split; [reflexivity|]. split; [constructor|]. intros x H. inversion H.
  - cbn [draw].
    assert (Hj : (hd 0 e mod length pop < length pop)%nat)
      by (apply Nat.mod_upper_bound; lia).
    destruct (lookup_lt_is_Some_2 pop _ Hj) as [x Hx].
    rewrite (nth_lookup_Some _ _ 0 _ Hx).
    destruct (IH (delete (hd 0 e mod length pop)%nat pop) (tl e)) as (L & N & S).
    { exact (sublist_NoDup _ _ Hnd (sublist_delete pop _)). }
    { rewrite length_delete by eauto. lia. }
    destruct (draw (delete (hd 0 e mod length pop)%nat pop) k (tl e)) as [rest e'].
    cbn [fst] in *. split; [cbn; lia|]. split.
    + apply list.NoDup_cons. split; [|exact N].
      intros H. apply S in H. exact (NoDup_delete_notin _ _ _ Hnd Hx H).
    + intros y [->|H]%elem_of_cons.
      * eapply list_elem_of_lookup_2. exact Hx.
      * eapply list_elem_of_delete_inv. apply S. exact H.
Qed.

Lemma np_arange_small n :
  Z.of_nat n < 2 ^ 31 -> np_arange n = map Z.of_nat (seq 0 n).
Proof.
  intros Hn. unfold np_arange. apply map_ext_in. intros i Hi.
  apply in_seq in Hi. unfold to_uint32. apply Z.mod_small. lia.
Qed.

Lemma np_arange_spec n :
  Z.of_nat n < 2 ^ 31 ->
  length (np_arange n) = n /\ NoDup (np_arange n) /\
  forall x, x ∈ np_arange n -> 0 <= x < Z.of_nat n.
Proof.
  intros Hn. rewrite (np_arange_small n Hn).
  split; [rewrite length_map, length_seq; reflexivity|]. split.
  - apply (NoDup_fmap_2 Z.of_nat). apply NoDup_seq.
  - intros x Hx. apply list_elem_of_In, in_map_iff in Hx as (i & <- & Hi).
    apply in_seq in Hi. lia.
Qed.

Lemma draw_length pop k e : length (draw pop k e).1 = k.
Proof.
  revert pop e. induction k as [|k IH]; intros pop e; [reflexivity|].
  cbn [draw]. specialize (IH (delete (hd 0 e mod length pop)%nat pop) (tl e)).
  destruct (draw (delete (hd 0 e mod length pop)%nat pop) k (tl e)) as [rest e'].
  cbn in *. lia.
Qed.

(** What [np.random.choice] returns: as many positions as asked for, pairwise
    distinct, all from the population. *)
Lemma np_random_choice_ok n k w :
  (k <= n)%nat ->
  exists row w',
    CommonTsetlinMachine.np_random_choice (np_arange n) k w = (inr row, w') /\
    self w' = self w /\ length row = k /\
    (Z.of_nat n < 2 ^ 31 -> distinct_row k row /\ in_range_row n row).
Proof.
  intros Hk.
  assert (L : length (np_arange n) = n)
    by (unfold np_arange; rewrite length_map, length_seq; reflexivity).
  unfold CommonTsetlinMachine.np_random_choice, random_choice.
  assert (E : (length (np_arange n) <? k)%nat = false) by (apply Nat.ltb_ge; lia).
  rewrite E.
  pose proof (draw_length (np_arange n) k (np_random w)) as L1.
  pose proof (fun N => draw_spec (np_arange n) k (np_random w) N ltac:(lia)) as D.
  destruct (draw (np_arange n) k (np_random w)) as [row e'].
  exists row, (with_np_random e' w). cbn [fst] in *.
  split; [reflexivity|]. split; [reflexivity|]. split; [exact L1|].
  intros Hn. destruct (np_arange_spec n Hn) as (_ & N & R).
  destruct (D N) as (_ & N1 & S1). split; [split; assumption|].
  apply Forall_forall. intros x Hx. apply R, S1, list_elem_of_In. exact Hx.
Qed.

(** Without double hashing the constructor returns whenever a row can be
    drawn, and every row of the table it leaves has [message_bits] pairwise
    distinct positions below [message_size]. *)
Lemma init_random nc T s q mil boost sb depth ms mb w :
  constructible nc ms mb false ->
  exists rows w',
    CommonTsetlinMachine.__init__ nc T s q mil boost sb depth ms mb false w = (inr tt, w') /\
    self w' self_message_bits = Some mb /\
    self w' self_hypervectors = Some (Arr2 mb rows) /\
    length rows = nc /\
    (Z.of_nat ms < 2 ^ 31 ->
     Forall (fun row => distinct_row mb row /\ in_range_row ms row) rows) /\
    self w' self_initialized = Some false.
Proof.
  intros Hc. unfold constructible in Hc.
  unfold CommonTsetlinMachine.__init__. run.
  assert (Hloop : forall w0,
    self w0 self_hypervectors = Some (Arr2 mb (replicate nc (replicate mb 0))) ->
    self w0 self_message_bits = Some mb ->
    exists rows w1,
      for_range nc (fun i =>
        mb <- getattr self_message_bits ;;
        row <- CommonTsetlinMachine.np_random_choice (np_arange ms) mb ;;
        hv <- getattr self_hypervectors ;;
        hv <- lift (set_row hv i row) ;;
        setattr self_hypervectors hv) w0 = (inr tt, w1) /\
      self w1 self_hypervectors = Some (Arr2 mb rows) /\
      length rows = nc /\
      (Z.of_nat ms < 2 ^ 31 ->
       Forall (fun row => distinct_row mb row /\ in_range_row ms row) rows) /\
      self w1 self_message_bits = Some mb).
  { intros w0 A2 A3.
    destruct (for_range_returns
      (fun k w => exists done,
         length done = k /\
         (Z.of_nat ms < 2 ^ 31 ->
          Forall (fun row => distinct_row mb row /\ in_range_row ms row) done) /\
         self w self_hypervectors
         = Some (Arr2 mb (done ++ replicate (nc - k) (replicate mb 0))) /\
         self w self_message_bits = Some mb)
      nc (fun i =>
        mb <- getattr self_message_bits ;;
        row <- CommonTsetlinMachine.np_random_choice (np_arange ms) mb ;;
        hv <- getattr self_hypervectors ;;
        hv <- lift (set_row hv i row) ;;
        setattr self_hypervectors hv)) with (w := w0)
      as (w1 & E1 & done & L & F & H2 & H3).
    - intros i wi Hi (done & L & F & I2 & I3).
      replace (nc - i)%nat with (S (nc - S i)) in I2 by lia. cbn [replicate] in I2.
      run.
      destruct (np_random_choice_ok ms mb wi) as (row & wr & Er & Sr & Lr & Dr);
        [destruct Hc; lia|].
      rewrite (bind_ok _ _ _ _ _ Er). rewrite <- Sr in I2, I3. run.
      pose proof (set_row_fill mb done (replicate mb 0) (replicate (nc - S i) (replicate mb 0))
                    row Lr) as S0.
      rewrite L in S0. rewrite (bind_lift _ _ _ _ S0). run.
      eexists. split; [reflexivity|]. world_cbn.
      exists (done ++ [row]). split; [rewrite length_app; cbn; lia|].
      split; [intros Hn; apply Forall_app; split;
              [exact (F Hn)|constructor; [exact (Dr Hn)|constructor]]|].
      split; [|exact I3]. rewrite <- app_assoc. reflexivity.
    - exists []. split; [reflexivity|]. split; [constructor|].
      split; [|exact A3]. rewrite Nat.sub_0_r. exact A2.
    - exists done, w1. rewrite Nat.sub_diag, app_nil_r in H2. auto. }
  destruct s as [x|t]; run.
  all: match goal with
       | |- context [bind (for_range _ _) _ ?w0] =>
           destruct (Hloop w0) as (rows & w1 & E1 & H2 & L & F & H3); [reflexivity..|]
       end.
  all: exists rows, (with_self (object_set self_initialized false) w1).
  all: split; [rewrite (bind_ok _ _ _ _ _ E1); reflexivity|].
  all: world_cbn; auto.
Qed.

Lemma subclass_init nc T s q mil boost sb depth ms mb dh w w' :
  CommonTsetlinMachine.__init__ nc T s q mil boost sb depth ms mb dh w = (inr tt, w') ->
  MultiClassGraphTsetlinMachine.__init__ nc T s q mil boost sb depth ms mb dh w
  = (inr tt, labelled w') /\
  MultiOutputGraphTsetlinMachine.__init__ nc T s q mil boost sb depth ms mb dh w
  = (inr tt, labelled w') /\
  GraphTsetlinMachine.__init__ nc T s q mil boost sb depth ms mb dh w
  = (inr tt, labelled w').
Proof.
  intros E.
  unfold MultiClassGraphTsetlinMachine.__init__, MultiOutputGraphTsetlinMachine.__init__,
    GraphTsetlinMachine.__init__.
  rewrite !(bind_ok _ _ _ _ _ E). repeat split; reflexivity.
Qed.

(** C9: with [double_hashing=True] the constructed model's [message_bits] is
    2 whatever value the caller passed; the value passed is the model's
    [message_bits] only when [double_hashing] is [False].  This holds for the
    common constructor and, through it, for the three subclasses. *)
Theorem message_bits_of_constructed nc T s q mil boost sb depth ms mb dh w :
  constructible nc ms mb dh ->
  exists w',
    CommonTsetlinMachine.__init__ nc T s q mil boost sb depth ms mb dh w = (inr tt, w') /\
    self w' self_message_bits = Some (if dh then 2%nat else mb) /\
    MultiClassGraphTsetlinMachine.__init__ nc T s q mil boost sb depth ms mb dh w
    = (inr tt, labelled w') /\
    MultiOutputGraphTsetlinMachine.__init__ nc T s q mil boost sb depth ms mb dh w
    = (inr tt, labelled w') /\
    GraphTsetlinMachine.__init__ nc T s q mil boost sb depth ms mb dh w
    = (inr tt, labelled w') /\
    self (labelled w') self_message_bits = Some (if dh then 2%nat else mb).
Proof.
  intros Hc. destruct dh.
  - destruct (init_double_hashing nc T s q mil boost sb depth ms mb w Hc)
      as (p & w' & _ & _ & E & Hb & _).
    exists w'. destruct (subclass_init _ _ _ _ _ _ _ _ _ _ _ _ _ E) as (E1 & E2 & E3).
    repeat split; assumption.
  - destruct (init_random nc T s q mil boost sb depth ms mb w Hc)
      as (rows & w' & E & Hb & _).
    exists w'. destruct (subclass_init _ _ _ _ _ _ _ _ _ _ _ _ _ E) as (E1 & E2 & E3).
    repeat split; assumption.
Qed.

Lemma message_bits_of_constructed_witness :
  constructible 3 8 5 true /\
  exists w',
    CommonTsetlinMachine.__init__ 3 10 (inl 2.0%float) 1.0%float None 1 8 2 8 5 true
      (boot [1; 2; 3] [3; 1; 4]%nat) = (inr tt, w') /\
    self w' self_message_bits = Some 2%nat /\
    MultiClassGraphTsetlinMachine.__init__ 3 10 (inl 2.0%float) 1.0%float None 1 8 2 8 5 true
      (boot [1; 2; 3] [3; 1; 4]%nat) = (inr tt, labelled w') /\
    MultiOutputGraphTsetlinMachine.__init__ 3 10 (inl 2.0%float) 1.0%float None 1 8 2 8 5 true
      (boot [1; 2; 3] [3; 1; 4]%nat) = (inr tt, labelled w') /\
    GraphTsetlinMachine.__init__ 3 10 (inl 2.0%float) 1.0%float None 1 8 2 8 5 true
      (boot [1; 2; 3] [3; 1; 4]%nat) = (inr tt, labelled w') /\
    self (labelled w') self_message_bits = Some 2%nat.
Proof.
  split.
  - unfold constructible. lia.
  - apply (message_bits_of_constructed 3 10 (inl 2.0%float) 1.0%float None 1 8 2 8 5 true).
    unfold constructible. lia.
Defined.

Lemma to_uint32_small z : 0 <= z < 2 ^ 32 -> to_uint32 z = z.
Proof. intros H. unfold to_uint32. apply Z.mod_small. exact H. Qed.

Lemma double_hashing_row_spec ms p i :
  (2 <= p < ms)%nat -> Z.of_nat ms < 2 ^ 31 ->
  exists a b,
    double_hashing_row ms p i = [a; b] /\
    0 <= a < Z.of_nat ms /\ Z.of_nat ms < b < 2 * Z.of_nat ms.
Proof.
  intros Hp Hms.
  pose proof (Nat.mod_upper_bound i ms ltac:(lia)) as H1.
  pose proof (Nat.mod_upper_bound i p ltac:(lia)) as H2.
  exists (Z.of_nat (i mod ms)), (Z.of_nat ms + Z.of_nat p - Z.of_nat (i mod p)).
  unfold double_hashing_row. rewrite !to_uint32_small by lia.
  split; [reflexivity|]. lia.
Qed.

(** The hypervector table as the constructor stores it: every row holds
    [message_bits] pairwise-distinct words (two with double hashing).
    Without double hashing each word is a position in [[0, message_size)];
    with double hashing the first one is and the second one, stored as
    [message_size + prime - i % prime], lies strictly between [message_size]
    and [2 * message_size]. *)
Theorem hypervector_rows nc T s q mil boost sb depth ms mb dh w :
  constructible nc ms mb dh -> Z.of_nat ms < 2 ^ 31 ->
  exists rows w',
    CommonTsetlinMachine.__init__ nc T s q mil boost sb depth ms mb dh w = (inr tt, w') /\
    self w' self_message_bits = Some (if dh then 2%nat else mb) /\
    self w' self_hypervectors = Some (Arr2 (if dh then 2%nat else mb) rows) /\
    length rows = nc /\
    Forall (distinct_row (if dh then 2%nat else mb)) rows /\
    if dh
    then Forall (fun row => exists a b, row = [a; b] /\ 0 <= a < Z.of_nat ms /\
                                       Z.of_nat ms < b < 2 * Z.of_nat ms) rows
    else Forall (in_range_row ms) rows.
Proof.
  intros Hc Hms. destruct dh.
  - destruct (init_double_hashing nc T s q mil boost sb depth ms mb w Hc)
      as (p & w' & _ & Hp & E & Hb & Hv & _).
    exists (map (double_hashing_row ms p) (seq 0 nc)), w'.
    split; [exact E|]. split; [exact Hb|]. split; [exact Hv|].
    split; [rewrite length_map, length_seq; reflexivity|].
    split; apply Forall_forall; intros row Hrow; apply in_map_iff in Hrow as (i & <- & _).
    + destruct (double_hashing_row_spec ms p i Hp Hms) as (a & b & -> & Ha & Hb').
      split; [reflexivity|]. apply NoDup_cons_2; [|apply NoDup_singleton].
      intros H%list_elem_of_singleton. lia.
    + apply double_hashing_row_spec; assumption.
  - destruct (init_random nc T s q mil boost sb depth ms mb w Hc)
      as (rows & w' & E & Hb & Hv & L & F & _).
    exists rows, w'. specialize (F Hms).
    split; [exact E|]. split; [exact Hb|]. split; [exact Hv|]. split; [exact L|].
    split; eapply Forall_impl; try exact F; intros row [H1 H2]; assumption.
Qed.

Lemma hypervector_rows_witness :
  constructible 3 8 2 true /\ Z.of_nat 8 < 2 ^ 31 /\
  exists rows w',
    CommonTsetlinMachine.__init__ 3 10 (inl 2.0%float) 1.0%float None 1 8 2 8 2 true
      (boot [1; 2; 3] [3; 1; 4]%nat) = (inr tt, w') /\
    self w' self_message_bits = Some 2%nat /\
    self w' self_hypervectors = Some (Arr2 2 rows) /\
    length rows = 3%nat /\
    Forall (distinct_row 2) rows /\
    Forall (fun row => exists a b, row = [a; b] /\ 0 <= a < Z.of_nat 8 /\
                                  Z.of_nat 8 < b < 2 * Z.of_nat 8) rows.
Proof.
  split; [unfold constructible; lia|]. split; [reflexivity|].
  apply (hypervector_rows 3 10 (inl 2.0%float) 1.0%float None 1 8 2 8 2 true).
  - unfold constructible. lia.
  - reflexivity.
Defined.

(** C2: the double-hashing branch of the constructor breaks the claim that
    the branch without double hashing keeps.  With eight clauses and
    [message_size = 8] the constructor returns and stores the table
    [[0, 15], [1, 14], [2, 13], [3, 12], [4, 11], [5, 10], [6, 9], [7, 15]]:
    the second word of every row lies outside [[0, message_size)], and in
    row 7, the row of [prevprime(message_size)], the two words are one
    position once they are reduced modulo [message_size], as [get_messages]
    reduces them: both are read at 7. *)
Theorem double_hashing_row_collapses :
  exists rows w',
    MultiClassGraphTsetlinMachine.__init__ 8 10 (inl 2.0%float) 1.0%float None 1 8 2 8 2
      true (boot [1; 2; 3] [3; 1; 4; 1; 5; 9; 2; 6]%nat) = (inr tt, w') /\
    self w' self_message_size = Some 8%nat /\
    self w' self_hypervectors = Some (Arr2 2 rows) /\
    rows = [[0; 15]; [1; 14]; [2; 13]; [3; 12]; [4; 11]; [5; 10]; [6; 9]; [7; 15]] /\
    Forall (fun row => ~ in_range_row 8 row) rows /\
    rows !! 7%nat = Some [7; 15] /\
    CommonTsetlinMachine.sym_hv 8 0 [7; 15] = [7; 7] /\
    ~ distinct_row 2 (CommonTsetlinMachine.sym_hv 8 0 [7; 15]).
Proof.
  eexists _, _. split; [vm_compute; reflexivity|].
  split; [reflexivity|]. split; [reflexivity|]. split; [reflexivity|].
  split.
  { repeat constructor; intros H; inversion H as [|x xs _ H1]; subst;
      inversion H1 as [|y ys H2 _]; subst; lia. }
  split; [reflexivity|]. split; [reflexivity|].
  intros [_ H]. change (CommonTsetlinMachine.sym_hv 8 0 [7; 15]) with [7; 7] in H.
  apply NoDup_cons_1_1 in H. apply H. left.
Qed.

(** ** Scoring before training *)

Section Untrained.
Context `{B : Backend}.

Lemma score_init_exits graphs w :
  self w self_initialized = Some false ->
  CommonTsetlinMachine._score_init graphs w = (inl (SystemExit (-1)), not_trained w).
Proof.
  intros H. unfold CommonTsetlinMachine._score_init. run. reflexivity.
Qed.

(** C8: on a model that no [fit] has initialized, [score], [predict],
    [transform] and [transform_nodewise] print "Error: Model not trained."
    and exit with status -1, in each of the three subclasses; nothing is
    returned. *)
Theorem untrained_model_exits graphs w :
  self w self_initialized = Some false ->
  MultiClassGraphTsetlinMachine.score graphs w = (inl (SystemExit (-1)), not_trained w) /\
  MultiClassGraphTsetlinMachine.predict graphs w = (inl (SystemExit (-1)), not_trained w) /\
  MultiOutputGraphTsetlinMachine.score graphs w = (inl (SystemExit (-1)), not_trained w) /\
  MultiOutputGraphTsetlinMachine.predict graphs w = (inl (SystemExit (-1)), not_trained w) /\
  GraphTsetlinMachine.score graphs w = (inl (SystemExit (-1)), not_trained w) /\
  GraphTsetlinMachine.predict graphs w = (inl (SystemExit (-1)), not_trained w) /\
  CommonTsetlinMachine.transform graphs w = (inl (SystemExit (-1)), not_trained w) /\
  CommonTsetlinMachine.transform_nodewise graphs w
  = (inl (SystemExit (-1)), not_trained w).
Proof.
  intros H. pose proof (score_init_exits graphs w H) as E.
  assert (S : CommonTsetlinMachine._score graphs w = (inl (SystemExit (-1)), not_trained w)).
  { unfold CommonTsetlinMachine._score. apply bind_err. exact E. }
  unfold MultiClassGraphTsetlinMachine.predict, MultiOutputGraphTsetlinMachine.predict,
    GraphTsetlinMachine.predict, GraphTsetlinMachine.score,
    MultiClassGraphTsetlinMachine.score, MultiOutputGraphTsetlinMachine.score.
  repeat split.
  - exact S.
  - apply bind_err. exact S.
  - exact S.
  - apply bind_err. exact S.
  - apply bind_err. exact S.
  - apply bind_err. apply bind_err. exact S.
  - unfold CommonTsetlinMachine.transform. apply bind_err. exact E.
  - unfold CommonTsetlinMachine.transform_nodewise. apply bind_err. exact E.
Qed.

End Untrained.

Lemma untrained_model_exits_witness :
  self (Toy.constructed 2 false) self_initialized = Some false /\
  MultiClassGraphTsetlinMachine.predict (B := Toy.backend) Toy.graphs (Toy.constructed 2 false)
  = (inl (SystemExit (-1)), not_trained (Toy.constructed 2 false)).
Proof.
  split.
  - vm_compute. reflexivity.
  - refine (proj1 (proj2 (untrained_model_exits (B := Toy.backend) Toy.graphs
                            (Toy.constructed 2 false) _))).
    vm_compute. reflexivity.
Defined.

(** ** Frame rules *)

Lemma keeps_bind {A B} P (m : M A) (f : A -> M B) :
  keeps P m -> (forall a, keeps P (f a)) -> keeps P (bind m f).
Proof.
  intros Hm Hf w Hw. unfold bind. specialize (Hm w Hw).
  destruct (m w) as [[e|a] w1]; cbn [snd] in *; [exact Hm|].
  apply Hf. exact Hm.
Qed.

Lemma keeps_ret {A} P (a : A) : keeps P (ret a).
Proof. intros w Hw. exact Hw. Qed.

Lemma keeps_raise {A} P e : keeps P (raise (A := A) e).
Proof. intros w Hw. exact Hw. Qed.

Lemma keeps_lift {A} P (r : exn + A) : keeps P (lift r).
Proof. destruct r; intros w Hw; exact Hw. Qed.

Lemma keeps_for_each {A} P (l : list A) body :
  (forall x, keeps P (body x)) -> keeps P (for_each l body).
Proof.
  intros Hb. induction l as [|x l IH]; cbn [for_each].
  - apply keeps_ret.
  - apply keeps_bind; [apply Hb|intros _; exact IH].
Qed.

Lemma keeps_for_range P n body :
  (forall i, keeps P (body i)) -> keeps P (for_range n body).
Proof. intros Hb. apply keeps_for_each. exact Hb. Qed.

Lemma keeps_for_each_with {A S} P (l : list A) (s : S) body :
  (forall x s, keeps P (body x s)) -> keeps P (for_each_with l s body).
Proof.
  intros Hb. revert s. induction l as [|x l IH]; intros s; cbn [for_each_with].
  - apply keeps_ret.
  - apply keeps_bind; [apply Hb|intros s'; apply IH].
Qed.

Lemma keeps_for_range_with {S} P n (s : S) body :
  (forall i s, keeps P (body i s)) -> keeps P (for_range_with n s body).
Proof. intros Hb. apply keeps_for_each_with. exact Hb. Qed.

(** Statements that leave the object alone keep what an attribute holds. *)
Lemma keeps_self {A} a v (m : M A) :
  (forall w, self (snd (m w)) = self w) -> keeps (attr_is a v) m.
Proof. intros H w Hw. unfold attr_is. rewrite H. exact Hw. Qed.

Lemma keeps_attr_setattr a v b x : a <> b -> keeps (attr_is a v) (setattr b x).
Proof.
  intros Hne w Hw. unfold attr_is. cbn. rewrite object_set_ne by congruence. exact Hw.
Qed.

(** Statements that leave the device alone, or write another buffer, keep
    what a buffer holds. *)
Lemma keeps_gpu {A} p buf (m : M A) :
  (forall w, gpu (snd (m w)) = gpu w) -> keeps (buffer_is p buf) m.
Proof. intros H w Hw. unfold buffer_is. rewrite H. exact Hw. Qed.

Lemma keeps_buffer_poke p buf q new : p <> q -> keeps (buffer_is p buf) (poke q new).
Proof.
  intros Hne w Hw. unfold buffer_is, poke. cbn [snd gpu with_gpu].
  rewrite fn_lookup_insert_ne by congruence. exact Hw.
Qed.

Lemma self_getattr a w : self (snd (getattr a w)) = self w.
Proof. unfold getattr. destruct (self w a); reflexivity. Qed.

Lemma gpu_getattr a w : gpu (snd (getattr a w)) = gpu w.
Proof. unfold getattr. destruct (self w a); reflexivity. Qed.

Lemma self_deref p w : self (snd (deref p w)) = self w.
Proof. unfold deref. destruct (gpu w p); reflexivity. Qed.

Lemma gpu_deref p w : gpu (snd (deref p w)) = gpu w.
Proof. unfold deref. destruct (gpu w p); reflexivity. Qed.

Lemma self_index {A} (l : list A) i w : self (snd (index l i w)) = self w.
Proof. unfold index. destruct (l !! i); reflexivity. Qed.

Lemma gpu_index {A} (l : list A) i w : gpu (snd (index l i w)) = gpu w.
Proof. unfold index. destruct (l !! i); reflexivity. Qed.

Lemma self_as_size z w : self (snd (as_size z w)) = self w.
Proof. unfold as_size. destruct (z <? 0); reflexivity. Qed.

Lemma gpu_as_size z w : gpu (snd (as_size z w)) = gpu w.
Proof. unfold as_size. destruct (z <? 0); reflexivity. Qed.

Section Frames.
Context `{B : Backend}.

Lemma self_mem_alloc p n w : self (snd (CommonTsetlinMachine.mem_alloc p n w)) = self w.
Proof. unfold CommonTsetlinMachine.mem_alloc. destruct (n =? 0)%nat; reflexivity. Qed.

Lemma self_np_random_choice pop k w :
  self (snd (CommonTsetlinMachine.np_random_choice pop k w)) = self w.
Proof.
  unfold CommonTsetlinMachine.np_random_choice.
  destruct (random_choice pop k (np_random w)) as [e|[r e']]; reflexivity.
Qed.

Lemma gpu_np_random_choice pop k w :
  gpu (snd (CommonTsetlinMachine.np_random_choice pop k w)) = gpu w.
Proof.
  unfold CommonTsetlinMachine.np_random_choice.
  destruct (random_choice pop k (np_random w)) as [e|[r e']]; reflexivity.
Qed.

Lemma keeps_buffer_mem_alloc p buf q n :
  p <> q -> keeps (buffer_is p buf) (CommonTsetlinMachine.mem_alloc q n).
Proof.
  intros Hne w Hw. unfold buffer_is, CommonTsetlinMachine.mem_alloc.
  destruct (n =? 0)%nat; cbn [snd gpu with_gpu with_allocations]; [exact Hw|].
  rewrite fn_lookup_insert_ne by congruence. exact Hw.
Qed.

End Frames.

(** The frame of a whole method, statement by statement. *)
Ltac frame_step :=
  match goal with
  | |- keeps _ (bind _ _) => apply keeps_bind; [|intros]
  | |- keeps _ (ret _) => apply keeps_ret
  | |- keeps _ (raise _) => apply keeps_raise
  | |- keeps _ (sys_exit _) => apply keeps_raise
  | |- keeps _ synchronize => apply keeps_ret
  | |- keeps _ (lift _) => apply keeps_lift
  | |- keeps _ (for_range _ _) => apply keeps_for_range; intros
  | |- keeps _ (for_range_with _ _ _) => apply keeps_for_range_with; intros
  | |- keeps (attr_is _ _) (setattr _ _) => apply keeps_attr_setattr; discriminate
  | |- keeps (attr_is _ _) (getattr _) => apply keeps_self, self_getattr
  | |- keeps (attr_is _ _) (deref _) => apply keeps_self, self_deref
  | |- keeps (attr_is _ _) (index _ _) => apply keeps_self, self_index
  | |- keeps (attr_is _ _) (as_size _) => apply keeps_self, self_as_size
  | |- keeps (attr_is _ _) (poke _ _) => apply keeps_self; reflexivity
  | |- keeps (attr_is _ _) (print _) => apply keeps_self; reflexivity
  | |- keeps (attr_is _ _) (CommonTsetlinMachine.issue _ _) => apply keeps_self; reflexivity
  | |- keeps (attr_is _ _) (CommonTsetlinMachine.mem_alloc _ _) =>
      apply keeps_self, self_mem_alloc
  | |- keeps (attr_is _ _) (CommonTsetlinMachine.np_random_choice _ _) =>
      apply keeps_self, self_np_random_choice
  | |- keeps (buffer_is _ _) (setattr _ _) => apply keeps_gpu; reflexivity
  | |- keeps (buffer_is _ _) (getattr _) => apply keeps_gpu, gpu_getattr
  | |- keeps (buffer_is _ _) (deref _) => apply keeps_gpu, gpu_deref
  | |- keeps (buffer_is _ _) (index _ _) => apply keeps_gpu, gpu_index
  | |- keeps (buffer_is _ _) (as_size _) => apply keeps_gpu, gpu_as_size
  | |- keeps (buffer_is _ _) (print _) => apply keeps_gpu; reflexivity
  | |- keeps (buffer_is _ _) (CommonTsetlinMachine.issue _ _) => apply keeps_gpu; reflexivity
  | |- keeps (buffer_is _ _) (CommonTsetlinMachine.np_random_choice _ _) =>
      apply keeps_gpu, gpu_np_random_choice
  | |- keeps (buffer_is _ _) (poke _ _) => apply keeps_buffer_poke; discriminate
  | |- keeps (buffer_is _ _) (CommonTsetlinMachine.mem_alloc _ _) =>
      apply keeps_buffer_mem_alloc; discriminate
  | |- keeps _ (if ?b then _ else _) => destruct b
  | |- keeps _ (match ?x with _ => _ end) => destruct x
  end.

Ltac frame := repeat frame_step.

Create HintDb methods.

#[global] Hint Unfold kernel_store memcpy_htod memcpy_dtoh
  CommonTsetlinMachine.prepare CommonTsetlinMachine.prepare_message_ta_state
  CommonTsetlinMachine.calculate_messages CommonTsetlinMachine.prepare_messages
  CommonTsetlinMachine.exchange_messages CommonTsetlinMachine.encode_messages
  CommonTsetlinMachine.calculate_messages_conditional CommonTsetlinMachine.evaluate
  CommonTsetlinMachine.select_clause_node CommonTsetlinMachine.select_clause_updates
  CommonTsetlinMachine.update CommonTsetlinMachine.update_message
  CommonTsetlinMachine.transform_gpu CommonTsetlinMachine.transform_nodewise_gpu
  CommonTsetlinMachine.allocate_gpu_memory CommonTsetlinMachine._init
  CommonTsetlinMachine.alloc_edges CommonTsetlinMachine._init_fit
  CommonTsetlinMachine._evaluate CommonTsetlinMachine.example_args
  CommonTsetlinMachine._fit CommonTsetlinMachine._score_init
  CommonTsetlinMachine.evaluate_test CommonTsetlinMachine._score : methods.

(** The frame of a method that calls other methods. *)
Ltac frame_all := repeat first [frame_step | progress autounfold with methods].

Section MethodFrames.
Context `{B : Backend}.

(** Nothing but an assignment to it changes an attribute: kernel launches,
    copies and allocations leave the object alone.  [_fit] assigns neither
    the output count nor the threshold. *)
Lemma keeps_outputs_fit v graphs encoded_Y epochs incremental :
  keeps (attr_is self_number_of_outputs v)
    (CommonTsetlinMachine._fit graphs encoded_Y epochs incremental).
Proof. frame_all. Qed.

End MethodFrames.

(** ** Target encoding *)

Lemma to_int32_small z : - 2 ^ 31 <= z < 2 ^ 31 -> to_int32 z = z.
Proof. intros H. unfold to_int32. rewrite Z.mod_small by lia. lia. Qed.

Lemma to_int32_target T hit : fits_int32 T -> to_int32 (target T hit) = target T hit.
Proof.
  unfold fits_int32, target. intros H. apply to_int32_small. destruct hit; lia.
Qed.

Lemma fold_max_spec l x :
  (fold_left Z.max l x = x \/ In (fold_left Z.max l x) l) /\
  x <= fold_left Z.max l x /\ Forall (fun y => y <= fold_left Z.max l x) l.
Proof.
  revert x. induction l as [|y l IH]; intros x; cbn [fold_left].
  - split; [left; reflexivity|]. split; [lia|constructor].
  - destruct (IH (Z.max x y)) as (H1 & H2 & H3). split; [|split].
    + destruct H1 as [H1|H1]; [|right; right; exact H1].
      destruct (Z.max_spec x y) as [[_ E]|[_ E]]; rewrite E in *.
      * right. left. symmetry. exact H1.
      * left. exact H1.
    + lia.
    + constructor; [lia|exact H3].
Qed.

(** [np.max(Y)] is an element of [Y] that no element exceeds. *)
Lemma np_max_spec Y top :
  np_max Y = inr top -> In top Y /\ Forall (fun y => y <= top) Y.
Proof.
  destruct Y as [|x l]; [discriminate|]. cbn [np_max]. intros [= <-].
  destruct (fold_max_spec l x) as (H1 & H2 & H3). split.
  - destruct H1 as [H1|H1]; [left; symmetry; exact H1|right; exact H1].
  - constructor; assumption.
Qed.

Lemma bind_as_size {B} z (f : nat -> M B) w :
  0 <= z -> bind (as_size z) f w = f (Z.to_nat z) w.
Proof.
  intros H. unfold as_size. apply Z.ltb_ge in H. rewrite H. reflexivity.
Qed.

Section Codecs.
Context `{B : Backend}.

(** The loop of [MultiClassGraphTsetlinMachine.fit] overwrites every column
    of the array [np.empty] returned. *)
Lemma multiclass_columns Y n T w :
  self w self_T = Some T -> fits_int32 T ->
  exists rows,
    for_range_with n (CommonTsetlinMachine.np_empty2 (length Y) n) (fun i encoded_Y =>
      T <- getattr self_T ;;
      lift (set_column encoded_Y i
              (map to_int32 (ravel (np_where_eq (Arr1 Y) (Z.of_nat i) T (- T)))))) w
    = (inr (Arr2 n rows), w) /\
    length rows = length Y /\
    forall e y i, Y !! e = Some y -> (i < n)%nat ->
      entry2 (Arr2 n rows) e i = Some (target T (y =? Z.of_nat i)).
Proof.
  intros HT Hfit.
  destruct (for_range_with_returns
    (fun k enc w' => w' = w /\ exists rows,
       enc = Arr2 n rows /\ length rows = length Y /\
       forall e y, Y !! e = Some y ->
         exists row, rows !! e = Some row /\ length row = n /\
           forall i, (i < k)%nat -> row !! i = Some (target T (y =? Z.of_nat i)))
    n (fun i encoded_Y =>
      T <- getattr self_T ;;
      lift (set_column encoded_Y i
              (map to_int32 (ravel (np_where_eq (Arr1 Y) (Z.of_nat i) T (- T)))))))
    with (s := CommonTsetlinMachine.np_empty2 (length Y) n) (w := w)
    as (enc & w' & E & -> & rows & -> & L & H).
  - intros i enc wi Hi (-> & rows & -> & L & H). run.
    unfold set_column. apply Nat.ltb_lt in Hi as Hi'. rewrite Hi'. run_cbn.
    eexists _, w. split; [reflexivity|]. split; [reflexivity|].
    eexists. split; [reflexivity|]. cbn [np_where_eq ravel].
    split; [rewrite length_zip_with, !length_map; lia|].
    intros e y Hy. destruct (H e y Hy) as (row & Hr & Lr & Hk).
    exists (<[i := to_int32 (if y =? Z.of_nat i then T else - T)]> row).
    split; [|split].
    + rewrite lookup_zip_with, Hr, !list_lookup_fmap, Hy. reflexivity.
    + rewrite length_insert. exact Lr.
    + intros j Hj. destruct (decide (j = i)) as [->|Hne].
      * rewrite list_lookup_insert_eq by lia. f_equal.
        exact (to_int32_target T (y =? Z.of_nat i) Hfit).
      * rewrite list_lookup_insert_ne by congruence. apply Hk. lia.
  - split; [reflexivity|]. eexists. split; [reflexivity|].
    split; [rewrite length_map, length_seq; reflexivity|].
    intros e y Hy. apply lookup_lt_Some in Hy as He.
    eexists. split; [|split; [|intros i Hi; lia]].
    + rewrite list_lookup_fmap, lookup_seq_lt by exact He. reflexivity.
    + rewrite length_map, length_seq. reflexivity.
  - exists rows. split; [exact E|]. split; [exact L|].
    intros e y i Hy Hi. destruct (H e y Hy) as (row & Hr & Lr & Hk).
    cbn [entry2]. rewrite Hr. cbn. apply Hk. exact Hi.
Qed.

Lemma astype_int32_targets Y T :
  fits_int32 T -> astype_int32 (np_where_eq Y 1 T (- T)) = np_where_eq Y 1 T (- T).
Proof.
  intros Hfit.
  assert (E : forall v : list Z,
    map to_int32 (map (fun v => if v =? 1 then T else - T) v)
    = map (fun v => if v =? 1 then T else - T) v).
  { intros v. rewrite map_map. apply map_ext. intros y.
    apply (to_int32_target T (y =? 1) Hfit). }
  destruct Y as [v|c rows]; cbn [np_where_eq astype_int32].
  - rewrite E. reflexivity.
  - f_equal. rewrite map_map. apply map_ext. intros row. apply E.
Qed.

Lemma entry2_where Y T e i :
  entry2 (np_where_eq Y 1 T (- T)) e i
  = (fun y => target T (y =? 1)) <$> entry2 Y e i.
Proof.
  destruct Y as [v|c rows]; cbn [np_where_eq entry2]; [reflexivity|].
  rewrite list_lookup_fmap. destruct (rows !! e) as [row|]; cbn; [|reflexivity].
  rewrite list_lookup_fmap. reflexivity.
Qed.

Lemma entry1_where Y T e :
  entry1 (np_where_eq Y 1 T (- T)) e
  = (fun y => target T (y =? 1)) <$> entry1 Y e.
Proof.
  destruct Y as [v|c rows]; cbn [np_where_eq entry1]; [|reflexivity].
  rewrite list_lookup_fmap. reflexivity.
Qed.

Lemma shape_where Y k x y : shape (np_where_eq Y k x y) = shape Y.
Proof. destruct Y; cbn; rewrite ?length_map; reflexivity. Qed.

(** C5: the targets [fit] hands to [_fit].  In the multi-class machine the
    entry for example [e] and class [i] is [+T] when [Y[e] = i] and [-T]
    otherwise; in the multi-output and the single-output machine every entry
    is [+T] where [Y] is 1 and [-T] elsewhere, each on its own.  [T] is
    assumed to fit [np.int32], the type of the targets. *)
Theorem target_encoding graphs w T :
  self w self_T = Some T -> fits_int32 T ->
  (forall Y epochs incremental top,
     np_max Y = inr top -> 0 <= top + 1 ->
     exists encoded_Y,
       MultiClassGraphTsetlinMachine.fit graphs Y epochs incremental w
       = CommonTsetlinMachine._fit graphs encoded_Y epochs incremental
           (with_outputs (top + 1) w) /\
       shape encoded_Y = [length Y; Z.to_nat (top + 1)] /\
       forall e y i, Y !! e = Some y -> (i < Z.to_nat (top + 1))%nat ->
         entry2 encoded_Y e i = Some (target T (y =? Z.of_nat i))) /\
  (forall columns rows epochs incremental,
     exists encoded_Y,
       MultiOutputGraphTsetlinMachine.fit graphs (Arr2 columns rows) epochs incremental w
       = CommonTsetlinMachine._fit graphs encoded_Y epochs incremental
           (with_outputs (Z.of_nat columns) w) /\
       shape encoded_Y = [length rows; columns] /\
       forall e i, entry2 encoded_Y e i
                   = (fun y => target T (y =? 1)) <$> entry2 (Arr2 columns rows) e i) /\
  (forall Y,
     exists encoded_Y,
       GraphTsetlinMachine.fit graphs Y w
       = CommonTsetlinMachine._fit graphs encoded_Y 100 false (with_outputs 1 w) /\
       shape encoded_Y = shape Y /\
       (forall e, entry1 encoded_Y e = (fun y => target T (y =? 1)) <$> entry1 Y e) /\
       (forall e i, entry2 encoded_Y e i = (fun y => target T (y =? 1)) <$> entry2 Y e i)).
Proof.
  intros HT Hfit. split; [|split].
  - intros Y epochs incremental top Hmax Htop.
    destruct (multiclass_columns Y (Z.to_nat (top + 1)) T (with_outputs (top + 1) w))
      as (rows & E & L & H); [exact HT|exact Hfit|].
    exists (Arr2 (Z.to_nat (top + 1)) rows).
    split; [|split; [cbn [shape]; rewrite L; reflexivity|exact H]].
    unfold MultiClassGraphTsetlinMachine.fit.
    rewrite (bind_lift _ _ _ _ Hmax). run.
    rewrite bind_as_size by exact Htop.
    unfold with_outputs in E |- *. rewrite (bind_ok _ _ _ _ _ E). reflexivity.
  - intros columns rows epochs incremental.
    exists (np_where_eq (Arr2 columns rows) 1 T (- T)).
    split; [|split; [cbn; rewrite length_map; reflexivity|intros; apply entry2_where]].
    unfold MultiOutputGraphTsetlinMachine.fit, MultiOutputGraphTsetlinMachine.shape_1, index.
    cbn [shape lookup list_lookup]. run.
    rewrite (astype_int32_targets _ T Hfit). reflexivity.
  - intros Y. exists (np_where_eq Y 1 T (- T)).
    split; [|split; [apply shape_where|split; intros; [apply entry1_where|apply entry2_where]]].
    unfold GraphTsetlinMachine.fit. run.
    rewrite (astype_int32_targets _ T Hfit). reflexivity.
Qed.

(** C10: [MultiClassGraphTsetlinMachine.fit] sets the output count to
    [max(Y) + 1], the largest label plus one, and that is the count the model
    has when [fit] is over, whether training returned or raised. *)
Theorem outputs_is_largest_label_plus_one graphs Y epochs incremental w top :
  np_max Y = inr top ->
  In top Y /\ Forall (fun y => y <= top) Y /\
  self (snd (MultiClassGraphTsetlinMachine.fit graphs Y epochs incremental w))
    self_number_of_outputs = Some (top + 1).
Proof.
  intros Hmax. destruct (np_max_spec Y top Hmax) as [H1 H2].
  split; [exact H1|]. split; [exact H2|].
  unfold MultiClassGraphTsetlinMachine.fit.
  rewrite (bind_lift _ _ _ _ Hmax). run_cbn.
  match goal with
  | |- self (snd (?m ?w0)) _ = _ =>
      assert (K : keeps (attr_is self_number_of_outputs (top + 1)) m)
  end.
  { frame. apply keeps_outputs_fit. }
  apply K. reflexivity.
Qed.

End Codecs.

(** ** Kernel launches *)

Lemma length_stored old new : length (stored old new) = length old.
Proof. unfold stored. rewrite length_map, length_resize. reflexivity. Qed.

Lemma store_at_lookup p new g q :
  store_at p new g q
  = match g p with
    | Some old => if decide (p = q) then Some (stored old new) else g q
    | None => g q
    end.
Proof.
  unfold store_at. destruct (g p) as [old|] eqn:E; [|reflexivity].
  destruct (decide (p = q)) as [->|Hne].
  - apply fn_lookup_insert.
  - apply fn_lookup_insert_ne. exact Hne.
Qed.

Lemma store_at_ne p new g q : p <> q -> store_at p new g q = g q.
Proof.
  intros Hne. rewrite store_at_lookup. destruct (g p); [|reflexivity].
  destruct (decide (p = q)); [contradiction|reflexivity].
Qed.

Lemma store_at_eq p new g old : g p = Some old -> store_at p new g p = Some (stored old new).
Proof.
  intros H. rewrite store_at_lookup, H. destruct (decide (p = p)); [reflexivity|contradiction].
Qed.

Lemma store_at_extent p new g q : length <$> store_at p new g q = length <$> g q.
Proof.
  rewrite store_at_lookup. destruct (g p) as [old|] eqn:E; [|reflexivity].
  destruct (decide (p = q)) as [<-|]; [|reflexivity].
  rewrite E. cbn. rewrite length_stored. reflexivity.
Qed.

Lemma stores_extent (writes : list (dptr * list Z)) g q :
  length <$> fold_left (fun g pn => store_at (fst pn) (snd pn) g) writes g q
  = length <$> g q.
Proof.
  revert g. induction writes as [|[p new] writes IH]; intros g; [reflexivity|].
  cbn [fold_left]. rewrite IH. apply store_at_extent.
Qed.

Lemma stores_ne (writes : list (dptr * list Z)) g q :
  Forall (fun pn => fst pn <> q) writes ->
  fold_left (fun g pn => store_at (fst pn) (snd pn) g) writes g q = g q.
Proof.
  revert g. induction writes as [|[p new] writes IH]; intros g H; [reflexivity|].
  inversion H as [|? ? H1 H2]; subst. cbn [fold_left]. rewrite IH by exact H2.
  apply store_at_ne. exact H1.
Qed.

Lemma launched_self k args writes w : self (launched k args writes w) = self w.
Proof. reflexivity. Qed.

Lemma launched_stream k args writes w :
  stream (launched k args writes w) = stream w ++ [Launch k args].
Proof. reflexivity. Qed.

Lemma launched_extent k args writes w q :
  extent (launched k args writes w) q = extent w q.
Proof. unfold extent, launched. cbn [gpu with_gpu with_stream]. apply stores_extent. Qed.

Lemma launched_layout k args writes w : same_layout w (launched k args writes w).
Proof. split; [reflexivity|]. intros q. apply launched_extent. Qed.

Lemma launched_ne k args writes w q :
  Forall (fun pn => fst pn <> q) writes -> gpu (launched k args writes w) q = gpu w q.
Proof. intros H. unfold launched. cbn [gpu with_gpu with_stream]. apply stores_ne. exact H. Qed.

Lemma same_layout_refl w : same_layout w w.
Proof. split; [reflexivity|intros; reflexivity]. Qed.

Lemma same_layout_trans w1 w2 w3 :
  same_layout w1 w2 -> same_layout w2 w3 -> same_layout w1 w3.
Proof.
  intros [S1 E1] [S2 E2]. split; [congruence|]. intros p. rewrite E2. apply E1.
Qed.

Lemma same_layout_allocated w w' p : same_layout w w' -> allocated w p -> allocated w' p.
Proof.
  intros [_ E] [buf H]. specialize (E p). unfold extent in E. rewrite H in E.
  unfold allocated. destruct (gpu w' p); [eauto|discriminate].
Qed.

Lemma bind_deref {A} p buf (f : list Z -> M A) w :
  gpu w p = Some buf -> bind (deref p) f w = f buf w.
Proof. intros H. unfold bind, deref. rewrite H. reflexivity. Qed.

Lemma kernel_store_run p new w :
  allocated w p -> kernel_store p new w = (inr tt, with_gpu (store_at p new) w).
Proof.
  intros [old H]. unfold kernel_store. rewrite (bind_deref _ _ _ _ H).
  unfold poke, with_gpu, store_at. rewrite H. reflexivity.
Qed.

Lemma bind_kernel_store {A} p new (f : unit -> M A) w :
  allocated w p -> bind (kernel_store p new) f w = f tt (with_gpu (store_at p new) w).
Proof. intros H. apply bind_ok, kernel_store_run, H. Qed.

Lemma store_at_allocated p new g q : is_Some (g q) -> is_Some (store_at p new g q).
Proof.
  intros H. rewrite store_at_lookup. destruct (g p); [|exact H].
  destruct (decide (p = q)); [eauto|exact H].
Qed.

Lemma allocated_store p new w q :
  allocated w q -> allocated (with_gpu (store_at p new) w) q.
Proof. unfold allocated. cbn [gpu with_gpu]. apply store_at_allocated. Qed.

Lemma allocated_stream f w q : allocated w q -> allocated (with_stream f w) q.
Proof. intros H. exact H. Qed.

Lemma allocated_buf w p : allocated w p -> exists buf, gpu w p = Some buf.
Proof. intros [buf H]. eauto. Qed.

Ltac allocs :=
  repeat first [ apply allocated_store | apply allocated_stream ]; assumption.

(** Runs a launch whose buffers are allocated. *)
Ltac launch :=
  repeat first
    [ rewrite bind_assoc
    | erewrite bind_getattr by attr
    | erewrite bind_deref by (world_cbn; eassumption)
    | rewrite bind_kernel_store by allocs
    | rewrite kernel_store_run by allocs
    | progress cbn [bind ret CommonTsetlinMachine.issue] ].

Section Launches.
Context `{B : Backend}.

Lemma calculate_messages_run w P ta n ni cur incl X a c i x :
  self w self_kernels = Some P ->
  gpu w ta = Some a -> gpu w cur = Some c -> gpu w incl = Some i -> gpu w X = Some x ->
  CommonTsetlinMachine.calculate_messages ta n ni cur incl X w
  = (inr tt,
     launched Kcalculate_messages [ta; cur; incl; X]
       [(cur, (kernel_calculate_messages P a n ni c i x).1);
        (incl, (kernel_calculate_messages P a n ni c i x).2)] w).
Proof.
  intros HP Ha Hc Hi Hx.
  assert (Ac : allocated w cur) by (unfold allocated; eauto).
  assert (Ai : allocated w incl) by (unfold allocated; eauto).
  unfold CommonTsetlinMachine.calculate_messages.
  launch. destruct (kernel_calculate_messages P a n ni c i x) as [c' i'].
  launch. reflexivity.
Qed.

Lemma prepare_messages_run w P n msg_int m :
  self w self_kernels = Some P -> gpu w msg_int = Some m ->
  CommonTsetlinMachine.prepare_messages n msg_int w
  = (inr tt, launched Kprepare_messages [msg_int]
               [(msg_int, kernel_prepare_messages P n m)] w).
Proof.
  intros HP Hm. assert (Am : allocated w msg_int) by (unfold allocated; eauto).
  unfold CommonTsetlinMachine.prepare_messages. launch. reflexivity.
Qed.

Lemma exchange_messages_run w P n hv cur ni ei nedges edges msg_int h c d e m :
  self w self_kernels = Some P ->
  gpu w hv = Some h -> gpu w cur = Some c -> gpu w nedges = Some d ->
  gpu w edges = Some e -> gpu w msg_int = Some m ->
  CommonTsetlinMachine.exchange_messages n hv cur ni ei nedges edges msg_int w
  = (inr tt, launched Kexchange_messages [hv; cur; nedges; edges; msg_int]
               [(msg_int, kernel_exchange_messages P n h c ni ei d e m)] w).
Proof.
  intros HP Hh Hc Hd He Hm. assert (Am : allocated w msg_int) by (unfold allocated; eauto).
  unfold CommonTsetlinMachine.exchange_messages. launch. reflexivity.
Qed.

Lemma encode_messages_run w P n msg_int msg m x :
  self w self_kernels = Some P -> gpu w msg_int = Some m -> gpu w msg = Some x ->
  CommonTsetlinMachine.encode_messages n msg_int msg w
  = (inr tt, launched Kencode_messages [msg_int; msg]
               [(msg, kernel_encode_messages P n m x)] w).
Proof.
  intros HP Hm Hx. assert (Ax : allocated w msg) by (unfold allocated; eauto).
  unfold CommonTsetlinMachine.encode_messages. launch. reflexivity.
Qed.

Lemma calculate_messages_conditional_run w P msg_ta n cur nxt incl msg a c x i m :
  self w self_kernels = Some P ->
  gpu w msg_ta = Some a -> gpu w cur = Some c -> gpu w nxt = Some x ->
  gpu w incl = Some i -> gpu w msg = Some m ->
  CommonTsetlinMachine.calculate_messages_conditional msg_ta n cur nxt incl msg w
  = (inr tt,
     launched Kcalculate_messages_conditional [msg_ta; cur; nxt; incl; msg]
       [(nxt, (kernel_calculate_messages_conditional P a n c x i m).1);
        (incl, (kernel_calculate_messages_conditional P a n c x i m).2)] w).
Proof.
  intros HP Ha Hc Hx Hi Hm.
  assert (Ax : allocated w nxt) by (unfold allocated; eauto).
  assert (Ai : allocated w incl) by (unfold allocated; eauto).
  unfold CommonTsetlinMachine.calculate_messages_conditional.
  launch. destruct (kernel_calculate_messages_conditional P a n c x i m) as [x' i'].
  launch. reflexivity.
Qed.

Lemma evaluate_run w P cur weights n class_sum c v s :
  self w self_kernels = Some P ->
  gpu w cur = Some c -> gpu w weights = Some v -> gpu w class_sum = Some s ->
  CommonTsetlinMachine.evaluate cur weights n class_sum w
  = (inr tt, launched Kevaluate [cur; weights; class_sum]
               [(class_sum, kernel_evaluate P c v n s)] w).
Proof.
  intros HP Hc Hv Hs. assert (As : allocated w class_sum) by (unfold allocated; eauto).
  unfold CommonTsetlinMachine.evaluate. launch. reflexivity.
Qed.

Lemma prepare_run w P rng ta weights class_sum r a v s :
  self w self_kernels = Some P ->
  gpu w rng = Some r -> gpu w ta = Some a -> gpu w weights = Some v ->
  gpu w class_sum = Some s ->
  CommonTsetlinMachine.prepare rng ta weights class_sum w
  = (inr tt,
     launched Kprepare [rng; ta; weights; class_sum]
       [(rng, (kernel_prepare P r a v s).1.1.1); (ta, (kernel_prepare P r a v s).1.1.2);
        (weights, (kernel_prepare P r a v s).1.2); (class_sum, (kernel_prepare P r a v s).2)]
       w).
Proof.
  intros HP Hr Ha Hv Hs.
  assert (Ar : allocated w rng) by (unfold allocated; eauto).
  assert (Aa : allocated w ta) by (unfold allocated; eauto).
  assert (Av : allocated w weights) by (unfold allocated; eauto).
  assert (As : allocated w class_sum) by (unfold allocated; eauto).
  unfold CommonTsetlinMachine.prepare.
  launch. destruct (kernel_prepare P r a v s) as [[[r' a'] v'] s'].
  launch. reflexivity.
Qed.

Lemma calculate_messages_ok w ta n ni cur incl X :
  is_Some (self w self_kernels) ->
  allocated w ta -> allocated w cur -> allocated w incl -> allocated w X ->
  launches (CommonTsetlinMachine.calculate_messages ta n ni cur incl X) w
    Kcalculate_messages [ta; cur; incl; X].
Proof.
  intros [P HP] [a Ha] [c Hc] [i Hi] [x Hx]. eexists. split.
  - eapply calculate_messages_run; eassumption.
  - split; [apply launched_layout|reflexivity].
Qed.

Lemma prepare_messages_ok w n msg_int :
  is_Some (self w self_kernels) -> allocated w msg_int ->
  launches (CommonTsetlinMachine.prepare_messages n msg_int) w Kprepare_messages [msg_int].
Proof.
  intros [P HP] [m Hm]. eexists. split.
  - eapply prepare_messages_run; eassumption.
  - split; [apply launched_layout|reflexivity].
Qed.

Lemma exchange_messages_ok w n hv cur ni ei nedges edges msg_int :
  is_Some (self w self_kernels) ->
  allocated w hv -> allocated w cur -> allocated w nedges -> allocated w edges ->
  allocated w msg_int ->
  launches (CommonTsetlinMachine.exchange_messages n hv cur ni ei nedges edges msg_int) w
    Kexchange_messages [hv; cur; nedges; edges; msg_int].
Proof.
  intros [P HP] [h Hh] [c Hc] [d Hd] [e He] [m Hm]. eexists. split.
  - eapply exchange_messages_run; eassumption.
  - split; [apply launched_layout|reflexivity].
Qed.

Lemma encode_messages_ok w n msg_int msg :
  is_Some (self w self_kernels) -> allocated w msg_int -> allocated w msg ->
  launches (CommonTsetlinMachine.encode_messages n msg_int msg) w
    Kencode_messages [msg_int; msg].
Proof.
  intros [P HP] [m Hm] [x Hx]. eexists. split.
  - eapply encode_messages_run; eassumption.
  - split; [apply launched_layout|reflexivity].
Qed.

Lemma calculate_messages_conditional_ok w msg_ta n cur nxt incl msg :
  is_Some (self w self_kernels) ->
  allocated w msg_ta -> allocated w cur -> allocated w nxt -> allocated w incl ->
  allocated w msg ->
  launches (CommonTsetlinMachine.calculate_messages_conditional msg_ta n cur nxt incl msg) w
    Kcalculate_messages_conditional [msg_ta; cur; nxt; incl; msg].
Proof.
  intros [P HP] [a Ha] [c Hc] [x Hx] [i Hi] [m Hm]. eexists. split.
  - eapply calculate_messages_conditional_run; eassumption.
  - split; [apply launched_layout|reflexivity].
Qed.

Lemma evaluate_ok w cur weights n class_sum :
  is_Some (self w self_kernels) ->
  allocated w cur -> allocated w weights -> allocated w class_sum ->
  launches (CommonTsetlinMachine.evaluate cur weights n class_sum) w
    Kevaluate [cur; weights; class_sum].
Proof.
  intros [P HP] [c Hc] [v Hv] [s Hs]. eexists. split.
  - eapply evaluate_run; eassumption.
  - split; [apply launched_layout|reflexivity].
Qed.

(** Copies. *)
Lemma memcpy_htod_run p src buf w :
  gpu w p = Some buf -> (length src <= length buf)%nat ->
  memcpy_htod p src w
  = (inr tt, with_gpu (<[p := Some (map to_uint32 src ++ drop (length src) buf)]>) w).
Proof.
  intros H L. unfold memcpy_htod. rewrite (bind_deref _ _ _ _ H).
  apply Nat.leb_le in L. rewrite L. reflexivity.
Qed.

Lemma memcpy_htod_layout p src buf w :
  gpu w p = Some buf -> (length src <= length buf)%nat ->
  same_layout w (with_gpu (<[p := Some (map to_uint32 src ++ drop (length src) buf)]>) w).
Proof.
  intros H L. split; [reflexivity|]. intros q. unfold extent. cbn [gpu with_gpu].
  destruct (decide (p = q)) as [<-|Hne].
  - rewrite fn_lookup_insert, H. cbn. f_equal.
    rewrite length_app, length_map, length_drop. lia.
  - rewrite fn_lookup_insert_ne by exact Hne. reflexivity.
Qed.

Lemma memcpy_dtoh_run t n p buf w :
  gpu w p = Some buf -> (n <= length buf)%nat ->
  memcpy_dtoh t n p w = (inr (map (reinterpret t) (take n buf)), w).
Proof.
  intros H L. unfold memcpy_dtoh. rewrite (bind_deref _ _ _ _ H).
  apply Nat.leb_le in L. rewrite L. reflexivity.
Qed.

End Launches.

(** ** One evaluation pass *)

Lemma current_after_S k cur nxt : current_after (S k) cur nxt = next_after k cur nxt.
Proof.
  unfold current_after, next_after. rewrite Nat.even_succ, <- Nat.negb_even.
  destruct (Nat.even k); reflexivity.
Qed.

Lemma next_after_S k cur nxt : next_after (S k) cur nxt = current_after k cur nxt.
Proof.
  unfold current_after, next_after. rewrite Nat.even_succ, <- Nat.negb_even.
  destruct (Nat.even k); reflexivity.
Qed.

Lemma rounds_launches_S rounds cur nxt nedges edge msg_int clause_X msg_tas :
  rounds_launches (S rounds) cur nxt nedges edge msg_int clause_X msg_tas
  = rounds_launches rounds cur nxt nedges edge msg_int clause_X msg_tas
    ++ round_launches (current_after rounds cur nxt) (next_after rounds cur nxt)
         nedges edge msg_int (nth rounds clause_X class_sum_gpu)
         (nth rounds msg_tas class_sum_gpu).
Proof.
  unfold rounds_launches. rewrite seq_S, map_app, concat_app. cbn [map concat plus].
  rewrite app_nil_r. reflexivity.
Qed.

(** Every round launches the conditional evaluation once. *)
Lemma rounds_counted rounds cur nxt nedges edge msg_int clause_X msg_tas features :
  length (List.filter is_round
            (evaluation_launches rounds cur nxt nedges edge msg_int clause_X msg_tas
               features)) = rounds.
Proof.
  unfold evaluation_launches. cbn [List.filter is_round kernel_of].
  rewrite List.filter_app. cbn [List.filter is_round kernel_of]. rewrite app_nil_r.
  induction rounds as [|r IH]; [reflexivity|].
  rewrite rounds_launches_S, List.filter_app, length_app, IH. cbn. lia.
Qed.

Lemma same_layout_Forall w w' l :
  same_layout w w' -> Forall (allocated w) l -> Forall (allocated w') l.
Proof.
  intros L. apply Forall_impl. intros p. apply same_layout_allocated. exact L.
Qed.

Lemma evaluable_layout w w' depth msg_tas cur nxt nedges edge msg_int clause_X features :
  same_layout w w' ->
  evaluable w depth msg_tas cur nxt nedges edge msg_int clause_X features ->
  evaluable w' depth msg_tas cur nxt nedges edge msg_int clause_X features.
Proof.
  intros L (H1 & H2 & (no & len & H3 & H4 & H5 & H6) & H7 & H8 & H9 & H10 & H11 & H12).
  pose proof L as [S E]. unfold evaluable. rewrite S, E.
  split; [exact H1|]. split; [exact H2|]. split; [eauto 10|].
  split; [exact H7|]. split; [exact H8|]. split; [exact H9|].
  split; [|split]; eapply same_layout_Forall; eassumption.
Qed.

Lemma Forall_lookup_allocated w (l : list dptr) k :
  Forall (allocated w) l -> (k < length l)%nat ->
  exists p, l !! k = Some p /\ nth k l class_sum_gpu = p /\ allocated w p.
Proof.
  intros F Hk. destruct (lookup_lt_is_Some_2 l k Hk) as [p Hp].
  exists p. split; [exact Hp|]. split; [apply nth_lookup_Some; exact Hp|].
  rewrite Forall_forall in F. apply F. eapply list_elem_of_In, list_elem_of_lookup_2.
  exact Hp.
Qed.

Lemma bind_index {A C} (l : list A) i x (f : A -> M C) w :
  l !! i = Some x -> bind (index l i) f w = f x w.
Proof. intros H. unfold index. rewrite H. reflexivity. Qed.

Section Evaluation.
Context `{B : Backend}.

Ltac alloc_of L :=
  solve [ eapply same_layout_allocated; [exact L|]; assumption
        | assumption ].

(** One round of the loop of [_evaluate]. *)
Lemma round_returns w depth msg_tas cur nxt nedges edge msg_int clause_X features
    n ni ei k c x :
  evaluable w depth msg_tas cur nxt nedges edge msg_int clause_X features ->
  allocated w c -> allocated w x -> (k < depth - 1)%nat ->
  exists w',
    (CommonTsetlinMachine.prepare_messages n msg_int ;;
     synchronize ;;
     CommonTsetlinMachine.exchange_messages n hypervectors_gpu c ni ei nedges edge msg_int ;;
     synchronize ;;
     msg <- index clause_X k ;;
     CommonTsetlinMachine.encode_messages n msg_int msg ;;
     synchronize ;;
     l <- getattr self_message_ta_state_gpu ;;
     msg_ta <- index l k ;;
     msg <- index clause_X k ;;
     CommonTsetlinMachine.calculate_messages_conditional msg_ta n c x
       number_of_include_actions msg ;;
     synchronize ;;
     ret (x, c)) w = (inr (x, c), w') /\
    same_layout w w' /\
    stream w' = stream w ++ round_launches c x nedges edge msg_int
                              (nth k clause_X class_sum_gpu) (nth k msg_tas class_sum_gpu).
Proof.
  intros (K & D & _ & T & LT & LX & FT & FX & F) Ac Ax Hk.
  repeat match goal with H : Forall _ (_ :: _) |- _ => inversion H; clear H; subst end.
  destruct (Forall_lookup_allocated w clause_X k FX ltac:(lia)) as (px & Epx & Npx & Apx).
  destruct (Forall_lookup_allocated w msg_tas k FT ltac:(lia)) as (pt & Ept & Npt & Apt).
  rewrite Npx, Npt.
  destruct (prepare_messages_ok w n msg_int K ltac:(assumption)) as (w1 & E1 & L1 & S1).
  rewrite (bind_ok _ _ _ _ _ E1). run_cbn.
  pose proof L1 as [Q1 _].
  destruct (exchange_messages_ok w1 n hypervectors_gpu c ni ei nedges edge msg_int)
    as (w2 & E2 & L2 & S2); [rewrite Q1; exact K|alloc_of L1..|].
  rewrite (bind_ok _ _ _ _ _ E2). run_cbn.
  pose proof (same_layout_trans _ _ _ L1 L2) as L12. pose proof L12 as [Q2 _].
  rewrite (bind_index _ _ _ _ _ Epx).
  destruct (encode_messages_ok w2 n msg_int px) as (w3 & E3 & L3 & S3);
    [rewrite Q2; exact K|alloc_of L12..|].
  rewrite (bind_ok _ _ _ _ _ E3). run_cbn.
  pose proof (same_layout_trans _ _ _ L12 L3) as L13. pose proof L13 as [Q3 _].
  erewrite bind_getattr by (rewrite Q3; exact T).
  rewrite (bind_index _ _ _ _ _ Ept), (bind_index _ _ _ _ _ Epx).
  destruct (calculate_messages_conditional_ok w3 pt n c x number_of_include_actions px)
    as (w4 & E4 & L4 & S4); [rewrite Q3; exact K|alloc_of L13..|].
  rewrite (bind_ok _ _ _ _ _ E4). run_cbn.
  exists w4. split; [reflexivity|]. split; [eapply same_layout_trans; eassumption|].
  rewrite S4, S3, S2, S1. unfold round_launches. rewrite <- !app_assoc. reflexivity.
Qed.

Lemma evaluable_current w depth msg_tas cur nxt nedges edge msg_int clause_X features k :
  evaluable w depth msg_tas cur nxt nedges edge msg_int clause_X features ->
  allocated w (current_after k cur nxt) /\ allocated w (next_after k cur nxt).
Proof.
  intros (_ & _ & _ & _ & _ & _ & _ & _ & F).
  repeat match goal with H : Forall _ (_ :: _) |- _ => inversion H; clear H; subst end.
  unfold current_after, next_after. destruct (Nat.even k); split; assumption.
Qed.

(** [_evaluate] returns on an evaluable world; it leaves the layout as it
    was and issues the launches of one pass. *)
Lemma evaluate_returns w depth msg_tas cur nxt nedges edge msg_int clause_X features
    graphs n ni ei :
  evaluable w depth msg_tas cur nxt nedges edge msg_int clause_X features ->
  exists w',
    CommonTsetlinMachine._evaluate graphs n ni ei cur nxt nedges edge msg_int clause_X
      features w = (inr (current_after (depth - 1) cur nxt), w') /\
    same_layout w w' /\
    stream w' = stream w ++ evaluation_launches (depth - 1) cur nxt nedges edge msg_int
                              clause_X msg_tas features.
Proof.
  intros Hev. pose proof Hev as (K & D & (no & len & O & Hno & X & Hlen) & T & _ & _ & _ & _ & F).
  repeat match goal with H : Forall _ (_ :: _) |- _ => inversion H; clear H; subst end.
  unfold CommonTsetlinMachine._evaluate.
  erewrite bind_getattr by exact O. rewrite bind_as_size by exact Hno.
  unfold extent in X. destruct (gpu w class_sum_gpu) as [buf|] eqn:G; [|discriminate].
  injection X as X.
  assert (Lz : (length (ravel (astype_int32 (np_zeros1 (Z.to_nat no)))) <= length buf)%nat).
  { cbn [np_zeros1 astype_int32 ravel]. rewrite length_map, length_replicate. lia. }
  rewrite (bind_ok _ _ _ _ _ (memcpy_htod_run _ _ _ _ G Lz)).
  pose proof (memcpy_htod_layout _ _ _ _ G Lz) as L1.
  match type of L1 with same_layout _ ?x => set (w1 := x) in * end.
  pose proof L1 as [Q1 _].
  destruct (calculate_messages_ok w1 ta_state_gpu n ni cur number_of_include_actions features)
    as (w2 & E2 & L2 & S2);
    [rewrite Q1; exact K|
     (eapply same_layout_allocated; [exact L1|]; assumption)..|].
  rewrite (bind_ok _ _ _ _ _ E2). run_cbn.
  pose proof (same_layout_trans _ _ _ L1 L2) as L12. pose proof L12 as [Q2 _].
  erewrite bind_getattr by (rewrite Q2; exact D).
  destruct (for_range_with_returns
    (fun k s w' =>
       s = (current_after k cur nxt, next_after k cur nxt) /\ same_layout w w' /\
       stream w' = stream w2 ++ rounds_launches k cur nxt nedges edge msg_int clause_X msg_tas)
    (depth - 1)
    (fun k locals =>
       let '(c, x) := locals in
       CommonTsetlinMachine.prepare_messages n msg_int ;;
       synchronize ;;
       CommonTsetlinMachine.exchange_messages n hypervectors_gpu c ni ei nedges edge msg_int ;;
       synchronize ;;
       msg <- index clause_X k ;;
       CommonTsetlinMachine.encode_messages n msg_int msg ;;
       synchronize ;;
       l <- getattr self_message_ta_state_gpu ;;
       msg_ta <- index l k ;;
       msg <- index clause_X k ;;
       CommonTsetlinMachine.calculate_messages_conditional msg_ta n c x
         number_of_include_actions msg ;;
       synchronize ;;
       ret (x, c))) with (s := (cur, nxt)) (w := w2) as (s3 & w3 & E3 & -> & L3 & S3).
  - intros k s wk Hk (-> & Lk & Sk).
    pose proof (evaluable_layout _ _ _ _ _ _ _ _ _ _ _ Lk Hev) as Hk'.
    destruct (evaluable_current _ _ _ _ _ _ _ _ _ _ k Hk') as [Ac Ax].
    destruct (round_returns wk depth msg_tas cur nxt nedges edge msg_int clause_X features
                n ni ei k _ _ Hk' Ac Ax Hk) as (wk' & Ek & Lk' & Sk').
    exists (next_after k cur nxt, current_after k cur nxt), wk'.
    split; [exact Ek|]. split; [rewrite current_after_S, next_after_S; reflexivity|].
    split; [eapply same_layout_trans; eassumption|].
    rewrite Sk', Sk, rounds_launches_S, <- app_assoc. reflexivity.
  - split; [reflexivity|]. split; [exact L12|]. unfold rounds_launches. cbn.
    rewrite app_nil_r. reflexivity.
  - rewrite (bind_ok _ _ _ _ _ E3).
    pose proof (evaluable_layout _ _ _ _ _ _ _ _ _ _ _ L3 Hev) as Hev3.
    destruct (evaluable_current _ _ _ _ _ _ _ _ _ _ (depth - 1) Hev3) as [Ac _].
    pose proof L3 as [Q3 _].
    destruct (evaluate_ok w3 (current_after (depth - 1) cur nxt) clause_weights_gpu n
                class_sum_gpu) as (w4 & E4 & L4 & S4);
      [rewrite Q3; exact K|exact Ac|
       (eapply same_layout_allocated; [exact L3|]; assumption)..|].
    rewrite (bind_ok _ _ _ _ _ E4). run_cbn.
    exists w4. split; [reflexivity|]. split; [eapply same_layout_trans; eassumption|].
    rewrite S4, S3, S2. unfold evaluation_launches. subst w1. cbn [stream with_gpu].
    rewrite <- !app_assoc. reflexivity.
Qed.

(** C3: one evaluation pass of a model of depth [depth] issues, after the
    layer-zero evaluation, exactly [depth - 1] message rounds; round [k] reads
    the buffer that is current after [k] swaps and writes the other one, which
    is current for round [k + 1]; the final class-sum accumulation reads the
    buffer that is current after the last round, the one that round wrote,
    and that buffer is what [_evaluate] returns. *)
Theorem evaluation_rounds w depth msg_tas cur nxt nedges edge msg_int clause_X features
    graphs n ni ei :
  (1 < depth)%nat ->
  evaluable w depth msg_tas cur nxt nedges edge msg_int clause_X features ->
  exists w',
    CommonTsetlinMachine._evaluate graphs n ni ei cur nxt nedges edge msg_int clause_X
      features w = (inr (current_after (depth - 1) cur nxt), w') /\
    stream w' = stream w ++ evaluation_launches (depth - 1) cur nxt nedges edge msg_int
                              clause_X msg_tas features /\
    length (List.filter is_round
              (evaluation_launches (depth - 1) cur nxt nedges edge msg_int clause_X msg_tas
                 features)) = (depth - 1)%nat /\
    (forall k, current_after (S k) cur nxt = next_after k cur nxt /\
               next_after (S k) cur nxt = current_after k cur nxt) /\
    current_after (depth - 1) cur nxt = next_after (depth - 2)%nat cur nxt.
Proof.
  intros Hd Hev.
  destruct (evaluate_returns w depth msg_tas cur nxt nedges edge msg_int clause_X features
              graphs n ni ei Hev) as (w' & E & _ & Hs).
  exists w'. split; [exact E|]. split; [exact Hs|]. split; [apply rounds_counted|].
  split; [intros k; split; [apply current_after_S|apply next_after_S]|].
  replace (depth - 1)%nat with (S (depth - 2)%nat) by lia. apply current_after_S.
Qed.

End Evaluation.

(** ** Decision readout *)

Lemma argmax_from_spec v : forall pre best besti,
  pre !! besti = Some best ->
  Forall (fun x => x <= best) pre ->
  (forall j x, (j < besti)%nat -> pre !! j = Some x -> x < best) ->
  exists m,
    (pre ++ v) !! argmax_from best besti (length pre) v = Some m /\
    Forall (fun x => x <= m) (pre ++ v) /\
    forall j x, (j < argmax_from best besti (length pre) v)%nat ->
                (pre ++ v) !! j = Some x -> x < m.
Proof.
  induction v as [|y v IH]; intros pre best besti Hb Hle Hlt.
  - cbn [argmax_from]. rewrite app_nil_r. exists best. auto.
  - cbn [argmax_from]. destruct (best <? y) eqn:E.
    + apply Z.ltb_lt in E.
      destruct (IH (pre ++ [y]) y (length pre)) as (m & H1 & H2 & H3).
      * rewrite lookup_app_r, Nat.sub_diag by lia. reflexivity.
      * apply Forall_app. split; [|repeat constructor; lia].
        eapply Forall_impl; [|exact Hle]. cbn. intros; lia.
      * intros j x Hj Hx. rewrite lookup_app_l in Hx by exact Hj.
        rewrite Forall_forall in Hle.
        assert (x <= best) by (apply Hle; eapply list_elem_of_In, list_elem_of_lookup_2; eauto).
        lia.
      * rewrite length_app in H1, H3. cbn [length] in H1, H3.
        rewrite Nat.add_1_r, <- app_assoc in H1, H3. rewrite <- app_assoc in H2.
        exists m. auto.
    + apply Z.ltb_ge in E.
      destruct (IH (pre ++ [y]) best besti) as (m & H1 & H2 & H3).
      * apply lookup_lt_Some in Hb as Hlen. rewrite lookup_app_l by exact Hlen. exact Hb.
      * apply Forall_app. split; [exact Hle|repeat constructor; lia].
      * intros j x Hj Hx. apply lookup_lt_Some in Hb as Hlen.
        rewrite lookup_app_l in Hx by lia. eapply Hlt; eauto.
      * rewrite length_app in H1, H3. cbn [length] in H1, H3.
        rewrite Nat.add_1_r, <- app_assoc in H1, H3. rewrite <- app_assoc in H2.
        exists m. auto.
Qed.

(** [np.argmax] of a non-empty row is the first position of its maximum. *)
Lemma argmax_spec row :
  row <> [] -> exists i, argmax row = inr i /\ first_maximum row i.
Proof.
  destruct row as [|x v]; [congruence|]. intros _. cbn [argmax].
  eexists. split; [reflexivity|]. unfold first_maximum. rewrite Nat2Z.id.
  destruct (argmax_from_spec v [x] x 0%nat) as (m & H1 & H2 & H3).
  - reflexivity.
  - repeat constructor. lia.
  - intros j y Hj. lia.
  - exists m. split; [exact H1|]. split; [lia|]. split; [exact H2|exact H3].
Qed.

Lemma argmax_rows_spec rows :
  Forall (fun row => row <> []) rows ->
  exists preds, argmax_rows rows = inr preds /\ Forall2 first_maximum rows preds.
Proof.
  induction rows as [|row rows IH]; intros H.
  - exists []. split; [reflexivity|constructor].
  - inversion H as [|? ? H1 H2]; subst.
    destruct (argmax_spec row H1) as (i & Ei & Hi).
    destruct (IH H2) as (preds & Ep & Hp).
    exists (i :: preds). cbn [argmax_rows]. rewrite Ei, Ep.
    split; [reflexivity|constructor; assumption].
Qed.

Lemma entry2_ge0 S e i :
  entry2 (ge0 S) e i = (fun v => if 0 <=? v then 1 else 0) <$> entry2 S e i.
Proof.
  destruct S as [v|c rows]; cbn [ge0 entry2]; [reflexivity|].
  rewrite list_lookup_fmap. destruct (rows !! e) as [row|]; cbn; [|reflexivity].
  rewrite list_lookup_fmap. reflexivity.
Qed.

Lemma entry1_ge0 S e :
  entry1 (ge0 S) e = (fun v => if 0 <=? v then 1 else 0) <$> entry1 S e.
Proof.
  destruct S as [v|c rows]; cbn [ge0 entry1]; [|reflexivity].
  rewrite list_lookup_fmap. reflexivity.
Qed.

Section Readout.
Context `{B : Backend}.

(** C6: [predict] is [score] followed by a readout.  When [score] raises,
    [predict] raises the same; when [score] returns, the multi-class machine
    returns for every example the first position of the largest class sum
    (the rows being non-empty), and the multi-output and single-output
    machines return, entry by entry, whether the score is at least zero. *)
Theorem predict_from_score graphs w :
  (forall e w', MultiClassGraphTsetlinMachine.score graphs w = (inl e, w') ->
                MultiClassGraphTsetlinMachine.predict graphs w = (inl e, w')) /\
  (forall c rows w',
      MultiClassGraphTsetlinMachine.score graphs w = (inr (Arr2 c rows), w') ->
      Forall (fun row => row <> []) rows ->
      exists preds,
        MultiClassGraphTsetlinMachine.predict graphs w = (inr (Arr1 preds), w') /\
        Forall2 first_maximum rows preds) /\
  (forall e w', MultiOutputGraphTsetlinMachine.score graphs w = (inl e, w') ->
                MultiOutputGraphTsetlinMachine.predict graphs w = (inl e, w')) /\
  (forall S w',
      MultiOutputGraphTsetlinMachine.score graphs w = (inr S, w') ->
      MultiOutputGraphTsetlinMachine.predict graphs w = (inr (ge0 S), w') /\
      forall e i, entry2 (ge0 S) e i
                  = (fun v => if 0 <=? v then 1 else 0) <$> entry2 S e i) /\
  (forall e w', GraphTsetlinMachine.score graphs w = (inl e, w') ->
                GraphTsetlinMachine.predict graphs w = (inl e, w')) /\
  (forall S w',
      GraphTsetlinMachine.score graphs w = (inr S, w') ->
      GraphTsetlinMachine.predict graphs w = (inr (ge0 S), w') /\
      forall e, entry1 (ge0 S) e = (fun v => if 0 <=? v then 1 else 0) <$> entry1 S e).
Proof.
  unfold MultiClassGraphTsetlinMachine.predict, MultiOutputGraphTsetlinMachine.predict,
    GraphTsetlinMachine.predict.
  repeat split.
  - intros e w' E. apply bind_err. exact E.
  - intros c rows w' E Hrows. destruct (argmax_rows_spec rows Hrows) as (preds & Ep & Hp).
    exists preds. split; [|exact Hp]. rewrite (bind_ok _ _ _ _ _ E).
    cbn [argmax_axis1]. rewrite Ep. reflexivity.
  - intros e w' E. apply bind_err. exact E.
  - rewrite (bind_ok _ _ _ _ _ H). reflexivity.
  - apply entry2_ge0.
  - intros e w' E. apply bind_err. exact E.
  - rewrite (bind_ok _ _ _ _ _ H). reflexivity.
  - apply entry1_ge0.
Qed.

End Readout.

(** ** A non-incremental second fit *)

Section Refit.
Context `{B : Backend}.

(** On an initialized model [_init_fit] with [incremental=False] launches
    [prepare] on the surface automata, the weights and the class sums, and
    nothing on a message-automaton buffer: whatever such a buffer holds, it
    still holds when [_init_fit] is over. *)
Lemma refit_keeps_message_buffer graphs encoded_Y w d buf :
  self w self_initialized = Some true ->
  gpu w (message_ta_state_gpu d) = Some buf ->
  gpu (snd (CommonTsetlinMachine._init_fit graphs encoded_Y false w))
    (message_ta_state_gpu d) = Some buf.
Proof.
  intros Hi Hb. unfold CommonTsetlinMachine._init_fit.
  erewrite bind_getattr by exact Hi. cbn [negb].
  match goal with
  | |- gpu (snd (?m w)) _ = _ =>
      assert (K : keeps (buffer_is (message_ta_state_gpu d) buf) m) by frame_all
  end.
  apply K. exact Hb.
Qed.

End Refit.

(** C4, on the toy machine of depth 2: a trained machine is fitted again with
    [incremental=False] and stopped before the first epoch.  The surface
    automata and the weights are back at what [prepare] leaves, but the
    message automata of round 0 are what training left, not what
    [prepare_message_ta_state] leaves on a first fit. *)
Theorem refit_leaves_message_automata :
  fst (MultiClassGraphTsetlinMachine.fit (B := Toy.backend) Toy.graphs [0; 1] 0 false
         (Toy.trained 2)) = inr tt /\
  gpu (Toy.refitted 2) ta_state_gpu = gpu (Toy.fresh 2) ta_state_gpu /\
  gpu (Toy.refitted 2) clause_weights_gpu = gpu (Toy.fresh 2) clause_weights_gpu /\
  gpu (Toy.trained 2) ta_state_gpu <> gpu (Toy.fresh 2) ta_state_gpu /\
  gpu (Toy.refitted 2) (message_ta_state_gpu 0)
  = gpu (Toy.trained 2) (message_ta_state_gpu 0) /\
  gpu (Toy.refitted 2) (message_ta_state_gpu 0)
  <> gpu (Toy.fresh 2) (message_ta_state_gpu 0).
Proof.
  split; [vm_compute; reflexivity|]. split; [vm_compute; reflexivity|].
  split; [vm_compute; reflexivity|]. split; [vm_compute; discriminate|].
  split; [vm_compute; reflexivity|]. vm_compute. discriminate.
Qed.

(** ** The theorems at the toy machine *)

(** Decides a fact about a concrete world by running the model. *)
Ltac concrete :=
  vm_compute;
  first [ reflexivity | lia | discriminate | (eexists; reflexivity)
        | (intros ?; discriminate) ].

Lemma toy_train_evaluable :
  evaluable (Toy.trained 2) 2 [message_ta_state_gpu 0]
    current_clause_node_output_train_gpu next_clause_node_output_train_gpu
    number_of_graph_node_edges_train_gpu edge_train_gpu clause_X_int_train_gpu
    [clause_X_train_gpu 0] encoded_X_train_gpu.
Proof.
  unfold evaluable. split; [concrete|]. split; [concrete|].
  split; [exists 2, 2%nat; repeat split; concrete|].
  split; [concrete|]. split; [concrete|]. split; [concrete|].
  split; [|split]; repeat constructor; concrete.
Defined.

Lemma evaluation_rounds_witness :
  (1 < 2)%nat /\
  evaluable (Toy.trained 2) 2 [message_ta_state_gpu 0]
    current_clause_node_output_train_gpu next_clause_node_output_train_gpu
    number_of_graph_node_edges_train_gpu edge_train_gpu clause_X_int_train_gpu
    [clause_X_train_gpu 0] encoded_X_train_gpu /\
  exists w',
    CommonTsetlinMachine._evaluate (B := Toy.backend) Toy.graphs 2 0 0
      current_clause_node_output_train_gpu next_clause_node_output_train_gpu
      number_of_graph_node_edges_train_gpu edge_train_gpu clause_X_int_train_gpu
      [clause_X_train_gpu 0] encoded_X_train_gpu (Toy.trained 2)
    = (inr (current_after (2 - 1) current_clause_node_output_train_gpu
              next_clause_node_output_train_gpu), w') /\
    stream w'
    = stream (Toy.trained 2)
      ++ evaluation_launches (2 - 1) current_clause_node_output_train_gpu
           next_clause_node_output_train_gpu number_of_graph_node_edges_train_gpu
           edge_train_gpu clause_X_int_train_gpu [clause_X_train_gpu 0]
           [message_ta_state_gpu 0] encoded_X_train_gpu /\
    length (List.filter is_round
              (evaluation_launches (2 - 1) current_clause_node_output_train_gpu
                 next_clause_node_output_train_gpu number_of_graph_node_edges_train_gpu
                 edge_train_gpu clause_X_int_train_gpu [clause_X_train_gpu 0]
                 [message_ta_state_gpu 0] encoded_X_train_gpu)) = (2 - 1)%nat /\
    (forall k,
        current_after (S k) current_clause_node_output_train_gpu
          next_clause_node_output_train_gpu
        = next_after k current_clause_node_output_train_gpu
            next_clause_node_output_train_gpu /\
        next_after (S k) current_clause_node_output_train_gpu
          next_clause_node_output_train_gpu
        = current_after k current_clause_node_output_train_gpu
            next_clause_node_output_train_gpu) /\
    current_after (2 - 1) current_clause_node_output_train_gpu
      next_clause_node_output_train_gpu
    = next_after (2 - 2)%nat current_clause_node_output_train_gpu
        next_clause_node_output_train_gpu.
Proof.
  split; [lia|]. split; [exact toy_train_evaluable|].
  exact (evaluation_rounds (B := Toy.backend) (Toy.trained 2) 2 [message_ta_state_gpu 0]
           current_clause_node_output_train_gpu next_clause_node_output_train_gpu
           number_of_graph_node_edges_train_gpu edge_train_gpu clause_X_int_train_gpu
           [clause_X_train_gpu 0] encoded_X_train_gpu Toy.graphs 2 0 0
           ltac:(lia) toy_train_evaluable).
Defined.

Lemma toy_threshold : self (Toy.constructed 2 false) self_T = Some 10.
Proof. vm_compute. reflexivity. Defined.

Lemma toy_threshold_fits : fits_int32 10.
Proof. unfold fits_int32. lia. Defined.

Lemma target_encoding_witness :
  self (Toy.constructed 2 false) self_T = Some 10 /\ fits_int32 10 /\
  forall Y,
    exists encoded_Y,
      GraphTsetlinMachine.fit (B := Toy.backend) Toy.graphs Y (Toy.constructed 2 false)
      = CommonTsetlinMachine._fit (B := Toy.backend) Toy.graphs encoded_Y 100 false
          (with_outputs 1 (Toy.constructed 2 false)) /\
      shape encoded_Y = shape Y /\
      (forall e, entry1 encoded_Y e = (fun y => target 10 (y =? 1)) <$> entry1 Y e) /\
      (forall e i, entry2 encoded_Y e i = (fun y => target 10 (y =? 1)) <$> entry2 Y e i).
Proof.
  split; [exact toy_threshold|]. split; [exact toy_threshold_fits|].
  exact (proj2 (proj2 (target_encoding (B := Toy.backend) Toy.graphs (Toy.constructed 2 false)
                         10 toy_threshold toy_threshold_fits))).
Defined.

Lemma outputs_is_largest_label_plus_one_witness :
  np_max [0; 3] = inr 3 /\
  In 3 [0; 3] /\ Forall (fun y => y <= 3) [0; 3] /\
  self (snd (MultiClassGraphTsetlinMachine.fit (B := Toy.backend) Toy.graphs [0; 3] 2 false
               (Toy.constructed 2 false))) self_number_of_outputs = Some (3 + 1).
Proof.
  split; [reflexivity|].
  exact (outputs_is_largest_label_plus_one (B := Toy.backend) Toy.graphs [0; 3] 2 false
           (Toy.constructed 2 false) 3 eq_refl).
Defined.

(** ** Binding the test side to a graph set *)

Section Allocation.
Context `{B : Backend}.

(** An allocation of [4 * words] bytes returns and leaves a buffer of
    [words] words behind [p]. *)
Lemma mem_alloc_ok p words w :
  (0 < words)%nat ->
  exists w',
    CommonTsetlinMachine.mem_alloc p (words * 4) w = (inr tt, w') /\
    extent w' p = Some words /\ touches (eq p) w w' /\ stream w' = stream w.
Proof.
  intros Hw. unfold CommonTsetlinMachine.mem_alloc.
  assert (E : (words * 4 =? 0)%nat = false) by (apply Nat.eqb_neq; lia).
  rewrite E. eexists. split; [reflexivity|].
  split; [|split; [split; [reflexivity|]|reflexivity]].
  - unfold extent. cbn [gpu with_gpu with_allocations]. rewrite fn_lookup_insert.
    cbn [fmap option_fmap option_map].
    rewrite length_map, length_seq, Nat.div_mul by lia. reflexivity.
  - intros q Hq. cbn [gpu with_gpu with_allocations].
    apply fn_lookup_insert_ne. exact Hq.
Qed.

(** An allocation followed by the copy of a host array of that size leaves
    the array behind [p]. *)
Lemma upload_ok p (a : ndarray) w :
  well_formed a -> (0 < size a)%nat ->
  exists w',
    (CommonTsetlinMachine.mem_alloc p (nbytes a) ;; memcpy_htod p (ravel a)) w
    = (inr tt, w') /\
    gpu w' p = Some (map to_uint32 (ravel a)) /\ touches (eq p) w w' /\
    stream w' = stream w.
Proof.
  intros Hwf Hs. unfold nbytes. rewrite Nat.mul_comm.
  destruct (mem_alloc_ok p (size a) w Hs) as (w1 & E1 & X1 & [S1 F1] & Q1).
  rewrite (bind_ok _ _ _ _ _ E1).
  unfold extent in X1. destruct (gpu w1 p) as [buf|] eqn:G; [|discriminate].
  injection X1 as X1.
  rewrite (memcpy_htod_run p (ravel a) buf w1 G) by (rewrite Hwf; lia).
  eexists. split; [reflexivity|]. split; [|split; [split|]].
  - cbn [gpu with_gpu]. rewrite fn_lookup_insert. rewrite drop_ge by (rewrite Hwf; lia).
    rewrite app_nil_r. reflexivity.
  - exact S1.
  - intros q Hq. cbn [gpu with_gpu]. rewrite fn_lookup_insert_ne by exact Hq.
    apply F1. exact Hq.
  - exact Q1.
Qed.

Lemma alloc_edges_ok p g w :
  well_formed (edge g) ->
  exists w',
    CommonTsetlinMachine.alloc_edges p g w = (inr tt, w') /\
    gpu w' p = Some (map to_uint32 (ravel (edge g))) /\ touches (eq p) w w' /\
    stream w' = stream w.
Proof.
  intros Hwf. unfold CommonTsetlinMachine.alloc_edges.
  destruct (0 <? nbytes (edge g))%nat eqn:E.
  - apply Nat.ltb_lt in E. apply upload_ok; [exact Hwf|]. unfold nbytes in E. lia.
  - apply Nat.ltb_ge in E. unfold nbytes in E.
    assert (Hr : ravel (edge g) = []).
    { apply length_zero_iff_nil. rewrite Hwf. lia. }
    rewrite Hr. unfold CommonTsetlinMachine.mem_alloc. cbn [Nat.eqb].
    eexists. split; [reflexivity|]. split; [|split; [split; [reflexivity|]|reflexivity]].
    + cbn [gpu with_gpu with_allocations]. rewrite fn_lookup_insert. reflexivity.
    + intros q Hq. cbn [gpu with_gpu with_allocations].
      apply fn_lookup_insert_ne. exact Hq.
Qed.

End Allocation.

Section ScoreInit.
Context `{B : Backend}.

(** The loop of [_score_init] that allocates one message buffer per round. *)
Lemma test_message_buffers_ok n mn mc w0 :
  (0 < mn * mc)%nat ->
  self w0 self_number_of_message_chunks = Some mc ->
  self w0 self_clause_X_test_gpu = Some [] ->
  exists w',
    for_range n (fun _ =>
      mc <- getattr self_number_of_message_chunks ;;
      l <- getattr self_clause_X_test_gpu ;;
      let p := clause_X_test_gpu (length l) in
      CommonTsetlinMachine.mem_alloc p (mn * mc * 4) ;;
      setattr self_clause_X_test_gpu (l ++ [p])) w0 = (inr tt, w') /\
    self w' self_clause_X_test_gpu = Some (map clause_X_test_gpu (seq 0 n)) /\
    (forall k, (k < n)%nat -> extent w' (clause_X_test_gpu k) = Some (mn * mc)%nat) /\
    (forall a, a <> self_clause_X_test_gpu -> self w' a = self w0 a) /\
    (forall q, (forall j, q <> clause_X_test_gpu j) -> gpu w' q = gpu w0 q) /\
    stream w' = stream w0.
Proof.
  intros Hw Hmc Hl.
  apply (for_range_returns
    (fun k w' =>
       self w' self_clause_X_test_gpu = Some (map clause_X_test_gpu (seq 0 k)) /\
       (forall j, (j < k)%nat -> extent w' (clause_X_test_gpu j) = Some (mn * mc)%nat) /\
       (forall a, a <> self_clause_X_test_gpu -> self w' a = self w0 a) /\
       (forall q, (forall j, q <> clause_X_test_gpu j) -> gpu w' q = gpu w0 q) /\
       stream w' = stream w0)).
  - intros k w _ (I1 & I2 & I3 & I4 & I5).
    erewrite bind_getattr by (rewrite I3 by discriminate; exact Hmc).
    erewrite bind_getattr by exact I1. cbv zeta.
    rewrite length_map, length_seq.
    destruct (mem_alloc_ok (clause_X_test_gpu k) (mn * mc) w Hw)
      as (w1 & E1 & X1 & [S1 F1] & Q1).
    rewrite (bind_ok _ _ _ _ _ E1). run_cbn.
    eexists. split; [reflexivity|]. world_cbn.
    split; [rewrite seq_S, map_app; reflexivity|].
    split; [|split; [|split]].
    + intros j Hj. unfold extent. cbn [gpu with_self].
      destruct (decide (j = k)) as [->|Hne]; [exact X1|].
      rewrite F1 by congruence. apply I2. lia.
    + intros a Ha. rewrite object_set_ne by congruence. rewrite S1. apply I3. exact Ha.
    + intros q Hq. rewrite F1 by (intros <-; exact (Hq k eq_refl)). apply I4. exact Hq.
    + rewrite Q1. exact I5.
  - split; [exact Hl|]. split; [intros j Hj; lia|]. auto.
Qed.

Lemma model_ready_rebinds L w w' : rebinds w w' -> model_ready L w -> model_ready L w'.
Proof.
  intros (Ra & Rp & _) (M1 & M2 & M3 & M4 & M5 & M6 & M7 & M8 & M9 & M10 & M11 & M12 & M13
                         & M14 & M15).
  assert (A : forall p, model_buffer p -> allocated w p -> allocated w' p).
  { intros p Hp. unfold allocated. rewrite (Rp p Hp). auto. }
  assert (NT : forall a, a <> self_graphs_signature_test -> a <> self_clause_X_test_gpu ->
                         ~ test_attribute a) by (intros a H1 H2 [H|H]; contradiction).
  unfold model_ready.
  rewrite !Ra by (apply NT; discriminate).
  repeat (split; [assumption|]). split; [|split].
  - unfold message_ta_buffers in *. apply Forall_forall. intros p Hp.
    rewrite Forall_forall in M13. pose proof (M13 p Hp) as Hal.
    apply in_map_iff in Hp as (j & <- & _). apply A; [exact I|exact Hal].
  - repeat match goal with H : Forall _ (_ :: _) |- _ => inversion H; clear H; subst end.
    repeat constructor; (apply A; [exact I|assumption]).
  - unfold extent in *. rewrite (Rp class_sum_gpu I). exact M15.
Qed.

Lemma rebinds_refl w : rebinds w w.
Proof. repeat split; auto. Qed.

Lemma bind_upload {A} p (a : ndarray) (f : unit -> M A) w w' :
  (CommonTsetlinMachine.mem_alloc p (nbytes a) ;; memcpy_htod p (ravel a)) w = (inr tt, w') ->
  bind (CommonTsetlinMachine.mem_alloc p (nbytes a))
    (fun _ => bind (memcpy_htod p (ravel a)) f) w = f tt w'.
Proof. intros E. rewrite <- bind_assoc. apply bind_ok. exact E. Qed.

(** Walks a buffer back through the steps that did not write it. *)
Ltac back :=
  repeat match goal with
  | H : forall q, ~ _ = q -> gpu ?x q = gpu _ q |- context [gpu ?x ?p] =>
      rewrite (H p) by discriminate
  | H : forall q, (forall j, q <> clause_X_test_gpu j) -> gpu ?x q = gpu _ q
    |- context [gpu ?x ?p] => rewrite (H p) by (intros; discriminate)
  | |- _ => progress cbn [gpu with_self with_gpu with_stream]
  end.

(** [_score_init] returns on a scorable world and leaves the test side bound
    to the graph set; the model's own buffers and attributes are as before. *)
Lemma score_init_returns L g w :
  scorable L g w ->
  exists w',
    CommonTsetlinMachine._score_init g w = (inr tt, w') /\
    model_ready L w' /\ test_buffers L g w' /\ rebinds w w'.
Proof.
  intros (MR & GO & sig & Hsig & Hcache).
  pose proof MR as (M1 & M2 & M3 & M4 & M5 & M6 & M7 & M8 & M9 & M10 & M11 & M12 & M13
                    & M14 & M15).
  destruct GO as (G1 & G2 & G3 & G4 & G5 & G6 & G7 & G8).
  unfold CommonTsetlinMachine._score_init.
  erewrite bind_getattr by exact M1. run_cbn.
  erewrite bind_getattr by exact Hsig.
  destruct (array_equal sig (signature g)) eqn:Esig; cbn [negb].
  { exists w. split; [reflexivity|]. split; [exact MR|].
    split; [apply Hcache; reflexivity|apply rebinds_refl]. }
  run_cbn.
  match goal with |- context [bind _ _ ?x] => set (wa := x) end.
  destruct (upload_ok encoded_X_test_gpu (X g) wa G1 G4) as (wb & Eb & Gb & [Sb Fb] & Qb).
  rewrite (bind_upload _ _ _ _ _ Eb). clear Eb.
  erewrite bind_getattr by (rewrite Sb; subst wa; world_cbn; exact M6).
  destruct (mem_alloc_ok current_clause_node_output_test_gpu
              (L_clauses L * max_number_of_graph_node_chunks g) wb ltac:(nia))
    as (wc & Ec & Xc & [Sc Fc] & Qc).
  rewrite (bind_ok _ _ _ _ _ Ec).
  destruct (mem_alloc_ok next_clause_node_output_test_gpu
              (L_clauses L * max_number_of_graph_node_chunks g) wc ltac:(nia))
    as (wd & Ed & Xd & [Sd Fd] & Qd).
  rewrite (bind_ok _ _ _ _ _ Ed).
  erewrite bind_getattr by (rewrite Sd, Sc, Sb; subst wa; world_cbn; exact M8).
  destruct (mem_alloc_ok clause_X_int_test_gpu
              (max_number_of_graph_nodes g * L_message_literals L) wd ltac:(nia))
    as (we & Ee & Xe & [Se Fe] & Qe).
  rewrite (bind_ok _ _ _ _ _ Ee). run_cbn.
  erewrite bind_getattr by (world_cbn; rewrite Se, Sd, Sc, Sb; subst wa; world_cbn; exact M3).
  match goal with |- context [bind (for_range _ _) _ ?x] => set (wf := x) end.
  destruct (test_message_buffers_ok (L_depth L - 1) (max_number_of_graph_nodes g)
              (L_message_chunks L) wf ltac:(nia))
    as (wg & Eg & I1 & I2 & I3 & I4 & I5).
  { subst wf. world_cbn. rewrite Se, Sd, Sc, Sb. subst wa. world_cbn. exact M10. }
  { reflexivity. }
  rewrite (bind_ok _ _ _ _ _ Eg).
  destruct (upload_ok number_of_graph_node_edges_test_gpu (number_of_graph_node_edges g)
              wg G2 G5) as (wh & Eh & Gh & [Sh Fh] & Qh).
  rewrite (bind_upload _ _ _ _ _ Eh). clear Eh.
  destruct (alloc_edges_ok edge_test_gpu g wh G3) as (wi & Ei & Gi & [Si Fi] & Qi).
  exists wi. split; [exact Ei|].
  assert (RB : rebinds w wi).
  { split; [|split].
    - intros a Ha. rewrite Si, Sh, I3 by (intros ->; apply Ha; right; reflexivity).
      subst wf. world_cbn.
      rewrite object_set_ne by (intros <-; apply Ha; right; reflexivity).
      rewrite Se, Sd, Sc, Sb. subst wa. world_cbn.
      apply object_set_ne. intros <-. apply Ha. left. reflexivity.
    - intros p Hp.
      rewrite Fi by (intros <-; exact Hp). rewrite Fh by (intros <-; exact Hp).
      rewrite I4 by (intros j ->; exact Hp). subst wf. cbn [gpu with_self].
      rewrite Fe by (intros <-; exact Hp). rewrite Fd by (intros <-; exact Hp).
      rewrite Fc by (intros <-; exact Hp). rewrite Fb by (intros <-; exact Hp).
      reflexivity.
    - rewrite Qi, Qh, I5. subst wf. cbn [stream with_self]. rewrite Qe, Qd, Qc, Qb.
      reflexivity. }
  split; [exact (model_ready_rebinds L w wi RB MR)|]. split; [|exact RB].
  unfold test_buffers, extent. subst wf.
  split; [back; exact Gb|]. split; [back; exact Xc|]. split; [back; exact Xd|].
  split; [back; exact Xe|].
  split; [rewrite Si, Sh; exact I1|].
  split; [|split; [back; exact Gh|exact Gi]].
  intros k Hk. rewrite Fi, Fh by discriminate. apply I2. exact Hk.
Qed.

End ScoreInit.

(** ** Scoring *)

Lemma to_int32_is_int32 x : is_int32 (to_int32 x).
Proof.
  unfold is_int32, to_int32.
  pose proof (Z.mod_pos_bound (x + 2 ^ 31) (2 ^ 32) ltac:(lia)). lia.
Qed.

Lemma matrix_zeros r c : matrix r c (np_zeros2 r c).
Proof.
  exists (replicate r (replicate c 0)). split; [reflexivity|].
  split; [apply length_replicate|]. apply Forall_replicate.
  split; [apply length_replicate|]. apply Forall_replicate. unfold is_int32. lia.
Qed.

Section Scoring.
Context `{B : Backend}.
Variable L : layout.
Variable g : Graphs.

(** A ready model whose test side is bound to [g] can run [_evaluate] on the
    test buffers. *)
Lemma evaluable_test w :
  model_ready L w -> test_buffers L g w ->
  evaluable w (L_depth L) (message_ta_buffers L)
    current_clause_node_output_test_gpu next_clause_node_output_test_gpu
    number_of_graph_node_edges_test_gpu edge_test_gpu clause_X_int_test_gpu
    (clause_X_test_buffers L) encoded_X_test_gpu.
Proof.
  intros (M1 & M2 & M3 & M4 & M5 & M6 & M7 & M8 & M9 & M10 & M11 & M12 & M13 & M14 & M15)
         (T1 & T2 & T3 & T4 & T5 & T6 & T7 & T8).
  assert (A : forall p n, extent w p = Some n -> allocated w p).
  { intros p n. unfold extent, allocated. destruct (gpu w p); [eauto|discriminate]. }
  assert (G : forall p buf, gpu w p = Some buf -> allocated w p).
  { intros p buf E. unfold allocated. eauto. }
  repeat match goal with H : Forall _ (_ :: _) |- _ => inversion H; clear H; subst end.
  unfold evaluable.
  split; [eauto|]. split; [exact M3|].
  split; [exists (L_outputs L), (Z.to_nat (L_outputs L)); auto|].
  split; [exact M12|].
  unfold message_ta_buffers, clause_X_test_buffers in *.
  rewrite !length_map, !length_seq.
  split; [lia|]. split; [lia|]. split; [exact M13|]. split.
  - apply Forall_forall. intros p Hp. apply in_map_iff in Hp as (k & <- & Hk).
    apply in_seq in Hk. eapply A, T6. lia.
  - repeat constructor; eauto.
Qed.

Lemma same_layout_extent w w' p n : same_layout w w' -> extent w p = Some n -> extent w' p = Some n.
Proof. intros [_ E] H. rewrite E. exact H. Qed.

Lemma extent_buffer w p n : extent w p = Some n -> exists buf, gpu w p = Some buf /\ length buf = n.
Proof.
  unfold extent. destruct (gpu w p) as [buf|]; [|discriminate].
  intros [= <-]. eauto.
Qed.

Lemma score_ready_bound w : model_ready L w -> test_buffers L g w -> score_ready L w.
Proof.
  intros MR TB. split; [apply evaluable_test; assumption|].
  destruct TB as (_ & _ & _ & _ & T5 & _).
  destruct MR as (_ & _ & _ & M4 & M5 & _ & _ & _ & _ & _ & _ & _ & _ & _ & M15).
  auto.
Qed.

Lemma score_ready_layout w w' : same_layout w w' -> score_ready L w -> score_ready L w'.
Proof.
  intros Lw (EV & X & O & P & C). pose proof Lw as [Q E].
  split; [eapply evaluable_layout; eassumption|]. rewrite Q, E. auto.
Qed.

(** [evaluate_test] returns on such a world. *)
Lemma evaluate_test_returns w e :
  graphs_ok g -> score_ready L w -> (e < number_of_graphs g)%nat ->
  exists p w', CommonTsetlinMachine.evaluate_test g e w = (inr p, w') /\ same_layout w w'.
Proof.
  intros GO (EV & T5 & _) He. destruct GO as (_ & _ & _ & _ & _ & _ & _ & G8).
  destruct (G8 e He) as (n & ni & ei & Hn & Hni & Hei).
  unfold CommonTsetlinMachine.evaluate_test, CommonTsetlinMachine.example_args.
  rewrite !bind_assoc, (bind_index _ _ _ _ _ Hn).
  rewrite !bind_assoc, (bind_index _ _ _ _ _ Hni).
  rewrite !bind_assoc, (bind_index _ _ _ _ _ Hei). run_cbn.
  erewrite bind_getattr by exact T5.
  destruct (evaluate_returns w _ _ _ _ _ _ _ _ _ g (np_int32 n) (np_int32 ni) (np_int32 ei) EV)
    as (w' & E & Lw & _).
  eauto.
Qed.

(** One iteration of the loop of [_score]. *)
Lemma score_row_returns w e cs :
  graphs_ok g -> score_ready L w -> (e < number_of_graphs g)%nat ->
  matrix (number_of_graphs g) (Z.to_nat (L_outputs L)) cs ->
  exists cs' w',
    (row <- lift (get_row cs e) ;;
     memcpy_htod class_sum_gpu row ;;
     CommonTsetlinMachine.evaluate_test g e ;;
     row <- memcpy_dtoh int32 (length row) class_sum_gpu ;;
     lift (set_row cs e row)) w = (inr cs', w') /\
    matrix (number_of_graphs g) (Z.to_nat (L_outputs L)) cs' /\ same_layout w w'.
Proof.
  intros GO SR He (rows & -> & Hr & Hrows).
  destruct (lookup_lt_is_Some_2 rows e ltac:(lia)) as [row Hrow].
  pose proof (Forall_lookup_1 _ _ _ _ Hrows Hrow) as [Hlen _].
  rewrite (bind_lift _ row) by (cbn [get_row]; rewrite Hrow; reflexivity).
  pose proof SR as (_ & _ & _ & _ & M15).
  destruct (extent_buffer _ _ _ M15) as (buf & G & Hbuf).
  assert (Lz : (length row <= length buf)%nat) by lia.
  rewrite (bind_ok _ _ _ _ _ (memcpy_htod_run _ _ _ _ G Lz)).
  pose proof (memcpy_htod_layout _ _ _ _ G Lz) as L1.
  match type of L1 with same_layout _ ?x => set (w1 := x) in * end.
  destruct (evaluate_test_returns w1 e GO (score_ready_layout _ _ L1 SR) He)
    as (p & w2 & E2 & L2).
  rewrite (bind_ok _ _ _ _ _ E2).
  pose proof (same_layout_trans _ _ _ L1 L2) as L12.
  destruct (extent_buffer _ _ _ (same_layout_extent _ _ _ _ L12 M15)) as (buf2 & G2 & Hbuf2).
  rewrite (bind_ok _ _ _ _ _ (memcpy_dtoh_run int32 (length row) _ _ _ G2 ltac:(lia))).
  cbn [set_row].
  assert (E1 : (e <? length rows)%nat = true) by (apply Nat.ltb_lt; lia).
  assert (E3 : (length (map (reinterpret int32) (take (length row) buf2))
                =? Z.to_nat (L_outputs L))%nat = true).
  { apply Nat.eqb_eq. rewrite length_map, length_take. lia. }
  rewrite E1, E3. cbn [lift ret].
  eexists _, w2. split; [reflexivity|]. split; [|exact L12].
  eexists. split; [reflexivity|]. split; [rewrite length_insert; exact Hr|].
  apply Forall_insert; [exact Hrows|].
  split; [apply Nat.eqb_eq; exact E3|].
  apply Forall_map, Forall_forall. intros x _. apply to_int32_is_int32.
Qed.

(** [_score] returns the class sums of every example, one row each. *)
Lemma score_returns w :
  scorable L g w ->
  exists a w',
    CommonTsetlinMachine._score g w = (inr a, w') /\
    matrix (number_of_graphs g) (Z.to_nat (L_outputs L)) a.
Proof.
  intros Hs. pose proof Hs as (_ & GO & _).
  destruct (score_init_returns L g w Hs) as (w1 & E1 & MR & TB & _).
  pose proof (score_ready_bound w1 MR TB) as SR.
  unfold CommonTsetlinMachine._score. rewrite (bind_ok _ _ _ _ _ E1).
  pose proof SR as (_ & _ & O & P & _).
  erewrite bind_getattr by exact O. rewrite bind_as_size by exact P.
  destruct (for_range_with_returns
    (fun _ cs w' =>
       matrix (number_of_graphs g) (Z.to_nat (L_outputs L)) cs /\ same_layout w1 w')
    (number_of_graphs g)
    (fun e class_sum =>
       row <- lift (get_row class_sum e) ;;
       memcpy_htod class_sum_gpu row ;;
       CommonTsetlinMachine.evaluate_test g e ;;
       row <- memcpy_dtoh int32 (length row) class_sum_gpu ;;
       lift (set_row class_sum e row)))
    with (s := np_zeros2 (number_of_graphs g) (Z.to_nat (L_outputs L))) (w := w1)
    as (a & w' & E & Ma & _).
  - intros e cs w0 He (Mcs & L0).
    destruct (score_row_returns w0 e cs GO (score_ready_layout _ _ L0 SR) He Mcs)
      as (cs' & w0' & E0 & M0 & L0').
    exists cs', w0'. split; [exact E0|]. split; [exact M0|].
    eapply same_layout_trans; eassumption.
  - split; [apply matrix_zeros|apply same_layout_refl].
  - eauto.
Qed.

End Scoring.

Section Shape.
Context `{B : Backend}.

Lemma column0_vector r c a :
  (0 < c)%nat -> matrix r c a -> exists v, column0 a = inr v /\ vector r v.
Proof.
  intros Hc (rows & -> & Hr & Hrows). cbn [column0].
  assert (E : (0 <? c)%nat = true) by (apply Nat.ltb_lt; exact Hc). rewrite E.
  eexists. split; [reflexivity|]. eexists. split; [reflexivity|].
  split; [rewrite length_map; exact Hr|].
  apply Forall_map. eapply Forall_impl; [|exact Hrows].
  intros [|x row] [Hlen Hrow]; [cbn in Hlen; lia|].
  cbn. inversion Hrow. assumption.
Qed.

(** C7, as amended: on an initialized model and a graph set it can score,
    [score] of the multi-class and of the multi-output machine returns the
    [np.int32] matrix of class sums, one row per example and one column per
    output; [score] of the single-output machine returns the first column of
    that matrix as a rank-one array with one entry per example. *)
Theorem score_shape L g w :
  scorable L g w ->
  (exists a w',
      MultiClassGraphTsetlinMachine.score g w = (inr a, w') /\
      matrix (number_of_graphs g) (Z.to_nat (L_outputs L)) a /\
      shape a = [number_of_graphs g; Z.to_nat (L_outputs L)]) /\
  (exists a w',
      MultiOutputGraphTsetlinMachine.score g w = (inr a, w') /\
      matrix (number_of_graphs g) (Z.to_nat (L_outputs L)) a /\
      shape a = [number_of_graphs g; Z.to_nat (L_outputs L)]) /\
  (0 < L_outputs L ->
   exists a v w',
     CommonTsetlinMachine._score g w = (inr a, w') /\
     GraphTsetlinMachine.score g w = (inr v, w') /\
     column0 a = inr v /\ vector (number_of_graphs g) v /\
     shape v = [number_of_graphs g]).
Proof.
  intros Hs. destruct (score_returns L g w Hs) as (a & w' & E & Ma).
  assert (Sa : shape a = [number_of_graphs g; Z.to_nat (L_outputs L)]).
  { destruct Ma as (rows & -> & Hr & _). cbn [shape]. rewrite Hr. reflexivity. }
  split; [exists a, w'; auto|]. split; [exists a, w'; auto|].
  intros Ho.
  destruct (column0_vector (number_of_graphs g) (Z.to_nat (L_outputs L)) a ltac:(lia) Ma)
    as (v & Ev & Hv).
  exists a, v, w'. split; [exact E|].
  split; [unfold GraphTsetlinMachine.score; rewrite (bind_ok _ _ _ _ _ E), Ev; reflexivity|].
  split; [exact Ev|]. split; [exact Hv|].
  destruct Hv as (l & -> & Hl & _). cbn [shape]. rewrite Hl. reflexivity.
Qed.

End Shape.

(** ** Scoring at the toy machines *)

Lemma toy_graphs_ok : graphs_ok Toy.graphs.
Proof.
  unfold graphs_ok, well_formed.
  repeat (split; [concrete|]).
  intros e He. change (number_of_graphs Toy.graphs) with 2%nat in He.
  destruct e as [|[|e]]; [exists 2%nat, 0%nat, 0%nat|exists 2%nat, 2%nat, 2%nat|lia];
    repeat split; reflexivity.
Defined.

Lemma toy_model_ready : model_ready trained_layout (Toy.trained 2).
Proof.
  unfold model_ready.
  repeat (split; [concrete|]).
  split; [repeat constructor; concrete|]. split; [repeat constructor; concrete|concrete].
Defined.

Lemma toy_scorable : scorable trained_layout Toy.graphs (Toy.trained 2).
Proof.
  split; [exact toy_model_ready|]. split; [exact toy_graphs_ok|].
  exists np_array_nil. split; [concrete|]. intros H. vm_compute in H. discriminate H.
Defined.

Lemma score_shape_witness :
  scorable trained_layout Toy.graphs (Toy.trained 2) /\
  exists a w',
    MultiClassGraphTsetlinMachine.score (B := Toy.backend) Toy.graphs (Toy.trained 2)
    = (inr a, w') /\
    matrix (number_of_graphs Toy.graphs) (Z.to_nat (L_outputs trained_layout)) a /\
    shape a = [number_of_graphs Toy.graphs; Z.to_nat (L_outputs trained_layout)].
Proof.
  split; [exact toy_scorable|].
  exact (proj1 (score_shape (B := Toy.backend) trained_layout Toy.graphs (Toy.trained 2)
                  toy_scorable)).
Defined.

(** The single-output machine has one output and scores two examples; what
    [score] returns has shape [(2,)], not [(2, 1)]. *)
Lemma binary_score_is_a_vector :
  self Toy.trained_binary self_initialized = Some true /\
  self Toy.trained_binary self_number_of_outputs = Some 1 /\
  number_of_graphs Toy.graphs = 2%nat /\
  exists a,
    fst (GraphTsetlinMachine.score (B := Toy.backend) Toy.graphs Toy.trained_binary) = inr a /\
    shape a = [2%nat] /\ shape a <> [2%nat; 1%nat] /\ ~ matrix 2 1 a.
Proof.
  split; [concrete|]. split; [concrete|]. split; [reflexivity|].
  exists (Arr1 [39579298; 822510836]).
  split; [vm_compute; reflexivity|]. split; [reflexivity|].
  split; [discriminate|]. intros (rows & H & _). discriminate H.
Qed.

(** ** Two runs side by side *)

(** *** The same stores on two devices *)

Lemma stored_length a b new : length a = length b -> stored a new = stored b new.
Proof. unfold stored. intros ->. reflexivity. Qed.

Lemma store_at_agree p new (gA gB : device) q :
  length <$> gB q = length <$> gA q -> gB q = gA q ->
  store_at p new gB q = store_at p new gA q.
Proof.
  intros Hl He. rewrite !store_at_lookup.
  destruct (decide (p = q)) as [->|Hne].
  - rewrite He. reflexivity.
  - destruct (gA p), (gB p); exact He.
Qed.

Lemma store_at_written p new (gA gB : device) :
  length <$> gB p = length <$> gA p ->
  store_at p new gB p = store_at p new gA p.
Proof.
  intros Hl. rewrite !store_at_lookup.
  destruct (gA p) as [a|], (gB p) as [b|]; try discriminate; [|reflexivity].
  destruct (decide (p = p)); [|contradiction].
  f_equal. apply stored_length. injection Hl as Hl. exact Hl.
Qed.

(** After the same stores, a buffer of the same extent on both devices holds
    the same words if it did before or if it was stored to. *)
Lemma stores_agree (ws : list (dptr * list Z)) (gA gB : device) q :
  length <$> gB q = length <$> gA q ->
  gB q = gA q \/ In q (map fst ws) ->
  fold_left (fun g pn => store_at (fst pn) (snd pn) g) ws gB q
  = fold_left (fun g pn => store_at (fst pn) (snd pn) g) ws gA q.
Proof.
  revert gA gB. induction ws as [|[p new] ws IH]; intros gA gB Hl H.
  - destruct H as [H|[]]. exact H.
  - cbn [fold_left fst snd]. apply IH.
    + rewrite !store_at_extent. exact Hl.
    + cbn [map fst In] in H. destruct (decide (p = q)) as [->|Hne].
      * left. apply store_at_written. exact Hl.
      * destruct H as [H|[H|H]]; [|contradiction|right; exact H].
        left. rewrite !store_at_ne by exact Hne. exact H.
Qed.

Lemma take_stored n old new :
  (n <= length old)%nat -> take n (stored old new) = map to_uint32 (resize n 0 new).
Proof.
  intros H. unfold stored.
  change (map to_uint32) with (fmap (M := list) to_uint32).
  rewrite <- fmap_take, take_resize_le by exact H. reflexivity.
Qed.

(** After the same stores, two buffers that started with the same [n] words
    still do. *)
Lemma stores_upto n (ws : list (dptr * list Z)) (gA gB : device) q :
  (exists a b, gA q = Some a /\ gB q = Some b /\ (n <= length a)%nat /\
               (n <= length b)%nat /\ take n a = take n b) ->
  exists a b,
    fold_left (fun g pn => store_at (fst pn) (snd pn) g) ws gA q = Some a /\
    fold_left (fun g pn => store_at (fst pn) (snd pn) g) ws gB q = Some b /\
    (n <= length a)%nat /\ (n <= length b)%nat /\ take n a = take n b.
Proof.
  revert gA gB. induction ws as [|[p new] ws IH]; intros gA gB H; [exact H|].
  cbn [fold_left fst snd]. apply IH.
  destruct H as (a & b & Ha & Hb & La & Lb & E).
  destruct (decide (p = q)) as [->|Hne].
  - exists (stored a new), (stored b new).
    rewrite (store_at_eq _ _ _ _ Ha), (store_at_eq _ _ _ _ Hb), !length_stored.
    repeat (split; [first [reflexivity|assumption]|]).
    rewrite !take_stored by assumption. reflexivity.
  - exists a, b. rewrite !store_at_ne by exact Hne. auto.
Qed.

(** *** Synced worlds *)

Lemma agrees_aligned wA wB q : agrees wA wB q -> aligned wA wB q.
Proof. unfold agrees, aligned, extent. intros ->. reflexivity. Qed.

Lemma synced_read P reads writes wA wB q :
  synced P reads writes wA wB -> In q reads ->
  exists buf, gpu wA q = Some buf /\ gpu wB q = Some buf.
Proof.
  intros (_ & _ & _ & R & _) Hq. rewrite Forall_forall in R.
  destruct (R q Hq) as [[buf Hbuf] Hag]. exists buf. split; [exact Hbuf|].
  rewrite Hag. exact Hbuf.
Qed.

Lemma synced_target P reads writes wA wB q :
  synced P reads writes wA wB -> In q writes ->
  exists a b, gpu wA q = Some a /\ gpu wB q = Some b /\ length a = length b.
Proof.
  intros (_ & _ & _ & _ & W) Hq. rewrite Forall_forall in W.
  destruct (W q Hq) as [[a Ha] Hal]. unfold aligned, extent in Hal. rewrite Ha in Hal.
  destruct (gpu wB q) as [b|]; [|discriminate]. injection Hal as Hal.
  exists a, b. auto.
Qed.

Lemma synced_automata P reads writes wA wB :
  synced P reads writes wA wB -> agrees_upto (ta_extent P) wA wB ta_state_gpu.
Proof. intros (_ & _ & H & _). exact H. Qed.

Lemma synced_weaken P reads reads' writes wA wB :
  (forall q, In q reads' -> In q reads) ->
  synced P reads writes wA wB -> synced P reads' writes wA wB.
Proof.
  intros Hsub (K1 & K2 & U & R & W). repeat (split; [assumption|]).
  split; [|exact W]. rewrite Forall_forall in R |- *. auto.
Qed.

Lemma in_step_refl W wA wB : in_step W wA wB wA wB.
Proof.
  split; [apply same_layout_refl|]. split; [apply same_layout_refl|]. split; reflexivity.
Qed.

Lemma in_step_trans W wA wB wA1 wB1 wA2 wB2 :
  in_step W wA wB wA1 wB1 -> in_step W wA1 wB1 wA2 wB2 -> in_step W wA wB wA2 wB2.
Proof.
  intros (L1 & L2 & F1 & F2) (L3 & L4 & F3 & F4).
  split; [eapply same_layout_trans; eassumption|].
  split; [eapply same_layout_trans; eassumption|].
  split; intros q Hq; [rewrite F3, F1|rewrite F4, F2]; auto.
Qed.

Lemma in_step_weaken W W' wA wB wA' wB' :
  (forall q, In q W -> In q W') -> in_step W wA wB wA' wB' -> in_step W' wA wB wA' wB'.
Proof.
  intros Hsub (L1 & L2 & F1 & F2). split; [exact L1|]. split; [exact L2|].
  split; intros q Hq; [apply F1|apply F2]; intros H; apply Hq, Hsub, H.
Qed.

(** The same launch with the same stores in two synced worlds: the stored
    buffers join the ones that agree. *)
Lemma launched_synced P reads writes k args ws wA wB :
  synced P reads writes wA wB ->
  (forall q, In q (map fst ws) -> In q writes \/ In q reads) ->
  synced P (map fst ws ++ reads) writes (launched k args ws wA) (launched k args ws wB) /\
  in_step (map fst ws) wA wB (launched k args ws wA) (launched k args ws wB).
Proof.
  intros Hs Hws. pose proof Hs as (K1 & K2 & U & R & W).
  assert (Al : forall q, In q (map fst ws) -> allocated wA q /\ aligned wA wB q).
  { intros q Hq. destruct (Hws q Hq) as [H|H].
    - rewrite Forall_forall in W. apply W. exact H.
    - rewrite Forall_forall in R. destruct (R q H) as [H1 H2].
      split; [exact H1|apply agrees_aligned; exact H2]. }
  assert (A' : forall q, allocated wA q -> allocated (launched k args ws wA) q).
  { intros q. apply same_layout_allocated, launched_layout. }
  split.
  - split; [exact K1|]. split; [exact K2|]. split; [|split].
    + unfold agrees_upto, launched. cbn [gpu with_gpu with_stream].
      apply stores_upto. exact U.
    + apply Forall_app. split; apply Forall_forall; intros q Hq.
      * destruct (Al q Hq) as [H1 H2]. split; [apply A'; exact H1|].
        unfold agrees, launched. cbn [gpu with_gpu with_stream].
        apply stores_agree; [exact H2|right; exact Hq].
      * rewrite Forall_forall in R. destruct (R q Hq) as [H1 H2].
        split; [apply A'; exact H1|].
        unfold agrees, launched. cbn [gpu with_gpu with_stream].
        apply stores_agree; [apply agrees_aligned; exact H2|left; exact H2].
    + apply Forall_forall. intros q Hq. rewrite Forall_forall in W.
      destruct (W q Hq) as [H1 H2]. split; [apply A'; exact H1|].
      unfold aligned. rewrite !launched_extent. exact H2.
  - split; [apply launched_layout|]. split; [apply launched_layout|].
    split; intros q Hq; apply launched_ne, Forall_forall; intros pn Hpn E;
      apply Hq; rewrite <- E; apply in_map; exact Hpn.
Qed.

(** A synced world pair carried along steps that keep the layout. *)
Lemma in_step_allocated W wA wB wA' wB' q :
  in_step W wA wB wA' wB' -> allocated wA q -> allocated wA' q.
Proof. intros (L1 & _) H. eapply same_layout_allocated; eassumption. Qed.

Lemma in_step_aligned W wA wB wA' wB' q :
  in_step W wA wB wA' wB' -> aligned wA wB q -> aligned wA' wB' q.
Proof.
  intros ([_ E1] & [_ E2] & _) H. unfold aligned in *. rewrite E1, E2. exact H.
Qed.

(** *** The launches of one pass, in two synced worlds *)

Section Launches.
Context `{B : Backend}.
Variable P : params.
Hypothesis frames : kernel_frames P.
Variables reads writes : list dptr.

Ltac by_launch :=
  match goal with
  | Hs : synced _ _ _ ?wA ?wB |- context [launched ?k ?args ?ws ?wA] =>
      let H := fresh in
      destruct (launched_synced _ _ _ k args ws wA wB Hs) as [H ?];
      [ cbn [map fst In]; intros ? ?;
        repeat match goal with
               | X : _ \/ _ |- _ => destruct X
               | X : False |- _ => destruct X
               end; subst; auto
      | split; [exact H|assumption] ]
  end.

Lemma calculate_messages_lockstep wA wB n ni cur incl X :
  synced P reads writes wA wB -> In cur writes -> In incl writes -> In X reads ->
  exists wA' wB',
    CommonTsetlinMachine.calculate_messages ta_state_gpu n ni cur incl X wA = (inr tt, wA') /\
    CommonTsetlinMachine.calculate_messages ta_state_gpu n ni cur incl X wB = (inr tt, wB') /\
    synced P ([cur; incl] ++ reads) writes wA' wB' /\ in_step [cur; incl] wA wB wA' wB'.
Proof.
  intros Hs Hc Hi Hx. pose proof Hs as (K1 & K2 & _).
  destruct (synced_automata _ _ _ _ _ Hs) as (a & b & Ha & Hb & _ & _ & E).
  destruct (synced_target _ _ _ _ _ _ Hs Hc) as (cA & cB & HcA & HcB & Lc).
  destruct (synced_target _ _ _ _ _ _ Hs Hi) as (iA & iB & HiA & HiB & Li).
  destruct (synced_read _ _ _ _ _ _ Hs Hx) as (x & HxA & HxB).
  rewrite (calculate_messages_run wA P _ n ni _ _ _ a cA iA x K1 Ha HcA HiA HxA).
  rewrite (calculate_messages_run wB P _ n ni _ _ _ b cB iB x K2 Hb HcB HiB HxB).
  rewrite (frame_calculate_messages P frames b a n ni cB cA iB iA x) by auto.
  eexists _, _. split; [reflexivity|]. split; [reflexivity|]. by_launch.
Qed.

Lemma prepare_messages_lockstep wA wB n msg_int :
  synced P reads writes wA wB -> In msg_int writes ->
  exists wA' wB',
    CommonTsetlinMachine.prepare_messages n msg_int wA = (inr tt, wA') /\
    CommonTsetlinMachine.prepare_messages n msg_int wB = (inr tt, wB') /\
    synced P ([msg_int] ++ reads) writes wA' wB' /\ in_step [msg_int] wA wB wA' wB'.
Proof.
  intros Hs Hm. pose proof Hs as (K1 & K2 & _).
  destruct (synced_target _ _ _ _ _ _ Hs Hm) as (mA & mB & HmA & HmB & Lm).
  rewrite (prepare_messages_run wA P n _ mA K1 HmA).
  rewrite (prepare_messages_run wB P n _ mB K2 HmB).
  rewrite (frame_prepare_messages P frames n mB mA) by auto.
  eexists _, _. split; [reflexivity|]. split; [reflexivity|]. by_launch.
Qed.

Lemma exchange_messages_lockstep wA wB n hv cur ni ei nedges edges msg_int :
  synced P reads writes wA wB ->
  In hv reads -> In cur reads -> In nedges reads -> In edges reads -> In msg_int reads ->
  exists wA' wB',
    CommonTsetlinMachine.exchange_messages n hv cur ni ei nedges edges msg_int wA
    = (inr tt, wA') /\
    CommonTsetlinMachine.exchange_messages n hv cur ni ei nedges edges msg_int wB
    = (inr tt, wB') /\
    synced P ([msg_int] ++ reads) writes wA' wB' /\ in_step [msg_int] wA wB wA' wB'.
Proof.
  intros Hs Hh Hc Hd He Hm. pose proof Hs as (K1 & K2 & _).
  destruct (synced_read _ _ _ _ _ _ Hs Hh) as (h & HhA & HhB).
  destruct (synced_read _ _ _ _ _ _ Hs Hc) as (c & HcA & HcB).
  destruct (synced_read _ _ _ _ _ _ Hs Hd) as (d & HdA & HdB).
  destruct (synced_read _ _ _ _ _ _ Hs He) as (e & HeA & HeB).
  destruct (synced_read _ _ _ _ _ _ Hs Hm) as (m & HmA & HmB).
  rewrite (exchange_messages_run wA P n _ _ ni ei _ _ _ h c d e m K1 HhA HcA HdA HeA HmA).
  rewrite (exchange_messages_run wB P n _ _ ni ei _ _ _ h c d e m K2 HhB HcB HdB HeB HmB).
  eexists _, _. split; [reflexivity|]. split; [reflexivity|]. by_launch.
Qed.

Lemma encode_messages_lockstep wA wB n msg_int msg :
  synced P reads writes wA wB -> In msg_int reads -> In msg writes ->
  exists wA' wB',
    CommonTsetlinMachine.encode_messages n msg_int msg wA = (inr tt, wA') /\
    CommonTsetlinMachine.encode_messages n msg_int msg wB = (inr tt, wB') /\
    synced P ([msg] ++ reads) writes wA' wB' /\ in_step [msg] wA wB wA' wB'.
Proof.
  intros Hs Hm Hx. pose proof Hs as (K1 & K2 & _).
  destruct (synced_read _ _ _ _ _ _ Hs Hm) as (m & HmA & HmB).
  destruct (synced_target _ _ _ _ _ _ Hs Hx) as (xA & xB & HxA & HxB & Lx).
  rewrite (encode_messages_run wA P n _ _ m xA K1 HmA HxA).
  rewrite (encode_messages_run wB P n _ _ m xB K2 HmB HxB).
  rewrite (frame_encode_messages P frames n m xB xA) by auto.
  eexists _, _. split; [reflexivity|]. split; [reflexivity|]. by_launch.
Qed.

Lemma calculate_messages_conditional_lockstep wA wB msg_ta n cur nxt incl msg :
  synced P reads writes wA wB ->
  In msg_ta reads -> In cur reads -> In nxt writes -> In incl reads -> In msg reads ->
  exists wA' wB',
    CommonTsetlinMachine.calculate_messages_conditional msg_ta n cur nxt incl msg wA
    = (inr tt, wA') /\
    CommonTsetlinMachine.calculate_messages_conditional msg_ta n cur nxt incl msg wB
    = (inr tt, wB') /\
    synced P ([nxt; incl] ++ reads) writes wA' wB' /\ in_step [nxt; incl] wA wB wA' wB'.
Proof.
  intros Hs Ha Hc Hx Hi Hm. pose proof Hs as (K1 & K2 & _).
  destruct (synced_read _ _ _ _ _ _ Hs Ha) as (a & HaA & HaB).
  destruct (synced_read _ _ _ _ _ _ Hs Hc) as (c & HcA & HcB).
  destruct (synced_target _ _ _ _ _ _ Hs Hx) as (xA & xB & HxA & HxB & Lx).
  destruct (synced_read _ _ _ _ _ _ Hs Hi) as (i & HiA & HiB).
  destruct (synced_read _ _ _ _ _ _ Hs Hm) as (m & HmA & HmB).
  rewrite (calculate_messages_conditional_run wA P _ n _ _ _ _ a c xA i m
             K1 HaA HcA HxA HiA HmA).
  rewrite (calculate_messages_conditional_run wB P _ n _ _ _ _ a c xB i m
             K2 HaB HcB HxB HiB HmB).
  rewrite (frame_calculate_messages_conditional P frames a n c xB xA i m) by auto.
  eexists _, _. split; [reflexivity|]. split; [reflexivity|]. by_launch.
Qed.

Lemma evaluate_lockstep wA wB cur weights n class_sum :
  synced P reads writes wA wB -> In cur reads -> In weights reads -> In class_sum reads ->
  exists wA' wB',
    CommonTsetlinMachine.evaluate cur weights n class_sum wA = (inr tt, wA') /\
    CommonTsetlinMachine.evaluate cur weights n class_sum wB = (inr tt, wB') /\
    synced P ([class_sum] ++ reads) writes wA' wB' /\ in_step [class_sum] wA wB wA' wB'.
Proof.
  intros Hs Hc Hv Hx. pose proof Hs as (K1 & K2 & _).
  destruct (synced_read _ _ _ _ _ _ Hs Hc) as (c & HcA & HcB).
  destruct (synced_read _ _ _ _ _ _ Hs Hv) as (v & HvA & HvB).
  destruct (synced_read _ _ _ _ _ _ Hs Hx) as (x & HxA & HxB).
  rewrite (evaluate_run wA P _ _ n _ c v x K1 HcA HvA HxA).
  rewrite (evaluate_run wB P _ _ n _ c v x K2 HcB HvB HxB).
  eexists _, _. split; [reflexivity|]. split; [reflexivity|]. by_launch.
Qed.

End Launches.

(** The same copy into a buffer that it fills in two synced worlds. *)
Lemma memcpy_htod_lockstep P reads writes wA wB p src :
  synced P reads writes wA wB -> In p writes -> p <> ta_state_gpu ->
  extent wA p = Some (length src) ->
  exists wA' wB',
    memcpy_htod p src wA = (inr tt, wA') /\ memcpy_htod p src wB = (inr tt, wB') /\
    synced P ([p] ++ reads) writes wA' wB' /\ in_step [p] wA wB wA' wB'.
Proof.
  intros Hs Hp Hne Hx. pose proof Hs as (K1 & K2 & U & R & W).
  destruct (synced_target _ _ _ _ _ _ Hs Hp) as (a & b & Ha & Hb & Lab).
  assert (La : length a = length src).
  { unfold extent in Hx. rewrite Ha in Hx. injection Hx as Hx. exact Hx. }
  rewrite (memcpy_htod_run p src a wA Ha) by lia.
  rewrite (memcpy_htod_run p src b wB Hb) by lia.
  pose proof (memcpy_htod_layout p src a wA Ha ltac:(lia)) as LA.
  pose proof (memcpy_htod_layout p src b wB Hb ltac:(lia)) as LB.
  rewrite !drop_ge in * by lia.
  eexists _, _. split; [reflexivity|]. split; [reflexivity|].
  assert (Ap : forall q, allocated wA q ->
                 allocated (with_gpu <[p:=Some (map to_uint32 src ++ [])]> wA) q).
  { intros q. apply same_layout_allocated. exact LA. }
  assert (Gp : forall q, agrees wA wB q \/ p = q ->
                 agrees (with_gpu <[p:=Some (map to_uint32 src ++ [])]> wA)
                        (with_gpu <[p:=Some (map to_uint32 src ++ [])]> wB) q).
  { intros q Hq. unfold agrees. cbn [gpu with_gpu].
    destruct (decide (p = q)) as [<-|Hpq].
    - rewrite !fn_lookup_insert. reflexivity.
    - rewrite !fn_lookup_insert_ne by exact Hpq. destruct Hq as [Hq|Hq]; [exact Hq|].
      contradiction. }
  split; [split; [exact K1|split; [exact K2|split; [|split]]]|].
  - unfold agrees_upto. cbn [gpu with_gpu]. rewrite !fn_lookup_insert_ne by exact Hne.
    exact U.
  - apply Forall_app. split.
    + constructor; [|constructor]. rewrite Forall_forall in W. destruct (W p Hp) as [H1 _].
      split; [apply Ap; exact H1|apply Gp; right; reflexivity].
    + eapply Forall_impl; [|exact R]. intros q [H1 H2].
      split; [apply Ap; exact H1|apply Gp; left; exact H2].
  - eapply Forall_impl; [|exact W]. intros q [H1 H2]. split; [apply Ap; exact H1|].
    destruct LA as [_ EA], LB as [_ EB]. unfold aligned. rewrite EA, EB. exact H2.
  - split; [exact LA|]. split; [exact LB|].
    split; intros q Hq; cbn [gpu with_gpu]; apply fn_lookup_insert_ne;
      intros ->; apply Hq; left; reflexivity.
Qed.

(** The same read of a buffer on which two worlds agree. *)
Lemma memcpy_dtoh_lockstep P reads writes wA wB t n p no :
  synced P reads writes wA wB -> In p reads -> extent wA p = Some no -> (n <= no)%nat ->
  exists row,
    memcpy_dtoh t n p wA = (inr row, wA) /\ memcpy_dtoh t n p wB = (inr row, wB) /\
    length row = n /\ Forall (fun x => exists y, x = reinterpret t y) row.
Proof.
  intros Hs Hp Hx Hn. destruct (synced_read _ _ _ _ _ _ Hs Hp) as (buf & HA & HB).
  assert (Lb : length buf = no).
  { unfold extent in Hx. rewrite HA in Hx. injection Hx as Hx. exact Hx. }
  rewrite (memcpy_dtoh_run t n p buf wA HA) by lia.
  rewrite (memcpy_dtoh_run t n p buf wB HB) by lia.
  eexists. split; [reflexivity|]. split; [reflexivity|].
  split; [rewrite length_map, length_take; lia|].
  apply Forall_map, Forall_forall. intros x _. eauto.
Qed.

(** [for x in l] in two worlds, with an invariant on the pair. *)
Lemma for_each_with_lockstep {A S} (I : nat -> S -> world -> world -> Prop) (l : list A) body :
  (forall k x s wA wB, l !! k = Some x -> I k s wA wB ->
     exists s' wA' wB', body x s wA = (inr s', wA') /\ body x s wB = (inr s', wB') /\
                        I (Datatypes.S k) s' wA' wB') ->
  forall s wA wB, I 0%nat s wA wB ->
    exists s' wA' wB',
      for_each_with l s body wA = (inr s', wA') /\
      for_each_with l s body wB = (inr s', wB') /\ I (length l) s' wA' wB'.
Proof.
  revert I. induction l as [|x l IH]; intros I Hbody s wA wB H0.
  - exists s, wA, wB. auto.
  - destruct (Hbody 0%nat x s wA wB eq_refl H0) as (s1 & wA1 & wB1 & EA & EB & H1).
    destruct (IH (fun k => I (Datatypes.S k))) with (s := s1) (wA := wA1) (wB := wB1)
      as (s2 & wA2 & wB2 & EA2 & EB2 & H2); [|exact H1|].
    + intros k y s0 wA0 wB0 Hk. apply Hbody. exact Hk.
    + exists s2, wA2, wB2. cbn [for_each_with].
      rewrite (bind_ok _ _ _ _ _ EA), (bind_ok _ _ _ _ _ EB). auto.
Qed.

Lemma for_range_with_lockstep {S} (I : nat -> S -> world -> world -> Prop) n body :
  (forall i s wA wB, (i < n)%nat -> I i s wA wB ->
     exists s' wA' wB', body i s wA = (inr s', wA') /\ body i s wB = (inr s', wB') /\
                        I (Datatypes.S i) s' wA' wB') ->
  forall s wA wB, I 0%nat s wA wB ->
    exists s' wA' wB',
      for_range_with n s body wA = (inr s', wA') /\
      for_range_with n s body wB = (inr s', wB') /\ I n s' wA' wB'.
Proof.
  intros Hbody s wA wB H0. unfold for_range_with.
  destruct (for_each_with_lockstep I (seq 0 n) body) with (s := s) (wA := wA) (wB := wB)
    as (s' & wA' & wB' & EA & EB & H); [|exact H0|].
  - intros k x s0 wA0 wB0 Hk. apply lookup_seq in Hk as [-> Hk]. apply Hbody. exact Hk.
  - rewrite length_seq in H. exists s', wA', wB'. auto.
Qed.

(** *** One pass in two synced worlds *)

(** Membership in the lists of buffers of a pass. *)
Ltac member :=
  unfold pass_reads, pass_writes; cbn [app In];
  repeat first [ assumption | left; reflexivity | right ].

Ltac sublist :=
  let q := fresh "q" in
  let H := fresh "H" in
  intros q H; unfold pass_reads, pass_writes in H |- *; cbn [app In] in H |- *;
  intuition (subst; repeat first [ assumption | left; reflexivity | right ]).

Lemma lookup_In {A} (l : list A) k x : l !! k = Some x -> In x l.
Proof. intros H. eapply list_elem_of_In, list_elem_of_lookup_2. exact H. Qed.

Section Pass.
Context `{B : Backend}.
Variable P : params.
Hypothesis frames : kernel_frames P.
Variables (depth : nat) (outputs : Z) (msg_tas : list dptr).
Variables (cur nxt nedges edge msg_int : dptr) (clause_X : list dptr) (features : dptr).

Abbreviation R := (class_sum_gpu :: pass_reads nedges edge msg_tas features).
Abbreviation W := (pass_writes cur nxt msg_int clause_X).

(** One round of the loop of [_evaluate]: it reads [c], on which the worlds
    agree, and leaves them agreeing on [x]. *)
Lemma round_lockstep wA wB n ni ei k c x :
  synced P (c :: number_of_include_actions :: R) W wA wB ->
  self wA self_message_ta_state_gpu = Some msg_tas ->
  self wB self_message_ta_state_gpu = Some msg_tas ->
  (k < length msg_tas)%nat -> (k < length clause_X)%nat -> In x W ->
  exists wA' wB',
    (CommonTsetlinMachine.prepare_messages n msg_int ;;
     synchronize ;;
     CommonTsetlinMachine.exchange_messages n hypervectors_gpu c ni ei nedges edge msg_int ;;
     synchronize ;;
     msg <- index clause_X k ;;
     CommonTsetlinMachine.encode_messages n msg_int msg ;;
     synchronize ;;
     l <- getattr self_message_ta_state_gpu ;;
     msg_ta <- index l k ;;
     msg <- index clause_X k ;;
     CommonTsetlinMachine.calculate_messages_conditional msg_ta n c x
       number_of_include_actions msg ;;
     synchronize ;;
     ret (x, c)) wA = (inr (x, c), wA') /\
    (CommonTsetlinMachine.prepare_messages n msg_int ;;
     synchronize ;;
     CommonTsetlinMachine.exchange_messages n hypervectors_gpu c ni ei nedges edge msg_int ;;
     synchronize ;;
     msg <- index clause_X k ;;
     CommonTsetlinMachine.encode_messages n msg_int msg ;;
     synchronize ;;
     l <- getattr self_message_ta_state_gpu ;;
     msg_ta <- index l k ;;
     msg <- index clause_X k ;;
     CommonTsetlinMachine.calculate_messages_conditional msg_ta n c x
       number_of_include_actions msg ;;
     synchronize ;;
     ret (x, c)) wB = (inr (x, c), wB') /\
    synced P (x :: number_of_include_actions :: R) W wA' wB' /\
    in_step W wA wB wA' wB'.
Proof.
  intros S0 TA TB Hkt Hkx Hx.
  destruct (lookup_lt_is_Some_2 clause_X k Hkx) as [px Epx].
  destruct (lookup_lt_is_Some_2 msg_tas k Hkt) as [pt Ept].
  pose proof (lookup_In _ _ _ Epx) as Ipx. pose proof (lookup_In _ _ _ Ept) as Ipt.
  destruct (prepare_messages_lockstep P frames _ _ wA wB n msg_int S0 ltac:(member))
    as (wA1 & wB1 & EA1 & EB1 & S1 & T1).
  rewrite (bind_ok _ _ _ _ _ EA1), (bind_ok _ _ _ _ _ EB1). run_cbn.
  destruct (exchange_messages_lockstep P _ _ wA1 wB1 n hypervectors_gpu c ni ei nedges edge
              msg_int S1 ltac:(member) ltac:(member) ltac:(member) ltac:(member)
              ltac:(member))
    as (wA2 & wB2 & EA2 & EB2 & S2 & T2).
  rewrite (bind_ok _ _ _ _ _ EA2), (bind_ok _ _ _ _ _ EB2). run_cbn.
  rewrite !(bind_index _ _ _ _ _ Epx).
  destruct (encode_messages_lockstep P frames _ _ wA2 wB2 n msg_int px S2 ltac:(member)
              ltac:(member))
    as (wA3 & wB3 & EA3 & EB3 & S3 & T3).
  rewrite (bind_ok _ _ _ _ _ EA3), (bind_ok _ _ _ _ _ EB3). run_cbn.
  assert (I1 : forall q, In q [msg_int] -> In q W) by sublist.
  assert (I3 : forall q, In q [px] -> In q W) by sublist.
  pose proof (in_step_trans _ _ _ _ _ _ _
                (in_step_trans _ _ _ _ _ _ _
                   (in_step_weaken _ W _ _ _ _ I1 T1)
                   (in_step_weaken _ W _ _ _ _ I1 T2))
                (in_step_weaken _ W _ _ _ _ I3 T3)) as T13.
  pose proof T13 as ([QA _] & [QB _] & _).
  erewrite (bind_getattr self_message_ta_state_gpu _ _ wA3) by (rewrite QA; exact TA).
  erewrite (bind_getattr self_message_ta_state_gpu _ _ wB3) by (rewrite QB; exact TB).
  rewrite !(bind_index _ _ _ _ _ Ept), !(bind_index _ _ _ _ _ Epx).
  destruct (calculate_messages_conditional_lockstep P frames _ _ wA3 wB3 pt n c x
              number_of_include_actions px S3 ltac:(member) ltac:(member) Hx ltac:(member)
              ltac:(member))
    as (wA4 & wB4 & EA4 & EB4 & S4 & T4).
  rewrite (bind_ok _ _ _ _ _ EA4), (bind_ok _ _ _ _ _ EB4). run_cbn.
  exists wA4, wB4. split; [reflexivity|]. split; [reflexivity|]. split.
  - eapply synced_weaken; [|exact S4]. sublist.
  - eapply in_step_trans; [exact T13|].
    eapply in_step_weaken; [|exact T4].
    intros q [<-|[<-|[]]]; [exact Hx|member].
Qed.

Lemma current_after_written k : In (current_after k cur nxt) W /\ In (next_after k cur nxt) W.
Proof. unfold current_after, next_after. destruct (Nat.even k); split; member. Qed.

(** [_evaluate] in two synced worlds: both runs return, and they leave the
    same class sums. *)
Lemma pass_lockstep wA wB g n ni ei :
  synced P (pass_reads nedges edge msg_tas features) W wA wB ->
  pass_attributes depth outputs msg_tas wA -> pass_attributes depth outputs msg_tas wB ->
  (depth - 1 <= length msg_tas)%nat -> (depth - 1 <= length clause_X)%nat ->
  exists wA' wB',
    CommonTsetlinMachine._evaluate g n ni ei cur nxt nedges edge msg_int clause_X features wA
    = (inr (current_after (depth - 1) cur nxt), wA') /\
    CommonTsetlinMachine._evaluate g n ni ei cur nxt nedges edge msg_int clause_X features wB
    = (inr (current_after (depth - 1) cur nxt), wB') /\
    synced P R W wA' wB' /\ in_step W wA wB wA' wB'.
Proof.
  intros S0 (DA & OA & Po & TA & XA) (DB & OB & _ & TB & XB) Lt Lx.
  unfold CommonTsetlinMachine._evaluate.
  erewrite (bind_getattr self_number_of_outputs _ _ wA) by exact OA.
  erewrite (bind_getattr self_number_of_outputs _ _ wB) by exact OB.
  rewrite !bind_as_size by exact Po.
  assert (Hz : extent wA class_sum_gpu
               = Some (length (ravel (astype_int32 (np_zeros1 (Z.to_nat outputs)))))).
  { cbn [np_zeros1 astype_int32 ravel]. rewrite length_map, length_replicate. exact XA. }
  destruct (memcpy_htod_lockstep P _ _ wA wB class_sum_gpu _ S0 ltac:(member)
              ltac:(discriminate) Hz)
    as (wA1 & wB1 & EA1 & EB1 & S1 & T1).
  rewrite (bind_ok _ _ _ _ _ EA1), (bind_ok _ _ _ _ _ EB1).
  destruct (calculate_messages_lockstep P frames _ _ wA1 wB1 n ni cur
              number_of_include_actions features S1 ltac:(member) ltac:(member)
              ltac:(member))
    as (wA2 & wB2 & EA2 & EB2 & S2 & T2).
  rewrite (bind_ok _ _ _ _ _ EA2), (bind_ok _ _ _ _ _ EB2). run_cbn.
  assert (I1 : forall q, In q [class_sum_gpu] -> In q W) by sublist.
  assert (I2 : forall q, In q [cur; number_of_include_actions] -> In q W) by sublist.
  pose proof (in_step_trans _ _ _ _ _ _ _
                (in_step_weaken _ W _ _ _ _ I1 T1)
                (in_step_weaken _ W _ _ _ _ I2 T2)) as T12.
  pose proof T12 as ([QA _] & [QB _] & _).
  erewrite (bind_getattr self_depth _ _ wA2) by (rewrite QA; exact DA).
  erewrite (bind_getattr self_depth _ _ wB2) by (rewrite QB; exact DB).
  destruct (for_range_with_lockstep
    (fun k s wAk wBk =>
       s = (current_after k cur nxt, next_after k cur nxt) /\
       synced P (current_after k cur nxt :: number_of_include_actions :: R) W wAk wBk /\
       in_step W wA wB wAk wBk)
    (depth - 1)
    (fun k locals =>
       let '(c, x) := locals in
       CommonTsetlinMachine.prepare_messages n msg_int ;;
       synchronize ;;
       CommonTsetlinMachine.exchange_messages n hypervectors_gpu c ni ei nedges edge msg_int ;;
       synchronize ;;
       msg <- index clause_X k ;;
       CommonTsetlinMachine.encode_messages n msg_int msg ;;
       synchronize ;;
       l <- getattr self_message_ta_state_gpu ;;
       msg_ta <- index l k ;;
       msg <- index clause_X k ;;
       CommonTsetlinMachine.calculate_messages_conditional msg_ta n c x
         number_of_include_actions msg ;;
       synchronize ;;
       ret (x, c))) with (s := (cur, nxt)) (wA := wA2) (wB := wB2)
    as (s3 & wA3 & wB3 & EA3 & EB3 & -> & S3 & T3).
  - intros k s wAk wBk Hk (-> & Sk & Tk).
    pose proof Tk as ([QAk _] & [QBk _] & _).
    destruct (round_lockstep wAk wBk n ni ei k (current_after k cur nxt)
                (next_after k cur nxt) Sk)
      as (wAk' & wBk' & EAk & EBk & Sk' & Tk');
      [rewrite QAk; exact TA|rewrite QBk; exact TB|lia|lia|
       apply current_after_written|].
    exists (next_after k cur nxt, current_after k cur nxt), wAk', wBk'.
    split; [exact EAk|]. split; [exact EBk|].
    rewrite current_after_S, next_after_S. split; [reflexivity|].
    split; [exact Sk'|]. eapply in_step_trans; eassumption.
  - split; [reflexivity|]. split; [exact S2|exact T12].
  - rewrite (bind_ok _ _ _ _ _ EA3), (bind_ok _ _ _ _ _ EB3).
    destruct (evaluate_lockstep P _ _ wA3 wB3 (current_after (depth - 1) cur nxt)
                clause_weights_gpu n class_sum_gpu S3 ltac:(member) ltac:(member)
                ltac:(member))
      as (wA4 & wB4 & EA4 & EB4 & S4 & T4).
    rewrite (bind_ok _ _ _ _ _ EA4), (bind_ok _ _ _ _ _ EB4). run_cbn.
    exists wA4, wB4. split; [reflexivity|]. split; [reflexivity|]. split.
    + eapply synced_weaken; [|exact S4]. sublist.
    + eapply in_step_trans; [exact T3|]. eapply in_step_weaken; [|exact T4]. exact I1.
Qed.

End Pass.

(** *** The loop of [_score] in two synced worlds *)

Section Rows.
Context `{B : Backend}.
Variable L : layout.
Variable g : Graphs.
Hypothesis frames : kernel_frames (L_kernels L).
Hypothesis graphs_fine : graphs_ok g.

Lemma score_ready_attributes w :
  score_ready L w ->
  pass_attributes (L_depth L) (L_outputs L) (message_ta_buffers L) w /\
  self w self_clause_X_test_gpu = Some (clause_X_test_buffers L).
Proof.
  intros ((_ & D & _ & T & _) & X & O & Po & C). unfold pass_attributes. auto 10.
Qed.

(** [evaluate_test] in two synced worlds. *)
Lemma evaluate_test_lockstep wA wB e :
  synced (L_kernels L) (test_reads L) (test_writes L) wA wB ->
  score_ready L wA -> score_ready L wB -> (e < number_of_graphs g)%nat ->
  exists p wA' wB',
    CommonTsetlinMachine.evaluate_test g e wA = (inr p, wA') /\
    CommonTsetlinMachine.evaluate_test g e wB = (inr p, wB') /\
    synced (L_kernels L) (class_sum_gpu :: test_reads L) (test_writes L) wA' wB' /\
    in_step (test_writes L) wA wB wA' wB'.
Proof.
  intros S0 RA RB He.
  destruct (score_ready_attributes wA RA) as [PA XA].
  destruct (score_ready_attributes wB RB) as [PB XB].
  destruct graphs_fine as (_ & _ & _ & _ & _ & _ & _ & G8).
  destruct (G8 e He) as (n & ni & ei & Hn & Hni & Hei).
  unfold CommonTsetlinMachine.evaluate_test, CommonTsetlinMachine.example_args.
  rewrite !bind_assoc, !(bind_index _ _ _ _ _ Hn).
  rewrite !bind_assoc, !(bind_index _ _ _ _ _ Hni).
  rewrite !bind_assoc, !(bind_index _ _ _ _ _ Hei). run_cbn.
  erewrite (bind_getattr self_clause_X_test_gpu _ _ wA) by exact XA.
  erewrite (bind_getattr self_clause_X_test_gpu _ _ wB) by exact XB.
  destruct (pass_lockstep (L_kernels L) frames (L_depth L) (L_outputs L)
              (message_ta_buffers L) current_clause_node_output_test_gpu
              next_clause_node_output_test_gpu number_of_graph_node_edges_test_gpu
              edge_test_gpu clause_X_int_test_gpu (clause_X_test_buffers L)
              encoded_X_test_gpu wA wB g (np_int32 n) (np_int32 ni) (np_int32 ei))
    as (wA2 & wB2 & EA2 & EB2 & S2 & T2);
    [exact S0|exact PA|exact PB
    |unfold message_ta_buffers; rewrite length_map, length_seq; lia
    |unfold clause_X_test_buffers; rewrite length_map, length_seq; lia|].
  eauto 10.
Qed.

(** One iteration of the loop of [_score], in two synced worlds. *)
Lemma score_row_lockstep wA wB e cs :
  synced (L_kernels L) (test_reads L) (test_writes L) wA wB ->
  score_ready L wA -> score_ready L wB -> (e < number_of_graphs g)%nat ->
  matrix (number_of_graphs g) (Z.to_nat (L_outputs L)) cs ->
  exists cs' wA' wB',
    (row <- lift (get_row cs e) ;;
     memcpy_htod class_sum_gpu row ;;
     CommonTsetlinMachine.evaluate_test g e ;;
     row <- memcpy_dtoh int32 (length row) class_sum_gpu ;;
     lift (set_row cs e row)) wA = (inr cs', wA') /\
    (row <- lift (get_row cs e) ;;
     memcpy_htod class_sum_gpu row ;;
     CommonTsetlinMachine.evaluate_test g e ;;
     row <- memcpy_dtoh int32 (length row) class_sum_gpu ;;
     lift (set_row cs e row)) wB = (inr cs', wB') /\
    matrix (number_of_graphs g) (Z.to_nat (L_outputs L)) cs' /\
    synced (L_kernels L) (test_reads L) (test_writes L) wA' wB' /\
    in_step (test_writes L) wA wB wA' wB'.
Proof.
  intros S0 RA RB He (rows & -> & Hr & Hrows).
  destruct (score_ready_attributes wA RA) as [PA XA].
  destruct (score_ready_attributes wB RB) as [PB XB].
  destruct (lookup_lt_is_Some_2 rows e ltac:(lia)) as [row Hrow].
  pose proof (Forall_lookup_1 _ _ _ _ Hrows Hrow) as [Hlen _].
  rewrite !(bind_lift _ row) by (cbn [get_row]; rewrite Hrow; reflexivity).
  pose proof PA as (_ & _ & _ & _ & CA).
  destruct (memcpy_htod_lockstep _ _ _ wA wB class_sum_gpu row S0) as
    (wA1 & wB1 & EA1 & EB1 & S1 & T1);
    [unfold test_writes; member|discriminate|rewrite Hlen; exact CA|].
  rewrite (bind_ok _ _ _ _ _ EA1), (bind_ok _ _ _ _ _ EB1).
  pose proof T1 as (LA1 & LB1 & _).
  destruct (evaluate_test_lockstep wA1 wB1 e) as (p & wA2 & wB2 & EA2 & EB2 & S2 & T2);
    [eapply synced_weaken; [|exact S1]; intros q Hq; right; exact Hq
    |eapply score_ready_layout; eassumption|eapply score_ready_layout; eassumption
    |exact He|].
  rewrite (bind_ok _ _ _ _ _ EA2), (bind_ok _ _ _ _ _ EB2).
  pose proof T2 as (LA2 & _).
  destruct (memcpy_dtoh_lockstep _ _ _ wA2 wB2 int32 (length row) class_sum_gpu
              (Z.to_nat (L_outputs L)) S2)
    as (row' & EA3 & EB3 & Hlen' & Hrow');
    [left; reflexivity
    |eapply same_layout_extent; [exact LA2|]; eapply same_layout_extent; [exact LA1|];
     exact CA
    |lia|].
  rewrite (bind_ok _ _ _ _ _ EA3), (bind_ok _ _ _ _ _ EB3).
  cbn [set_row].
  assert (E1 : (e <? length rows)%nat = true) by (apply Nat.ltb_lt; lia).
  assert (E3 : (length row' =? Z.to_nat (L_outputs L))%nat = true)
    by (apply Nat.eqb_eq; lia).
  rewrite E1, E3. cbn [lift ret].
  eexists _, wA2, wB2. split; [reflexivity|]. split; [reflexivity|]. split; [|split].
  - eexists. split; [reflexivity|]. split; [rewrite length_insert; exact Hr|].
    apply Forall_insert; [exact Hrows|]. split; [lia|].
    eapply Forall_impl; [|exact Hrow']. intros x [y ->]. apply to_int32_is_int32.
  - eapply synced_weaken; [|exact S2]. intros q Hq. right. exact Hq.
  - eapply in_step_trans; [|exact T2]. eapply in_step_weaken; [|exact T1].
    intros q [<-|[]]. unfold test_writes. member.
Qed.

(** What [_score] does after [_score_init], in two synced worlds: both runs
    return the same class sums. *)
Lemma score_rows_lockstep wA wB :
  synced (L_kernels L) (test_reads L) (test_writes L) wA wB ->
  score_ready L wA -> score_ready L wB ->
  exists a wA' wB',
    (no <- getattr self_number_of_outputs ;;
     n <- as_size no ;;
     for_range_with (number_of_graphs g) (np_zeros2 (number_of_graphs g) n)
       (fun e class_sum =>
          row <- lift (get_row class_sum e) ;;
          memcpy_htod class_sum_gpu row ;;
          CommonTsetlinMachine.evaluate_test g e ;;
          row <- memcpy_dtoh int32 (length row) class_sum_gpu ;;
          lift (set_row class_sum e row))) wA = (inr a, wA') /\
    (no <- getattr self_number_of_outputs ;;
     n <- as_size no ;;
     for_range_with (number_of_graphs g) (np_zeros2 (number_of_graphs g) n)
       (fun e class_sum =>
          row <- lift (get_row class_sum e) ;;
          memcpy_htod class_sum_gpu row ;;
          CommonTsetlinMachine.evaluate_test g e ;;
          row <- memcpy_dtoh int32 (length row) class_sum_gpu ;;
          lift (set_row class_sum e row))) wB = (inr a, wB') /\
    matrix (number_of_graphs g) (Z.to_nat (L_outputs L)) a /\
    in_step (test_writes L) wA wB wA' wB'.
Proof.
  intros S0 RA RB.
  pose proof RA as (_ & _ & OA & Po & _). pose proof RB as (_ & _ & OB & _).
  erewrite (bind_getattr self_number_of_outputs _ _ wA) by exact OA.
  erewrite (bind_getattr self_number_of_outputs _ _ wB) by exact OB.
  rewrite !bind_as_size by exact Po.
  destruct (for_range_with_lockstep
    (fun _ cs wAe wBe =>
       matrix (number_of_graphs g) (Z.to_nat (L_outputs L)) cs /\
       synced (L_kernels L) (test_reads L) (test_writes L) wAe wBe /\
       in_step (test_writes L) wA wB wAe wBe)
    (number_of_graphs g)
    (fun e class_sum =>
       row <- lift (get_row class_sum e) ;;
       memcpy_htod class_sum_gpu row ;;
       CommonTsetlinMachine.evaluate_test g e ;;
       row <- memcpy_dtoh int32 (length row) class_sum_gpu ;;
       lift (set_row class_sum e row)))
    with (s := np_zeros2 (number_of_graphs g) (Z.to_nat (L_outputs L)))
         (wA := wA) (wB := wB)
    as (a & wA' & wB' & EA & EB & Ma & _ & T).
  - intros e cs wAe wBe He (Mcs & Se & Te). pose proof Te as (LA & LB & _).
    destruct (score_row_lockstep wAe wBe e cs Se (score_ready_layout _ _ _ LA RA)
                (score_ready_layout _ _ _ LB RB) He Mcs)
      as (cs' & wAe' & wBe' & EA & EB & M' & S' & T').
    exists cs', wAe', wBe'. split; [exact EA|]. split; [exact EB|].
    split; [exact M'|]. split; [exact S'|]. eapply in_step_trans; eassumption.
  - split; [apply matrix_zeros|]. split; [exact S0|apply in_step_refl].
  - eauto 10.
Qed.

End Rows.

(** ** Export and import of the state *)

Lemma bind_memcpy_dtoh {A} t n p buf (f : list Z -> M A) w :
  gpu w p = Some buf -> (n <= length buf)%nat ->
  bind (memcpy_dtoh t n p) f w = f (map (reinterpret t) (take n buf)) w.
Proof. intros H Hn. apply bind_ok, memcpy_dtoh_run; assumption. Qed.

(** A model is ready in every world with the same attributes, but for the
    host copies of the state, and the same device. *)
Lemma model_ready_cached L w w' :
  (forall a, a <> self_ta_state -> a <> self_clause_weights -> self w' a = self w a) ->
  gpu w' = gpu w -> model_ready L w -> model_ready L w'.
Proof.
  intros Hs Hg. unfold model_ready, allocated, extent.
  rewrite Hg, !Hs by discriminate. auto.
Qed.

Lemma bind_memcpy_htod {A} p src buf (f : unit -> M A) w :
  gpu w p = Some buf -> (length src <= length buf)%nat ->
  bind (memcpy_htod p src) f w
  = f tt (with_gpu (<[p := Some (map to_uint32 src ++ drop (length src) buf)]>) w).
Proof. intros H Hn. apply bind_ok, memcpy_htod_run; assumption. Qed.

Lemma to_uint32_word x : is_uint32 x -> to_uint32 x = x.
Proof. unfold is_uint32, to_uint32. intros H. apply Z.mod_small. exact H. Qed.

Lemma to_uint32_to_int32 x : is_uint32 x -> to_uint32 (to_int32 x) = x.
Proof.
  unfold is_uint32, to_uint32, to_int32. intros H.
  rewrite Zminus_mod_idemp_l, Z.add_simpl_r. apply Z.mod_small. exact H.
Qed.

Lemma words_uint32 l : Forall is_uint32 l -> map to_uint32 (map to_uint32 l) = l.
Proof.
  induction 1 as [|x l Hx _ IH]; [reflexivity|].
  cbn [map]. rewrite !(to_uint32_word x Hx), IH. reflexivity.
Qed.

Lemma words_int32 l : Forall is_uint32 l -> map to_uint32 (map to_int32 l) = l.
Proof.
  induction 1 as [|x l Hx _ IH]; [reflexivity|].
  cbn [map]. rewrite (to_uint32_to_int32 x Hx), IH. reflexivity.
Qed.

Section StateExport.
Context `{B : Backend}.
Variable L : layout.

Lemma bind_mem_alloc {A} p words (f : unit -> M A) w :
  (0 < words)%nat ->
  bind (CommonTsetlinMachine.mem_alloc p (words * 4)) f w
  = f tt (with_allocations (S (allocations w))
            (with_gpu (<[p := Some (map (fun i => to_uint32 (fresh_memory (allocations w) i))
                                      (seq 0 words))]>) w)).
Proof.
  intros H. unfold bind, CommonTsetlinMachine.mem_alloc.
  assert (E : (words * 4 =? 0)%nat = false) by (apply Nat.eqb_neq; lia).
  rewrite E, Nat.div_mul by lia. reflexivity.
Qed.

(** [get_state] returns the snapshot of the model and leaves it cached. *)
Lemma get_state_returns w :
  model_ready L w -> exportable L w ->
  exists st w',
    CommonTsetlinMachine.get_state w = (inr st, w') /\
    gpu w' = gpu w /\
    (forall a, a <> self_ta_state -> a <> self_clause_weights -> self w' a = self w a) /\
    exportable L w' /\ snapshot_of L w' st.
Proof.
  intros MR (Hd & Ho & nl & tc & sb & lo & hi & tac & cwc & ta & wts & A1 & A2 & A3 & A4
             & A5 & A6 & A7 & G1 & G2 & N0 & N1 & N2 & Lw & U1 & U2 & Hc).
  pose proof MR as (_ & _ & M3 & M4 & _ & M6 & _).
  unfold CommonTsetlinMachine.get_state.
  erewrite bind_getattr by exact A7.
  destruct (array_equal cwc np_array_nil) eqn:Ec.
  - run.
    rewrite (bind_memcpy_dtoh uint32 (L_clauses L * tc * sb) ta_state_gpu ta)
      by first [lia | (world_cbn; eassumption)].
    run. rewrite bind_as_size by lia. run.
    rewrite (bind_memcpy_dtoh int32 (Z.to_nat (L_outputs L * Z.of_nat (L_clauses L)))
               clause_weights_gpu wts) by first [lia | (world_cbn; eassumption)].
    run. rewrite <- Lw, firstn_all.
    eexists _, _. split; [reflexivity|]. split; [reflexivity|]. split.
    { intros a H1 H2. world_cbn. rewrite !object_set_ne by congruence. reflexivity. }
    split.
    + split; [exact Hd|]. split; [exact Ho|].
      exists nl, tc, sb, lo, hi, (Arr1 (map (reinterpret uint32) (take (L_clauses L * tc * sb) ta))),
        (Arr1 (map (reinterpret int32) wts)), ta, wts.
      repeat (split; [first [attr | assumption]|]). reflexivity.
    + exists nl, tc, sb, lo, hi, ta, wts.
      repeat (split; [first [attr | assumption | reflexivity]|]). reflexivity.
  - run. eexists _, w. split; [reflexivity|]. split; [reflexivity|].
    split; [reflexivity|]. destruct (Hc eq_refl) as [C1 C2]. split.
    + split; [exact Hd|]. split; [exact Ho|].
      exists nl, tc, sb, lo, hi, tac, cwc, ta, wts. auto 20.
    + exists nl, tc, sb, lo, hi, ta, wts. cbn [state_0 state_1 state_2 state_3 state_4
        state_5 state_6 state_7 state_8 state_9]. auto 20.
Qed.

(** [set_state] of the snapshot returns; the automaton buffer starts with
    the words it had and the weights are the ones that were there. *)
Lemma set_state_returns w st :
  model_ready L w -> exportable L w -> snapshot_of L w st ->
  exists w',
    CommonTsetlinMachine.set_state st w = (inr tt, w') /\
    model_ready L w' /\
    self w' self_graphs_signature_test = Some np_array_nil /\
    self w' self_clause_X_test_gpu = self w self_clause_X_test_gpu /\
    agrees_upto (ta_extent (L_kernels L)) w w' ta_state_gpu /\
    gpu w' clause_weights_gpu = gpu w clause_weights_gpu /\
    (forall q, q <> ta_state_gpu -> q <> clause_weights_gpu -> gpu w' q = gpu w q) /\
    (exists tc sb ta junk,
        self w self_number_of_ta_chunks = Some tc /\
        self w self_number_of_state_bits = Some sb /\
        gpu w ta_state_gpu = Some ta /\
        gpu w' ta_state_gpu = Some (take (L_clauses L * tc * sb) ta ++ junk) /\
        length junk = ((L_depth L - 1) * (L_clauses L * tc * sb))%nat) /\
    self w' self_graphs_signature_train = Some np_array_nil /\
    self w' self_encoded_Y = Some np_array_nil /\
    self w' self_ta_state = Some np_array_nil /\
    self w' self_clause_weights = Some np_array_nil.
Proof.
  intros MR (Hd & Ho & nl' & tc' & sb' & lo' & hi' & tac & cwc & ta' & wts' & A1' & A2' & A3'
             & A4' & A5' & A6 & A7 & G1' & G2' & N0 & N1 & N2 & Lw & U1 & U2 & Hc)
         (nl & tc & sb & lo & hi & ta & wts & A1 & A2 & A3 & A4 & A5 & G1 & G2 & R0 & R1
          & E2 & E3 & E4 & E5 & E6 & E7 & E8 & E9).
  assert (tc' = tc) by congruence. assert (sb' = sb) by congruence.
  assert (ta' = ta) by congruence. assert (wts' = wts) by congruence. subst tc' sb' ta' wts'.
  clear A1' A2' A3' A4' A5' G1' G2' nl' lo' hi'.
  pose proof MR as (M1 & M2 & M3 & M4 & M5 & M6 & M7 & M8 & M9 & M10 & M11 & M12 & M13
                    & M14 & M15).
  unfold CommonTsetlinMachine.set_state. rewrite E2, E3, E4, E5, E6, E7, E8, E9.
  run.
  rewrite bind_mem_alloc by nia.
  run. rewrite bind_as_size by nia.
  replace (Z.to_nat (L_outputs L * Z.of_nat (L_clauses L) * 4))
    with (Z.to_nat (L_outputs L * Z.of_nat (L_clauses L)) * 4)%nat by lia.
  rewrite bind_mem_alloc by nia.
  erewrite bind_memcpy_htod;
    [|world_cbn; rewrite fn_lookup_insert_ne by discriminate; apply fn_lookup_insert
     |rewrite R0, !length_map, length_take, length_seq; nia].
  erewrite bind_memcpy_htod;
    [|world_cbn; rewrite fn_lookup_insert_ne by discriminate; apply fn_lookup_insert
     |rewrite R1, !length_map, length_seq; lia].
  run.
  eexists. split; [reflexivity|].
  match goal with |- model_ready L ?x /\ _ => set (w' := x) end.
  assert (N3 : length (map to_uint32 (ravel (state_0 st))) = (L_clauses L * tc * sb)%nat).
  { rewrite R0, !length_map, length_take. lia. }
  assert (Gta : exists junk,
             gpu w' ta_state_gpu = Some (take (L_clauses L * tc * sb) ta ++ junk) /\
             length junk = ((L_depth L - 1) * (L_clauses L * tc * sb))%nat).
  { eexists. split.
    - subst w'. world_cbn. rewrite fn_lookup_insert_ne by discriminate.
      rewrite fn_lookup_insert, R0, words_uint32 by exact U1. reflexivity.
    - rewrite length_drop, !length_map, length_seq, length_take. nia. }
  assert (Gcw : gpu w' clause_weights_gpu = Some wts).
  { subst w'. world_cbn. rewrite fn_lookup_insert, R1, words_int32 by exact U2.
    rewrite drop_ge by (rewrite !length_map, length_seq; lia).
    rewrite app_nil_r. reflexivity. }
  assert (Gq : forall q, q <> ta_state_gpu -> q <> clause_weights_gpu -> gpu w' q = gpu w q).
  { intros q H1 H2. subst w'. world_cbn. rewrite !fn_lookup_insert_ne by congruence.
    reflexivity. }
  destruct Gta as (junk & Gta & Lj).
  split; [|split; [reflexivity|split; [reflexivity|split; [|split; [congruence|split;
    [exact Gq|split; [exists tc, sb, ta, junk; auto|repeat split]]]]]]].
  - unfold model_ready.
    repeat (split; [first [assumption | exact M1 | exact M2 | exact M8 | exact M10
                          | exact M12 | reflexivity]|]).
    split; [|split].
    + apply Forall_forall. intros q Hq. rewrite Forall_forall in M13.
      pose proof (M13 q Hq) as Hal. unfold message_ta_buffers in Hq.
      apply in_map_iff in Hq as (j & <- & _). unfold allocated.
      rewrite Gq by discriminate. exact Hal.
    + repeat match goal with H : Forall _ (_ :: _) |- _ => inversion H; clear H; subst end.
      unfold allocated in *.
      repeat constructor; rewrite ?Gta, ?Gcw, ?Gq by discriminate; eauto.
    + unfold extent. rewrite Gq by discriminate. exact M15.
  - exists ta, (take (L_clauses L * tc * sb) ta ++ junk).
    split; [exact G1|]. split; [exact Gta|]. split; [lia|].
    split; [rewrite length_app, length_take; lia|].
    rewrite take_app_le by (rewrite length_take; lia).
    rewrite take_take. f_equal. lia.
Qed.

End StateExport.

(** ** The round trip *)

Lemma test_writes_inv L q :
  In q (test_writes L) ->
  q = current_clause_node_output_test_gpu \/ q = next_clause_node_output_test_gpu \/
  q = clause_X_int_test_gpu \/ q = number_of_include_actions \/ q = class_sum_gpu \/
  exists k, q = clause_X_test_gpu k.
Proof.
  unfold test_writes, pass_writes, clause_X_test_buffers. cbn [app In].
  intros [H|[H|[H|[H|[H|H]]]]]; auto 10.
  apply in_map_iff in H as (k & <- & _). eauto 10.
Qed.

(** Decides that a buffer is not one a pass on the test side writes. *)
Ltac unwritten :=
  let H := fresh in
  intros H; apply test_writes_inv in H;
  destruct H as [H|[H|[H|[H|[H|[? H]]]]]]; discriminate H.

Lemma model_ready_layout L w w' : same_layout w w' -> model_ready L w -> model_ready L w'.
Proof.
  intros [Q E] MR. unfold model_ready in *. rewrite Q, E.
  destruct MR as (M1 & M2 & M3 & M4 & M5 & M6 & M7 & M8 & M9 & M10 & M11 & M12 & M13
                  & M14 & M15).
  repeat (split; [assumption|]).
  split; [|split; [|exact M15]]; eapply same_layout_Forall; try eassumption;
    split; assumption.
Qed.

Lemma exportable_same L w w' :
  (forall a, ~ test_attribute a -> self w' a = self w a) ->
  gpu w' ta_state_gpu = gpu w ta_state_gpu ->
  gpu w' clause_weights_gpu = gpu w clause_weights_gpu ->
  exportable L w -> exportable L w'.
Proof.
  intros Hs Ht Hc. unfold exportable.
  assert (NT : forall a, a <> self_graphs_signature_test -> a <> self_clause_X_test_gpu ->
                         ~ test_attribute a) by (intros a H1 H2 [H|H]; contradiction).
  rewrite Ht, Hc, !Hs by (apply NT; discriminate). auto.
Qed.

Lemma test_buffers_same L g w w' :
  self w' self_clause_X_test_gpu = self w self_clause_X_test_gpu ->
  (forall q, q <> ta_state_gpu -> q <> clause_weights_gpu -> extent w' q = extent w q) ->
  gpu w' encoded_X_test_gpu = gpu w encoded_X_test_gpu ->
  gpu w' number_of_graph_node_edges_test_gpu = gpu w number_of_graph_node_edges_test_gpu ->
  gpu w' edge_test_gpu = gpu w edge_test_gpu ->
  test_buffers L g w -> test_buffers L g w'.
Proof.
  intros Hs Hq Hx Hn He. unfold test_buffers.
  rewrite Hs, Hx, Hn, He, !Hq by discriminate.
  intros (T1 & T2 & T3 & T4 & T5 & T6 & T7 & T8).
  repeat (split; [assumption|]). split; [|split; assumption].
  intros k Hk. rewrite Hq by discriminate. apply T6. exact Hk.
Qed.

Section Roundtrip.
Context `{B : Backend}.
Variable L : layout.
Variable g : Graphs.

(** Two ready worlds bound to [g] that hold the same model are synced. *)
Lemma synced_bound wA wB :
  model_ready L wA -> test_buffers L g wA -> model_ready L wB -> test_buffers L g wB ->
  agrees_upto (ta_extent (L_kernels L)) wA wB ta_state_gpu ->
  agrees wA wB hypervectors_gpu -> agrees wA wB clause_weights_gpu ->
  (forall j, agrees wA wB (message_ta_state_gpu j)) ->
  aligned wA wB number_of_include_actions ->
  synced (L_kernels L) (test_reads L) (test_writes L) wA wB.
Proof.
  intros MA TA MB TB U Hh Hw Hm Hi.
  pose proof (evaluable_test L g wA MA TA) as (_ & _ & _ & _ & _ & _ & FT & FX & F).
  repeat match goal with H : Forall _ (_ :: _) |- _ => inversion H; clear H; subst end.
  destruct MA as (_ & KA & _ & _ & _ & _ & _ & _ & _ & _ & _ & _ & _ & _ & CA).
  destruct MB as (_ & KB & _ & _ & _ & _ & _ & _ & _ & _ & _ & _ & _ & _ & CB).
  destruct TA as (A1 & A2 & A3 & A4 & _ & A6 & A7 & A8).
  destruct TB as (B1 & B2 & B3 & B4 & _ & B6 & B7 & B8).
  split; [exact KA|]. split; [exact KB|]. split; [exact U|]. split.
  - unfold test_reads, pass_reads. apply Forall_app. split.
    + unfold agrees. repeat constructor; try assumption; congruence.
    + apply Forall_forall. intros q Hq. rewrite Forall_forall in FT.
      split; [apply FT; exact Hq|]. unfold message_ta_buffers in Hq.
      apply in_map_iff in Hq as (j & <- & _). apply Hm.
  - unfold test_writes, pass_writes. apply Forall_app. split.
    + unfold aligned. repeat constructor; try assumption; congruence.
    + apply Forall_forall. intros q Hq. rewrite Forall_forall in FX.
      split; [apply FX; exact Hq|]. unfold clause_X_test_buffers in Hq.
      apply in_map_iff in Hq as (k & <- & Hk). apply in_seq in Hk.
      unfold aligned. rewrite A6, B6 by lia. reflexivity.
Qed.

(** [_score], then [get_state] and [set_state] of what it returned, then
    [_score] again: every step returns, and the two scores are the same
    matrix. *)
Lemma round_trip_core w :
  kernel_frames (L_kernels L) -> trained L g w ->
  exists a w1 st w2 w3 w4,
    CommonTsetlinMachine._score g w = (inr a, w1) /\
    CommonTsetlinMachine.get_state w1 = (inr st, w2) /\
    CommonTsetlinMachine.set_state st w2 = (inr tt, w3) /\
    CommonTsetlinMachine._score g w3 = (inr a, w4) /\
    matrix (number_of_graphs g) (Z.to_nat (L_outputs L)) a.
Proof.
  intros HF [Hs Hx]. pose proof Hs as (MR & GO & _).
  destruct (score_init_returns L g w Hs) as (wA1 & E1 & MA1 & TA1 & RB1).
  pose proof RB1 as (RBa & RBp & _).
  pose proof (score_ready_bound L g wA1 MA1 TA1) as SR.
  assert (U0 : agrees_upto (ta_extent (L_kernels L)) wA1 wA1 ta_state_gpu).
  { destruct Hx as (_ & _ & nl & tc & sb & lo & hi & tac & cwc & ta & wts & _ & _ & _ & _
                    & _ & _ & _ & G1 & _ & _ & N1 & N2 & _).
    exists ta, ta. rewrite (RBp ta_state_gpu I).
    split; [exact G1|]. split; [exact G1|]. split; [lia|]. split; [lia|reflexivity]. }
  destruct (score_rows_lockstep L g HF GO wA1 wA1
              (synced_bound wA1 wA1 MA1 TA1 MA1 TA1 U0 eq_refl eq_refl (fun _ => eq_refl)
                 eq_refl) SR SR)
    as (a & wA2 & wA2' & EA & _ & Ma & LA & _ & FA & _).
  assert (MA2 : model_ready L wA2) by (eapply model_ready_layout; eassumption).
  assert (XA2 : exportable L wA2).
  { apply (exportable_same L w); [| | |exact Hx].
    - intros x Hx'. destruct LA as [Q _]. rewrite Q. apply RBa. exact Hx'.
    - rewrite FA by unwritten. apply RBp. exact I.
    - rewrite FA by unwritten. apply RBp. exact I. }
  assert (TA2 : test_buffers L g wA2).
  { apply (test_buffers_same L g wA1); [| | | | |exact TA1].
    - destruct LA as [Q _]. rewrite Q. reflexivity.
    - intros q _ _. destruct LA as [_ E]. apply E.
    - apply FA. unwritten.
    - apply FA. unwritten.
    - apply FA. unwritten. }
  destruct (get_state_returns L wA2 MA2 XA2) as (st & w2 & E2 & G2 & S2 & X2 & Sn).
  assert (M2 : model_ready L w2) by (eapply model_ready_cached; eassumption).
  destruct (set_state_returns L w2 st M2 X2 Sn) as (w3 & E3 & M3 & Sg & Sx & U3 & C3 & Q3 & _).
  assert (T3 : test_buffers L g w3).
  { apply (test_buffers_same L g wA2); [| | | | |exact TA2].
    - rewrite Sx. apply S2; discriminate.
    - intros q H1 H2. unfold extent. rewrite Q3, G2 by assumption. reflexivity.
    - rewrite Q3, G2 by discriminate. reflexivity.
    - rewrite Q3, G2 by discriminate. reflexivity.
    - rewrite Q3, G2 by discriminate. reflexivity. }
  assert (Hs3 : scorable L g w3).
  { split; [exact M3|]. split; [exact GO|]. exists np_array_nil. split; [exact Sg|].
    intros _. exact T3. }
  destruct (score_init_returns L g w3 Hs3) as (wB1 & E4 & MB1 & TB1 & RB4).
  pose proof RB4 as (_ & RBp4 & _).
  assert (U : agrees_upto (ta_extent (L_kernels L)) wA1 wB1 ta_state_gpu).
  { destruct U3 as (x & y & Gx & Gy & Lx & Ly & Exy). exists x, y.
    rewrite (RBp4 ta_state_gpu I). rewrite G2, FA in Gx by unwritten. auto. }
  assert (Hsync : synced (L_kernels L) (test_reads L) (test_writes L) wA1 wB1).
  { apply synced_bound; try assumption.
    - unfold agrees. rewrite (RBp4 hypervectors_gpu I), Q3, G2 by discriminate.
      apply FA. unwritten.
    - unfold agrees. rewrite (RBp4 clause_weights_gpu I), C3, G2. apply FA. unwritten.
    - intros j. unfold agrees. rewrite (RBp4 (message_ta_state_gpu j) I), Q3, G2
        by discriminate.
      apply FA. unwritten.
    - unfold aligned, extent. rewrite (RBp4 number_of_include_actions I), Q3, G2
        by discriminate.
      destruct LA as [_ E]. apply E. }
  destruct (score_rows_lockstep L g HF GO wA1 wB1 Hsync SR
              (score_ready_bound L g wB1 MB1 TB1))
    as (a' & wA2'' & wB2 & EA' & EB & _ & _).
  rewrite EA in EA'. injection EA' as <- _.
  exists a, wA2, st, w2, w3, wB2.
  split; [unfold CommonTsetlinMachine._score; rewrite (bind_ok _ _ _ _ _ E1); exact EA|].
  split; [exact E2|]. split; [exact E3|].
  split; [unfold CommonTsetlinMachine._score; rewrite (bind_ok _ _ _ _ _ E4); exact EB|].
  exact Ma.
Qed.

(** X1, the round trip: on a trained model, for every graph set it can score and every
    depth, [score(graphs)], then [set_state(get_state())], then
    [score(graphs)] again: every call returns, and the second score is the
    array the first one was, entry for entry, in each of the three machines.
    The kernels are taken to read what the specification says they read. *)
Theorem round_trip_score w (score : Graphs -> M ndarray) :
  kernel_frames (L_kernels L) -> trained L g w ->
  score = MultiClassGraphTsetlinMachine.score \/
  score = MultiOutputGraphTsetlinMachine.score \/
  score = GraphTsetlinMachine.score ->
  exists a w1 st w2 w3 w4,
    score g w = (inr a, w1) /\
    CommonTsetlinMachine.get_state w1 = (inr st, w2) /\
    CommonTsetlinMachine.set_state st w2 = (inr tt, w3) /\
    score g w3 = (inr a, w4).
Proof.
  intros HF Ht Hscore.
  destruct (round_trip_core w HF Ht) as (a & w1 & st & w2 & w3 & w4 & E1 & E2 & E3 & E4 & Ma).
  destruct Hscore as [-> | [-> | ->]].
  - exists a, w1, st, w2, w3, w4. auto.
  - exists a, w1, st, w2, w3, w4. auto.
  - destruct Ht as [_ (_ & Ho & _)].
    destruct (column0_vector (number_of_graphs g) (Z.to_nat (L_outputs L)) a ltac:(lia) Ma)
      as (v & Ev & _).
    exists v, w1, st, w2, w3, w4. unfold GraphTsetlinMachine.score.
    rewrite (bind_ok _ _ _ _ _ E1), (bind_ok _ _ _ _ _ E4), Ev. auto.
Qed.

(** C1: scores survive the round trip.  On a trained model, for every graph
    set it can score and every depth, [score(graphs)] returns, the round
    trip [set_state(get_state())] returns on the machine that score leaves,
    and [score(graphs)] after it returns the array it returned before, entry
    for entry, in each of the three machines.  The kernels, which the Python
    source only launches, are taken to read what they do not overwrite and
    the automaton words of the first layer. *)
Theorem score_after_round_trip w (score : Graphs -> M ndarray) :
  kernel_frames (L_kernels L) -> trained L g w ->
  score = MultiClassGraphTsetlinMachine.score \/
  score = MultiOutputGraphTsetlinMachine.score \/
  score = GraphTsetlinMachine.score ->
  exists before w1 w2 after w3,
    score g w = (inr before, w1) /\
    (st <- CommonTsetlinMachine.get_state ;; CommonTsetlinMachine.set_state st) w1
    = (inr tt, w2) /\
    score g w2 = (inr after, w3) /\
    after = before.
Proof.
  intros HF Ht Hscore.
  destruct (round_trip_core w HF Ht) as (a & w1 & st & w2 & w3 & w4 & E1 & E2 & E3 & E4 & Ma).
  assert (Etrip : (st <- CommonTsetlinMachine.get_state ;; CommonTsetlinMachine.set_state st)
                    w1 = (inr tt, w3))
    by (rewrite (bind_ok _ _ _ _ _ E2); exact E3).
  destruct Hscore as [-> | [-> | ->]].
  - exists a, w1, w3, a, w4. auto.
  - exists a, w1, w3, a, w4. auto.
  - destruct Ht as [_ (_ & Ho & _)].
    destruct (column0_vector (number_of_graphs g) (Z.to_nat (L_outputs L)) a ltac:(lia) Ma)
      as (v & Ev & _).
    exists v, w1, w3, v, w4. unfold GraphTsetlinMachine.score.
    rewrite (bind_ok _ _ _ _ _ E1), (bind_ok _ _ _ _ _ E4), Ev. auto.
Qed.

End Roundtrip.

(** ** The round trip at the toy machine *)

Lemma imap_length_only {A C} (f : nat -> C) (l l' : list A) :
  length l = length l' -> imap (fun i _ => f i) l = imap (fun i _ => f i) l'.
Proof.
  revert f l'. induction l as [|x l IH]; intros f [|y l'] H; try discriminate H.
  - reflexivity.
  - cbn [imap]. f_equal. apply (IH (fun i => f (S i))). injection H as H. exact H.
Qed.

Lemma map_length_only {A C} (c : C) (l l' : list A) :
  length l = length l' -> map (fun _ => c) l = map (fun _ => c) l'.
Proof.
  revert l'. induction l as [|x l IH]; intros [|y l'] H; try discriminate H.
  - reflexivity.
  - cbn [map]. f_equal. apply IH. injection H as H. exact H.
Qed.

(** The kernels of the toy backend read what the specification says. *)
Lemma toy_frames P : kernel_frames (B := Toy.backend) P.
Proof.
  split; cbn [kernel_calculate_messages kernel_prepare_messages kernel_encode_messages
              kernel_calculate_messages_conditional Toy.backend].
  - intros ta ta' n ni c c' i i' x -> Hc Hi. f_equal.
    + apply (imap_length_only
               (fun k => Toy.total (take (ta_extent P) ta') + n + ni + Toy.total x
                         + Z.of_nat k)). exact Hc.
    + apply map_length_only. exact Hi.
  - intros n m m' H. apply map_length_only. exact H.
  - intros n m x x' H. apply map_length_only. exact H.
  - intros a n c x x' i m H. f_equal.
    apply (imap_length_only
             (fun k => Toy.total a + Toy.total c + Toy.total m + Toy.total i + Z.of_nat k)).
    exact H.
Defined.

Lemma words_checked l :
  forallb (fun x => (0 <=? x) && (x <? 2 ^ 32)) l = true -> Forall is_uint32 l.
Proof.
  intros H. apply Forall_forall. intros x Hx.
  rewrite forallb_forall in H. specialize (H x Hx).
  apply andb_true_iff in H as [H1 H2]. unfold is_uint32. lia.
Qed.

Lemma toy_exportable : exportable trained_layout (Toy.trained 2).
Proof.
  split; [concrete|]. split; [concrete|].
  exists 4%nat, 1%nat, 8%nat, None, None, (Arr1 []), (Arr1 []),
    (replicate 24 2991615011),
    [1337586305; 1337586223; 1337586225; 1337586303; 1337586265; 1337586263].
  do 13 (split; [concrete|]).
  split; [apply words_checked; vm_compute; reflexivity|].
  split; [apply words_checked; vm_compute; reflexivity|].
  intros H. vm_compute in H. discriminate H.
Defined.

Lemma toy_trained : trained trained_layout Toy.graphs (Toy.trained 2).
Proof. split; [exact toy_scorable|exact toy_exportable]. Defined.

Lemma round_trip_score_witness :
  kernel_frames (B := Toy.backend) (L_kernels trained_layout) /\
  trained trained_layout Toy.graphs (Toy.trained 2) /\
  (MultiClassGraphTsetlinMachine.score (B := Toy.backend)
   = MultiClassGraphTsetlinMachine.score (B := Toy.backend) \/
   MultiClassGraphTsetlinMachine.score (B := Toy.backend)
   = MultiOutputGraphTsetlinMachine.score (B := Toy.backend) \/
   MultiClassGraphTsetlinMachine.score (B := Toy.backend)
   = GraphTsetlinMachine.score (B := Toy.backend)) /\
  exists a w1 st w2 w3 w4,
    MultiClassGraphTsetlinMachine.score (B := Toy.backend) Toy.graphs (Toy.trained 2)
    = (inr a, w1) /\
    CommonTsetlinMachine.get_state (B := Toy.backend) w1 = (inr st, w2) /\
    CommonTsetlinMachine.set_state (B := Toy.backend) st w2 = (inr tt, w3) /\
    MultiClassGraphTsetlinMachine.score (B := Toy.backend) Toy.graphs w3 = (inr a, w4).
Proof.
  split; [exact (toy_frames _)|]. split; [exact toy_trained|].
  split; [left; reflexivity|].
  exact (round_trip_score (B := Toy.backend) trained_layout Toy.graphs (Toy.trained 2)
           (MultiClassGraphTsetlinMachine.score (B := Toy.backend)) (toy_frames _) toy_trained
           (or_introl eq_refl)).
Defined.

Lemma score_after_round_trip_witness :
  kernel_frames (B := Toy.backend) (L_kernels trained_layout) /\
  trained trained_layout Toy.graphs (Toy.trained 2) /\
  (GraphTsetlinMachine.score (B := Toy.backend)
   = MultiClassGraphTsetlinMachine.score (B := Toy.backend) \/
   GraphTsetlinMachine.score (B := Toy.backend)
   = MultiOutputGraphTsetlinMachine.score (B := Toy.backend) \/
   GraphTsetlinMachine.score (B := Toy.backend)
   = GraphTsetlinMachine.score (B := Toy.backend)) /\
  exists before w1 w2 after w3,
    GraphTsetlinMachine.score (B := Toy.backend) Toy.graphs (Toy.trained 2)
    = (inr before, w1) /\
    (st <- CommonTsetlinMachine.get_state (B := Toy.backend) ;;
     CommonTsetlinMachine.set_state (B := Toy.backend) st) w1 = (inr tt, w2) /\
    GraphTsetlinMachine.score (B := Toy.backend) Toy.graphs w2 = (inr after, w3) /\
    after = before.
Proof.
  split; [exact (toy_frames _)|]. split; [exact toy_trained|].
  split; [right; right; reflexivity|].
  exact (score_after_round_trip (B := Toy.backend) trained_layout Toy.graphs (Toy.trained 2)
           (GraphTsetlinMachine.score (B := Toy.backend)) (toy_frames _) toy_trained
           (or_intror (or_intror eq_refl))).
Defined.

(** ** Scoring again *)

Lemma array_equal_refl a : array_equal a a = true.
Proof.
  unfold array_equal. rewrite !bool_decide_eq_true_2 by reflexivity. reflexivity.
Qed.

Section Again.
Context `{B : Backend}.

(** [_score_init] on a model that is bound to the graph set does nothing. *)
Lemma score_init_noop g w sig :
  self w self_initialized = Some true ->
  self w self_graphs_signature_test = Some sig ->
  array_equal sig (signature g) = true ->
  CommonTsetlinMachine._score_init g w = (inr tt, w).
Proof.
  intros Hi Hs He. unfold CommonTsetlinMachine._score_init.
  erewrite bind_getattr by exact Hi. run_cbn.
  erewrite bind_getattr by exact Hs. rewrite He. reflexivity.
Qed.

(** Whatever [_score_init] did, it leaves the model bound to the graph set. *)
Lemma score_init_signature g w sig0 :
  self w self_initialized = Some true ->
  self w self_graphs_signature_test = Some sig0 ->
  exists sig,
    self (snd (CommonTsetlinMachine._score_init g w)) self_graphs_signature_test = Some sig /\
    array_equal sig (signature g) = true.
Proof.
  intros Hi Hs. unfold CommonTsetlinMachine._score_init.
  erewrite bind_getattr by exact Hi. run_cbn.
  erewrite bind_getattr by exact Hs.
  destruct (array_equal sig0 (signature g)) eqn:He; cbn [negb].
  - exists sig0. split; [exact Hs|exact He].
  - exists (signature g). split; [|apply array_equal_refl].
    run_cbn.
    match goal with
    | |- self (snd (?m ?x)) ?a = Some ?v =>
        refine ((_ : keeps (attr_is a v) m) x _); [|reflexivity]
    end.
    frame_all.
Qed.

(** X2: once [_score_init] has bound a graph set, binding it again returns at
    once: nothing is written, assigned or allocated. *)
Theorem score_init_cached L g w :
  scorable L g w ->
  exists w1,
    CommonTsetlinMachine._score_init g w = (inr tt, w1) /\
    CommonTsetlinMachine._score_init g w1 = (inr tt, w1).
Proof.
  intros Hs. pose proof Hs as ((Hi & _) & _ & sig0 & Hsig & _).
  destruct (score_init_returns L g w Hs) as (w1 & E1 & (Hi1 & _) & _).
  destruct (score_init_signature g w sig0 Hi Hsig) as (sig & Hs1 & He).
  rewrite E1 in Hs1. cbn [snd] in Hs1.
  exists w1. split; [exact E1|]. eapply score_init_noop; eassumption.
Qed.

(** [_score] on a scorable model whose automaton buffer covers what the
    kernels address: it returns, and the world it leaves differs from the
    bound one at most in the buffers a pass writes. *)
Lemma scored L g w :
  kernel_frames (L_kernels L) -> scorable L g w ->
  (exists n, extent w ta_state_gpu = Some n /\ (ta_extent (L_kernels L) <= n)%nat) ->
  exists a w0 w1,
    CommonTsetlinMachine._score_init g w = (inr tt, w0) /\
    CommonTsetlinMachine._score g w = (inr a, w1) /\
    model_ready L w0 /\ test_buffers L g w0 /\ rebinds w w0 /\
    agrees_upto (ta_extent (L_kernels L)) w0 w0 ta_state_gpu /\
    (no <- getattr self_number_of_outputs ;;
     n <- as_size no ;;
     for_range_with (number_of_graphs g) (np_zeros2 (number_of_graphs g) n)
       (fun e class_sum =>
          row <- lift (get_row class_sum e) ;;
          memcpy_htod class_sum_gpu row ;;
          CommonTsetlinMachine.evaluate_test g e ;;
          row <- memcpy_dtoh int32 (length row) class_sum_gpu ;;
          lift (set_row class_sum e row))) w0 = (inr a, w1) /\
    matrix (number_of_graphs g) (Z.to_nat (L_outputs L)) a /\
    same_layout w0 w1 /\
    (forall q, ~ In q (test_writes L) -> gpu w1 q = gpu w0 q).
Proof.
  intros HF Hs (n & Hn & Ln). pose proof Hs as (MR & GO & _).
  destruct (score_init_returns L g w Hs) as (w0 & E0 & M0 & T0 & R0).
  pose proof R0 as (_ & Rp & _).
  assert (U0 : agrees_upto (ta_extent (L_kernels L)) w0 w0 ta_state_gpu).
  { destruct (extent_buffer _ _ _ Hn) as (ta & G & Lta).
    exists ta, ta. rewrite (Rp ta_state_gpu I).
    split; [exact G|]. split; [exact G|]. split; [lia|]. split; [lia|reflexivity]. }
  pose proof (score_ready_bound L g w0 M0 T0) as SR.
  destruct (score_rows_lockstep L g HF GO w0 w0
              (synced_bound L g w0 w0 M0 T0 M0 T0 U0 eq_refl eq_refl (fun _ => eq_refl)
                 eq_refl) SR SR)
    as (a & w1 & w1' & EA & _ & Ma & LA & _ & FA & _).
  exists a, w0, w1. split; [exact E0|].
  split; [unfold CommonTsetlinMachine._score; rewrite (bind_ok _ _ _ _ _ E0); exact EA|].
  auto 10.
Qed.

(** X3: two calls of [score] in a row on the same graph set return the
    same array, in each of the three machines: what the first call leaves in
    the scratch buffers does not reach the second.  The kernels are taken to
    read what the specification says they read. *)
Theorem score_repeatable L g w (score : Graphs -> M ndarray) :
  kernel_frames (L_kernels L) -> scorable L g w ->
  (exists n, extent w ta_state_gpu = Some n /\ (ta_extent (L_kernels L) <= n)%nat) ->
  0 < L_outputs L ->
  score = MultiClassGraphTsetlinMachine.score \/
  score = MultiOutputGraphTsetlinMachine.score \/
  score = GraphTsetlinMachine.score ->
  exists a w1 w2, score g w = (inr a, w1) /\ score g w1 = (inr a, w2).
Proof.
  intros HF Hs Hta Ho Hscore. pose proof Hs as (_ & GO & sig0 & Hsig & _).
  destruct (scored L g w HF Hs Hta)
    as (a & w0 & w1 & E0 & E1 & M0 & T0 & R0 & U0 & EA & Ma & LA & FA).
  pose proof LA as [QA XA].
  assert (M1 : model_ready L w1) by (eapply model_ready_layout; eassumption).
  assert (T1 : test_buffers L g w1).
  { apply (test_buffers_same L g w0); [| | | | |exact T0].
    - rewrite QA. reflexivity.
    - intros q _ _. apply XA.
    - apply FA. unwritten.
    - apply FA. unwritten.
    - apply FA. unwritten. }
  assert (N1 : CommonTsetlinMachine._score_init g w1 = (inr tt, w1)).
  { destruct Hs as ((Hi & _) & _).
    destruct (score_init_signature g w sig0 Hi Hsig) as (sig & Hs1 & He).
    rewrite E0 in Hs1. cbn [snd] in Hs1. destruct M1 as (Hi1 & _).
    apply (score_init_noop g w1 sig); [exact Hi1|rewrite QA; exact Hs1|exact He]. }
  assert (U1 : agrees_upto (ta_extent (L_kernels L)) w0 w1 ta_state_gpu).
  { destruct U0 as (x & y & Gx & Gy & Lx & Ly & Exy). exists x, x.
    rewrite FA by unwritten. auto 10. }
  assert (Hsync : synced (L_kernels L) (test_reads L) (test_writes L) w0 w1).
  { apply (synced_bound L g); try assumption.
    - apply FA. unwritten.
    - apply FA. unwritten.
    - intros j. apply FA. unwritten.
    - apply XA. }
  destruct (score_rows_lockstep L g HF GO w0 w1 Hsync (score_ready_bound L g w0 M0 T0)
              (score_ready_bound L g w1 M1 T1))
    as (a' & w1' & w2 & EA' & EB & _ & _).
  rewrite EA in EA'. injection EA' as <- _.
  assert (E2 : CommonTsetlinMachine._score g w1 = (inr a, w2)).
  { unfold CommonTsetlinMachine._score. rewrite (bind_ok _ _ _ _ _ N1). exact EB. }
  destruct Hscore as [-> | [-> | ->]].
  - exists a, w1, w2. auto.
  - exists a, w1, w2. auto.
  - destruct (column0_vector (number_of_graphs g) (Z.to_nat (L_outputs L)) a ltac:(lia) Ma)
      as (v & Ev & _).
    exists v, w1, w2. unfold GraphTsetlinMachine.score.
    rewrite (bind_ok _ _ _ _ _ E1), (bind_ok _ _ _ _ _ E2), Ev. auto.
Qed.

End Again.

(** ** The exported state *)

Lemma array_equal_nonempty l : (0 < length l)%nat -> array_equal (Arr1 l) np_array_nil = false.
Proof.
  intros H. unfold array_equal, np_array_nil. cbn [shape ravel].
  rewrite bool_decide_eq_false_2; [reflexivity|].
  intros [= E]. rewrite E in H. cbn in H. lia.
Qed.

Section Exported.
Context `{B : Backend}.
Variable L : layout.

(** X4: [get_state] caches what it reads.  After one call, a second call
    returns the same tuple from the host copies and leaves the world as it
    is, whatever the device holds by then. *)
Theorem get_state_cached w :
  model_ready L w -> exportable L w ->
  exists st w1,
    CommonTsetlinMachine.get_state w = (inr st, w1) /\
    forall f, CommonTsetlinMachine.get_state (with_gpu f w1) = (inr st, with_gpu f w1).
Proof.
  intros MR (Hd & Ho & nl & tc & sb & lo & hi & tac & cwc & ta & wts & A1 & A2 & A3 & A4
             & A5 & A6 & A7 & G1 & G2 & N0 & N1 & N2 & Lw & U1 & U2 & Hc).
  pose proof MR as (_ & _ & M3 & M4 & _ & M6 & M7 & _).
  unfold CommonTsetlinMachine.get_state.
  erewrite bind_getattr by exact A7.
  destruct (array_equal cwc np_array_nil) eqn:Ec.
  - run.
    rewrite (bind_memcpy_dtoh uint32 (L_clauses L * tc * sb) ta_state_gpu ta)
      by first [lia | (world_cbn; eassumption)].
    run. rewrite bind_as_size by lia. run.
    rewrite (bind_memcpy_dtoh int32 (Z.to_nat (L_outputs L * Z.of_nat (L_clauses L)))
               clause_weights_gpu wts) by first [lia | (world_cbn; eassumption)].
    run. rewrite <- Lw, firstn_all.
    eexists _, _. split; [reflexivity|]. intros f.
    erewrite bind_getattr by attr.
    rewrite array_equal_nonempty by (rewrite length_map; nia).
    run. reflexivity.
  - run. eexists _, w. split; [reflexivity|]. intros f.
    erewrite bind_getattr by attr. rewrite Ec. run. reflexivity.
Qed.

(** X5: [set_state(get_state())] on the device.  Both calls return.  The
    weight buffer holds what it held; the automaton buffer is allocated anew
    with room for [depth] times the surface automata, starts with the words
    the old one started with, and the rest is whatever the allocation held;
    no other buffer changes, the message automata and the hypervectors
    included.  The bindings to graph sets and the host copies are cleared. *)
Theorem state_round_trip w :
  model_ready L w -> exportable L w ->
  exists st w1 w2 tc sb ta junk,
    CommonTsetlinMachine.get_state w = (inr st, w1) /\
    CommonTsetlinMachine.set_state st w1 = (inr tt, w2) /\
    self w self_number_of_ta_chunks = Some tc /\
    self w self_number_of_state_bits = Some sb /\
    gpu w ta_state_gpu = Some ta /\
    gpu w2 ta_state_gpu = Some (take (L_clauses L * tc * sb) ta ++ junk) /\
    length junk = ((L_depth L - 1) * (L_clauses L * tc * sb))%nat /\
    gpu w2 clause_weights_gpu = gpu w clause_weights_gpu /\
    (forall q, q <> ta_state_gpu -> q <> clause_weights_gpu -> gpu w2 q = gpu w q) /\
    self w2 self_graphs_signature_train = Some np_array_nil /\
    self w2 self_graphs_signature_test = Some np_array_nil /\
    self w2 self_encoded_Y = Some np_array_nil /\
    self w2 self_ta_state = Some np_array_nil /\
    self w2 self_clause_weights = Some np_array_nil.
Proof.
  intros MR Hx.
  destruct (get_state_returns L w MR Hx) as (st & w1 & E1 & G1 & S1 & X1 & Sn).
  assert (M1 : model_ready L w1) by (eapply model_ready_cached; eassumption).
  destruct (set_state_returns L w1 st M1 X1 Sn)
    as (w2 & E2 & _ & Sg & _ & _ & C2 & Q2 & (tc & sb & ta & junk & T1 & T2 & T3 & T4 & T5)
        & R1 & R2 & R3 & R4).
  exists st, w1, w2, tc, sb, ta, junk.
  rewrite S1 in T1, T2 by discriminate. rewrite G1 in T3, C2.
  repeat (split; [assumption|]).
  split; [intros q H1 H2; rewrite Q2, G1 by assumption; reflexivity|].
  auto.
Qed.

End Exported.

(** ** A model that was loaded, not fitted *)

Section Loaded.
Context `{B : Backend}.

(** [set_state] of a tuple whose arrays fit the buffers its sizes ask for
    returns, and leaves the [initialized] flag as it found it. *)
Lemma set_state_flag w st flag :
  self w self_initialized = Some flag ->
  (0 < state_5 st * state_3 st * state_7 st * state_6 st)%nat ->
  0 < state_2 st * Z.of_nat (state_3 st) ->
  (length (ravel (state_0 st)) <= state_5 st * state_3 st * state_7 st * state_6 st)%nat ->
  (length (ravel (state_1 st)) <= Z.to_nat (state_2 st * Z.of_nat (state_3 st)))%nat ->
  exists w',
    CommonTsetlinMachine.set_state st w = (inr tt, w') /\
    self w' self_initialized = Some flag /\
    self w' self_number_of_outputs = Some (state_2 st) /\
    self w' self_depth = Some (state_5 st).
Proof.
  intros Hi N0 N1 L0 L1. unfold CommonTsetlinMachine.set_state. run.
  rewrite bind_mem_alloc by exact N0.
  run. rewrite bind_as_size by lia.
  replace (Z.to_nat (state_2 st * Z.of_nat (state_3 st) * 4))
    with (Z.to_nat (state_2 st * Z.of_nat (state_3 st)) * 4)%nat by lia.
  rewrite bind_mem_alloc by lia.
  erewrite bind_memcpy_htod;
    [|world_cbn; rewrite fn_lookup_insert_ne by discriminate; apply fn_lookup_insert
     |rewrite !length_map, length_seq; exact L0].
  erewrite bind_memcpy_htod;
    [|world_cbn; rewrite fn_lookup_insert_ne by discriminate; apply fn_lookup_insert
     |rewrite !length_map, length_seq; exact L1].
  run. eexists. split; [reflexivity|]. split; [exact Hi|]. split; reflexivity.
Qed.

(** X6: [set_state] does not initialize a model.  On a machine that was
    constructed and never fitted, loading a state returns, and [score] and
    [predict] then still print "Error: Model not trained." and exit with
    status -1. *)
Theorem loaded_model_exits w st g :
  self w self_initialized = Some false ->
  (0 < state_5 st * state_3 st * state_7 st * state_6 st)%nat ->
  0 < state_2 st * Z.of_nat (state_3 st) ->
  (length (ravel (state_0 st)) <= state_5 st * state_3 st * state_7 st * state_6 st)%nat ->
  (length (ravel (state_1 st)) <= Z.to_nat (state_2 st * Z.of_nat (state_3 st)))%nat ->
  exists w',
    CommonTsetlinMachine.set_state st w = (inr tt, w') /\
    MultiClassGraphTsetlinMachine.score g w' = (inl (SystemExit (-1)), not_trained w') /\
    MultiClassGraphTsetlinMachine.predict g w' = (inl (SystemExit (-1)), not_trained w') /\
    MultiOutputGraphTsetlinMachine.score g w' = (inl (SystemExit (-1)), not_trained w') /\
    GraphTsetlinMachine.score g w' = (inl (SystemExit (-1)), not_trained w').
Proof.
  intros Hi N0 N1 L0 L1.
  destruct (set_state_flag w st false Hi N0 N1 L0 L1) as (w' & E & Hi' & _).
  exists w'. split; [exact E|].
  pose proof (score_init_exits g w' Hi') as X.
  assert (S : CommonTsetlinMachine._score g w' = (inl (SystemExit (-1)), not_trained w')).
  { unfold CommonTsetlinMachine._score. apply bind_err. exact X. }
  unfold MultiClassGraphTsetlinMachine.predict, GraphTsetlinMachine.score,
    MultiClassGraphTsetlinMachine.score, MultiOutputGraphTsetlinMachine.score.
  split; [exact S|]. split; [apply bind_err; exact S|]. split; [exact S|].
  apply bind_err. exact S.
Qed.

End Loaded.

(** ** What a pass writes *)

Lemma writes_within_refl W w : writes_within W w w.
Proof. split; [apply same_layout_refl|reflexivity]. Qed.

Lemma writes_within_trans W w1 w2 w3 :
  writes_within W w1 w2 -> writes_within W w2 w3 -> writes_within W w1 w3.
Proof.
  intros [L1 F1] [L2 F2]. split; [eapply same_layout_trans; eassumption|].
  intros q Hq. rewrite F2, F1 by exact Hq. reflexivity.
Qed.

Lemma launched_within W k args ws w :
  (forall q, In q (map fst ws) -> In q W) -> writes_within W w (launched k args ws w).
Proof.
  intros Hsub. split; [apply launched_layout|].
  intros q Hq. apply launched_ne, Forall_forall. intros pn Hpn E.
  apply Hq, Hsub. rewrite <- E. apply in_map. exact Hpn.
Qed.

Lemma memcpy_htod_within W p src buf w :
  gpu w p = Some buf -> (length src <= length buf)%nat -> In p W ->
  writes_within W w (with_gpu (<[p := Some (map to_uint32 src ++ drop (length src) buf)]>) w).
Proof.
  intros G Hl Hp. split; [apply memcpy_htod_layout; assumption|].
  intros q Hq. cbn [gpu with_gpu]. apply fn_lookup_insert_ne. intros ->. contradiction.
Qed.

Lemma writes_within_weaken W W' w w' :
  (forall q, In q W -> In q W') -> writes_within W w w' -> writes_within W' w w'.
Proof.
  intros Hsub [L F]. split; [exact L|]. intros q Hq. apply F. intros H. apply Hq, Hsub, H.
Qed.

Section Launches.
Context `{B : Backend}.

Ltac buffers :=
  repeat match goal with
         | H : is_Some (self _ self_kernels) |- _ => destruct H as [? H]
         | H : allocated _ _ |- _ => apply allocated_buf in H as [? H]
         end.

Ltac within run :=
  intros; buffers; eexists; split;
  [ eapply run; eassumption
  | apply launched_within; cbn [map fst In]; tauto ].

Lemma calculate_messages_within w ta n ni cur incl X :
  is_Some (self w self_kernels) ->
  allocated w ta -> allocated w cur -> allocated w incl -> allocated w X ->
  exists w',
    CommonTsetlinMachine.calculate_messages ta n ni cur incl X w = (inr tt, w') /\
    writes_within [cur; incl] w w'.
Proof. within calculate_messages_run. Qed.

Lemma prepare_messages_within w n msg_int :
  is_Some (self w self_kernels) -> allocated w msg_int ->
  exists w',
    CommonTsetlinMachine.prepare_messages n msg_int w = (inr tt, w') /\
    writes_within [msg_int] w w'.
Proof. within prepare_messages_run. Qed.

Lemma exchange_messages_within w n hv cur ni ei nedges edges msg_int :
  is_Some (self w self_kernels) ->
  allocated w hv -> allocated w cur -> allocated w nedges -> allocated w edges ->
  allocated w msg_int ->
  exists w',
    CommonTsetlinMachine.exchange_messages n hv cur ni ei nedges edges msg_int w
    = (inr tt, w') /\
    writes_within [msg_int] w w'.
Proof. within exchange_messages_run. Qed.

Lemma encode_messages_within w n msg_int msg :
  is_Some (self w self_kernels) -> allocated w msg_int -> allocated w msg ->
  exists w',
    CommonTsetlinMachine.encode_messages n msg_int msg w = (inr tt, w') /\
    writes_within [msg] w w'.
Proof. within encode_messages_run. Qed.

Lemma calculate_messages_conditional_within w msg_ta n cur nxt incl msg :
  is_Some (self w self_kernels) ->
  allocated w msg_ta -> allocated w cur -> allocated w nxt -> allocated w incl ->
  allocated w msg ->
  exists w',
    CommonTsetlinMachine.calculate_messages_conditional msg_ta n cur nxt incl msg w
    = (inr tt, w') /\
    writes_within [nxt; incl] w w'.
Proof. within calculate_messages_conditional_run. Qed.

Lemma evaluate_within w cur weights n class_sum :
  is_Some (self w self_kernels) ->
  allocated w cur -> allocated w weights -> allocated w class_sum ->
  exists w',
    CommonTsetlinMachine.evaluate cur weights n class_sum w = (inr tt, w') /\
    writes_within [class_sum] w w'.
Proof. within evaluate_run. Qed.

End Launches.

Section Within.
Context `{B : Backend}.
Variables (depth : nat) (msg_tas : list dptr).
Variables (cur nxt nedges edge msg_int : dptr) (clause_X : list dptr) (features : dptr).

Abbreviation W := (pass_writes cur nxt msg_int clause_X).

Ltac alloc_of L :=
  solve [ eapply same_layout_allocated; [exact L|]; assumption
        | assumption ].

(** One round writes the message buffers, the buffer it is handed as next
    and the include counts. *)
Lemma round_within w n ni ei k c x :
  evaluable w depth msg_tas cur nxt nedges edge msg_int clause_X features ->
  allocated w c -> allocated w x -> In x W -> (k < depth - 1)%nat ->
  exists w',
    (CommonTsetlinMachine.prepare_messages n msg_int ;;
     synchronize ;;
     CommonTsetlinMachine.exchange_messages n hypervectors_gpu c ni ei nedges edge msg_int ;;
     synchronize ;;
     msg <- index clause_X k ;;
     CommonTsetlinMachine.encode_messages n msg_int msg ;;
     synchronize ;;
     l <- getattr self_message_ta_state_gpu ;;
     msg_ta <- index l k ;;
     msg <- index clause_X k ;;
     CommonTsetlinMachine.calculate_messages_conditional msg_ta n c x
       number_of_include_actions msg ;;
     synchronize ;;
     ret (x, c)) w = (inr (x, c), w') /\
    writes_within W w w'.
Proof.
  intros (K & D & _ & T & LT & LX & FT & FX & F) Ac Ax Hx Hk.
  repeat match goal with H : Forall _ (_ :: _) |- _ => inversion H; clear H; subst end.
  destruct (Forall_lookup_allocated w clause_X k FX ltac:(lia)) as (px & Epx & _ & Apx).
  destruct (Forall_lookup_allocated w msg_tas k FT ltac:(lia)) as (pt & Ept & _ & Apt).
  pose proof (lookup_In _ _ _ Epx) as Ipx.
  assert (I1 : forall q, In q [msg_int] -> In q W) by sublist.
  assert (I3 : forall q, In q [px] -> In q W) by sublist.
  assert (I4 : forall q, In q [x; number_of_include_actions] -> In q W) by sublist.
  destruct (prepare_messages_within w n msg_int K ltac:(assumption)) as (w1 & E1 & W1).
  rewrite (bind_ok _ _ _ _ _ E1). run_cbn.
  apply (writes_within_weaken _ W _ _ I1) in W1. pose proof W1 as [L1 _].
  pose proof L1 as [Q1 _].
  destruct (exchange_messages_within w1 n hypervectors_gpu c ni ei nedges edge msg_int)
    as (w2 & E2 & W2); [rewrite Q1; exact K|alloc_of L1..|].
  rewrite (bind_ok _ _ _ _ _ E2). run_cbn.
  apply (writes_within_weaken _ W _ _ I1) in W2.
  pose proof (writes_within_trans _ _ _ _ W1 W2) as W12. pose proof W12 as [L12 _].
  pose proof L12 as [Q2 _].
  rewrite (bind_index _ _ _ _ _ Epx).
  destruct (encode_messages_within w2 n msg_int px) as (w3 & E3 & W3);
    [rewrite Q2; exact K|alloc_of L12..|].
  rewrite (bind_ok _ _ _ _ _ E3). run_cbn.
  apply (writes_within_weaken _ W _ _ I3) in W3.
  pose proof (writes_within_trans _ _ _ _ W12 W3) as W13. pose proof W13 as [L13 _].
  pose proof L13 as [Q3 _].
  erewrite bind_getattr by (rewrite Q3; exact T).
  rewrite (bind_index _ _ _ _ _ Ept), (bind_index _ _ _ _ _ Epx).
  destruct (calculate_messages_conditional_within w3 pt n c x number_of_include_actions px)
    as (w4 & E4 & W4); [rewrite Q3; exact K|alloc_of L13..|].
  rewrite (bind_ok _ _ _ _ _ E4). run_cbn.
  apply (writes_within_weaken _ W _ _ I4) in W4.
  exists w4. split; [reflexivity|]. eapply writes_within_trans; eassumption.
Qed.

(** The head of [_evaluate]: the class sums are cleared and the layer-zero
    evaluation is launched. *)
Lemma pass_head_within w n ni :
  evaluable w depth msg_tas cur nxt nedges edge msg_int clause_X features ->
  exists no w',
    self w self_number_of_outputs = Some no /\ 0 <= no /\
    (memcpy_htod class_sum_gpu (ravel (astype_int32 (np_zeros1 (Z.to_nat no)))) ;;
     CommonTsetlinMachine.calculate_messages ta_state_gpu n ni cur
       number_of_include_actions features) w = (inr tt, w') /\
    writes_within [cur; number_of_include_actions; class_sum_gpu] w w'.
Proof.
  intros (K & D & (no & len & O & Hno & X & Hlen) & T & _ & _ & _ & _ & F).
  repeat match goal with H : Forall _ (_ :: _) |- _ => inversion H; clear H; subst end.
  exists no. destruct (extent_buffer _ _ _ X) as (buf & G & Lb).
  assert (Lz : (length (ravel (astype_int32 (np_zeros1 (Z.to_nat no)))) <= length buf)%nat).
  { cbn [np_zeros1 astype_int32 ravel]. rewrite length_map, length_replicate. lia. }
  rewrite (bind_ok _ _ _ _ _ (memcpy_htod_run _ _ _ _ G Lz)).
  pose proof (memcpy_htod_within [cur; number_of_include_actions; class_sum_gpu]
                _ _ _ _ G Lz ltac:(cbn; tauto)) as W1.
  match type of W1 with writes_within _ _ ?x => set (w1 := x) in * end.
  pose proof W1 as [L1 _]. pose proof L1 as [Q1 _].
  destruct (calculate_messages_within w1 ta_state_gpu n ni cur number_of_include_actions
              features) as (w2 & E2 & W2); [rewrite Q1; exact K|alloc_of L1..|].
  exists w2. split; [exact O|]. split; [exact Hno|]. split; [exact E2|].
  eapply writes_within_trans; [exact W1|].
  eapply writes_within_weaken; [|exact W2]. cbn [In]. tauto.
Qed.

(** [_evaluate] writes the two node-output buffers, the message buffers, the
    include counts and the class sums, and nothing else. *)
Lemma pass_within w g n ni ei :
  evaluable w depth msg_tas cur nxt nedges edge msg_int clause_X features ->
  exists w',
    CommonTsetlinMachine._evaluate g n ni ei cur nxt nedges edge msg_int clause_X features w
    = (inr (current_after (depth - 1) cur nxt), w') /\
    writes_within W w w'.
Proof.
  intros Hev. pose proof Hev as (K & D & _ & T & _ & _ & _ & _ & F).
  repeat match goal with H : Forall _ (_ :: _) |- _ => inversion H; clear H; subst end.
  destruct (pass_head_within w n ni Hev) as (no & w2 & O & Hno & E2 & W2).
  unfold CommonTsetlinMachine._evaluate.
  erewrite bind_getattr by exact O. rewrite bind_as_size by exact Hno.
  rewrite <- bind_assoc, (bind_ok _ _ _ _ _ E2). run_cbn.
  assert (I0 : forall q, In q [cur; number_of_include_actions; class_sum_gpu] -> In q W)
    by sublist.
  apply (writes_within_weaken _ W _ _ I0) in W2. pose proof W2 as [[Q2 _] _].
  erewrite bind_getattr by (rewrite Q2; exact D).
  destruct (for_range_with_returns
    (fun k s w' =>
       s = (current_after k cur nxt, next_after k cur nxt) /\ writes_within W w w')
    (depth - 1)
    (fun k locals =>
       let '(c, x) := locals in
       CommonTsetlinMachine.prepare_messages n msg_int ;;
       synchronize ;;
       CommonTsetlinMachine.exchange_messages n hypervectors_gpu c ni ei nedges edge msg_int ;;
       synchronize ;;
       msg <- index clause_X k ;;
       CommonTsetlinMachine.encode_messages n msg_int msg ;;
       synchronize ;;
       l <- getattr self_message_ta_state_gpu ;;
       msg_ta <- index l k ;;
       msg <- index clause_X k ;;
       CommonTsetlinMachine.calculate_messages_conditional msg_ta n c x
         number_of_include_actions msg ;;
       synchronize ;;
       ret (x, c))) with (s := (cur, nxt)) (w := w2) as (s3 & w3 & E3 & -> & W3).
  - intros k s wk Hk (-> & [Lk Fk]).
    pose proof (evaluable_layout _ _ _ _ _ _ _ _ _ _ _ Lk Hev) as Hk'.
    destruct (evaluable_current _ _ _ _ _ _ _ _ _ _ k Hk') as [Ac Ax].
    destruct (round_within wk n ni ei k _ _ Hk' Ac Ax
                (proj2 (current_after_written cur nxt msg_int clause_X k)) Hk)
      as (wk' & Ek & Wk').
    exists (next_after k cur nxt, current_after k cur nxt), wk'.
    split; [exact Ek|]. split; [rewrite current_after_S, next_after_S; reflexivity|].
    eapply writes_within_trans; [split; eassumption|exact Wk'].
  - split; [reflexivity|exact W2].
  - rewrite (bind_ok _ _ _ _ _ E3). pose proof W3 as [L3 _].
    pose proof (evaluable_layout _ _ _ _ _ _ _ _ _ _ _ L3 Hev) as Hev3.
    destruct (evaluable_current _ _ _ _ _ _ _ _ _ _ (depth - 1) Hev3) as [Ac _].
    pose proof L3 as [Q3 _].
    destruct (evaluate_within w3 (current_after (depth - 1) cur nxt) clause_weights_gpu n
                class_sum_gpu) as (w4 & E4 & W4);
      [rewrite Q3; exact K|exact Ac|alloc_of L3..|].
    rewrite (bind_ok _ _ _ _ _ E4). run_cbn.
    exists w4. split; [reflexivity|]. eapply writes_within_trans; [exact W3|].
    eapply writes_within_weaken; [|exact W4]. sublist.
Qed.

End Within.

(** ** Scoring reads the model *)

Section ReadOnly.
Context `{B : Backend}.
Variable L : layout.
Variable g : Graphs.

Lemma evaluate_test_within w e :
  graphs_ok g -> score_ready L w -> (e < number_of_graphs g)%nat ->
  exists p w',
    CommonTsetlinMachine.evaluate_test g e w = (inr p, w') /\
    writes_within (test_writes L) w w'.
Proof.
  intros GO (EV & T5 & _) He. destruct GO as (_ & _ & _ & _ & _ & _ & _ & G8).
  destruct (G8 e He) as (n & ni & ei & Hn & Hni & Hei).
  unfold CommonTsetlinMachine.evaluate_test, CommonTsetlinMachine.example_args.
  rewrite !bind_assoc, (bind_index _ _ _ _ _ Hn).
  rewrite !bind_assoc, (bind_index _ _ _ _ _ Hni).
  rewrite !bind_assoc, (bind_index _ _ _ _ _ Hei). run_cbn.
  erewrite bind_getattr by exact T5.
  destruct (pass_within _ _ _ _ _ _ _ _ _ w g (np_int32 n) (np_int32 ni) (np_int32 ei) EV)
    as (w' & E & Ww).
  eauto.
Qed.

Lemma score_row_within w e cs :
  graphs_ok g -> score_ready L w -> (e < number_of_graphs g)%nat ->
  matrix (number_of_graphs g) (Z.to_nat (L_outputs L)) cs ->
  exists cs' w',
    (row <- lift (get_row cs e) ;;
     memcpy_htod class_sum_gpu row ;;
     CommonTsetlinMachine.evaluate_test g e ;;
     row <- memcpy_dtoh int32 (length row) class_sum_gpu ;;
     lift (set_row cs e row)) w = (inr cs', w') /\
    matrix (number_of_graphs g) (Z.to_nat (L_outputs L)) cs' /\
    writes_within (test_writes L) w w'.
Proof.
  intros GO SR He (rows & -> & Hr & Hrows).
  destruct (lookup_lt_is_Some_2 rows e ltac:(lia)) as [row Hrow].
  pose proof (Forall_lookup_1 _ _ _ _ Hrows Hrow) as [Hlen _].
  rewrite (bind_lift _ row) by (cbn [get_row]; rewrite Hrow; reflexivity).
  pose proof SR as (_ & _ & _ & _ & M15).
  destruct (extent_buffer _ _ _ M15) as (buf & G & Hbuf).
  assert (Lz : (length row <= length buf)%nat) by lia.
  rewrite (bind_ok _ _ _ _ _ (memcpy_htod_run _ _ _ _ G Lz)).
  pose proof (memcpy_htod_within (test_writes L) _ _ _ _ G Lz
                ltac:(unfold test_writes; member)) as W1.
  match type of W1 with writes_within _ _ ?x => set (w1 := x) in * end.
  pose proof W1 as [L1 _].
  destruct (evaluate_test_within w1 e GO (score_ready_layout _ _ _ L1 SR) He)
    as (p & w2 & E2 & W2).
  rewrite (bind_ok _ _ _ _ _ E2).
  pose proof (writes_within_trans _ _ _ _ W1 W2) as W12. pose proof W12 as [L12 _].
  destruct (extent_buffer _ _ _ (same_layout_extent _ _ _ _ L12 M15)) as (buf2 & G2 & Hbuf2).
  rewrite (bind_ok _ _ _ _ _ (memcpy_dtoh_run int32 (length row) _ _ _ G2 ltac:(lia))).
  cbn [set_row].
  assert (E1 : (e <? length rows)%nat = true) by (apply Nat.ltb_lt; lia).
  assert (E3 : (length (map (reinterpret int32) (take (length row) buf2))
                =? Z.to_nat (L_outputs L))%nat = true).
  { apply Nat.eqb_eq. rewrite length_map, length_take. lia. }
  rewrite E1, E3. cbn [lift ret].
  eexists _, w2. split; [reflexivity|]. split; [|exact W12].
  eexists. split; [reflexivity|]. split; [rewrite length_insert; exact Hr|].
  apply Forall_insert; [exact Hrows|].
  split; [apply Nat.eqb_eq; exact E3|].
  apply Forall_map, Forall_forall. intros x _. apply to_int32_is_int32.
Qed.

(** [_score] binds the test side and then writes at most the buffers of a
    pass on the test side. *)
Lemma score_within w :
  scorable L g w ->
  exists a w0 w',
    CommonTsetlinMachine._score_init g w = (inr tt, w0) /\
    CommonTsetlinMachine._score g w = (inr a, w') /\
    rebinds w w0 /\ writes_within (test_writes L) w0 w'.
Proof.
  intros Hs. pose proof Hs as (_ & GO & _).
  destruct (score_init_returns L g w Hs) as (w1 & E1 & MR & TB & RB).
  pose proof (score_ready_bound L g w1 MR TB) as SR.
  unfold CommonTsetlinMachine._score. rewrite (bind_ok _ _ _ _ _ E1).
  pose proof SR as (_ & _ & O & P & _).
  erewrite bind_getattr by exact O. rewrite bind_as_size by exact P.
  destruct (for_range_with_returns
    (fun _ cs w' =>
       matrix (number_of_graphs g) (Z.to_nat (L_outputs L)) cs /\
       writes_within (test_writes L) w1 w')
    (number_of_graphs g)
    (fun e class_sum =>
       row <- lift (get_row class_sum e) ;;
       memcpy_htod class_sum_gpu row ;;
       CommonTsetlinMachine.evaluate_test g e ;;
       row <- memcpy_dtoh int32 (length row) class_sum_gpu ;;
       lift (set_row class_sum e row)))
    with (s := np_zeros2 (number_of_graphs g) (Z.to_nat (L_outputs L))) (w := w1)
    as (a & w' & E & _ & Ww).
  - intros e cs w0 He (Mcs & W0). pose proof W0 as [L0 _].
    destruct (score_row_within w0 e cs GO (score_ready_layout _ _ _ L0 SR) He Mcs)
      as (cs' & w0' & E0 & M0 & W0').
    exists cs', w0'. split; [exact E0|]. split; [exact M0|].
    eapply writes_within_trans; eassumption.
  - split; [apply matrix_zeros|apply writes_within_refl].
  - exists a, w1, w'. auto.
Qed.

(** X7: scoring reads the model and does not change it.  On a model that
    can score the graph set, [score] returns in each of the three machines,
    and afterwards the automata of both layers, the weights, the
    hypervectors and the generator state hold what they held, and every
    attribute but the two that bind the test side is as it was. *)
Theorem score_reads_model w (score : Graphs -> M ndarray) :
  scorable L g w -> 0 < L_outputs L ->
  score = MultiClassGraphTsetlinMachine.score \/
  score = MultiOutputGraphTsetlinMachine.score \/
  score = GraphTsetlinMachine.score ->
  exists a w',
    score g w = (inr a, w') /\
    (forall p, learned p -> gpu w' p = gpu w p) /\
    (forall x, ~ test_attribute x -> self w' x = self w x).
Proof.
  intros Hs Ho Hscore.
  destruct (score_within w Hs) as (a & w0 & w' & E0 & E & (Ra & Rp & _) & [[Q _] F]).
  destruct (score_returns L g w Hs) as (a' & w'' & E' & Ma).
  rewrite E in E'. injection E' as <- <-.
  assert (K1 : forall p, learned p -> gpu w' p = gpu w p).
  { intros p Hp. rewrite F.
    - apply Rp. destruct p; try contradiction; exact I.
    - intros H. apply test_writes_inv in H.
      destruct H as [H|[H|[H|[H|[H|[k H]]]]]]; subst p; contradiction. }
  assert (K2 : forall x, ~ test_attribute x -> self w' x = self w x).
  { intros x Hx. rewrite Q. apply Ra. exact Hx. }
  destruct Hscore as [-> | [-> | ->]].
  - exists a, w'. auto.
  - exists a, w'. auto.
  - destruct (column0_vector (number_of_graphs g) (Z.to_nat (L_outputs L)) a ltac:(lia) Ma)
      as (v & Ev & _).
    exists v, w'. unfold GraphTsetlinMachine.score.
    rewrite (bind_ok _ _ _ _ _ E), Ev. auto.
Qed.

End ReadOnly.

Section Shallow.
Context `{B : Backend}.

(** X8: a machine of depth 1 runs no message round.  One pass clears the
    class sums, launches the layer-zero evaluation and the class-sum
    accumulation on the buffer it was handed as current, and returns that
    buffer; it writes that buffer, the include counts and the class sums, and
    neither the second node-output buffer nor any message buffer. *)
Theorem shallow_pass w msg_tas cur nxt nedges edge msg_int clause_X features g n ni ei :
  evaluable w 1 msg_tas cur nxt nedges edge msg_int clause_X features ->
  exists w',
    CommonTsetlinMachine._evaluate g n ni ei cur nxt nedges edge msg_int clause_X features w
    = (inr cur, w') /\
    stream w'
    = stream w ++ [Launch Kcalculate_messages
                     [ta_state_gpu; cur; number_of_include_actions; features];
                   Launch Kevaluate [cur; clause_weights_gpu; class_sum_gpu]] /\
    writes_within [cur; number_of_include_actions; class_sum_gpu] w w'.
Proof.
  intros Hev. pose proof Hev as (K & D & _ & T & _ & _ & _ & _ & F).
  repeat match goal with H : Forall _ (_ :: _) |- _ => inversion H; clear H; subst end.
  destruct (evaluate_returns w 1 msg_tas cur nxt nedges edge msg_int clause_X features
              g n ni ei Hev) as (w'' & E' & _ & S').
  destruct (pass_head_within 1 msg_tas cur nxt nedges edge msg_int clause_X features
              w n ni Hev) as (no & w2 & O & Hno & E2 & W2).
  assert (E : exists w',
             CommonTsetlinMachine._evaluate g n ni ei cur nxt nedges edge msg_int clause_X
               features w = (inr cur, w') /\
             writes_within [cur; number_of_include_actions; class_sum_gpu] w w').
  { unfold CommonTsetlinMachine._evaluate.
    erewrite bind_getattr by exact O. rewrite bind_as_size by exact Hno.
    rewrite <- bind_assoc, (bind_ok _ _ _ _ _ E2). run_cbn.
    pose proof W2 as [L2 _]. pose proof L2 as [Q2 _].
    erewrite bind_getattr by (rewrite Q2; exact D).
    cbn [Nat.sub for_range_with seq for_each_with]. run_cbn.
    destruct (evaluate_within w2 cur clause_weights_gpu n class_sum_gpu)
      as (w4 & E4 & W4);
      [rewrite Q2; exact K|(eapply same_layout_allocated; [exact L2|]; assumption)..|].
    rewrite (bind_ok _ _ _ _ _ E4). run_cbn.
    exists w4. split; [reflexivity|]. eapply writes_within_trans; [exact W2|].
    eapply writes_within_weaken; [|exact W4]. cbn [In]. tauto. }
  destruct E as (w' & E & Ww). exists w'. split; [exact E|].
  rewrite E in E'. injection E' as ->. split; [exact S'|exact Ww].
Qed.

End Shallow.

(** ** More theorems at the toy machines *)

Lemma score_init_cached_witness :
  scorable trained_layout Toy.graphs (Toy.trained 2) /\
  exists w1,
    CommonTsetlinMachine._score_init (B := Toy.backend) Toy.graphs (Toy.trained 2)
    = (inr tt, w1) /\
    CommonTsetlinMachine._score_init (B := Toy.backend) Toy.graphs w1 = (inr tt, w1).
Proof.
  split; [exact toy_scorable|].
  exact (score_init_cached (B := Toy.backend) trained_layout Toy.graphs (Toy.trained 2)
           toy_scorable).
Defined.

Lemma toy_automata_extent :
  exists n, extent (Toy.trained 2) ta_state_gpu = Some n /\
            (ta_extent (L_kernels trained_layout) <= n)%nat.
Proof. exists 24%nat. split; [concrete|concrete]. Defined.

Lemma toy_outputs : 0 < L_outputs trained_layout.
Proof. reflexivity. Defined.

Lemma score_repeatable_witness :
  kernel_frames (B := Toy.backend) (L_kernels trained_layout) /\
  scorable trained_layout Toy.graphs (Toy.trained 2) /\
  (exists n, extent (Toy.trained 2) ta_state_gpu = Some n /\
             (ta_extent (L_kernels trained_layout) <= n)%nat) /\
  0 < L_outputs trained_layout /\
  exists a w1 w2,
    GraphTsetlinMachine.score (B := Toy.backend) Toy.graphs (Toy.trained 2) = (inr a, w1) /\
    GraphTsetlinMachine.score (B := Toy.backend) Toy.graphs w1 = (inr a, w2).
Proof.
  split; [exact (toy_frames _)|]. split; [exact toy_scorable|].
  split; [exact toy_automata_extent|]. split; [exact toy_outputs|].
  exact (score_repeatable (B := Toy.backend) trained_layout Toy.graphs (Toy.trained 2)
           (GraphTsetlinMachine.score (B := Toy.backend)) (toy_frames _) toy_scorable
           toy_automata_extent toy_outputs (or_intror (or_intror eq_refl))).
Defined.

Lemma get_state_cached_witness :
  model_ready trained_layout (Toy.trained 2) /\
  exportable trained_layout (Toy.trained 2) /\
  exists st w1,
    CommonTsetlinMachine.get_state (B := Toy.backend) (Toy.trained 2) = (inr st, w1) /\
    forall f,
      CommonTsetlinMachine.get_state (B := Toy.backend) (with_gpu f w1)
      = (inr st, with_gpu f w1).
Proof.
  split; [exact toy_model_ready|]. split; [exact toy_exportable|].
  exact (get_state_cached (B := Toy.backend) trained_layout (Toy.trained 2)
           toy_model_ready toy_exportable).
Defined.

Lemma state_round_trip_witness :
  model_ready trained_layout (Toy.trained 2) /\
  exportable trained_layout (Toy.trained 2) /\
  exists st w1 w2,
    CommonTsetlinMachine.get_state (B := Toy.backend) (Toy.trained 2) = (inr st, w1) /\
    CommonTsetlinMachine.set_state (B := Toy.backend) st w1 = (inr tt, w2) /\
    gpu w2 clause_weights_gpu = gpu (Toy.trained 2) clause_weights_gpu.
Proof.
  split; [exact toy_model_ready|]. split; [exact toy_exportable|].
  destruct (state_round_trip (B := Toy.backend) trained_layout (Toy.trained 2)
              toy_model_ready toy_exportable)
    as (st & w1 & w2 & tc & sb & ta & junk & E1 & E2 & _ & _ & _ & _ & _ & C & _).
  exists st, w1, w2. split; [exact E1|]. split; [exact E2|exact C].
Defined.

Lemma loaded_model_exits_witness :
  self (Toy.constructed 2 false) self_initialized = Some false /\
  exists w',
    CommonTsetlinMachine.set_state (B := Toy.backend) toy_state (Toy.constructed 2 false)
    = (inr tt, w') /\
    MultiClassGraphTsetlinMachine.score (B := Toy.backend) Toy.graphs w'
    = (inl (SystemExit (-1)), not_trained w').
Proof.
  split; [concrete|].
  destruct (loaded_model_exits (B := Toy.backend) (Toy.constructed 2 false) toy_state
              Toy.graphs)
    as (w' & E & S & _); [concrete|cbn; lia|reflexivity|cbn; lia|cbn; lia|].
  exists w'. split; [exact E|exact S].
Defined.

Lemma score_reads_model_witness :
  scorable trained_layout Toy.graphs (Toy.trained 2) /\
  0 < L_outputs trained_layout /\
  exists a w',
    MultiOutputGraphTsetlinMachine.score (B := Toy.backend) Toy.graphs (Toy.trained 2)
    = (inr a, w') /\
    (forall p, learned p -> gpu w' p = gpu (Toy.trained 2) p) /\
    (forall x, ~ test_attribute x -> self w' x = self (Toy.trained 2) x).
Proof.
  split; [exact toy_scorable|]. split; [exact toy_outputs|].
  exact (score_reads_model (B := Toy.backend) trained_layout Toy.graphs (Toy.trained 2)
           (MultiOutputGraphTsetlinMachine.score (B := Toy.backend)) toy_scorable toy_outputs
           (or_intror (or_introl eq_refl))).
Defined.

Lemma toy_shallow_evaluable :
  evaluable (Toy.trained 1) 1 []
    current_clause_node_output_train_gpu next_clause_node_output_train_gpu
    number_of_graph_node_edges_train_gpu edge_train_gpu clause_X_int_train_gpu
    [] encoded_X_train_gpu.
Proof.
  unfold evaluable. split; [concrete|]. split; [concrete|].
  split; [exists 2, 2%nat; repeat split; concrete|].
  split; [concrete|]. split; [concrete|]. split; [concrete|].
  split; [|split]; repeat constructor; concrete.
Defined.

Lemma shallow_pass_witness :
  evaluable (Toy.trained 1) 1 []
    current_clause_node_output_train_gpu next_clause_node_output_train_gpu
    number_of_graph_node_edges_train_gpu edge_train_gpu clause_X_int_train_gpu
    [] encoded_X_train_gpu /\
  exists w',
    CommonTsetlinMachine._evaluate (B := Toy.backend) Toy.graphs 2 0 0
      current_clause_node_output_train_gpu next_clause_node_output_train_gpu
      number_of_graph_node_edges_train_gpu edge_train_gpu clause_X_int_train_gpu
      [] encoded_X_train_gpu (Toy.trained 1)
    = (inr current_clause_node_output_train_gpu, w') /\
    stream w'
    = stream (Toy.trained 1)
      ++ [Launch Kcalculate_messages
            [ta_state_gpu; current_clause_node_output_train_gpu;
             number_of_include_actions; encoded_X_train_gpu];
          Launch Kevaluate
            [current_clause_node_output_train_gpu; clause_weights_gpu; class_sum_gpu]] /\
    writes_within
      [current_clause_node_output_train_gpu; number_of_include_actions; class_sum_gpu]
      (Toy.trained 1) w'.
Proof.
  split; [exact toy_shallow_evaluable|].
  exact (shallow_pass (B := Toy.backend) (Toy.trained 1) []
           current_clause_node_output_train_gpu next_clause_node_output_train_gpu
           number_of_graph_node_edges_train_gpu edge_train_gpu clause_X_int_train_gpu
           [] encoded_X_train_gpu Toy.graphs 2 0 0 toy_shallow_evaluable).
Defined.

(** ** The actions of the automata *)

Lemma axis_index_in n i : 0 <= i < Z.of_nat n -> axis_index n i = Some (Z.to_nat i).
Proof.
  intros H. unfold axis_index.
  assert (E : (0 <=? i) && (i <? Z.of_nat n) = true).
  { apply andb_true_iff. split; [apply Z.leb_le|apply Z.ltb_lt]; lia. }
  rewrite E. reflexivity.
Qed.

Lemma axis_index_wrap n i :
  - Z.of_nat n <= i < 0 -> axis_index n i = Some (Z.to_nat (Z.of_nat n + i)).
Proof.
  intros H. unfold axis_index.
  assert (E1 : (0 <=? i) && (i <? Z.of_nat n) = false).
  { apply andb_false_iff. left. apply Z.leb_gt. lia. }
  assert (E2 : (- Z.of_nat n <=? i) && (i <? 0) = true).
  { apply andb_true_iff. split; [apply Z.leb_le|apply Z.ltb_lt]; lia. }
  rewrite E1, E2. reflexivity.
Qed.

Lemma axis_index_out n i :
  i < - Z.of_nat n \/ Z.of_nat n <= i -> axis_index n i = None.
Proof.
  intros H. unfold axis_index.
  assert (E1 : (0 <=? i) && (i <? Z.of_nat n) = false).
  { apply andb_false_iff. destruct H; [left; apply Z.leb_gt|right; apply Z.ltb_ge]; lia. }
  assert (E2 : (- Z.of_nat n <=? i) && (i <? 0) = false).
  { apply andb_false_iff. destruct H; [left; apply Z.leb_gt|right; apply Z.ltb_ge]; lia. }
  rewrite E1, E2. reflexivity.
Qed.

(** The chunk of an automaton and the last state bit are within their
    axes. *)
Lemma chunk_in tc ta : 0 <= ta < 32 * Z.of_nat tc -> 0 <= ta / 32 < Z.of_nat tc.
Proof.
  intros H. split; [apply Z.div_pos; lia|apply Z.div_lt_upper_bound; lia].
Qed.

Lemma action_word_in nc tc sb clause ta :
  0 <= clause < Z.of_nat nc -> 0 <= ta < 32 * Z.of_nat tc -> (1 <= sb)%nat ->
  (action_word tc sb clause ta < nc * tc * sb)%nat.
Proof.
  intros Hc Ht Hb. pose proof (chunk_in tc ta Ht) as Hj.
  unfold action_word. clear Ht. revert Hj.
  generalize (ta / 32). intros j Hj.
  assert (Z.to_nat clause < nc)%nat by lia.
  assert (Z.to_nat j < tc)%nat by lia.
  set (c' := Z.to_nat clause) in *. set (j' := Z.to_nat j) in *.
  clearbody c' j'.
  assert (H1 : (c' * tc + j' + 1 <= nc * tc)%nat) by nia.
  pose proof (Nat.mul_le_mono_r _ _ sb H1) as H2.
  rewrite Nat.mul_add_distr_r in H2. lia.
Qed.

Lemma reshape3_item_in a nc tc sb clause ta :
  size a = (nc * tc * sb)%nat -> length (ravel a) = (nc * tc * sb)%nat ->
  0 <= clause < Z.of_nat nc -> 0 <= ta < 32 * Z.of_nat tc -> (1 <= sb)%nat ->
  reshape3_item a nc tc sb clause (ta / 32) (Z.of_nat sb - 1)
  = inr (nth (action_word tc sb clause ta) (ravel a) 0).
Proof.
  intros Hs Hl Hc Ht Hb. pose proof (chunk_in tc ta Ht) as Hj.
  unfold reshape3_item.
  assert (E : (size a =? nc * tc * sb)%nat = true) by (apply Nat.eqb_eq; exact Hs).
  rewrite E, (axis_index_in nc clause Hc), (axis_index_in tc (ta / 32) Hj),
    (axis_index_in sb (Z.of_nat sb - 1)) by lia.
  replace (Z.to_nat (Z.of_nat sb - 1)) with (sb - 1)%nat by lia.
  fold (action_word tc sb clause ta).
  assert (Hi : (action_word tc sb clause ta < length (ravel a))%nat)
    by (rewrite Hl; apply action_word_in; assumption).
  destruct (lookup_lt_is_Some_2 _ _ Hi) as [x Hx]. rewrite Hx.
  f_equal. symmetry. apply nth_lookup_Some. exact Hx.
Qed.

(** The bit test of [ta_action] is the bit of the word. *)
Lemma bit_set_testbit word ta : 0 <= word -> bit_set word ta = Z.testbit word (ta mod 32).
Proof.
  intros Hw. unfold bit_set.
  pose proof (Z.mod_pos_bound ta 32 ltac:(lia)) as Hk.
  rewrite Z.shiftl_1_l.
  destruct (Z.testbit word (ta mod 32)) eqn:Eb.
  - apply Z.ltb_lt.
    assert (Hn : 0 <= Z.land word (2 ^ (ta mod 32))) by (apply Z.land_nonneg; lia).
    assert (Hz : Z.land word (2 ^ (ta mod 32)) <> 0).
    { intros E. pose proof (Z.land_spec word (2 ^ (ta mod 32)) (ta mod 32)) as S.
      rewrite E, Z.bits_0, Eb, Z.pow2_bits_true in S by lia. discriminate S. }
    lia.
  - apply Z.ltb_ge.
    assert (E : Z.land word (2 ^ (ta mod 32)) = 0).
    { apply Z.bits_inj'. intros n Hn. rewrite Z.land_spec, Z.bits_0.
      rewrite Z.pow2_bits_eqb by lia.
      destruct (Z.eqb_spec (ta mod 32) n) as [<-|_]; [rewrite Eb; reflexivity|].
      apply andb_false_r. }
    lia.
Qed.

Lemma to_uint32_is_uint32 x : is_uint32 (to_uint32 x).
Proof. unfold is_uint32, to_uint32. apply Z.mod_pos_bound. reflexivity. Qed.

Lemma surface_words_uint32 w n ws :
  surface_words w n ws -> length ws = n /\ Forall is_uint32 ws.
Proof.
  intros (cached & _ & [(_ & buf & _ & Hn & ->)|(_ & _ & Hl & Hu & <-)]).
  - split; [rewrite length_map, length_take; lia|].
    apply Forall_forall. intros x Hx. apply in_map_iff in Hx as (y & <- & _).
    apply to_uint32_is_uint32.
  - split; assumption.
Qed.

Lemma word_nonneg ws i : Forall is_uint32 ws -> 0 <= nth i ws 0.
Proof.
  intros H. destruct (nth_in_or_default i ws 0) as [Hi| ->]; [|lia].
  rewrite Forall_forall in H. apply H in Hi. unfold is_uint32 in Hi. lia.
Qed.

Lemma nth_words i n buf :
  (i < n)%nat -> nth i (map to_uint32 (take n buf)) 0 = to_uint32 (nth i buf 0).
Proof.
  intros Hi. change 0 with (to_uint32 0) at 1. rewrite map_nth, nth_firstn.
  destruct (Nat.ltb_spec i n); [reflexivity|lia].
Qed.

Lemma axis_index_lt n i k : axis_index n i = Some k -> (k < n)%nat.
Proof.
  unfold axis_index.
  destruct ((0 <=? i) && (i <? Z.of_nat n)) eqn:E1.
  - apply andb_true_iff in E1 as [H1 H2]. apply Z.leb_le in H1. apply Z.ltb_lt in H2.
    intros [= <-]. lia.
  - destruct ((- Z.of_nat n <=? i) && (i <? 0)) eqn:E2; [|discriminate].
    apply andb_true_iff in E2 as [H1 H2]. apply Z.leb_le in H1. apply Z.ltb_lt in H2.
    intros [= <-]. lia.
Qed.

Lemma message_buffer L k :
  (k < L_depth L - 1)%nat -> message_ta_buffers L !! k = Some (message_ta_state_gpu k).
Proof.
  intros H. unfold message_ta_buffers. rewrite list_lookup_fmap, lookup_seq_lt by exact H.
  reflexivity.
Qed.

Section Actions.
Context `{B : Backend}.

(** [ta_action] for the surface layer: the answer is a bit of a word of
    [ws], and [ws] is the host copy from then on. *)
Lemma ta_action_surface w nc tc sb ws clause ta :
  self w self_number_of_clauses = Some nc ->
  self w self_number_of_ta_chunks = Some tc ->
  self w self_number_of_state_bits = Some sb ->
  surface_words w (nc * tc * sb) ws ->
  0 <= clause < Z.of_nat nc -> 0 <= ta < 32 * Z.of_nat tc -> (1 <= sb)%nat ->
  exists w',
    CommonTsetlinMachine.ta_action 0 clause ta w
    = (inr (Z.testbit (nth (action_word tc sb clause ta) ws 0) (ta mod 32)), w') /\
    gpu w' = gpu w /\
    (forall a, a <> self_ta_state -> self w' a = self w a) /\
    surface_words w' (nc * tc * sb) ws /\
    (exists cached, self w' self_ta_state = Some cached /\
                    array_equal cached np_array_nil = false) /\
    (forall c, self w self_ta_state = Some c -> array_equal c np_array_nil = false ->
               w' = w).
Proof.
  intros A1 A2 A3 Hw Hc Ht Hb.
  destruct (surface_words_uint32 _ _ _ Hw) as [Hl Hu].
  assert (HN : (0 < nc * tc * sb)%nat) by (repeat apply Nat.mul_pos_pos; lia).
  pose proof Hw as (cached & A4 & [(Ec & buf & G & Hn & ->)|(Ec & Hs & Hl' & _ & <-)]);
    unfold CommonTsetlinMachine.ta_action; cbn [Z.eqb].
  - run. rewrite Ec. run.
    rewrite (bind_memcpy_dtoh uint32 (nc * tc * sb) ta_state_gpu buf)
      by first [lia | (world_cbn; eassumption)].
    run. change (reinterpret uint32) with to_uint32.
    erewrite bind_lift
      by (apply reshape3_item_in; cbn [size ravel]; first [assumption | lia]).
    run. cbn [ravel]. rewrite bit_set_testbit by (apply word_nonneg; exact Hu).
    assert (En : array_equal (Arr1 (map to_uint32 (take (nc * tc * sb) buf))) np_array_nil
                 = false) by (apply array_equal_nonempty; rewrite Hl; exact HN).
    eexists. split; [reflexivity|]. split; [reflexivity|]. split.
    { intros a Ha. world_cbn. rewrite !object_set_ne by congruence. reflexivity. }
    split.
    { eexists. split; [attr|]. right. cbn [size ravel]. auto. }
    split; [eexists; split; [attr|exact En]|].
    intros c Hc'. rewrite A4 in Hc'. injection Hc' as <-. congruence.
  - run. rewrite Ec. run.
    erewrite bind_lift by (apply reshape3_item_in; first [assumption | lia]).
    run. rewrite bit_set_testbit by (apply word_nonneg; exact Hu).
    exists w. split; [reflexivity|]. split; [reflexivity|]. split; [reflexivity|].
    split; [exact Hw|]. split; [exists cached; auto|]. reflexivity.
Qed.

(** [ta_action] for a message layer: the buffer of the layer is copied to the
    host and the answer is a bit of a word of the copy. *)
Lemma ta_action_message w nc mc sb (l : list dptr) depth k p buf clause ta :
  self w self_number_of_clauses = Some nc ->
  self w self_number_of_message_chunks = Some mc ->
  self w self_number_of_state_bits = Some sb ->
  self w self_message_ta_state_gpu = Some l ->
  depth <> 0 -> axis_index (length l) (depth - 1) = Some k -> l !! k = Some p ->
  gpu w p = Some buf -> (nc * mc * sb <= length buf)%nat ->
  0 <= clause < Z.of_nat nc -> 0 <= ta < 32 * Z.of_nat mc -> (1 <= sb)%nat ->
  exists w',
    CommonTsetlinMachine.ta_action depth clause ta w
    = (inr (Z.testbit (to_uint32 (nth (action_word mc sb clause ta) buf 0)) (ta mod 32)), w') /\
    gpu w' = gpu w /\
    (forall a, a <> self_message_ta_state -> self w' a = self w a) /\
    self w' self_message_ta_state = Some (Arr1 (map to_uint32 (take (nc * mc * sb) buf))).
Proof.
  intros A1 A2 A3 A4 Hd Hk Hp G Hn Hc Ht Hb.
  unfold CommonTsetlinMachine.ta_action.
  destruct (Z.eqb_spec depth 0) as [E|_]; [contradiction|].
  run. unfold list_item. rewrite Hk. unfold index. rewrite Hp. run.
  rewrite (bind_memcpy_dtoh uint32 (nc * mc * sb) p buf)
    by first [lia | (world_cbn; eassumption)].
  run. change (reinterpret uint32) with to_uint32.
  assert (Hl : length (map to_uint32 (take (nc * mc * sb) buf)) = (nc * mc * sb)%nat)
    by (rewrite length_map, length_take; lia).
  erewrite bind_lift
    by (apply reshape3_item_in; cbn [size ravel]; first [assumption | lia]).
  run. cbn [ravel].
  rewrite nth_words by (apply action_word_in; assumption).
  rewrite bit_set_testbit by (apply Z.mod_pos_bound; reflexivity).
  eexists. split; [reflexivity|]. split; [reflexivity|]. split.
  { intros a Ha. world_cbn. rewrite !object_set_ne by congruence. reflexivity. }
  attr.
Qed.

(** The two list comprehensions of [get_hyperliterals], for calls of
    [ta_action] that keep [I]. *)
Lemma hyperliteral_rows_returns (I : world -> Prop) depth width nc n
      (bit : nat -> nat -> bool) :
  (forall w, I w -> self w self_number_of_clauses = Some nc) ->
  (forall w, I w -> width w = (inr n, w)) ->
  (forall w c t, I w -> (c < nc)%nat -> (t < n)%nat ->
     exists w', CommonTsetlinMachine.ta_action depth (Z.of_nat c) (Z.of_nat t) w
                = (inr (bit c t), w') /\ I w') ->
  forall w, I w ->
    exists w',
      CommonTsetlinMachine.hyperliteral_rows depth width w
      = (inr (map (fun c => map (bit c) (seq 0 n)) (seq 0 nc)), w') /\ I w'.
Proof.
  intros Hnc Hwidth Hbit w Hw. unfold CommonTsetlinMachine.hyperliteral_rows.
  erewrite bind_getattr by (apply Hnc; exact Hw).
  destruct (for_range_with_returns
              (fun i rows w' => I w' /\ rows = map (fun c => map (bit c) (seq 0 n)) (seq 0 i))
              nc
              (fun clause rows =>
                 n <- width ;;
                 row <- for_range_with n [] (fun ta row =>
                   b <- CommonTsetlinMachine.ta_action depth (Z.of_nat clause) (Z.of_nat ta) ;;
                   ret (row ++ [b])) ;;
                 ret (rows ++ [row]))) with (s := @nil (list bool)) (w := w)
    as (rows & w' & E & H1 & ->).
  - intros c rows w0 Hc [H0 ->].
    rewrite (bind_ok _ _ _ _ _ (Hwidth w0 H0)).
    destruct (for_range_with_returns
                (fun i row w' => I w' /\ row = map (bit c) (seq 0 i)) n
                (fun ta row =>
                   b <- CommonTsetlinMachine.ta_action depth (Z.of_nat c) (Z.of_nat ta) ;;
                   ret (row ++ [b]))) with (s := @nil bool) (w := w0)
      as (row & w1 & E1 & H1 & ->).
    + intros t row w1 Ht [H1 ->].
      destruct (Hbit w1 c t H1 Hc Ht) as (w2 & E2 & H2).
      rewrite (bind_ok _ _ _ _ _ E2). run_cbn.
      eexists _, w2. split; [reflexivity|]. split; [exact H2|].
      rewrite seq_S, map_app. reflexivity.
    + split; [exact H0|reflexivity].
    + rewrite (bind_ok _ _ _ _ _ E1). run_cbn.
      eexists _, w1. split; [reflexivity|]. split; [exact H1|].
      rewrite seq_S, map_app. reflexivity.
  - split; [exact Hw|reflexivity].
  - exists w'. split; [exact E|exact H1].
Qed.

Lemma np_array_uint8_shape nc n (bit : nat -> nat -> bool) :
  (0 < nc)%nat ->
  shape (np_array_uint8 (map (fun c => map (bit c) (seq 0 n)) (seq 0 nc))) = [nc; n].
Proof.
  intros H. destruct nc as [|nc]; [lia|].
  rewrite <- cons_seq. cbn [map np_array_uint8 shape length].
  rewrite !length_map, !length_seq. reflexivity.
Qed.

Lemma surface_words_cached w f n ws :
  surface_words w n ws ->
  (exists c, self w self_ta_state = Some c /\ array_equal c np_array_nil = false) ->
  surface_words (with_gpu f w) n ws.
Proof.
  intros (cached & A & [(Ec & _)|H]) (c & A' & Ec').
  - rewrite A in A'. injection A' as <-. congruence.
  - exists cached. split; [exact A|]. right. exact H.
Qed.

(** X9: the action of a surface automaton.  With no host copy of the
    automata, [ta_action(0, clause, ta)] copies the first
    [clauses * chunks * state_bits] words of [ta_state_gpu] to the host and
    answers with bit [ta % 32] of the word of the last state bit of chunk
    [ta // 32] of the clause; nothing on the device and no other attribute
    changes.  Every later call answers from that copy and changes nothing,
    whatever the device holds by then. *)
Theorem surface_action w nc tc sb cache buf clause ta :
  self w self_number_of_clauses = Some nc ->
  self w self_number_of_ta_chunks = Some tc ->
  self w self_number_of_state_bits = Some sb ->
  self w self_ta_state = Some cache -> array_equal cache np_array_nil = true ->
  gpu w ta_state_gpu = Some buf -> (nc * tc * sb <= length buf)%nat ->
  0 <= clause < Z.of_nat nc -> 0 <= ta < 32 * Z.of_nat tc -> (1 <= sb)%nat ->
  exists w',
    CommonTsetlinMachine.ta_action 0 clause ta w
    = (inr (Z.testbit (to_uint32 (nth (action_word tc sb clause ta) buf 0)) (ta mod 32)),
       w') /\
    gpu w' = gpu w /\
    (forall a, a <> self_ta_state -> self w' a = self w a) /\
    forall f clause' ta',
      0 <= clause' < Z.of_nat nc -> 0 <= ta' < 32 * Z.of_nat tc ->
      CommonTsetlinMachine.ta_action 0 clause' ta' (with_gpu f w')
      = (inr (Z.testbit (to_uint32 (nth (action_word tc sb clause' ta') buf 0))
                (ta' mod 32)),
         with_gpu f w').
Proof.
  intros A1 A2 A3 A4 Ec G Hn Hc Ht Hb.
  assert (Hw : surface_words w (nc * tc * sb) (map to_uint32 (take (nc * tc * sb) buf))).
  { exists cache. split; [exact A4|]. left. split; [exact Ec|]. exists buf. auto. }
  destruct (ta_action_surface w nc tc sb _ clause ta A1 A2 A3 Hw Hc Ht Hb)
    as (w' & E & Hg & Hs & Hw' & Hcached & _).
  exists w'. rewrite nth_words in E by (apply action_word_in; assumption).
  split; [exact E|]. split; [exact Hg|]. split; [exact Hs|].
  intros f clause' ta' Hc' Ht'.
  destruct (ta_action_surface (with_gpu f w') nc tc sb
              (map to_uint32 (take (nc * tc * sb) buf)) clause' ta')
    as (w2 & E2 & _ & _ & _ & _ & Hsame);
    [world_cbn; rewrite Hs by discriminate; assumption ..
    |apply surface_words_cached; assumption|assumption|assumption|assumption|].
  destruct Hcached as (c & Ac & Nc).
  rewrite (Hsame c Ac Nc) in E2.
  rewrite nth_words in E2 by (apply action_word_in; assumption). exact E2.
Qed.

(** X10: [get_state] and then [ta_action].  After [get_state] returned the
    tuple [st], [ta_action(0, clause, ta)] answers from the automaton array
    of the tuple, with bit [ta % 32] of the word of the last state bit of the
    chunk, and changes nothing, whatever the device holds by then. *)
Theorem exported_actions L w :
  model_ready L w -> exportable L w ->
  (forall c, self w self_ta_state = Some c -> well_formed c) ->
  exists st w1,
    CommonTsetlinMachine.get_state w = (inr st, w1) /\
    forall f clause ta,
      0 <= clause < Z.of_nat (state_3 st) -> 0 <= ta < 32 * Z.of_nat (state_7 st) ->
      CommonTsetlinMachine.ta_action 0 clause ta (with_gpu f w1)
      = (inr (Z.testbit (nth (action_word (state_7 st) (state_6 st) clause ta)
                           (ravel (state_0 st)) 0) (ta mod 32)),
         with_gpu f w1).
Proof.
  intros MR (Hd & Ho & nl & tc & sb & lo & hi & tac & cwc & ta & wts & A1 & A2 & A3 & A4
             & A5 & A6 & A7 & G1 & G2 & N0 & N1 & N2 & Lw & U1 & U2 & Hc) Hwf.
  pose proof MR as (_ & _ & M3 & M4 & _ & M6 & M7 & _).
  assert (Hb : (1 <= sb)%nat) by (destruct sb; lia).
  assert (Hl : length (map to_uint32 (take (L_clauses L * tc * sb) ta))
               = (L_clauses L * tc * sb)%nat) by (rewrite length_map, length_take; lia).
  assert (Hu : Forall is_uint32 (map to_uint32 (take (L_clauses L * tc * sb) ta))).
  { apply Forall_forall. intros x Hx. apply in_map_iff in Hx as (y & <- & _).
    apply to_uint32_is_uint32. }
  unfold CommonTsetlinMachine.get_state.
  erewrite bind_getattr by exact A7.
  destruct (array_equal cwc np_array_nil) eqn:Ec.
  - run.
    rewrite (bind_memcpy_dtoh uint32 (L_clauses L * tc * sb) ta_state_gpu ta)
      by first [lia | (world_cbn; eassumption)].
    run. rewrite bind_as_size by lia. run.
    rewrite (bind_memcpy_dtoh int32 (Z.to_nat (L_outputs L * Z.of_nat (L_clauses L)))
               clause_weights_gpu wts) by first [lia | (world_cbn; eassumption)].
    run. change (reinterpret uint32) with to_uint32.
    eexists _, _. split; [reflexivity|]. intros f clause a Hcl Ha.
    cbn [state_0 state_3 state_6 state_7] in *.
    cbn [ravel].
    match goal with |- CommonTsetlinMachine.ta_action _ _ _ ?W0 = _ =>
      destruct (ta_action_surface W0 (L_clauses L) tc sb
                  (map to_uint32 (take (L_clauses L * tc * sb) ta)) clause a)
        as (w2 & E2 & _ & _ & _ & _ & Hsame)
    end; [attr|attr|attr| |exact Hcl|exact Ha|exact Hb|].
    + eexists. split; [attr|]. right.
      split; [apply array_equal_nonempty; rewrite Hl; exact N0|].
      cbn [size ravel]. auto.
    + rewrite E2. f_equal. eapply Hsame; [attr|].
      apply array_equal_nonempty. rewrite Hl. exact N0.
  - run. eexists _, w. split; [reflexivity|]. intros f clause a Hcl Ha.
    cbn [state_0 state_3 state_6 state_7] in *.
    destruct (Hc eq_refl) as [C1 _].
    assert (En : array_equal tac np_array_nil = false).
    { unfold array_equal. apply andb_false_iff. right.
      apply bool_decide_eq_false_2. rewrite C1. cbn [np_array_nil ravel].
      intros E. rewrite E in Hl. cbn in Hl. lia. }
    destruct (ta_action_surface (with_gpu f w) (L_clauses L) tc sb (ravel tac) clause a)
      as (w2 & E2 & _ & _ & _ & _ & Hsame); [attr|attr|attr| |exact Hcl|exact Ha|exact Hb|].
    + exists tac. split; [attr|]. right. split; [exact En|].
      pose proof (Hwf tac A6) as W. unfold well_formed in W.
      rewrite C1. rewrite C1, Hl in W. auto.
    + rewrite (Hsame tac A6 En) in E2. exact E2.
Qed.

(** X11: the action of a message automaton.  For a depth other than 0 that
    names one of the [depth - 1] message layers, counted from 1 or, when
    negative, back from the last, [ta_action] copies the buffer of that layer
    from the device at every call, keeps the copy in [message_ta_state] and
    answers with bit [ta % 32] of the word of the last state bit of chunk
    [ta // 32] of the clause; the device and every other attribute are as
    they were. *)
Theorem message_action L w depth k sb buf clause ta :
  model_ready L w ->
  self w self_number_of_state_bits = Some sb -> (1 <= sb)%nat ->
  depth <> 0 -> axis_index (L_depth L - 1) (depth - 1) = Some k ->
  gpu w (message_ta_state_gpu k) = Some buf ->
  (L_clauses L * L_message_chunks L * sb <= length buf)%nat ->
  0 <= clause < Z.of_nat (L_clauses L) ->
  0 <= ta < 32 * Z.of_nat (L_message_chunks L) ->
  exists w',
    CommonTsetlinMachine.ta_action depth clause ta w
    = (inr (Z.testbit (to_uint32 (nth (action_word (L_message_chunks L) sb clause ta) buf 0))
              (ta mod 32)), w') /\
    gpu w' = gpu w /\
    (forall a, a <> self_message_ta_state -> self w' a = self w a) /\
    self w' self_message_ta_state
    = Some (Arr1 (map to_uint32 (take (L_clauses L * L_message_chunks L * sb) buf))).
Proof.
  intros (_ & _ & _ & _ & _ & M6 & _ & _ & _ & M10 & _ & M12 & _) A3 Hb Hd Hk G Hn Hc Ht.
  apply (ta_action_message w (L_clauses L) (L_message_chunks L) sb (message_ta_buffers L)
           depth k (message_ta_state_gpu k) buf clause ta); try assumption.
  - unfold message_ta_buffers. rewrite length_map, length_seq. exact Hk.
  - apply message_buffer. eapply axis_index_lt. exact Hk.
Qed.

(** X12: a depth that names no message layer.  For a depth other than 0
    beyond the [depth - 1] message layers of the model, in either direction,
    [ta_action] raises [IndexError], and by then it has replaced
    [message_ta_state] by an uninitialised array.  On a model of depth 1
    this is every depth other than 0. *)
Theorem message_action_out_of_range L w depth sb clause ta :
  model_ready L w ->
  self w self_number_of_state_bits = Some sb ->
  depth <> 0 ->
  Z.of_nat (L_depth L - 1) < depth \/ depth <= - Z.of_nat (L_depth L - 1) ->
  CommonTsetlinMachine.ta_action depth clause ta w
  = (inl (IndexError "list index out of range"),
     with_self (object_set self_message_ta_state
                  (CommonTsetlinMachine.np_empty1 uint32
                     (L_clauses L * L_message_chunks L * sb))) w).
Proof.
  intros (_ & _ & _ & _ & _ & M6 & _ & _ & _ & M10 & _ & M12 & _) A3 Hd Hr.
  unfold CommonTsetlinMachine.ta_action.
  destruct (Z.eqb_spec depth 0) as [E|_]; [contradiction|].
  run. unfold list_item, message_ta_buffers.
  rewrite length_map, length_seq, axis_index_out by lia. reflexivity.
Qed.

(** X13: the surface hyperliterals.  [get_hyperliterals(0)] returns the
    matrix with one row per clause and one entry per literal, 1 where the
    automaton of the literal includes it: the bit of the literal in the word
    of the last state bit of its chunk, read from the host copy of the
    automata when there is one and else from the first
    [clauses * chunks * state_bits] words of [ta_state_gpu].  The device is
    as it was and so is every attribute but the host copy, which holds these
    words afterwards. *)
Theorem surface_hyperliterals w nc tc sb nl ws :
  self w self_number_of_clauses = Some nc ->
  self w self_number_of_ta_chunks = Some tc ->
  self w self_number_of_state_bits = Some sb ->
  self w self_number_of_literals = Some nl ->
  surface_words w (nc * tc * sb) ws ->
  Z.of_nat nl <= 32 * Z.of_nat tc -> (1 <= sb)%nat ->
  exists a w',
    CommonTsetlinMachine.get_hyperliterals 0 w = (inr a, w') /\
    a = np_array_uint8 (hyperliterals_of nc tc sb nl ws) /\
    ((0 < nc)%nat -> shape a = [nc; nl]) /\
    gpu w' = gpu w /\
    (forall x, x <> self_ta_state -> self w' x = self w x) /\
    surface_words w' (nc * tc * sb) ws.
Proof.
  intros A1 A2 A3 A4 Hw Hnl Hb.
  unfold CommonTsetlinMachine.get_hyperliterals. cbn [Z.eqb].
  destruct (hyperliteral_rows_returns
              (fun w' => gpu w' = gpu w /\
                         (forall x, x <> self_ta_state -> self w' x = self w x) /\
                         surface_words w' (nc * tc * sb) ws)
              0 (getattr self_number_of_literals) nc nl
              (fun c t => Z.testbit (nth (action_word tc sb (Z.of_nat c) (Z.of_nat t)) ws 0)
                            (Z.of_nat t mod 32))) with (w := w)
    as (w' & E & Hg & Hs & Hw').
  - intros w0 (_ & Hs & _). rewrite Hs by discriminate. exact A1.
  - intros w0 (_ & Hs & _). apply (getattr_ok self_number_of_literals). rewrite Hs by discriminate. exact A4.
  - intros w0 c t (Hg & Hs & Hw0) Hc Ht.
    destruct (ta_action_surface w0 nc tc sb ws (Z.of_nat c) (Z.of_nat t))
      as (w1 & E1 & Hg1 & Hs1 & Hw1 & _);
      [rewrite Hs by discriminate; assumption ..|exact Hw0|lia|lia|exact Hb|].
    exists w1. split; [exact E1|]. split; [congruence|]. split; [|exact Hw1].
    intros x Hx. rewrite Hs1, Hs by exact Hx. reflexivity.
  - split; [reflexivity|]. split; [reflexivity|exact Hw].
  - rewrite (bind_ok _ _ _ _ _ E). run_cbn.
    eexists _, w'. split; [reflexivity|]. split; [reflexivity|].
    split; [intros H; apply np_array_uint8_shape; exact H|]. auto.
Qed.

(** X14: the hyperliterals of a message layer.  For a depth other than 0
    that names a message layer, [get_hyperliterals] returns the matrix with
    one row per clause and one entry per message literal, each the bit of the
    literal in the word of the last state bit of its chunk in the buffer of
    the layer.  The device is as it was, and so is every attribute but
    [message_ta_state]. *)
Theorem message_hyperliterals L w depth k sb buf :
  model_ready L w ->
  self w self_number_of_state_bits = Some sb -> (1 <= sb)%nat ->
  depth <> 0 -> axis_index (L_depth L - 1) (depth - 1) = Some k ->
  gpu w (message_ta_state_gpu k) = Some buf ->
  (L_clauses L * L_message_chunks L * sb <= length buf)%nat ->
  Z.of_nat (L_message_literals L) <= 32 * Z.of_nat (L_message_chunks L) ->
  exists a w',
    CommonTsetlinMachine.get_hyperliterals depth w = (inr a, w') /\
    a = np_array_uint8
          (hyperliterals_of (L_clauses L) (L_message_chunks L) sb (L_message_literals L)
             (map to_uint32 (take (L_clauses L * L_message_chunks L * sb) buf))) /\
    shape a = [L_clauses L; L_message_literals L] /\
    gpu w' = gpu w /\
    (forall x, x <> self_message_ta_state -> self w' x = self w x).
Proof.
  intros MR A3 Hb Hd Hk G Hn Hnl.
  pose proof MR as (_ & _ & _ & _ & _ & M6 & M7 & M8 & _ & M10 & _ & M12 & _).
  assert (Hk' : (k < L_depth L - 1)%nat) by (eapply axis_index_lt; exact Hk).
  unfold CommonTsetlinMachine.get_hyperliterals.
  destruct (Z.eqb_spec depth 0) as [E|_]; [contradiction|].
  destruct (hyperliteral_rows_returns
              (fun w' => gpu w' = gpu w /\
                         (forall x, x <> self_message_ta_state -> self w' x = self w x))
              depth (getattr self_number_of_message_literals)
              (L_clauses L) (L_message_literals L)
              (fun c t =>
                 Z.testbit
                   (nth (action_word (L_message_chunks L) sb (Z.of_nat c) (Z.of_nat t))
                      (map to_uint32 (take (L_clauses L * L_message_chunks L * sb) buf)) 0)
                   (Z.of_nat t mod 32))) with (w := w)
    as (w' & E & Hg & Hs).
  - intros w0 (_ & Hs). rewrite Hs by discriminate. exact M6.
  - intros w0 (_ & Hs). apply (getattr_ok self_number_of_message_literals). rewrite Hs by discriminate. exact M8.
  - intros w0 c t (Hg & Hs) Hc Ht.
    destruct (ta_action_message w0 (L_clauses L) (L_message_chunks L) sb
                (message_ta_buffers L) depth k (message_ta_state_gpu k) buf
                (Z.of_nat c) (Z.of_nat t))
      as (w1 & E1 & Hg1 & Hs1 & _);
      [rewrite Hs by discriminate; assumption ..
      |exact Hd
      |unfold message_ta_buffers; rewrite length_map, length_seq; exact Hk
      |apply message_buffer; exact Hk'
      |rewrite Hg; exact G|exact Hn|lia|lia|exact Hb|].
    exists w1. rewrite nth_words by (apply action_word_in; lia).
    split; [exact E1|]. split; [congruence|].
    intros x Hx. rewrite Hs1, Hs by exact Hx. reflexivity.
  - split; reflexivity.
  - rewrite (bind_ok _ _ _ _ _ E). run_cbn.
    eexists _, w'. split; [reflexivity|]. split; [reflexivity|].
    split; [apply np_array_uint8_shape; exact M7|]. auto.
Qed.

End Actions.

(** ** [transform] beside [_score] *)

(** Two loops with bodies of their own, run side by side. *)
Lemma for_each_with_paired {A S T} (I : nat -> S -> T -> world -> world -> Prop)
      (l : list A) bodyA bodyB :
  (forall k x s t wA wB, l !! k = Some x -> I k s t wA wB ->
     exists s' t' wA' wB',
       bodyA x s wA = (inr s', wA') /\ bodyB x t wB = (inr t', wB') /\
       I (Datatypes.S k) s' t' wA' wB') ->
  forall s t wA wB, I 0%nat s t wA wB ->
    exists s' t' wA' wB',
      for_each_with l s bodyA wA = (inr s', wA') /\
      for_each_with l t bodyB wB = (inr t', wB') /\ I (length l) s' t' wA' wB'.
Proof.
  revert I. induction l as [|x l IH]; intros I Hbody s t wA wB H0.
  - exists s, t, wA, wB. auto.
  - destruct (Hbody 0%nat x s t wA wB eq_refl H0) as (s1 & t1 & wA1 & wB1 & EA & EB & H1).
    destruct (IH (fun k => I (Datatypes.S k))) with (s := s1) (t := t1) (wA := wA1) (wB := wB1)
      as (s2 & t2 & wA2 & wB2 & EA2 & EB2 & H2); [|exact H1|].
    + intros k y s0 t0 wA0 wB0 Hk. apply Hbody. exact Hk.
    + exists s2, t2, wA2, wB2. cbn [for_each_with].
      rewrite (bind_ok _ _ _ _ _ EA), (bind_ok _ _ _ _ _ EB). auto.
Qed.

Lemma for_range_with_paired {S T} (I : nat -> S -> T -> world -> world -> Prop) n bodyA bodyB :
  (forall i s t wA wB, (i < n)%nat -> I i s t wA wB ->
     exists s' t' wA' wB',
       bodyA i s wA = (inr s', wA') /\ bodyB i t wB = (inr t', wB') /\
       I (Datatypes.S i) s' t' wA' wB') ->
  forall s t wA wB, I 0%nat s t wA wB ->
    exists s' t' wA' wB',
      for_range_with n s bodyA wA = (inr s', wA') /\
      for_range_with n t bodyB wB = (inr t', wB') /\ I n s' t' wA' wB'.
Proof.
  intros Hbody s t wA wB H0. unfold for_range_with.
  destruct (for_each_with_paired I (seq 0 n) bodyA bodyB)
    with (s := s) (t := t) (wA := wA) (wB := wB)
    as (s' & t' & wA' & wB' & EA & EB & H); [|exact H0|].
  - intros k x s0 t0 wA0 wB0 Hk. apply lookup_seq in Hk as [-> Hk]. apply Hbody. exact Hk.
  - rewrite length_seq in H. exists s', t', wA', wB'. auto.
Qed.

(** A step of the first world alone, on a buffer the second never sees. *)
Lemma synced_left P reads writes wA wA' wB p :
  synced P reads writes wA wB ->
  self wA' self_kernels = self wA self_kernels ->
  (forall q, q <> p -> gpu wA' q = gpu wA q) ->
  p <> ta_state_gpu -> ~ In p reads -> ~ In p writes ->
  synced P reads writes wA' wB.
Proof.
  intros (K1 & K2 & U & R & W) Hk Hg Hta Hr Hw.
  split; [rewrite Hk; exact K1|]. split; [exact K2|]. split; [|split].
  - destruct U as (a & b & Ha & Hb & H). exists a, b.
    rewrite Hg by congruence. auto.
  - apply Forall_forall. intros q Hq. rewrite Forall_forall in R.
    destruct (R q Hq) as [H1 H2].
    assert (Hne : q <> p) by (intros ->; contradiction).
    unfold allocated, agrees in *. rewrite Hg by exact Hne. auto.
  - apply Forall_forall. intros q Hq. rewrite Forall_forall in W.
    destruct (W q Hq) as [H1 H2].
    assert (Hne : q <> p) by (intros ->; contradiction).
    unfold allocated, aligned, extent in *. rewrite Hg by exact Hne. auto.
Qed.

Section Kernel.
Context `{B : Backend}.

Lemma transform_gpu_run w P cur n out c o :
  self w self_kernels = Some P -> gpu w cur = Some c -> gpu w out = Some o ->
  CommonTsetlinMachine.transform_gpu cur n out w
  = (inr tt, launched Ktransform [cur; out] [(out, kernel_transform P c n o)] w).
Proof.
  intros HP Hc Ho. assert (Ao : allocated w out) by (unfold allocated; eauto).
  unfold CommonTsetlinMachine.transform_gpu. launch. reflexivity.
Qed.

End Kernel.

Section Transform.
Context `{B : Backend}.
Variable L : layout.
Variable g : Graphs.
Hypothesis frames : kernel_frames (L_kernels L).
Hypothesis graphs_fine : graphs_ok g.

Lemma sample_not_read : ~ In transformed_X_sample_gpu (class_sum_gpu :: test_reads L).
Proof.
  unfold test_reads, pass_reads, message_ta_buffers. cbn [app In].
  intros [H|[H|[H|[H|[H|[H|H]]]]]]; try discriminate H.
  apply in_map_iff in H as (k & H & _). discriminate H.
Qed.

Lemma sample_not_written : ~ In transformed_X_sample_gpu (test_writes L).
Proof. unwritten. Qed.

(** The loop of [_score] runs as well in a world that differs in the sample
    buffer of [transform]. *)
Lemma score_ready_left w w' :
  self w' = self w ->
  (forall q, q <> transformed_X_sample_gpu -> gpu w' q = gpu w q) ->
  score_ready L w -> score_ready L w'.
Proof.
  intros Hs Hg ((H1 & H2 & (no & len & H3 & H4 & H5 & H6) & H7 & H8 & H9 & H10 & H11 & H12)
                & X & O & Po & C).
  assert (A : forall q, q <> transformed_X_sample_gpu -> allocated w q -> allocated w' q).
  { unfold allocated. intros q Hq. rewrite Hg by exact Hq. auto. }
  assert (E : forall q, q <> transformed_X_sample_gpu -> extent w' q = extent w q).
  { unfold extent. intros q Hq. rewrite Hg by exact Hq. reflexivity. }
  unfold score_ready, evaluable. rewrite Hs, !E by discriminate.
  split; [|auto].
  split; [exact H1|]. split; [exact H2|]. split; [eauto 10|].
  split; [exact H7|]. split; [exact H8|]. split; [exact H9|].
  split; [|split].
  - apply Forall_forall. intros q Hq. rewrite Forall_forall in H10.
    apply A; [|apply H10; exact Hq].
    unfold message_ta_buffers in Hq. apply in_map_iff in Hq as (k & <- & _). discriminate.
  - apply Forall_forall. intros q Hq. rewrite Forall_forall in H11.
    apply A; [|apply H11; exact Hq].
    unfold clause_X_test_buffers in Hq. apply in_map_iff in Hq as (k & <- & _). discriminate.
  - repeat match goal with H : Forall _ (_ :: _) |- _ => inversion H; clear H; subst end.
    repeat constructor; (apply A; [discriminate|assumption]).
Qed.

(** [evaluate_test] in two synced worlds returns the buffer the last round
    wrote. *)
Lemma evaluate_test_paired wA wB e :
  synced (L_kernels L) (test_reads L) (test_writes L) wA wB ->
  score_ready L wA -> score_ready L wB -> (e < number_of_graphs g)%nat ->
  exists wA' wB',
    CommonTsetlinMachine.evaluate_test g e wA
    = (inr (current_after (L_depth L - 1) current_clause_node_output_test_gpu
              next_clause_node_output_test_gpu), wA') /\
    CommonTsetlinMachine.evaluate_test g e wB
    = (inr (current_after (L_depth L - 1) current_clause_node_output_test_gpu
              next_clause_node_output_test_gpu), wB') /\
    synced (L_kernels L) (class_sum_gpu :: test_reads L) (test_writes L) wA' wB' /\
    in_step (test_writes L) wA wB wA' wB'.
Proof.
  intros S0 RA RB He.
  destruct (score_ready_attributes L wA RA) as [PA XA].
  destruct (score_ready_attributes L wB RB) as [PB XB].
  destruct graphs_fine as (_ & _ & _ & _ & _ & _ & _ & G8).
  destruct (G8 e He) as (n & ni & ei & Hn & Hni & Hei).
  unfold CommonTsetlinMachine.evaluate_test, CommonTsetlinMachine.example_args.
  rewrite !bind_assoc, !(bind_index _ _ _ _ _ Hn).
  rewrite !bind_assoc, !(bind_index _ _ _ _ _ Hni).
  rewrite !bind_assoc, !(bind_index _ _ _ _ _ Hei). run_cbn.
  erewrite (bind_getattr self_clause_X_test_gpu _ _ wA) by exact XA.
  erewrite (bind_getattr self_clause_X_test_gpu _ _ wB) by exact XB.
  destruct (pass_lockstep (L_kernels L) frames (L_depth L) (L_outputs L)
              (message_ta_buffers L) current_clause_node_output_test_gpu
              next_clause_node_output_test_gpu number_of_graph_node_edges_test_gpu
              edge_test_gpu clause_X_int_test_gpu (clause_X_test_buffers L)
              encoded_X_test_gpu wA wB g (np_int32 n) (np_int32 ni) (np_int32 ei))
    as (wA2 & wB2 & EA2 & EB2 & S2 & T2);
    [exact S0|exact PA|exact PB
    |unfold message_ta_buffers; rewrite length_map, length_seq; lia
    |unfold clause_X_test_buffers; rewrite length_map, length_seq; lia|].
  eauto 10.
Qed.

(** One iteration of the loop of [transform] beside one of the loop of
    [_score]: they leave the same class sums. *)
Lemma transform_row_paired wA wB e tX cs :
  synced (L_kernels L) (test_reads L) (test_writes L) wA wB ->
  score_ready L wA -> score_ready L wB ->
  self wA self_number_of_clauses = Some (L_clauses L) -> (0 < L_clauses L)%nat ->
  (e < number_of_graphs g)%nat ->
  matrix (number_of_graphs g) (L_clauses L) tX ->
  matrix (number_of_graphs g) (Z.to_nat (L_outputs L)) cs ->
  exists tX' cs' wA' wB',
    (row <- lift (get_row cs e) ;;
     memcpy_htod class_sum_gpu row ;;
     current_clause_node_output <- CommonTsetlinMachine.evaluate_test g e ;;
     nc <- getattr self_number_of_clauses ;;
     CommonTsetlinMachine.mem_alloc transformed_X_sample_gpu (nc * 4) ;;
     nodes <- index (number_of_graph_nodes g) e ;;
     CommonTsetlinMachine.transform_gpu current_clause_node_output (np_int32 nodes)
       transformed_X_sample_gpu ;;
     row <- memcpy_dtoh int32 (length row) class_sum_gpu ;;
     class_sum <- lift (set_row cs e row) ;;
     out <- lift (get_row tX e) ;;
     out <- memcpy_dtoh int32 (length out) transformed_X_sample_gpu ;;
     transformed_X <- lift (set_row tX e out) ;;
     ret (transformed_X, class_sum)) wA = (inr (tX', cs'), wA') /\
    (row <- lift (get_row cs e) ;;
     memcpy_htod class_sum_gpu row ;;
     CommonTsetlinMachine.evaluate_test g e ;;
     row <- memcpy_dtoh int32 (length row) class_sum_gpu ;;
     lift (set_row cs e row)) wB = (inr cs', wB') /\
    matrix (number_of_graphs g) (L_clauses L) tX' /\
    matrix (number_of_graphs g) (Z.to_nat (L_outputs L)) cs' /\
    synced (L_kernels L) (test_reads L) (test_writes L) wA' wB' /\
    score_ready L wA' /\ score_ready L wB' /\
    self wA' self_number_of_clauses = Some (L_clauses L).
Proof.
  intros S0 RA RB NC Hnc He (trows & -> & Htr & Htrows) (rows & -> & Hr & Hrows).
  destruct (score_ready_attributes L wA RA) as [PA XA].
  destruct (lookup_lt_is_Some_2 rows e ltac:(lia)) as [row Hrow].
  pose proof (Forall_lookup_1 _ _ _ _ Hrows Hrow) as [Hlen _].
  destruct (lookup_lt_is_Some_2 trows e ltac:(lia)) as [trow Htrow].
  pose proof (Forall_lookup_1 _ _ _ _ Htrows Htrow) as [Htlen _].
  rewrite !(bind_lift _ row) by (cbn [get_row]; rewrite Hrow; reflexivity).
  pose proof PA as (_ & _ & _ & _ & CA).
  destruct (memcpy_htod_lockstep _ _ _ wA wB class_sum_gpu row S0) as
    (wA1 & wB1 & EA1 & EB1 & S1 & T1);
    [unfold test_writes; member|discriminate|rewrite Hlen; exact CA|].
  rewrite (bind_ok _ _ _ _ _ EA1), (bind_ok _ _ _ _ _ EB1).
  pose proof T1 as (LA1 & LB1 & _).
  destruct (evaluate_test_paired wA1 wB1 e) as (wA2 & wB2 & EA2 & EB2 & S2 & T2);
    [eapply synced_weaken; [|exact S1]; intros q Hq; right; exact Hq
    |eapply score_ready_layout; eassumption|eapply score_ready_layout; eassumption
    |exact He|].
  rewrite (bind_ok _ _ _ _ _ EA2), (bind_ok _ _ _ _ _ EB2).
  pose proof T2 as (LA2 & LB2 & _).
  pose proof (same_layout_trans _ _ _ LA1 LA2) as [QA EA].
  set (p := current_after (L_depth L - 1) current_clause_node_output_test_gpu
              next_clause_node_output_test_gpu) in *.
  assert (Hp : In p (test_writes L)).
  { apply (current_after_written current_clause_node_output_test_gpu
             next_clause_node_output_test_gpu clause_X_int_test_gpu
             (clause_X_test_buffers L)). }
  assert (Hps : p <> transformed_X_sample_gpu).
  { intros E. apply sample_not_written. rewrite <- E. exact Hp. }
  destruct (synced_target _ _ _ _ _ _ S2 Hp) as (c & _ & Gc & _).
  pose proof S2 as (K2 & _).
  erewrite bind_getattr by (rewrite QA; exact NC).
  rewrite bind_mem_alloc by exact Hnc.
  destruct graphs_fine as (_ & _ & _ & _ & _ & _ & _ & G8).
  destruct (G8 e He) as (n & ni & ei & Hn & _).
  rewrite (bind_index _ _ _ _ _ Hn).
  match goal with |- context [CommonTsetlinMachine.transform_gpu _ _ _ ;; _] =>
    match goal with |- exists _ _ _ _, bind _ _ ?W3 = _ /\ _ => set (wA3 := W3) end end.
  assert (F3 : forall q, q <> transformed_X_sample_gpu -> gpu wA3 q = gpu wA2 q).
  { intros q Hq. unfold wA3. cbn [gpu with_gpu with_allocations].
    apply fn_lookup_insert_ne. congruence. }
  assert (G3 : gpu wA3 transformed_X_sample_gpu
               = Some (map (fun i => to_uint32 (fresh_memory (allocations wA2) i))
                         (seq 0 (L_clauses L)))).
  { unfold wA3. cbn [gpu with_gpu with_allocations]. apply fn_lookup_insert. }
  rewrite (bind_ok _ _ _ _ _
             (transform_gpu_run wA3 (L_kernels L) p (np_int32 n) transformed_X_sample_gpu c _
                K2 ltac:(rewrite F3 by exact Hps; exact Gc) G3)).
  match goal with |- exists _ _ _ _, bind _ _ ?W4 = _ /\ _ => set (wA4 := W4) end.
  assert (Q4 : self wA4 = self wA) by (rewrite <- QA; reflexivity).
  assert (F4 : forall q, q <> transformed_X_sample_gpu -> gpu wA4 q = gpu wA2 q).
  { intros q Hq. unfold wA4. rewrite launched_ne; [apply F3; exact Hq|].
    constructor; [cbn [fst]; congruence|constructor]. }
  assert (G4 : exists buf, gpu wA4 transformed_X_sample_gpu = Some buf /\
                           length buf = L_clauses L).
  { eexists. split.
    - unfold wA4, launched. cbn [gpu with_gpu with_stream fold_left fst snd].
      apply store_at_eq. exact G3.
    - rewrite length_stored, length_map, length_seq. reflexivity. }
  assert (S4 : synced (L_kernels L) (class_sum_gpu :: test_reads L) (test_writes L) wA4 wB2).
  { apply (synced_left _ _ _ wA2 wA4 wB2 transformed_X_sample_gpu S2);
      [reflexivity|exact F4|discriminate|exact sample_not_read|exact sample_not_written]. }
  destruct (memcpy_dtoh_lockstep _ _ _ wA4 wB2 int32 (length row) class_sum_gpu
              (Z.to_nat (L_outputs L)) S4)
    as (row' & EA3 & EB3 & Hlen' & Hrow');
    [left; reflexivity
    |unfold extent; rewrite F4 by discriminate; fold (extent wA2 class_sum_gpu);
     rewrite EA; exact CA
    |lia|].
  rewrite (bind_ok _ _ _ _ _ EA3), (bind_ok _ _ _ _ _ EB3).
  cbn [set_row].
  assert (E1 : (e <? length rows)%nat = true) by (apply Nat.ltb_lt; lia).
  assert (E3 : (length row' =? Z.to_nat (L_outputs L))%nat = true)
    by (apply Nat.eqb_eq; lia).
  rewrite E1, E3. cbn [lift ret bind].
  cbn [get_row]. rewrite Htrow. cbn [lift ret bind].
  destruct G4 as (buf & G4 & Lbuf).
  rewrite (bind_ok _ _ _ _ _
             (memcpy_dtoh_run int32 (length trow) transformed_X_sample_gpu buf wA4 G4
                ltac:(lia))).
  assert (E4 : (e <? length trows)%nat = true) by (apply Nat.ltb_lt; lia).
  assert (E5 : (length (map (reinterpret int32) (take (length trow) buf))
                =? L_clauses L)%nat = true).
  { apply Nat.eqb_eq. rewrite length_map, length_take. lia. }
  rewrite E4, E5. cbn [lift ret bind].
  eexists _, _, wA4, wB2. split; [reflexivity|]. split; [reflexivity|].
  split; [|split; [|split; [|split; [|split]]]].
  - eexists. split; [reflexivity|]. split; [rewrite length_insert; exact Htr|].
    apply Forall_insert; [exact Htrows|]. split; [apply Nat.eqb_eq; exact E5|].
    apply Forall_map, Forall_forall. intros x _. apply to_int32_is_int32.
  - eexists. split; [reflexivity|]. split; [rewrite length_insert; exact Hr|].
    apply Forall_insert; [exact Hrows|]. split; [lia|].
    eapply Forall_impl; [|exact Hrow']. intros x [y ->]. apply to_int32_is_int32.
  - eapply synced_weaken; [|exact S4]. intros q Hq. right. exact Hq.
  - apply (score_ready_left wA2 wA4); [rewrite Q4, QA; reflexivity|exact F4|].
    eapply score_ready_layout; [|exact RA]. split; [exact QA|exact EA].
  - eapply score_ready_layout; [|exact RB]. eapply same_layout_trans; eassumption.
  - rewrite Q4. exact NC.
Qed.

End Transform.

Section Beside.
Context `{B : Backend}.

(** X15: [transform] beside [_score].  On a model that can score the graph
    set, [transform] returns a pair: an [np.int32] matrix with one row per
    graph and one column per clause, and the class sums, which are the very
    array [_score] returns for the same graph set: launching the transform
    kernel on a sample buffer of its own after each pass does not reach the
    class sums of that graph or of the ones after it.  The kernels are taken
    to read what the specification says they read. *)
Theorem transform_class_sums L g w :
  kernel_frames (L_kernels L) -> scorable L g w ->
  (exists n, extent w ta_state_gpu = Some n /\ (ta_extent (L_kernels L) <= n)%nat) ->
  exists tX cs w1 w2,
    CommonTsetlinMachine.transform g w = (inr (tX, cs), w1) /\
    CommonTsetlinMachine._score g w = (inr cs, w2) /\
    matrix (number_of_graphs g) (L_clauses L) tX /\
    shape tX = [number_of_graphs g; L_clauses L] /\
    matrix (number_of_graphs g) (Z.to_nat (L_outputs L)) cs.
Proof.
  intros HF Hs (n & Hn & Ln). pose proof Hs as (MR & GO & _).
  destruct (score_init_returns L g w Hs) as (w0 & E0 & M0 & T0 & R0).
  pose proof R0 as (_ & Rp & _).
  assert (U0 : agrees_upto (ta_extent (L_kernels L)) w0 w0 ta_state_gpu).
  { destruct (extent_buffer _ _ _ Hn) as (ta & G & Lta).
    exists ta, ta. rewrite (Rp ta_state_gpu I).
    split; [exact G|]. split; [exact G|]. split; [lia|]. split; [lia|reflexivity]. }
  pose proof (score_ready_bound L g w0 M0 T0) as SR.
  pose proof (synced_bound L g w0 w0 M0 T0 M0 T0 U0 eq_refl eq_refl (fun _ => eq_refl)
                eq_refl) as S0.
  pose proof SR as (_ & _ & O & Po & _).
  pose proof M0 as (_ & _ & _ & _ & _ & M6 & M7 & _).
  unfold CommonTsetlinMachine.transform, CommonTsetlinMachine._score.
  rewrite !(bind_ok _ _ _ _ _ E0).
  erewrite !(bind_getattr self_number_of_outputs) by exact O.
  rewrite !bind_as_size by exact Po.
  erewrite (bind_getattr self_number_of_clauses) by exact M6.
  match goal with
  | |- exists _ _ _ _, for_range_with _ _ ?bA _ = _ /\ for_range_with _ _ ?bB _ = _ /\ _ =>
    destruct (for_range_with_paired
                (fun (_ : nat) (s : ndarray * ndarray) (t : ndarray) wA wB =>
                   matrix (number_of_graphs g) (L_clauses L) (fst s) /\
                   matrix (number_of_graphs g) (Z.to_nat (L_outputs L)) (snd s) /\
                   t = snd s /\
                   synced (L_kernels L) (test_reads L) (test_writes L) wA wB /\
                   score_ready L wA /\ score_ready L wB /\
                   self wA self_number_of_clauses = Some (L_clauses L))
                (number_of_graphs g) bA bB)
      with (s := (np_zeros2 (number_of_graphs g) (L_clauses L),
                  np_zeros2 (number_of_graphs g) (Z.to_nat (L_outputs L))))
           (t := np_zeros2 (number_of_graphs g) (Z.to_nat (L_outputs L)))
           (wA := w0) (wB := w0)
      as ([tX cs] & t & wA' & wB' & EA & EB & MtX & Mcs & -> & _)
  end.
  - intros e [tX cs] t wA wB He (MtX & Mcs & -> & S & RA & RB & NC).
    cbn [fst snd] in *.
    destruct (transform_row_paired L g HF GO wA wB e tX cs S RA RB NC M7 He MtX Mcs)
      as (tX' & cs' & wA' & wB' & EA & EB & H).
    exists (tX', cs'), cs', wA', wB'. split; [exact EA|]. split; [exact EB|].
    cbn [fst snd]. tauto.
  - cbn [fst snd]. split; [apply matrix_zeros|]. split; [apply matrix_zeros|]. auto 10.
  - cbn [fst snd] in *. exists tX, cs, wA', wB'.
    split; [exact EA|]. split; [exact EB|]. split; [exact MtX|]. split; [|exact Mcs].
    destruct MtX as (rows & -> & Hr & _). cbn [shape]. rewrite Hr. reflexivity.
Qed.

End Beside.

(** ** Fitting a model again *)

Lemma advanced_refl W w : advanced W [] w w.
Proof. split; [apply writes_within_refl|rewrite app_nil_r; reflexivity]. Qed.

Lemma advanced_trans W l1 l2 w1 w2 w3 :
  advanced W l1 w1 w2 -> advanced W l2 w2 w3 -> advanced W (l1 ++ l2) w1 w3.
Proof.
  intros [W1 S1] [W2 S2]. split; [eapply writes_within_trans; eassumption|].
  rewrite S2, S1, app_assoc. reflexivity.
Qed.

Lemma advanced_weaken W W' l w w' :
  (forall q, In q W -> In q W') -> advanced W l w w' -> advanced W' l w w'.
Proof. intros Hsub [H1 H2]. split; [eapply writes_within_weaken; eassumption|exact H2]. Qed.

Lemma launched_advanced W k args ws w :
  (forall q, In q (map fst ws) -> In q W) ->
  advanced W [Launch k args] w (launched k args ws w).
Proof. intros Hsub. split; [apply launched_within; exact Hsub|reflexivity]. Qed.

Lemma advanced_layout W l w w' : advanced W l w w' -> same_layout w w'.
Proof. intros [[H _] _]. exact H. Qed.

Lemma concat_replicate_S {A} n (l : list A) :
  concat (replicate (S n) l) = concat (replicate n l) ++ l.
Proof. rewrite replicate_S_end, concat_app. cbn [concat]. rewrite app_nil_r. reflexivity. Qed.

Section TrainingLaunches.
Context `{B : Backend}.

Lemma select_clause_node_run w P rng cur n clause_node r c x :
  self w self_kernels = Some P ->
  gpu w rng = Some r -> gpu w cur = Some c -> gpu w clause_node = Some x ->
  CommonTsetlinMachine.select_clause_node rng cur n clause_node w
  = (inr tt,
     launched Kselect_clause_node [rng; cur; clause_node]
       [(rng, (kernel_select_clause_node P r c n x).1);
        (clause_node, (kernel_select_clause_node P r c n x).2)] w).
Proof.
  intros HP Hr Hc Hx.
  assert (Ar : allocated w rng) by (unfold allocated; eauto).
  assert (Ax : allocated w clause_node) by (unfold allocated; eauto).
  unfold CommonTsetlinMachine.select_clause_node.
  launch. destruct (kernel_select_clause_node P r c n x) as [r' x'].
  launch. reflexivity.
Qed.

Lemma select_clause_updates_run w P rng weights class_sum targets e clause_node updates
      r v s y x u :
  self w self_kernels = Some P ->
  gpu w rng = Some r -> gpu w weights = Some v -> gpu w class_sum = Some s ->
  gpu w targets = Some y -> gpu w clause_node = Some x -> gpu w updates = Some u ->
  CommonTsetlinMachine.select_clause_updates rng weights class_sum targets e clause_node
    updates w
  = (inr tt,
     launched Kselect_clause_updates [rng; weights; class_sum; targets; clause_node; updates]
       [(rng, (kernel_select_clause_updates P r v s y e x u).1.1);
        (weights, (kernel_select_clause_updates P r v s y e x u).1.2);
        (updates, (kernel_select_clause_updates P r v s y e x u).2)] w).
Proof.
  intros HP Hr Hv Hs Hy Hx Hu.
  assert (Ar : allocated w rng) by (unfold allocated; eauto).
  assert (Av : allocated w weights) by (unfold allocated; eauto).
  assert (Au : allocated w updates) by (unfold allocated; eauto).
  unfold CommonTsetlinMachine.select_clause_updates.
  launch. destruct (kernel_select_clause_updates P r v s y e x u) as [[r' v'] u'].
  launch. reflexivity.
Qed.

Lemma update_run w P rng s ta n ni clause_node incl features updates r a x i f u :
  self w self_kernels = Some P ->
  gpu w rng = Some r -> gpu w ta = Some a -> gpu w clause_node = Some x ->
  gpu w incl = Some i -> gpu w features = Some f -> gpu w updates = Some u ->
  CommonTsetlinMachine.update rng s ta n ni clause_node incl features updates w
  = (inr tt,
     launched Kupdate [rng; ta; clause_node; incl; features; updates]
       [(rng, (kernel_update P r s a n ni x i f u).1.1);
        (ta, (kernel_update P r s a n ni x i f u).1.2);
        (incl, (kernel_update P r s a n ni x i f u).2)] w).
Proof.
  intros HP Hr Ha Hx Hi Hf Hu.
  assert (Ar : allocated w rng) by (unfold allocated; eauto).
  assert (Aa : allocated w ta) by (unfold allocated; eauto).
  assert (Ai : allocated w incl) by (unfold allocated; eauto).
  unfold CommonTsetlinMachine.update.
  launch. destruct (kernel_update P r s a n ni x i f u) as [[r' a'] i'].
  launch. reflexivity.
Qed.

Lemma update_message_run w P rng s msg_ta n clause_node incl msg updates r a x i m u :
  self w self_kernels = Some P ->
  gpu w rng = Some r -> gpu w msg_ta = Some a -> gpu w clause_node = Some x ->
  gpu w incl = Some i -> gpu w msg = Some m -> gpu w updates = Some u ->
  CommonTsetlinMachine.update_message rng s msg_ta n clause_node incl msg updates w
  = (inr tt,
     launched Kupdate_message [rng; msg_ta; clause_node; incl; msg; updates]
       [(rng, (kernel_update_message P r s a n x i m u).1.1);
        (msg_ta, (kernel_update_message P r s a n x i m u).1.2);
        (incl, (kernel_update_message P r s a n x i m u).2)] w).
Proof.
  intros HP Hr Ha Hx Hi Hm Hu.
  assert (Ar : allocated w rng) by (unfold allocated; eauto).
  assert (Aa : allocated w msg_ta) by (unfold allocated; eauto).
  assert (Ai : allocated w incl) by (unfold allocated; eauto).
  unfold CommonTsetlinMachine.update_message.
  launch. destruct (kernel_update_message P r s a n x i m u) as [[r' a'] i'].
  launch. reflexivity.
Qed.

Ltac buffers :=
  repeat match goal with
         | H : is_Some (self _ self_kernels) |- _ => destruct H as [? H]
         | H : allocated _ _ |- _ => apply allocated_buf in H as [? H]
         end.

Ltac advance run :=
  intros; buffers; eexists; split;
  [ eapply run; eassumption
  | apply launched_advanced; cbn [map fst In]; tauto ].

Lemma prepare_advanced w rng ta weights class_sum :
  is_Some (self w self_kernels) ->
  allocated w rng -> allocated w ta -> allocated w weights -> allocated w class_sum ->
  exists w',
    CommonTsetlinMachine.prepare rng ta weights class_sum w = (inr tt, w') /\
    advanced [rng; ta; weights; class_sum]
      [Launch Kprepare [rng; ta; weights; class_sum]] w w'.
Proof. advance prepare_run. Qed.

Lemma select_clause_node_advanced w rng cur n clause_node :
  is_Some (self w self_kernels) ->
  allocated w rng -> allocated w cur -> allocated w clause_node ->
  exists w',
    CommonTsetlinMachine.select_clause_node rng cur n clause_node w = (inr tt, w') /\
    advanced [rng; clause_node] [Launch Kselect_clause_node [rng; cur; clause_node]] w w'.
Proof. advance select_clause_node_run. Qed.

Lemma select_clause_updates_advanced w rng weights class_sum targets e clause_node updates :
  is_Some (self w self_kernels) ->
  allocated w rng -> allocated w weights -> allocated w class_sum ->
  allocated w targets -> allocated w clause_node -> allocated w updates ->
  exists w',
    CommonTsetlinMachine.select_clause_updates rng weights class_sum targets e clause_node
      updates w = (inr tt, w') /\
    advanced [rng; weights; updates]
      [Launch Kselect_clause_updates
         [rng; weights; class_sum; targets; clause_node; updates]] w w'.
Proof. advance select_clause_updates_run. Qed.

Lemma update_advanced w rng s ta n ni clause_node incl features updates :
  is_Some (self w self_kernels) ->
  allocated w rng -> allocated w ta -> allocated w clause_node ->
  allocated w incl -> allocated w features -> allocated w updates ->
  exists w',
    CommonTsetlinMachine.update rng s ta n ni clause_node incl features updates w
    = (inr tt, w') /\
    advanced [rng; ta; incl]
      [Launch Kupdate [rng; ta; clause_node; incl; features; updates]] w w'.
Proof. advance update_run. Qed.

Lemma update_message_advanced w rng s msg_ta n clause_node incl msg updates :
  is_Some (self w self_kernels) ->
  allocated w rng -> allocated w msg_ta -> allocated w clause_node ->
  allocated w incl -> allocated w msg -> allocated w updates ->
  exists w',
    CommonTsetlinMachine.update_message rng s msg_ta n clause_node incl msg updates w
    = (inr tt, w') /\
    advanced [rng; msg_ta; incl]
      [Launch Kupdate_message [rng; msg_ta; clause_node; incl; msg; updates]] w w'.
Proof. advance update_message_run. Qed.

(** One evaluation pass: what it launches and what it writes. *)
Lemma evaluate_advanced w depth msg_tas cur nxt nedges edge msg_int clause_X features
      g n ni ei :
  evaluable w depth msg_tas cur nxt nedges edge msg_int clause_X features ->
  exists w',
    CommonTsetlinMachine._evaluate g n ni ei cur nxt nedges edge msg_int clause_X features w
    = (inr (current_after (depth - 1) cur nxt), w') /\
    advanced (pass_writes cur nxt msg_int clause_X)
      (evaluation_launches (depth - 1) cur nxt nedges edge msg_int clause_X msg_tas features)
      w w'.
Proof.
  intros Hev.
  destruct (evaluate_returns w _ _ _ _ _ _ _ _ _ g n ni ei Hev) as (w1 & E1 & _ & S1).
  destruct (pass_within _ _ _ _ _ _ _ _ _ w g n ni ei Hev) as (w2 & E2 & W2).
  rewrite E1 in E2. injection E2 as <-.
  exists w1. split; [exact E1|]. split; assumption.
Qed.

End TrainingLaunches.

Section Fitting.
Context `{B : Backend}.
Variable L : layout.
Variable g : Graphs.
Variable encoded_Y : ndarray.

Lemma fit_ready_layout w w' :
  same_layout w w' -> fit_ready L g encoded_Y w -> fit_ready L g encoded_Y w'.
Proof.
  intros Lw (H1 & H2 & H3 & H4 & H5 & H6 & H7 & H8). pose proof Lw as [Q _].
  unfold fit_ready. rewrite Q.
  repeat (split; [assumption|]).
  split; [eapply evaluable_layout; eassumption|].
  repeat (split; [assumption|]).
  eapply same_layout_Forall; eassumption.
Qed.

Lemma pass_in_train q :
  In q (pass_writes current_clause_node_output_train_gpu next_clause_node_output_train_gpu
          clause_X_int_train_gpu (clause_X_train_buffers L)) ->
  In q (train_writes L).
Proof. intros H. unfold train_writes. apply in_or_app. left. exact H. Qed.

Lemma own_in_train q :
  In q [g_state; clause_node_gpu; clause_weights_gpu; class_clause_update_gpu; ta_state_gpu;
        number_of_include_actions; class_sum_gpu] ->
  In q (train_writes L).
Proof.
  unfold train_writes, pass_writes. cbn [In app]. rewrite !in_app_iff. cbn [In].
  intuition auto 20.
Qed.

Lemma layer_in_train d :
  (d < L_depth L - 1)%nat -> In (message_ta_state_gpu d) (train_writes L).
Proof.
  intros H. unfold train_writes. apply in_or_app. right. apply in_or_app. right.
  unfold message_ta_buffers. apply in_map, in_seq. lia.
Qed.

(** The body of the loop of [_fit] over the examples. *)
Lemma step_advanced w no e :
  fit_ready L g encoded_Y w -> self w self_number_of_outputs = Some no ->
  (e < number_of_graphs g)%nat ->
  exists w',
    (memcpy_htod class_sum_gpu (ravel (astype_int32 (np_zeros1 (Z.to_nat no)))) ;;
     a <- CommonTsetlinMachine.example_args g e ;;
     let '(nodes, ni, ei) := a in
     clause_X <- getattr self_clause_X_train_gpu ;;
     current_clause_node_output <-
       CommonTsetlinMachine._evaluate g nodes ni ei
         current_clause_node_output_train_gpu next_clause_node_output_train_gpu
         number_of_graph_node_edges_train_gpu edge_train_gpu
         clause_X_int_train_gpu clause_X encoded_X_train_gpu ;;
     CommonTsetlinMachine.select_clause_node g_state current_clause_node_output nodes
       clause_node_gpu ;;
     synchronize ;;
     CommonTsetlinMachine.select_clause_updates g_state clause_weights_gpu class_sum_gpu
       encoded_Y_gpu (np_int32 e) clause_node_gpu class_clause_update_gpu ;;
     synchronize ;;
     s <- getattr self_s ;;
     s0 <- index s 0 ;;
     CommonTsetlinMachine.update g_state s0 ta_state_gpu nodes ni clause_node_gpu
       number_of_include_actions encoded_X_train_gpu class_clause_update_gpu ;;
     synchronize ;;
     d <- getattr self_depth ;;
     for_range (d - 1) (fun depth =>
       s <- getattr self_s ;;
       sd <- index s (depth + 1) ;;
       l <- getattr self_message_ta_state_gpu ;;
       msg_ta <- index l depth ;;
       clause_X <- getattr self_clause_X_train_gpu ;;
       msg <- index clause_X depth ;;
       CommonTsetlinMachine.update_message g_state sd msg_ta nodes clause_node_gpu
         number_of_include_actions msg class_clause_update_gpu ;;
       synchronize)) w = (inr tt, w') /\
    advanced (train_writes L) (step_launches L) w w'.
Proof.
  intros FR O He.
  pose proof FR as (_ & _ & _ & GO & EV & CX & (s & Hs & Ls1 & Lsd) & FA).
  pose proof EV as (K & D & (no' & len & O' & Hno & X & Hlen) & T & _ & _ & FT & FX & F).
  rewrite O in O'. injection O' as <-.
  destruct GO as (_ & _ & _ & _ & _ & _ & _ & G8).
  destruct (G8 e He) as (n & ni & ei & Hn & Hni & Hei).
  repeat match goal with H : Forall _ (_ :: _) |- _ => inversion H; clear H; subst end.
  destruct (extent_buffer _ _ _ X) as (buf & G & Lbuf).
  assert (Lz : (length (ravel (astype_int32 (np_zeros1 (Z.to_nat no)))) <= length buf)%nat).
  { cbn [np_zeros1 astype_int32 ravel]. rewrite length_map, length_replicate. lia. }
  rewrite (bind_ok _ _ _ _ _ (memcpy_htod_run _ _ _ _ G Lz)).
  assert (A1 : advanced (train_writes L) [] w
                 (with_gpu
                    (<[class_sum_gpu :=
                         Some (map to_uint32 (ravel (astype_int32 (np_zeros1 (Z.to_nat no))))
                               ++ drop (length (ravel (astype_int32 (np_zeros1 (Z.to_nat no)))))
                                    buf)]>) w)).
  { split; [|cbn [stream with_gpu]; rewrite app_nil_r; reflexivity].
    apply memcpy_htod_within; [exact G|exact Lz|]. apply own_in_train. cbn [In]. auto 10. }
  match type of A1 with advanced _ _ _ ?x => set (w1 := x) in * end.
  pose proof (advanced_layout _ _ _ _ A1) as L1. pose proof L1 as [Q1 _].
  unfold CommonTsetlinMachine.example_args.
  rewrite !bind_assoc, (bind_index _ _ _ _ _ Hn).
  rewrite !bind_assoc, (bind_index _ _ _ _ _ Hni).
  rewrite !bind_assoc, (bind_index _ _ _ _ _ Hei). run_cbn.
  erewrite bind_getattr by (rewrite Q1; exact CX).
  destruct (evaluate_advanced w1 _ _ _ _ _ _ _ _ _ g (np_int32 n) (np_int32 ni) (np_int32 ei)
              (evaluable_layout _ _ _ _ _ _ _ _ _ _ _ L1 EV)) as (w2 & E2 & A2').
  rewrite (bind_ok _ _ _ _ _ E2).
  pose proof (advanced_trans _ _ _ _ _ _ A1 (advanced_weaken _ _ _ _ _ pass_in_train A2'))
    as A2. cbn [app] in A2. clear A2' E2.
  set (p := current_after (L_depth L - 1) current_clause_node_output_train_gpu
              next_clause_node_output_train_gpu) in *.
  assert (Ap : allocated w p).
  { unfold p, current_after. destruct (Nat.even (L_depth L - 1)); assumption. }
  assert (Kx : forall l wx, advanced (train_writes L) l w wx -> is_Some (self wx self_kernels)).
  { intros l wx Ax. destruct (advanced_layout _ _ _ _ Ax) as [Qx _]. rewrite Qx. exact K. }
  assert (Ax : forall l wx q, advanced (train_writes L) l w wx -> allocated w q ->
                              allocated wx q).
  { intros l wx q Ax. apply same_layout_allocated. exact (advanced_layout _ _ _ _ Ax). }
  destruct (select_clause_node_advanced w2 g_state p (np_int32 n) clause_node_gpu)
    as (w3 & E3 & A3'); [eapply Kx; exact A2|eapply Ax; eassumption ..|].
  rewrite (bind_ok _ _ _ _ _ E3). run_cbn.
  eassert (A3 : advanced (train_writes L) _ w w3).
  { eapply advanced_trans; [exact A2|]. eapply advanced_weaken; [|exact A3'].
    intros q Hq. apply own_in_train. cbn [In] in *. intuition auto 10. }
  clear A3' E3.
  destruct (select_clause_updates_advanced w3 g_state clause_weights_gpu class_sum_gpu
              encoded_Y_gpu (np_int32 e) clause_node_gpu class_clause_update_gpu)
    as (w4 & E4 & A4'); [eapply Kx; exact A3|eapply Ax; eassumption ..|].
  rewrite (bind_ok _ _ _ _ _ E4). run_cbn.
  eassert (A4 : advanced (train_writes L) _ w w4).
  { eapply advanced_trans; [exact A3|]. eapply advanced_weaken; [|exact A4'].
    intros q Hq. apply own_in_train. cbn [In] in *. intuition auto 10. }
  clear A4' E4.
  destruct (lookup_lt_is_Some_2 s 0%nat ltac:(lia)) as [s0 Hs0].
  erewrite bind_getattr
    by (destruct (advanced_layout _ _ _ _ A4) as [Q4 _]; rewrite Q4; exact Hs).
  rewrite (bind_index _ _ _ _ _ Hs0).
  destruct (update_advanced w4 g_state s0 ta_state_gpu (np_int32 n) (np_int32 ni)
              clause_node_gpu number_of_include_actions encoded_X_train_gpu
              class_clause_update_gpu)
    as (w5 & E5 & A5'); [eapply Kx; exact A4|eapply Ax; eassumption ..|].
  rewrite (bind_ok _ _ _ _ _ E5). run_cbn.
  eassert (A5 : advanced (train_writes L) _ w w5).
  { eapply advanced_trans; [exact A4|]. eapply advanced_weaken; [|exact A5'].
    intros q Hq. apply own_in_train. cbn [In] in *. intuition auto 10. }
  clear A5' E5.
  erewrite bind_getattr
    by (destruct (advanced_layout _ _ _ _ A5) as [Q5 _]; rewrite Q5; exact D).
  match type of A5 with advanced _ ?l _ _ => set (l5 := l) in * end.
  match goal with
  | |- exists w', for_range ?k ?body w5 = _ /\ _ =>
    destruct (for_range_returns
                (fun i wx =>
                   advanced (train_writes L)
                     (l5 ++ map (fun d => Launch Kupdate_message
                                            [g_state; message_ta_state_gpu d; clause_node_gpu;
                                             number_of_include_actions; clause_X_train_gpu d;
                                             class_clause_update_gpu]) (seq 0 i)) w wx)
                k body) with (w := w5) as (w6 & E6 & A6)
  end.
  - intros d wx Hd Ad. destruct (advanced_layout _ _ _ _ Ad) as [Qx _].
    assert (Hsd : is_Some (s !! (d + 1)%nat)) by (apply lookup_lt_is_Some_2; lia).
    destruct Hsd as [sd Hsd].
    erewrite bind_getattr by (rewrite Qx; exact Hs).
    rewrite (bind_index _ _ _ _ _ Hsd).
    erewrite bind_getattr by (rewrite Qx; exact T).
    rewrite (bind_index _ _ _ _ _ (message_buffer L d Hd)).
    erewrite bind_getattr by (rewrite Qx; exact CX).
    assert (Hcx : clause_X_train_buffers L !! d = Some (clause_X_train_gpu d)).
    { unfold clause_X_train_buffers. rewrite list_lookup_fmap, lookup_seq_lt by exact Hd.
      reflexivity. }
    rewrite (bind_index _ _ _ _ _ Hcx).
    assert (Am : allocated w (message_ta_state_gpu d)).
    { rewrite Forall_forall in FT. apply FT. unfold message_ta_buffers.
      apply in_map, in_seq. lia. }
    assert (Ac : allocated w (clause_X_train_gpu d)).
    { rewrite Forall_forall in FX. apply FX. unfold clause_X_train_buffers.
      apply in_map, in_seq. lia. }
    destruct (update_message_advanced wx g_state sd (message_ta_state_gpu d) (np_int32 n)
                clause_node_gpu number_of_include_actions (clause_X_train_gpu d)
                class_clause_update_gpu)
      as (wy & Ey & Ay'); [eapply Kx; exact Ad|eapply Ax; eassumption ..|].
    rewrite (bind_ok _ _ _ _ _ Ey). run_cbn.
    exists wy. split; [reflexivity|].
    rewrite seq_S, map_app, app_assoc. cbn [map Nat.add].
    eapply advanced_trans; [exact Ad|]. eapply advanced_weaken; [|exact Ay'].
    intros q [<-|[<-|[<-|[]]]];
      [apply own_in_train; cbn [In]; auto 10|apply layer_in_train; exact Hd
      |apply own_in_train; cbn [In]; auto 10].
  - cbn [seq map]. rewrite app_nil_r. exact A5.
  - exists w6. split; [exact E6|]. unfold step_launches. unfold l5 in A6.
    rewrite <- !app_assoc in A6. cbn [app] in A6. rewrite <- ?app_assoc. cbn [app].
    exact A6.
Qed.

End Fitting.

Lemma train_writes_inv L q :
  In q (train_writes L) ->
  In q [current_clause_node_output_train_gpu; next_clause_node_output_train_gpu;
        clause_X_int_train_gpu; number_of_include_actions; class_sum_gpu; g_state;
        clause_node_gpu; clause_weights_gpu; class_clause_update_gpu; ta_state_gpu] \/
  (exists k, q = clause_X_train_gpu k) \/ (exists k, q = message_ta_state_gpu k).
Proof.
  unfold train_writes, pass_writes, clause_X_train_buffers, message_ta_buffers.
  rewrite !in_app_iff. cbn [In].
  intros [[H|H]|[H|H]].
  - left. intuition auto 20.
  - apply in_map_iff in H as (k & <- & _). eauto.
  - left. intuition auto 20.
  - apply in_map_iff in H as (k & <- & _). eauto.
Qed.

(** Decides that a buffer is not one training writes. *)
Ltac untrained :=
  let H := fresh in
  intros H; apply train_writes_inv in H;
  destruct H as [H|[[? H]|[? H]]]; [|discriminate H ..];
  cbn [In] in H; repeat (destruct H as [H|H]; [discriminate H|]); exact H.

Section Refitting.
Context `{B : Backend}.

(** [_init_fit] on a model that is bound to the graph set and the targets
    already: at most [prepare] is launched. *)
Lemma init_fit_bound L g encoded_Y incremental w :
  fit_ready L g encoded_Y w ->
  exists w',
    CommonTsetlinMachine._init_fit g encoded_Y incremental w = (inr tt, w') /\
    advanced (train_writes L) (refit_launches incremental) w w'.
Proof.
  intros (Hi & (sig & Hsig & Esig) & (y & Hy & Ey) & GO & EV & CX & _ & FA).
  pose proof EV as (K & _ & _ & _ & _ & _ & _ & _ & F).
  repeat match goal with H : Forall _ (_ :: _) |- _ => inversion H; clear H; subst end.
  unfold CommonTsetlinMachine._init_fit.
  erewrite bind_getattr by exact Hi. cbn [negb].
  destruct incremental; cbn [negb refit_launches].
  - run_cbn. erewrite bind_getattr by exact Hsig. rewrite Esig. cbn [negb]. run_cbn.
    erewrite bind_getattr by exact Hy. rewrite Ey. cbn [negb].
    exists w. split; [reflexivity|apply advanced_refl].
  - destruct (prepare_advanced w g_state ta_state_gpu clause_weights_gpu class_sum_gpu)
      as (w1 & E1 & A1); [assumption ..|].
    destruct (advanced_layout _ _ _ _ A1) as [Q1 _].
    rewrite !bind_assoc, (bind_ok _ _ _ _ _ E1). run_cbn.
    erewrite bind_getattr by (rewrite Q1; exact Hsig). rewrite Esig. cbn [negb]. run_cbn.
    erewrite bind_getattr by (rewrite Q1; exact Hy). rewrite Ey. cbn [negb].
    exists w1. split; [reflexivity|].
    eapply advanced_weaken; [|exact A1].
    intros q Hq. apply own_in_train. cbn [In] in *. intuition auto 10.
Qed.

(** What [_fit] does once [_init_fit] has returned on a model that is bound
    to the graph set and the targets. *)
Lemma fit_after_init L g encoded_Y epochs incremental w w1 :
  CommonTsetlinMachine._init_fit g encoded_Y incremental w = (inr tt, w1) ->
  fit_ready L g encoded_Y w1 ->
  exists w',
    CommonTsetlinMachine._fit g encoded_Y epochs incremental w = (inr tt, w') /\
    stream w'
    = stream w1
      ++ concat (replicate epochs
                   (concat (replicate (number_of_graphs g) (step_launches L)))) /\
    (forall q, ~ In q (train_writes L) -> gpu w' q = gpu w1 q) /\
    (forall q, extent w' q = extent w1 q) /\
    self w' self_ta_state = Some np_array_nil /\
    self w' self_clause_weights = Some np_array_nil /\
    (forall a, a <> self_ta_state -> a <> self_clause_weights -> self w' a = self w1 a).
Proof.
  intros E1 FR.
  pose proof FR as (_ & _ & _ & _ & EV & _).
  destruct EV as (_ & _ & (no & len & O & Hno & _) & _).
  unfold CommonTsetlinMachine._fit. rewrite (bind_ok _ _ _ _ _ E1).
  erewrite bind_getattr by exact O.
  rewrite bind_as_size by exact Hno. cbv zeta.
  match goal with
  | |- exists w', bind (for_range epochs ?body) _ w1 = _ /\ _ =>
    destruct (for_range_returns
                (fun i wx =>
                   advanced (train_writes L)
                     (concat (replicate i
                                (concat (replicate (number_of_graphs g)
                                           (step_launches L))))) w1 wx)
                epochs body) with (w := w1) as (w2 & E2 & A2)
  end.
  - intros i wx _ Ax.
    match goal with
    | |- exists w', for_range _ ?body wx = _ /\ _ =>
      destruct (for_range_returns
                  (fun j wy =>
                     advanced (train_writes L)
                       (concat (replicate i
                                  (concat (replicate (number_of_graphs g)
                                             (step_launches L))))
                        ++ concat (replicate j (step_launches L))) w1 wy)
                  (number_of_graphs g) body) with (w := wx) as (wy & Ey & Ay)
    end.
    + intros e wy He Ay. pose proof (advanced_layout _ _ _ _ Ay) as Ly.
      destruct (step_advanced L g encoded_Y wy no e (fit_ready_layout L g encoded_Y _ _ Ly FR)
                  ltac:(destruct Ly as [Qy _]; rewrite Qy; exact O) He)
        as (wz & Ez & Az).
      exists wz. split; [exact Ez|].
      rewrite concat_replicate_S, app_assoc.
      eapply advanced_trans; eassumption.
    + cbn [replicate concat]. rewrite app_nil_r. exact Ax.
    + exists wy. split; [exact Ey|].
      rewrite concat_replicate_S. exact Ay.
  - apply advanced_refl.
  - rewrite (bind_ok _ _ _ _ _ E2). run_cbn.
    destruct A2 as [[[Q2 X2] F2] S2].
    eexists. split; [reflexivity|]. cbn [stream gpu self with_self].
    split; [exact S2|]. split; [exact F2|]. split; [exact X2|].
    split; [rewrite object_set_ne by discriminate; apply object_set_eq|].
    split; [apply object_set_eq|].
    intros a H1 H2. rewrite !object_set_ne by congruence. rewrite Q2. reflexivity.
Qed.

(** X16: fitting a model again.  On a model that an earlier fit initialized
    and bound to the same graph set and targets, [_fit] returns for any
    number of epochs.  It launches [prepare] first when the fit is not
    incremental and nothing otherwise, then for every epoch and example an
    evaluation pass, the two selections, the update of the surface automata
    and one update per message layer, and no other kernel:
    [prepare_message_ta_state] is not among them.  The buffers keep their
    extents; the hypervectors, the features, the edges and the targets on
    the device hold what they held, as does every buffer outside the ones
    training writes.  The host copies of the automata and of the weights are
    empty afterwards and no other attribute has changed. *)
Theorem fit_again L g encoded_Y epochs incremental w :
  fit_ready L g encoded_Y w ->
  exists w',
    CommonTsetlinMachine._fit g encoded_Y epochs incremental w = (inr tt, w') /\
    stream w'
    = stream w ++ refit_launches incremental
      ++ concat (replicate epochs
                   (concat (replicate (number_of_graphs g) (step_launches L)))) /\
    (forall q, ~ In q (train_writes L) -> gpu w' q = gpu w q) /\
    gpu w' hypervectors_gpu = gpu w hypervectors_gpu /\
    gpu w' encoded_X_train_gpu = gpu w encoded_X_train_gpu /\
    gpu w' edge_train_gpu = gpu w edge_train_gpu /\
    gpu w' encoded_Y_gpu = gpu w encoded_Y_gpu /\
    (forall q, extent w' q = extent w q) /\
    self w' self_ta_state = Some np_array_nil /\
    self w' self_clause_weights = Some np_array_nil /\
    (forall a, a <> self_ta_state -> a <> self_clause_weights -> self w' a = self w a).
Proof.
  intros FR.
  destruct (init_fit_bound L g encoded_Y incremental w FR) as (w1 & E1 & [[[Q1 X1] F1] S1]).
  assert (FR1 : fit_ready L g encoded_Y w1)
    by (apply (fit_ready_layout L g encoded_Y w w1); [split; assumption|exact FR]).
  destruct (fit_after_init L g encoded_Y epochs incremental w w1 E1 FR1)
    as (w' & E & S & F & X & T1 & T2 & Q).
  assert (Fw : forall q, ~ In q (train_writes L) -> gpu w' q = gpu w q)
    by (intros q Hq; rewrite F, F1 by exact Hq; reflexivity).
  exists w'. split; [exact E|].
  split; [rewrite S, S1, <- app_assoc; reflexivity|]. split; [exact Fw|].
  split; [apply Fw; untrained|]. split; [apply Fw; untrained|].
  split; [apply Fw; untrained|]. split; [apply Fw; untrained|].
  split; [intros q; rewrite X; apply X1|].
  split; [exact T1|]. split; [exact T2|].
  intros a H1 H2. rewrite Q, Q1 by assumption. reflexivity.
Qed.

End Refitting.

(** ** The first fit *)

Lemma chunks_pos n : (0 < n)%nat -> (0 < chunks n)%nat.
Proof.
  intros H. unfold chunks.
  assert (0 <= (Z.of_nat n - 1) / 32) by (apply Z.div_pos; lia). lia.
Qed.

Lemma extent_allocated w p n : extent w p = Some n -> allocated w p.
Proof. unfold extent, allocated. destruct (gpu w p); [eauto|discriminate]. Qed.

Lemma to_nat_bytes no nc :
  0 <= no -> Z.to_nat (no * Z.of_nat nc * 4) = (Z.to_nat no * nc * 4)%nat.
Proof. intros H. rewrite !Z2Nat.inj_mul, Nat2Z.id by lia. reflexivity. Qed.

(** Brings the statement that runs next to the front. *)
Ltac norm := repeat first [rewrite bind_assoc | progress run_cbn].

Section FirstFit.
Context `{B : Backend}.

(** The loop of [allocate_gpu_memory] that allocates the automata of the
    message layers. *)
Lemma message_automata_ok n nc sb mc w0 :
  (0 < nc * mc * sb)%nat ->
  self w0 self_number_of_message_chunks = Some mc ->
  self w0 self_message_ta_state_gpu = Some [] ->
  exists w',
    for_range n (fun _ =>
      mc <- getattr self_number_of_message_chunks ;;
      l <- getattr self_message_ta_state_gpu ;;
      let p := message_ta_state_gpu (length l) in
      CommonTsetlinMachine.mem_alloc p (nc * mc * sb * 4) ;;
      setattr self_message_ta_state_gpu (l ++ [p])) w0 = (inr tt, w') /\
    self w' self_message_ta_state_gpu = Some (map message_ta_state_gpu (seq 0 n)) /\
    (forall k, (k < n)%nat -> extent w' (message_ta_state_gpu k) = Some (nc * mc * sb)%nat) /\
    (forall a, a <> self_message_ta_state_gpu -> self w' a = self w0 a) /\
    (forall q, (forall j, q <> message_ta_state_gpu j) -> gpu w' q = gpu w0 q) /\
    stream w' = stream w0.
Proof.
  intros Hw Hmc Hl.
  apply (for_range_returns
    (fun k w' =>
       self w' self_message_ta_state_gpu = Some (map message_ta_state_gpu (seq 0 k)) /\
       (forall j, (j < k)%nat -> extent w' (message_ta_state_gpu j) = Some (nc * mc * sb)%nat) /\
       (forall a, a <> self_message_ta_state_gpu -> self w' a = self w0 a) /\
       (forall q, (forall j, q <> message_ta_state_gpu j) -> gpu w' q = gpu w0 q) /\
       stream w' = stream w0)).
  - intros k w _ (I1 & I2 & I3 & I4 & I5).
    erewrite bind_getattr by (rewrite I3 by discriminate; exact Hmc).
    erewrite bind_getattr by exact I1. cbv zeta.
    rewrite length_map, length_seq.
    destruct (mem_alloc_ok (message_ta_state_gpu k) (nc * mc * sb) w Hw)
      as (w1 & E1 & X1 & [S1 F1] & Q1).
    rewrite (bind_ok _ _ _ _ _ E1). run_cbn.
    eexists. split; [reflexivity|]. world_cbn.
    split; [rewrite seq_S, map_app; reflexivity|].
    split; [|split; [|split]].
    + intros j Hj. unfold extent. cbn [gpu with_self].
      destruct (decide (j = k)) as [->|Hne]; [exact X1|].
      rewrite F1 by congruence. apply I2. lia.
    + intros a Ha. rewrite object_set_ne by congruence. rewrite S1. apply I3. exact Ha.
    + intros q Hq. rewrite F1 by (intros <-; exact (Hq k eq_refl)). apply I4. exact Hq.
    + rewrite Q1. exact I5.
  - split; [exact Hl|]. split; [intros j Hj; lia|]. auto.
Qed.

(** [_init] on a machine that is about to be fitted: the shape attributes
    are derived, the kernels are compiled and the model's own buffers are
    allocated. *)
Lemma init_returns L g encoded_Y w :
  fittable L g encoded_Y w ->
  exists w1,
    CommonTsetlinMachine._init g w = (inr tt, w1) /\
    model_ready L w1 /\
    (forall a,
        ~ In a [self_number_of_features; self_number_of_literals; self_number_of_ta_chunks;
                self_number_of_message_features; self_number_of_message_literals;
                self_number_of_message_chunks; self_max_included_literals; self_kernels;
                self_message_ta_state_gpu; self_initialized] ->
        self w1 a = self w a) /\
    allocated w1 g_state /\ allocated w1 clause_node_gpu /\
    stream w1 = stream w.
Proof.
  intros (Hi & Hd & Ho & Po & Hnc & Pnc
          & (sb & boost & T & q & mil & neg & mb & ms & hv & s
             & Hsb & Psb & Hboost & HT & Hq & Hmil & Hneg & Hmb & Hms & Pms & Hml
             & Hhv & Whv & Phv & Hs & Ls1 & Lsd & Eml & Emc & EK)
          & Hst & Hstt & HY & Nsig & NY & WY & PY & GO & Pf & Ag).
  pose proof (chunks_pos (hypervector_size g * 2) ltac:(lia)) as Ptc.
  pose proof (chunks_pos (ms * 2) ltac:(lia)) as Pmc.
  unfold CommonTsetlinMachine._init. run.
  destruct mil as [m|]; run;
    match goal with
    | |- context [object_set self_kernels ?K] =>
        replace K with (L_kernels L) by (rewrite EK; reflexivity)
    end;
    unfold CommonTsetlinMachine.allocate_gpu_memory; run.
  all: match goal with |- context [bind _ _ ?x] => set (wa := x) end.
  all: destruct (mem_alloc_ok ta_state_gpu
                   (L_clauses L * chunks (hypervector_size g * 2) * sb) wa
                   ltac:(repeat apply Nat.mul_pos_pos; lia))
         as (wb & Eb & Xb & [Sb Fb] & Qb);
       norm; rewrite (bind_ok _ _ _ _ _ Eb); norm;
       erewrite bind_getattr by (world_cbn; rewrite Sb; subst wa; world_cbn; exact Hd);
       norm.
  all: match goal with |- context [bind (for_range _ _) _ ?x] => set (wc := x) end.
  all: destruct (message_automata_ok (L_depth L - 1) (L_clauses L) sb (chunks (ms * 2)) wc
                   ltac:(repeat apply Nat.mul_pos_pos; lia))
         as (wd & Ed & I1 & I2 & I3 & I4 & I5);
       [subst wc; world_cbn; rewrite Sb; subst wa; world_cbn; reflexivity
       |subst wc; world_cbn; reflexivity|];
       rewrite (bind_ok _ _ _ _ _ Ed); norm.
  all: assert (Sd : forall a, a <> self_message_ta_state_gpu -> self wd a = self wa a)
         by (intros a Ha; rewrite I3 by exact Ha; subst wc; world_cbn;
             rewrite object_set_ne by congruence; rewrite Sb; reflexivity).
  all: erewrite bind_getattr by (rewrite Sd by discriminate; subst wa; world_cbn; exact Ho);
       norm; rewrite bind_as_size by lia; norm; rewrite to_nat_bytes by lia.
  all: destruct (mem_alloc_ok clause_weights_gpu (Z.to_nat (L_outputs L) * L_clauses L) wd
                   ltac:(apply Nat.mul_pos_pos; lia))
         as (we & Ee & Xe & [Se Fe] & Qe);
       rewrite (bind_ok _ _ _ _ _ Ee); norm.
  all: destruct (mem_alloc_ok clause_weights_dummy_gpu
                   (Z.to_nat (L_outputs L) * L_clauses L) we
                   ltac:(apply Nat.mul_pos_pos; lia))
         as (wf & Ef & Xf & [Sf Ff] & Qf);
       rewrite (bind_ok _ _ _ _ _ Ef); norm.
  all: rewrite bind_as_size by lia; norm;
       replace (Z.to_nat (L_outputs L * 4)) with (Z.to_nat (L_outputs L) * 4)%nat by lia.
  all: destruct (mem_alloc_ok class_sum_gpu (Z.to_nat (L_outputs L)) wf ltac:(lia))
         as (wg & Eg & Xg & [Sg Fg] & Qg);
       rewrite (bind_ok _ _ _ _ _ Eg); norm.
  all: destruct (mem_alloc_ok clause_node_gpu (L_clauses L) wg Pnc)
         as (wh & Eh & Xh & [Sh Fh] & Qh);
       rewrite (bind_ok _ _ _ _ _ Eh); norm.
  all: destruct (mem_alloc_ok number_of_include_actions (L_clauses L) wh Pnc)
         as (wi & Ei & Xi & [Si Fi] & Qi);
       rewrite (bind_ok _ _ _ _ _ Ei); norm.
  all: assert (Sw : forall a, a <> self_message_ta_state_gpu -> self wi a = self wa a)
         by (intros a Ha; rewrite Si, Sh, Sg, Sf, Se; apply Sd; exact Ha).
  all: erewrite bind_getattr by (rewrite Sw by discriminate; subst wa; world_cbn; exact Hhv);
       norm.
  all: destruct (upload_ok hypervectors_gpu hv wi Whv Phv) as (wj & Ej & Gj & [Sj Fj] & Qj);
       rewrite (bind_upload _ _ _ _ _ Ej); norm.
  all: eexists; split; [reflexivity|].
  all: assert (Back : forall p,
                 p <> hypervectors_gpu -> p <> number_of_include_actions ->
                 p <> clause_node_gpu -> p <> class_sum_gpu ->
                 p <> clause_weights_dummy_gpu -> p <> clause_weights_gpu ->
                 gpu wj p = gpu wd p)
         by (intros p H1 H2 H3 H4 H5 H6;
             rewrite Fj, Fi, Fh, Fg, Ff, Fe by congruence; reflexivity).
  all: assert (Gta : extent wd ta_state_gpu
                     = Some (L_clauses L * chunks (hypervector_size g * 2) * sb)%nat)
         by (unfold extent; rewrite I4 by (intros; discriminate); subst wc;
             cbn [gpu with_self]; exact Xb).
  all: assert (Sall : forall a, a <> self_message_ta_state_gpu ->
                                self wj a = self wa a)
         by (intros a Ha; rewrite Sj; apply Sw; exact Ha).
  all: split; [|split; [|split; [|split]]].
  all: try (unfold model_ready; cbn [self with_self];
            rewrite object_set_eq; rewrite !object_set_ne by discriminate;
            rewrite (Sall self_kernels), (Sall self_depth), (Sall self_number_of_outputs),
              (Sall self_number_of_clauses), (Sall self_number_of_message_literals),
              (Sall self_number_of_message_chunks) by discriminate;
            rewrite Sj, Si, Sh, Sg, Sf, Se, I1;
            subst wa; world_cbn; rewrite Eml, Emc;
            repeat (split; [first [reflexivity | assumption | lia]|]);
            split; [|split];
            [ apply Forall_forall; intros p Hp; unfold message_ta_buffers in Hp;
              apply in_map_iff in Hp as (k & <- & Hk); apply in_seq in Hk;
              apply (extent_allocated _ _ (L_clauses L * chunks (ms * 2) * sb));
              unfold extent; cbn [gpu with_self]; rewrite Back by discriminate;
              apply I2; lia
            | repeat constructor;
              [ eapply extent_allocated; unfold extent; cbn [gpu with_self];
                rewrite Back by discriminate; exact Gta
              | eapply extent_allocated; unfold extent; cbn [gpu with_self];
                rewrite Fj by discriminate; exact Xi
              | unfold allocated; cbn [gpu with_self]; rewrite Gj; eauto
              | eapply extent_allocated; unfold extent; cbn [gpu with_self];
                rewrite Fj, Fi, Fh, Fg, Ff by discriminate; exact Xe ]
            | unfold extent; cbn [gpu with_self];
              rewrite Fj, Fi, Fh by discriminate; exact Xg ]).
  all: try (intros a Ha; cbn [self with_self];
            rewrite object_set_ne by (intros <-; apply Ha; cbn [In]; tauto);
            rewrite Sall by (intros ->; apply Ha; cbn [In]; tauto);
            subst wa; cbn [self with_self];
            rewrite !object_set_ne by (intros <-; apply Ha; cbn [In]; tauto);
            reflexivity).
  all: try (unfold allocated; cbn [gpu with_self];
            rewrite Back, I4 by (intros; discriminate); subst wc; cbn [gpu with_self];
            rewrite Fb by discriminate; subst wa; cbn [gpu with_self]; exact Ag).
  all: try (apply (extent_allocated _ _ (L_clauses L)); unfold extent; cbn [gpu with_self];
            rewrite Fj, Fi by discriminate; exact Xh).
  all: cbn [stream with_self]; rewrite Qj, Qi, Qh, Qg, Qf, Qe, I5; subst wc;
       cbn [stream with_self]; rewrite Qb; subst wa; reflexivity.
Qed.

Lemma prepare_message_ta_state_run w P p a :
  self w self_kernels = Some P -> gpu w p = Some a ->
  CommonTsetlinMachine.prepare_message_ta_state p w
  = (inr tt, launched Kprepare_message_ta_state [p]
               [(p, kernel_prepare_message_ta_state P a)] w).
Proof.
  intros HP Ha. assert (Ap : allocated w p) by (unfold allocated; eauto).
  unfold CommonTsetlinMachine.prepare_message_ta_state. launch. reflexivity.
Qed.

(** The loop of [_init_fit] that prepares the automata of the message
    layers. *)
Lemma prepare_layers_ok L w :
  is_Some (self w self_kernels) ->
  self w self_message_ta_state_gpu = Some (message_ta_buffers L) ->
  Forall (allocated w) (message_ta_buffers L) ->
  exists w',
    for_range (L_depth L - 1) (fun depth =>
      l <- getattr self_message_ta_state_gpu ;;
      p <- index l depth ;;
      CommonTsetlinMachine.prepare_message_ta_state p) w = (inr tt, w') /\
    advanced (message_ta_buffers L)
      (map (fun d => Launch Kprepare_message_ta_state [message_ta_state_gpu d])
           (seq 0 (L_depth L - 1))) w w'.
Proof.
  intros [P K] T FT.
  apply (for_range_returns
    (fun i wx =>
       advanced (message_ta_buffers L)
         (map (fun d => Launch Kprepare_message_ta_state [message_ta_state_gpu d])
              (seq 0 i)) w wx)).
  - intros d wx Hd Ax. pose proof (advanced_layout _ _ _ _ Ax) as Lx.
    pose proof Lx as [Qx _].
    erewrite bind_getattr by (rewrite Qx; exact T).
    rewrite (bind_index _ _ _ _ _ (message_buffer L d Hd)).
    assert (Hin : In (message_ta_state_gpu d) (message_ta_buffers L)).
    { unfold message_ta_buffers. apply in_map, in_seq. lia. }
    assert (Ap : allocated wx (message_ta_state_gpu d)).
    { eapply same_layout_allocated; [exact Lx|]. rewrite Forall_forall in FT.
      apply FT. exact Hin. }
    destruct Ap as [a Ha].
    rewrite (prepare_message_ta_state_run wx P (message_ta_state_gpu d) a)
      by first [rewrite Qx; exact K | exact Ha].
    eexists. split; [reflexivity|].
    rewrite seq_S, map_app. cbn [map Nat.add].
    eapply advanced_trans; [exact Ax|]. apply launched_advanced.
    cbn [map fst In]. intros q [<-|[]]. exact Hin.
  - apply advanced_refl.
Qed.

(** The loop of [_init_fit] that allocates one message buffer per round. *)
Lemma train_message_buffers_ok n mn mc w0 :
  (0 < mn * mc)%nat ->
  self w0 self_number_of_message_chunks = Some mc ->
  self w0 self_clause_X_train_gpu = Some [] ->
  exists w',
    for_range n (fun _ =>
      mc <- getattr self_number_of_message_chunks ;;
      l <- getattr self_clause_X_train_gpu ;;
      let p := clause_X_train_gpu (length l) in
      CommonTsetlinMachine.mem_alloc p (mn * mc * 4) ;;
      setattr self_clause_X_train_gpu (l ++ [p])) w0 = (inr tt, w') /\
    self w' self_clause_X_train_gpu = Some (map clause_X_train_gpu (seq 0 n)) /\
    (forall k, (k < n)%nat -> extent w' (clause_X_train_gpu k) = Some (mn * mc)%nat) /\
    (forall a, a <> self_clause_X_train_gpu -> self w' a = self w0 a) /\
    (forall q, (forall j, q <> clause_X_train_gpu j) -> gpu w' q = gpu w0 q) /\
    stream w' = stream w0.
Proof.
  intros Hw Hmc Hl.
  apply (for_range_returns
    (fun k w' =>
       self w' self_clause_X_train_gpu = Some (map clause_X_train_gpu (seq 0 k)) /\
       (forall j, (j < k)%nat -> extent w' (clause_X_train_gpu j) = Some (mn * mc)%nat) /\
       (forall a, a <> self_clause_X_train_gpu -> self w' a = self w0 a) /\
       (forall q, (forall j, q <> clause_X_train_gpu j) -> gpu w' q = gpu w0 q) /\
       stream w' = stream w0)).
  - intros k w _ (I1 & I2 & I3 & I4 & I5).
    erewrite bind_getattr by (rewrite I3 by discriminate; exact Hmc).
    erewrite bind_getattr by exact I1. cbv zeta.
    rewrite length_map, length_seq.
    destruct (mem_alloc_ok (clause_X_train_gpu k) (mn * mc) w Hw)
      as (w1 & E1 & X1 & [S1 F1] & Q1).
    rewrite (bind_ok _ _ _ _ _ E1). run_cbn.
    eexists. split; [reflexivity|]. world_cbn.
    split; [rewrite seq_S, map_app; reflexivity|].
    split; [|split; [|split]].
    + intros j Hj. unfold extent. cbn [gpu with_self].
      destruct (decide (j = k)) as [->|Hne]; [exact X1|].
      rewrite F1 by congruence. apply I2. lia.
    + intros a Ha. rewrite object_set_ne by congruence. rewrite S1. apply I3. exact Ha.
    + intros q Hq. rewrite F1 by (intros <-; exact (Hq k eq_refl)). apply I4. exact Hq.
    + rewrite Q1. exact I5.
  - split; [exact Hl|]. split; [intros j Hj; lia|]. auto.
Qed.

(** A model is ready in every world with the same model attributes and the
    same model buffers. *)
Lemma model_ready_same L w w' :
  (forall a,
      In a [self_initialized; self_kernels; self_depth; self_number_of_outputs;
            self_number_of_clauses; self_number_of_message_literals;
            self_number_of_message_chunks; self_message_ta_state_gpu] ->
      self w' a = self w a) ->
  (forall p, model_buffer p -> extent w' p = extent w p) ->
  model_ready L w -> model_ready L w'.
Proof.
  intros Hs Hg (M1 & M2 & M3 & M4 & M5 & M6 & M7 & M8 & M9 & M10 & M11 & M12 & M13
                & M14 & M15).
  assert (A : forall p, model_buffer p -> allocated w p -> allocated w' p).
  { intros p Hp [buf Hb]. specialize (Hg p Hp). unfold extent in Hg. rewrite Hb in Hg.
    unfold allocated. destruct (gpu w' p); [eauto|discriminate]. }
  unfold model_ready. rewrite !Hs by (cbn [In]; tauto).
  repeat (split; [assumption|]). split; [|split].
  - apply Forall_forall. intros p Hp. rewrite Forall_forall in M13.
    pose proof (M13 p Hp) as Hal. unfold message_ta_buffers in Hp.
    apply in_map_iff in Hp as (j & <- & _). apply A; [exact I|exact Hal].
  - repeat match goal with H : Forall _ (_ :: _) |- _ => inversion H; clear H; subst end.
    repeat constructor; (apply A; [exact I|assumption]).
  - rewrite (Hg class_sum_gpu I). exact M15.
Qed.

Lemma bind_upload_then {A C} p (a : ndarray) (f : unit -> M A) (h : A -> M C) w w' :
  (CommonTsetlinMachine.mem_alloc p (nbytes a) ;; memcpy_htod p (ravel a)) w = (inr tt, w') ->
  bind (CommonTsetlinMachine.mem_alloc p (nbytes a))
    (fun _ => bind (bind (memcpy_htod p (ravel a)) f) h) w = bind (f tt) h w'.
Proof.
  unfold bind. destruct (CommonTsetlinMachine.mem_alloc p (nbytes a) w) as [[e|[]] w1];
    [discriminate|].
  destruct (memcpy_htod p (ravel a) w1) as [[e|[]] w2]; [discriminate|].
  intros [= <-]. reflexivity.
Qed.

(** Walks a buffer back through the steps that did not write it. *)
Ltac back_train :=
  repeat match goal with
  | H : forall q, ~ _ = q -> gpu ?x q = gpu _ q |- context [gpu ?x ?p] =>
      rewrite (H p) by discriminate
  | H : forall q, (forall j, q <> clause_X_train_gpu j) -> gpu ?x q = gpu _ q
    |- context [gpu ?x ?p] => rewrite (H p) by (intros; discriminate)
  | |- _ => progress cbn [gpu with_self with_gpu with_stream]
  end.

(** [_init_fit] on a machine that is fitted for the first time: the model is
    initialized and its automata are prepared, then the training side is
    bound to the graph set and the targets. *)
Lemma first_init_fit L g encoded_Y incremental w :
  fittable L g encoded_Y w ->
  exists w',
    CommonTsetlinMachine._init_fit g encoded_Y incremental w = (inr tt, w') /\
    model_ready L w' /\ fit_ready L g encoded_Y w' /\
    stream w' = stream w ++ first_launches L /\
    self w' self_graphs_signature_test = Some np_array_nil.
Proof.
  intros FT.
  pose proof FT as (Hi & Hd & Ho & Po & Hnc & Pnc
          & (sb & boost & T & q & mil & neg & mb & ms & hv & s
             & Hsb & Psb & Hboost & HT & Hq & Hmil & Hneg & Hmb & Hms & Pms & Hml
             & Hhv & Whv & Phv & Hs & Ls1 & Lsd & Eml & Emc & EK)
          & Hst & Hstt & HY & Nsig & NY & WY & PY & GO & Pf & Ag).
  destruct (init_returns L g encoded_Y w FT) as (w1 & E1 & MR1 & S1 & Ag1 & Acn1 & Q1).
  pose proof MR1 as (M1 & M2 & M3 & M4 & M5 & M6 & M7 & M8 & M9 & M10 & M11 & M12 & M13
                     & M14 & M15).
  pose proof GO as (G1 & G2 & G3 & G4 & G5 & G6 & G7 & G8).
  pose proof (chunks_pos (ms * 2) ltac:(lia)) as Pmc.
  repeat match goal with H : Forall _ (_ :: _) |- _ => inversion H; clear H; subst end.
  unfold CommonTsetlinMachine._init_fit.
  erewrite bind_getattr by exact Hi. cbn [negb]. norm.
  rewrite (bind_ok _ _ _ _ _ E1). norm.
  destruct (prepare_advanced w1 g_state ta_state_gpu clause_weights_gpu class_sum_gpu)
    as (w2 & E2 & A2);
    [rewrite M2; eauto|assumption|assumption|assumption
    |eapply extent_allocated; exact M15|].
  rewrite (bind_ok _ _ _ _ _ E2). norm.
  pose proof (advanced_layout _ _ _ _ A2) as L2. pose proof L2 as [Q2 X2].
  erewrite bind_getattr by (rewrite Q2; exact M3). norm.
  destruct (prepare_layers_ok L w2) as (w3 & E3 & A3);
    [rewrite Q2, M2; eauto|rewrite Q2; exact M12
    |eapply same_layout_Forall; [exact L2|exact M13]|].
  rewrite (bind_ok _ _ _ _ _ E3). norm.
  pose proof (same_layout_trans _ _ _ L2 (advanced_layout _ _ _ _ A3)) as L3.
  pose proof L3 as [Q3 X3].
  assert (MR3 : model_ready L w3) by (eapply model_ready_layout; eassumption).
  assert (St3 : stream w3 = stream w ++ first_launches L).
  { destruct A2 as [_ St2], A3 as [_ St3]. rewrite St3, St2, Q1, <- app_assoc.
    reflexivity. }
  assert (Old : forall a,
             ~ In a [self_number_of_features; self_number_of_literals;
                     self_number_of_ta_chunks; self_number_of_message_features;
                     self_number_of_message_literals; self_number_of_message_chunks;
                     self_max_included_literals; self_kernels; self_message_ta_state_gpu;
                     self_initialized] ->
             self w3 a = self w a) by (intros a Ha; rewrite Q3; apply S1; exact Ha).
  assert (Hst3 : self w3 self_graphs_signature_train = Some np_array_nil)
    by (rewrite Old by (cbn [In]; intuition discriminate); exact Hst).
  assert (Hml3 : self w3 self_message_literals = Some (ms * 2)%nat)
    by (rewrite Old by (cbn [In]; intuition discriminate); exact Hml).
  assert (HY3 : self w3 self_encoded_Y = Some np_array_nil)
    by (rewrite Old by (cbn [In]; intuition discriminate); exact HY).
  assert (Hs3 : self w3 self_s = Some s)
    by (rewrite Old by (cbn [In]; intuition discriminate); exact Hs).
  assert (Htt3 : self w3 self_graphs_signature_test = Some np_array_nil)
    by (rewrite Old by (cbn [In]; intuition discriminate); exact Hstt).
  pose proof MR3 as (N1 & N2 & N3 & N4 & _ & N6 & _ & N8 & _ & N10 & _ & N12 & N13
                     & N14 & N15).
  clear E1 E2 E3.
  erewrite bind_getattr by exact Hst3. rewrite Nsig. cbn [negb]. norm.
  match goal with |- context [bind _ _ ?x] => set (wa := x) end.
  destruct (upload_ok encoded_X_train_gpu (X g) wa G1 G4) as (wb & Eb & Gb & [Sb Fb] & Qb).
  rewrite (bind_upload_then _ _ _ _ _ _ Eb). clear Eb. norm.
  erewrite bind_getattr by (rewrite Sb; subst wa; world_cbn; exact N6). norm.
  destruct (mem_alloc_ok current_clause_node_output_train_gpu
              (L_clauses L * max_number_of_graph_node_chunks g) wb
              ltac:(apply Nat.mul_pos_pos; lia))
    as (wc & Ec & Xc & [Sc Fc] & Qc).
  rewrite (bind_ok _ _ _ _ _ Ec). norm.
  destruct (mem_alloc_ok next_clause_node_output_train_gpu
              (L_clauses L * max_number_of_graph_node_chunks g) wc
              ltac:(apply Nat.mul_pos_pos; lia))
    as (wd & Ed & Xd & [Sd Fd] & Qd).
  rewrite (bind_ok _ _ _ _ _ Ed). norm.
  erewrite bind_getattr by (rewrite Sd, Sc, Sb; subst wa; world_cbn; exact Hml3). norm.
  destruct (mem_alloc_ok clause_X_int_train_gpu
              (max_number_of_graph_nodes g * (ms * 2)) wd
              ltac:(apply Nat.mul_pos_pos; lia))
    as (we & Ee & Xe & [Se Fe] & Qe).
  rewrite (bind_ok _ _ _ _ _ Ee). norm.
  erewrite bind_getattr by (world_cbn; rewrite Se, Sd, Sc, Sb; subst wa; world_cbn; exact N3).
  norm.
  match goal with |- context [bind (for_range _ _) _ ?x] => set (wf := x) end.
  destruct (train_message_buffers_ok (L_depth L - 1) (max_number_of_graph_nodes g)
              (L_message_chunks L) wf ltac:(apply Nat.mul_pos_pos; lia))
    as (wg & Eg & I1 & I2 & I3 & I4 & I5).
  { subst wf. world_cbn. rewrite Se, Sd, Sc, Sb. subst wa. world_cbn. exact N10. }
  { reflexivity. }
  rewrite (bind_ok _ _ _ _ _ Eg). clear Eg. norm.
  destruct (upload_ok number_of_graph_node_edges_train_gpu (number_of_graph_node_edges g)
              wg G2 G5) as (wh & Eh & Gh & [Sh Fh] & Qh).
  rewrite (bind_upload_then _ _ _ _ _ _ Eh). clear Eh. norm.
  destruct (alloc_edges_ok edge_train_gpu g wh G3) as (wi & Ei & Gi & [Si Fi] & Qi).
  rewrite (bind_ok _ _ _ _ _ Ei). clear Ei. norm.
  assert (Sfa : forall a, a <> self_clause_X_train_gpu -> a <> self_graphs_signature_train ->
                          self wi a = self w3 a).
  { intros a Ha1 Ha2. rewrite Si, Sh, I3 by exact Ha1. subst wf. world_cbn.
    rewrite object_set_ne by congruence. rewrite Se, Sd, Sc, Sb. subst wa. world_cbn.
    apply object_set_ne. congruence. }
  erewrite bind_getattr by (rewrite Sfa by discriminate; exact N4). norm.
  rewrite bind_as_size by lia. norm. rewrite to_nat_bytes by lia.
  destruct (mem_alloc_ok class_clause_update_gpu (Z.to_nat (L_outputs L) * L_clauses L) wi
              ltac:(apply Nat.mul_pos_pos; lia))
    as (wj & Ej & Xj & [Sj Fj] & Qj).
  rewrite (bind_ok _ _ _ _ _ Ej). clear Ej. norm.
  erewrite bind_getattr by (rewrite Sj, Sfa by discriminate; exact HY3).
  rewrite NY. cbn [negb]. norm.
  match goal with |- context [bind _ _ ?x] => set (wk := x) end.
  destruct (upload_ok encoded_Y_gpu encoded_Y wk WY PY) as (wl & El & Gl & [Sl Fl] & Ql).
  exists wl. split; [exact El|]. clear El.
  assert (Sz : forall a, a <> self_clause_X_train_gpu -> a <> self_graphs_signature_train ->
                         a <> self_encoded_Y -> self wl a = self w3 a).
  { intros a Ha1 Ha2 Ha3. rewrite Sl. subst wk. cbn [self with_self].
    rewrite object_set_ne by congruence. rewrite Sj. apply Sfa; assumption. }
  assert (Gz : forall p, model_buffer p \/ p = clause_node_gpu -> gpu wl p = gpu w3 p).
  { intros p Hp.
    assert (Ne : forall r, ~ model_buffer r -> r <> clause_node_gpu -> r <> p).
    { intros r Hr1 Hr2 ->. destruct Hp as [Hp|Hp]; [exact (Hr1 Hp)|exact (Hr2 Hp)]. }
    rewrite Fl by (apply Ne; [exact id|discriminate]). subst wk. cbn [gpu with_self].
    rewrite Fj, Fi, Fh by (apply Ne; [exact id|discriminate]).
    rewrite I4 by (intros j E; symmetry in E; revert E; apply Ne; [exact id|discriminate]).
    subst wf. cbn [gpu with_self].
    rewrite Fe, Fd, Fc, Fb by (apply Ne; [exact id|discriminate]).
    subst wa. reflexivity. }
  assert (MRl : model_ready L wl).
  { apply (model_ready_same L w3 wl); [| |exact MR3].
    - intros a Ha. cbn [In] in Ha.
      apply Sz; intros ->; intuition discriminate.
    - intros p Hp. unfold extent. rewrite Gz by (left; exact Hp). reflexivity. }
  split; [exact MRl|].
  pose proof MRl as (R1 & R2 & R3 & R4 & R5 & R6 & R7 & R8 & R9 & R10 & R11 & R12 & R13
                     & R14 & R15).
  split; [|split].
  - unfold fit_ready.
    split; [exact R1|].
    split.
    { exists (signature g). split; [|apply array_equal_refl].
      rewrite Sl. subst wk. world_cbn. rewrite Sj, Si, Sh, I3 by discriminate.
      subst wf. world_cbn. rewrite Se, Sd, Sc, Sb. subst wa. world_cbn. reflexivity. }
    split.
    { exists encoded_Y. split; [|apply array_equal_refl].
      rewrite Sl. subst wk. world_cbn. reflexivity. }
    split; [exact GO|].
    split.
    { unfold evaluable.
      split; [rewrite R2; eauto|]. split; [exact R3|].
      split; [exists (L_outputs L), (Z.to_nat (L_outputs L)); auto|].
      split; [exact R12|].
      split; [unfold message_ta_buffers; rewrite length_map, length_seq; lia|].
      split; [unfold clause_X_train_buffers; rewrite length_map, length_seq; lia|].
      split; [exact R13|]. split.
      - apply Forall_forall. intros p Hp. unfold clause_X_train_buffers in Hp.
        apply in_map_iff in Hp as (k & <- & Hk). apply in_seq in Hk.
        apply (extent_allocated _ _ (max_number_of_graph_nodes g * L_message_chunks L)).
        unfold extent. rewrite Fl by discriminate. subst wk. cbn [gpu with_self].
        rewrite Fj, Fi, Fh by discriminate. apply I2. lia.
      - inversion R14 as [|? ? Rta R14a]; subst.
        inversion R14a as [|? ? Rincl R14b]; subst.
        inversion R14b as [|? ? Rhv R14c]; subst.
        inversion R14c as [|? ? Rcw _]; subst.
        repeat constructor; try assumption.
        + eapply extent_allocated. unfold extent. subst wk wf. back_train. exact Xc.
        + eapply extent_allocated. unfold extent. subst wk wf. back_train. exact Xd.
        + unfold allocated. subst wk wf. back_train. rewrite Gb. eauto.
        + unfold allocated. subst wk wf. back_train. rewrite Gh. eauto.
        + unfold allocated. subst wk wf. back_train. rewrite Gi. eauto.
        + eapply extent_allocated. unfold extent. subst wk wf. back_train. exact Xe.
        + eapply extent_allocated. exact R15. }
    split.
    { rewrite Sl. subst wk. world_cbn. rewrite Sj, Si, Sh. exact I1. }
    split.
    { exists s. rewrite Sz by discriminate. auto. }
    repeat constructor.
    + unfold allocated. rewrite Gz by (left; exact I).
      eapply same_layout_allocated; [exact L3|exact Ag1].
    + unfold allocated. rewrite Gz by (right; reflexivity).
      eapply same_layout_allocated; [exact L3|exact Acn1].
    + unfold allocated. rewrite Gl. eauto.
    + eapply extent_allocated. unfold extent. rewrite Fl by discriminate. subst wk.
      cbn [gpu with_self]. exact Xj.
  - rewrite Ql. subst wk. cbn [stream with_self]. rewrite Qj, Qi, Qh, I5. subst wf.
    cbn [stream with_self]. rewrite Qe, Qd, Qc, Qb. subst wa. cbn [stream with_self].
    exact St3.
  - rewrite Sz by discriminate. exact Htt3.
Qed.

(** A model stays bound to its training data when the host copies of the
    state are reset and the buffers keep their extents. *)
Lemma fit_ready_kept L g encoded_Y w w' :
  (forall a, a <> self_ta_state -> a <> self_clause_weights -> self w' a = self w a) ->
  (forall q, extent w' q = extent w q) ->
  fit_ready L g encoded_Y w -> fit_ready L g encoded_Y w'.
Proof.
  intros Hs Hx (F1 & F2 & F3 & F4 & EV & F6 & F7 & F8).
  assert (A : forall p, allocated w p -> allocated w' p).
  { intros p [buf Hb]. specialize (Hx p). unfold extent in Hx. rewrite Hb in Hx.
    unfold allocated. destruct (gpu w' p); [eauto|discriminate]. }
  destruct EV as (V1 & V2 & V3 & V4 & V5 & V6 & V7 & V8 & V9).
  unfold fit_ready, evaluable. rewrite !Hs, !Hx by discriminate.
  repeat (split; [assumption|]).
  split; [|split; [assumption|split; [assumption|]]].
  - repeat (split; [assumption|]).
    split; [|split]; (eapply Forall_impl; [|eassumption]); exact A.
  - eapply Forall_impl; [|eassumption]. exact A.
Qed.

(** The first [_fit] of a machine: it returns and leaves a model that is
    ready, bound to its training data and able to score. *)
Lemma first_fit_returns L g encoded_Y epochs incremental w :
  fittable L g encoded_Y w ->
  exists w',
    CommonTsetlinMachine._fit g encoded_Y epochs incremental w = (inr tt, w') /\
    stream w'
    = stream w ++ first_launches L
      ++ concat (replicate epochs
                   (concat (replicate (number_of_graphs g) (step_launches L)))) /\
    model_ready L w' /\ fit_ready L g encoded_Y w' /\ scorable L g w' /\
    self w' self_ta_state = Some np_array_nil /\
    self w' self_clause_weights = Some np_array_nil.
Proof.
  intros FT.
  destruct (first_init_fit L g encoded_Y incremental w FT)
    as (w1 & E1 & MR1 & FR1 & S1 & T1).
  destruct (fit_after_init L g encoded_Y epochs incremental w w1 E1 FR1)
    as (w' & E & S & _ & X & C1 & C2 & Q).
  assert (MR : model_ready L w').
  { apply (model_ready_same L w1 w'); [| |exact MR1].
    - intros a Ha. cbn [In] in Ha. apply Q; intros ->; intuition discriminate.
    - intros p _. apply X. }
  exists w'. split; [exact E|].
  split; [rewrite S, S1, <- app_assoc; reflexivity|].
  split; [exact MR|].
  split; [exact (fit_ready_kept L g encoded_Y w1 w' Q X FR1)|].
  split; [|split; assumption].
  destruct FT as (_ & _ & _ & _ & _ & _ & _ & _ & _ & _ & Nsig & _ & _ & _ & GO & _).
  split; [exact MR|]. split; [exact GO|].
  exists np_array_nil. split; [rewrite Q by discriminate; exact T1|].
  intros H. rewrite Nsig in H. discriminate H.
Qed.

(** X17: the first fit.  On a machine as its constructor and the first lines
    of [fit] leave it, [_fit] of a graph set and its targets returns, for any
    number of epochs.  It launches [prepare], then
    [prepare_message_ta_state] once per message layer, then the training
    launches of every epoch and example.  The machine it leaves is
    initialized with the shape derived from its attributes and the graph
    set, every buffer of the model and of the training side is allocated,
    the model can be fitted again to the same data and can score the graph
    set, and the host copies of the state are empty. *)
Theorem first_fit L g encoded_Y epochs incremental w :
  fittable L g encoded_Y w ->
  exists w',
    CommonTsetlinMachine._fit g encoded_Y epochs incremental w = (inr tt, w') /\
    stream w'
    = stream w ++ first_launches L
      ++ concat (replicate epochs
                   (concat (replicate (number_of_graphs g) (step_launches L)))) /\
    model_ready L w' /\ fit_ready L g encoded_Y w' /\ scorable L g w' /\
    self w' self_ta_state = Some np_array_nil /\
    self w' self_clause_weights = Some np_array_nil.
Proof. apply first_fit_returns. Qed.

End FirstFit.

(** ** From the constructor to the first score *)

(** Reads an attribute the rest of a method does not assign. *)
Ltac kept :=
  match goal with
  | |- self (snd (?m ?W)) ?a = Some ?v =>
      let K := fresh "K" in
      assert (K : keeps (attr_is a v) m) by frame;
      apply K; unfold attr_is; attr
  end.

Section Life.
Context `{B : Backend}.

(** The attributes the constructor assigns from its arguments. *)
Lemma constructed_attributes nc T s q mil boost sb depth ms mb dh w w1 :
  CommonTsetlinMachine.__init__ nc T s q mil boost sb depth ms mb dh w = (inr tt, w1) ->
  self w1 self_number_of_clauses = Some nc /\
  self w1 self_T = Some T /\
  self w1 self_depth = Some depth /\
  self w1 self_s = Some (match s with inl x => replicate depth x | inr t => t end) /\
  self w1 self_q = Some q /\
  self w1 self_max_included_literals = Some mil /\
  self w1 self_boost_true_positive_feedback = Some boost /\
  self w1 self_number_of_state_bits = Some sb /\
  self w1 self_message_size = Some ms /\
  self w1 self_message_literals = Some (ms * 2)%nat /\
  self w1 self_graphs_signature_train = Some np_array_nil /\
  self w1 self_graphs_signature_test = Some np_array_nil /\
  self w1 self_encoded_Y = Some np_array_nil /\
  forall p buf, gpu w p = Some buf -> gpu w1 p = Some buf.
Proof.
  intros E.
  replace w1 with (snd (CommonTsetlinMachine.__init__ nc T s q mil boost sb depth ms mb dh w))
    by (rewrite E; reflexivity).
  clear E. unfold CommonTsetlinMachine.__init__.
  destruct s as [x|t]; run; destruct dh; run.
  all: repeat split; try kept.
  all: intros p buf Hb;
    match goal with
    | |- gpu (snd (?m ?W)) p = Some buf =>
        let K := fresh "K" in
        assert (K : keeps (buffer_is p buf) m) by frame;
        apply K; unfold buffer_is; cbn [gpu with_self with_stdout]; exact Hb
    end.
Qed.

Lemma concat_rows_length c (rows : list (list Z)) :
  Forall (fun row => length row = c) rows -> length (concat rows) = (length rows * c)%nat.
Proof.
  induction 1 as [|row rows Hr _ IH]; [reflexivity|].
  cbn [concat length]. rewrite length_app, IH, Hr. lia.
Qed.

(** The constructor returns and leaves a rectangular hypervector table of
    one row per clause. *)
Lemma constructed nc T s q mil boost sb depth ms mb dh w :
  constructible nc ms mb dh -> Z.of_nat ms < 2 ^ 31 ->
  exists rows w0,
    CommonTsetlinMachine.__init__ nc T s q mil boost sb depth ms mb dh w = (inr tt, w0) /\
    self w0 self_message_bits = Some (if dh then 2%nat else mb) /\
    self w0 self_hypervectors = Some (Arr2 (if dh then 2%nat else mb) rows) /\
    length rows = nc /\
    Forall (fun row => length row = if dh then 2%nat else mb) rows /\
    self w0 self_initialized = Some false.
Proof.
  intros Hc Hms. destruct dh.
  - destruct (init_double_hashing nc T s q mil boost sb depth ms mb w Hc)
      as (p & w0 & _ & Hp & E & Hb & Hv & Hi).
    exists (map (double_hashing_row ms p) (seq 0 nc)), w0.
    split; [exact E|]. split; [exact Hb|]. split; [exact Hv|].
    split; [rewrite length_map, length_seq; reflexivity|]. split; [|exact Hi].
    apply Forall_forall. intros row Hrow. apply in_map_iff in Hrow as (i & <- & _).
    reflexivity.
  - destruct (init_random nc T s q mil boost sb depth ms mb w Hc)
      as (rows & w0 & E & Hb & Hv & Hl & F & Hi).
    exists rows, w0. split; [exact E|]. split; [exact Hb|]. split; [exact Hv|].
    split; [exact Hl|]. split; [|exact Hi].
    eapply Forall_impl; [|exact (F Hms)]. intros row [[H _] _]. exact H.
Qed.

(** A multi-output machine from its constructor through its first [fit] to
    [score]: every call returns. *)
Lemma life_returns nc T s q mil boost sb depth ms mb dh g columns rows epochs incremental w :
  constructible nc ms mb dh -> Z.of_nat ms < 2 ^ 31 ->
  (0 < nc)%nat -> (0 < sb)%nat -> (0 < ms)%nat -> (0 < mb)%nat -> (1 <= depth)%nat ->
  match s with inl _ => True | inr t => (depth <= length t)%nat end ->
  (0 < columns)%nat -> (0 < length rows)%nat ->
  Forall (fun row => length row = columns) rows ->
  graphs_ok g -> (0 < hypervector_size g)%nat ->
  array_equal np_array_nil (signature g) = false ->
  allocated w g_state ->
  exists w1 w2 a w3,
    MultiOutputGraphTsetlinMachine.__init__ nc T s q mil boost sb depth ms mb dh w
    = (inr tt, w1) /\
    MultiOutputGraphTsetlinMachine.fit g (Arr2 columns rows) epochs incremental w1
    = (inr tt, w2) /\
    MultiOutputGraphTsetlinMachine.score g w2 = (inr a, w3) /\
    matrix (number_of_graphs g) columns a /\
    scorable
      (constructed_layout nc T q mil boost sb depth ms (if dh then 2%nat else mb) g
         (Z.of_nat columns)) g w2.
Proof.
  intros Hc Hms Pnc Psb Pms Pmb Pd Hs Pcol Prows Frows GO Pf Nsig [gs Ag].
  destruct (constructed nc T s q mil boost sb depth ms mb dh w Hc Hms)
    as (hrows & w0 & E & Hmb & Hhv & Lh & Fh & Hi).
  destruct (constructed_attributes nc T s q mil boost sb depth ms mb dh w w0 E)
    as (A1 & A2 & A3 & A4 & A5 & A6 & A7 & A8 & A9 & A10 & A11 & A12 & A13 & A14).
  destruct (subclass_init nc T s q mil boost sb depth ms mb dh w w0 E) as (_ & E1 & _).
  set (L := constructed_layout nc T q mil boost sb depth ms (if dh then 2%nat else mb) g
              (Z.of_nat columns)).
  set (encoded_Y := astype_int32 (np_where_eq (Arr2 columns rows) 1 T (- T))).
  assert (Efit : MultiOutputGraphTsetlinMachine.fit g (Arr2 columns rows) epochs incremental
                   (labelled w0)
                 = CommonTsetlinMachine._fit g encoded_Y epochs incremental
                     (with_outputs (Z.of_nat columns) (labelled w0))).
  { unfold MultiOutputGraphTsetlinMachine.fit, MultiOutputGraphTsetlinMachine.shape_1, index,
      labelled.
    cbn [shape lookup list_lookup]. run. reflexivity. }
  assert (FT : fittable L g encoded_Y (with_outputs (Z.of_nat columns) (labelled w0))).
  { unfold fittable, with_outputs, labelled. world_cbn. cbn [L constructed_layout
      L_kernels L_depth L_outputs L_clauses L_message_literals L_message_chunks].
    split; [exact Hi|]. split; [exact A3|]. split; [reflexivity|]. split; [lia|].
    split; [exact A1|]. split; [exact Pnc|].
    split.
    { exists sb, boost, T, q, mil, 1, (if dh then 2%nat else mb), ms,
        (Arr2 (if dh then 2%nat else mb) hrows),
        (match s with inl x => replicate depth x | inr t => t end).
      split; [exact A8|]. split; [exact Psb|]. split; [exact A7|]. split; [exact A2|].
      split; [exact A5|]. split; [exact A6|]. split; [reflexivity|]. split; [exact Hmb|].
      split; [exact A9|]. split; [exact Pms|]. split; [exact A10|]. split; [exact Hhv|].
      split; [unfold well_formed; cbn [ravel size]; apply concat_rows_length; exact Fh|].
      split; [cbn [size]; rewrite Lh; apply Nat.mul_pos_pos; [exact Pnc|destruct dh; lia]|].
      split; [exact A4|].
      split; [destruct s; [rewrite length_replicate; lia|lia]|].
      split; [destruct s; [rewrite length_replicate; lia|exact Hs]|].
      split; [reflexivity|]. split; reflexivity. }
    split; [exact A11|]. split; [exact A12|]. split; [exact A13|].
    split; [exact Nsig|].
    split.
    { unfold array_equal, encoded_Y. cbn [np_where_eq astype_int32 shape np_array_nil length].
      rewrite !length_map. rewrite bool_decide_eq_false_2; [reflexivity|]. intros [= H]. }
    split.
    { unfold well_formed, encoded_Y. cbn [np_where_eq astype_int32 ravel size].
      rewrite (concat_rows_length columns); [rewrite !length_map; reflexivity|].
      rewrite !Forall_map.
      eapply Forall_impl; [|exact Frows]. intros row Hr. cbn. rewrite !length_map. exact Hr. }
    split.
    { unfold encoded_Y. cbn [np_where_eq astype_int32 size]. rewrite !length_map.
      apply Nat.mul_pos_pos; assumption. }
    split; [exact GO|]. split; [exact Pf|].
    unfold allocated. cbn [gpu with_self]. rewrite (A14 g_state gs Ag). eauto. }
  destruct (first_fit_returns L g encoded_Y epochs incremental _ FT)
    as (w2 & E2 & _ & _ & _ & SC & _).
  destruct (score_returns L g w2 SC) as (a & w3 & E3 & Ma).
  exists (labelled w0), w2, a, w3.
  split; [exact E1|]. split; [rewrite Efit; exact E2|]. split; [exact E3|].
  split; [|exact SC].
  cbn [L constructed_layout L_outputs] in Ma. rewrite Nat2Z.id in Ma. exact Ma.
Qed.

(** X18: a machine from its constructor to its first score.  For
    arguments the constructor accepts, with at least one clause, state bit,
    message bit and layer and a specificity per layer, a well-formed graph
    set with a signature and a non-empty target matrix of at least one
    column, the constructor of the multi-output machine returns, [fit]
    returns on the machine it leaves, for any number of epochs, and [score]
    returns on the machine [fit] leaves; the score has one row per graph and
    one column per column of the targets. *)
Theorem construct_fit_score nc T s q mil boost sb depth ms mb dh g columns rows epochs
        incremental w :
  constructible nc ms mb dh -> Z.of_nat ms < 2 ^ 31 ->
  (0 < nc)%nat -> (0 < sb)%nat -> (0 < ms)%nat -> (0 < mb)%nat -> (1 <= depth)%nat ->
  match s with inl _ => True | inr t => (depth <= length t)%nat end ->
  (0 < columns)%nat -> (0 < length rows)%nat ->
  Forall (fun row => length row = columns) rows ->
  graphs_ok g -> (0 < hypervector_size g)%nat ->
  array_equal np_array_nil (signature g) = false ->
  allocated w g_state ->
  exists w1 w2 a w3,
    MultiOutputGraphTsetlinMachine.__init__ nc T s q mil boost sb depth ms mb dh w
    = (inr tt, w1) /\
    MultiOutputGraphTsetlinMachine.fit g (Arr2 columns rows) epochs incremental w1
    = (inr tt, w2) /\
    MultiOutputGraphTsetlinMachine.score g w2 = (inr a, w3) /\
    matrix (number_of_graphs g) columns a /\
    shape a = [number_of_graphs g; columns].
Proof.
  intros Hc Hms Pnc Psb Pms Pmb Pd Hs Pcol Prows Frows GO Pf Nsig Ag.
  destruct (life_returns nc T s q mil boost sb depth ms mb dh g columns rows epochs
              incremental w Hc Hms Pnc Psb Pms Pmb Pd Hs Pcol Prows Frows GO Pf Nsig Ag)
    as (w1 & w2 & a & w3 & E1 & E2 & E3 & Ma & _).
  exists w1, w2, a, w3. repeat (split; [assumption|]).
  destruct Ma as (arows & -> & Hr & _). cbn [shape]. rewrite Hr. reflexivity.
Qed.

End Life.

(** ** The actions at the toy machine *)

Lemma surface_action_witness :
  self (Toy.trained 2) self_number_of_clauses = Some 3%nat /\
  self (Toy.trained 2) self_number_of_ta_chunks = Some 1%nat /\
  self (Toy.trained 2) self_number_of_state_bits = Some 8%nat /\
  self (Toy.trained 2) self_ta_state = Some (Arr1 []) /\
  array_equal (Arr1 []) np_array_nil = true /\
  gpu (Toy.trained 2) ta_state_gpu = Some (replicate 24 2991615011) /\
  (3 * 1 * 8 <= length (replicate 24 2991615011%Z))%nat /\
  0 <= 1 < Z.of_nat 3 /\ 0 <= 2 < 32 * Z.of_nat 1 /\ (1 <= 8)%nat /\
  exists w',
    CommonTsetlinMachine.ta_action (B := Toy.backend) 0 1 2 (Toy.trained 2)
    = (inr (Z.testbit (to_uint32 (nth (action_word 1 8 1 2) (replicate 24 2991615011) 0))
              (2 mod 32)), w') /\
    gpu w' = gpu (Toy.trained 2).
Proof.
  assert (H1 : self (Toy.trained 2) self_number_of_clauses = Some 3%nat) by concrete.
  assert (H2 : self (Toy.trained 2) self_number_of_ta_chunks = Some 1%nat) by concrete.
  assert (H3 : self (Toy.trained 2) self_number_of_state_bits = Some 8%nat) by concrete.
  assert (H4 : self (Toy.trained 2) self_ta_state = Some (Arr1 [])) by concrete.
  assert (H5 : array_equal (Arr1 []) np_array_nil = true) by concrete.
  assert (H6 : gpu (Toy.trained 2) ta_state_gpu = Some (replicate 24 2991615011))
    by concrete.
  assert (H7 : (3 * 1 * 8 <= length (replicate 24 2991615011%Z))%nat) by (vm_compute; lia).
  assert (H8 : 0 <= 1 < Z.of_nat 3) by (cbn; lia).
  assert (H9 : 0 <= 2 < 32 * Z.of_nat 1) by (cbn; lia).
  assert (H10 : (1 <= 8)%nat) by lia.
  do 10 (split; [assumption|]).
  destruct (surface_action (B := Toy.backend) (Toy.trained 2) 3%nat 1%nat 8%nat (Arr1 [])
              (replicate 24 2991615011) 1 2 H1 H2 H3 H4 H5 H6 H7 H8 H9 H10)
    as (w' & E & G & _).
  exists w'. split; [exact E|exact G].
Defined.

Lemma toy_cache_well_formed :
  forall c, self (Toy.trained 2) self_ta_state = Some c -> well_formed c.
Proof.
  intros c H.
  assert (E : self (Toy.trained 2) self_ta_state = Some (Arr1 [])) by concrete.
  rewrite E in H. injection H as <-. reflexivity.
Defined.

Lemma exported_actions_witness :
  model_ready trained_layout (Toy.trained 2) /\
  exportable trained_layout (Toy.trained 2) /\
  (forall c, self (Toy.trained 2) self_ta_state = Some c -> well_formed c) /\
  exists st w1,
    CommonTsetlinMachine.get_state (B := Toy.backend) (Toy.trained 2) = (inr st, w1) /\
    forall f clause ta,
      0 <= clause < Z.of_nat (state_3 st) -> 0 <= ta < 32 * Z.of_nat (state_7 st) ->
      CommonTsetlinMachine.ta_action (B := Toy.backend) 0 clause ta (with_gpu f w1)
      = (inr (Z.testbit (nth (action_word (state_7 st) (state_6 st) clause ta)
                           (ravel (state_0 st)) 0) (ta mod 32)),
         with_gpu f w1).
Proof.
  split; [exact toy_model_ready|]. split; [exact toy_exportable|].
  split; [exact toy_cache_well_formed|].
  exact (exported_actions (B := Toy.backend) trained_layout (Toy.trained 2)
           toy_model_ready toy_exportable toy_cache_well_formed).
Defined.

Lemma toy_state_bits : self (Toy.trained 2) self_number_of_state_bits = Some 8%nat.
Proof. concrete. Defined.

Lemma toy_message_buffer :
  gpu (Toy.trained 2) (message_ta_state_gpu 0) = Some (replicate 24 3757804987).
Proof. concrete. Defined.

Lemma toy_message_extent :
  (L_clauses trained_layout * L_message_chunks trained_layout * 8
   <= length (replicate 24 3757804987%Z))%nat.
Proof. vm_compute. lia. Defined.

Lemma toy_first_layer : axis_index (L_depth trained_layout - 1) (1 - 1) = Some 0%nat.
Proof. reflexivity. Defined.

Lemma one_is_not_zero : 1 <> 0.
Proof. discriminate. Defined.

Lemma message_action_witness :
  model_ready trained_layout (Toy.trained 2) /\
  self (Toy.trained 2) self_number_of_state_bits = Some 8%nat /\ (1 <= 8)%nat /\
  1 <> 0 /\ axis_index (L_depth trained_layout - 1) (1 - 1) = Some 0%nat /\
  gpu (Toy.trained 2) (message_ta_state_gpu 0) = Some (replicate 24 3757804987) /\
  (L_clauses trained_layout * L_message_chunks trained_layout * 8
   <= length (replicate 24 3757804987%Z))%nat /\
  0 <= 2 < Z.of_nat (L_clauses trained_layout) /\
  0 <= 9 < 32 * Z.of_nat (L_message_chunks trained_layout) /\
  exists w',
    CommonTsetlinMachine.ta_action (B := Toy.backend) 1 2 9 (Toy.trained 2)
    = (inr (Z.testbit
              (to_uint32 (nth (action_word (L_message_chunks trained_layout) 8 2 9)
                            (replicate 24 3757804987) 0)) (9 mod 32)), w') /\
    gpu w' = gpu (Toy.trained 2).
Proof.
  assert (H3 : (1 <= 8)%nat) by lia.
  assert (H8 : 0 <= 2 < Z.of_nat (L_clauses trained_layout)) by (cbn; lia).
  assert (H9 : 0 <= 9 < 32 * Z.of_nat (L_message_chunks trained_layout)) by (cbn; lia).
  split; [exact toy_model_ready|]. split; [exact toy_state_bits|]. split; [exact H3|].
  split; [exact one_is_not_zero|]. split; [exact toy_first_layer|].
  split; [exact toy_message_buffer|]. split; [exact toy_message_extent|].
  split; [exact H8|]. split; [exact H9|].
  destruct (message_action (B := Toy.backend) trained_layout (Toy.trained 2) 1 0%nat 8%nat
              (replicate 24 3757804987) 2 9 toy_model_ready toy_state_bits H3
              one_is_not_zero toy_first_layer toy_message_buffer toy_message_extent H8 H9)
    as (w' & E & G & _).
  exists w'. split; [exact E|exact G].
Defined.

Lemma message_action_out_of_range_witness :
  model_ready trained_layout (Toy.trained 2) /\
  self (Toy.trained 2) self_number_of_state_bits = Some 8%nat /\
  2 <> 0 /\
  (Z.of_nat (L_depth trained_layout - 1) < 2 \/
   2 <= - Z.of_nat (L_depth trained_layout - 1)) /\
  CommonTsetlinMachine.ta_action (B := Toy.backend) 2 0 0 (Toy.trained 2)
  = (inl (IndexError "list index out of range"),
     with_self (object_set self_message_ta_state
                  (CommonTsetlinMachine.np_empty1 (B := Toy.backend) uint32
                     (L_clauses trained_layout * L_message_chunks trained_layout * 8)))
       (Toy.trained 2)).
Proof.
  assert (H1 : 2 <> 0) by discriminate.
  assert (H2 : Z.of_nat (L_depth trained_layout - 1) < 2 \/
               2 <= - Z.of_nat (L_depth trained_layout - 1)) by (left; cbn; lia).
  split; [exact toy_model_ready|]. split; [exact toy_state_bits|].
  split; [exact H1|]. split; [exact H2|].
  exact (message_action_out_of_range (B := Toy.backend) trained_layout (Toy.trained 2)
           2 8%nat 0 0 toy_model_ready toy_state_bits H1 H2).
Defined.

Lemma toy_surface_words :
  surface_words (Toy.trained 2) (3 * 1 * 8) (map to_uint32 (take (3 * 1 * 8) (replicate 24 2991615011))).
Proof.
  exists (Arr1 []). split; [concrete|]. left. split; [concrete|].
  exists (replicate 24 2991615011). split; [concrete|]. split; [vm_compute; lia|reflexivity].
Defined.

Lemma surface_hyperliterals_witness :
  self (Toy.trained 2) self_number_of_clauses = Some 3%nat /\
  self (Toy.trained 2) self_number_of_ta_chunks = Some 1%nat /\
  self (Toy.trained 2) self_number_of_state_bits = Some 8%nat /\
  self (Toy.trained 2) self_number_of_literals = Some 4%nat /\
  surface_words (Toy.trained 2) (3 * 1 * 8)
    (map to_uint32 (take (3 * 1 * 8) (replicate 24 2991615011))) /\
  Z.of_nat 4 <= 32 * Z.of_nat 1 /\ (1 <= 8)%nat /\
  exists w',
    CommonTsetlinMachine.get_hyperliterals (B := Toy.backend) 0 (Toy.trained 2)
    = (inr (Arr2 4 [[1; 1; 0; 0]; [1; 1; 0; 0]; [1; 1; 0; 0]]), w') /\
    gpu w' = gpu (Toy.trained 2).
Proof.
  assert (H1 : self (Toy.trained 2) self_number_of_clauses = Some 3%nat) by concrete.
  assert (H2 : self (Toy.trained 2) self_number_of_ta_chunks = Some 1%nat) by concrete.
  assert (H4 : self (Toy.trained 2) self_number_of_literals = Some 4%nat) by concrete.
  assert (H6 : Z.of_nat 4 <= 32 * Z.of_nat 1) by (cbn; lia).
  assert (H7 : (1 <= 8)%nat) by lia.
  split; [exact H1|]. split; [exact H2|]. split; [exact toy_state_bits|].
  split; [exact H4|]. split; [exact toy_surface_words|]. split; [exact H6|].
  split; [exact H7|].
  destruct (surface_hyperliterals (B := Toy.backend) (Toy.trained 2) 3%nat 1%nat 8%nat 4%nat
              (map to_uint32 (take (3 * 1 * 8) (replicate 24 2991615011)))
              H1 H2 toy_state_bits H4 toy_surface_words H6 H7)
    as (a & w' & E & -> & _ & G & _).
  exists w'. split; [exact E|exact G].
Defined.

Lemma toy_message_width :
  Z.of_nat (L_message_literals trained_layout) <= 32 * Z.of_nat (L_message_chunks trained_layout).
Proof. cbn. lia. Defined.

Lemma message_hyperliterals_witness :
  model_ready trained_layout (Toy.trained 2) /\
  self (Toy.trained 2) self_number_of_state_bits = Some 8%nat /\ (1 <= 8)%nat /\
  1 <> 0 /\ axis_index (L_depth trained_layout - 1) (1 - 1) = Some 0%nat /\
  gpu (Toy.trained 2) (message_ta_state_gpu 0) = Some (replicate 24 3757804987) /\
  (L_clauses trained_layout * L_message_chunks trained_layout * 8
   <= length (replicate 24 3757804987%Z))%nat /\
  Z.of_nat (L_message_literals trained_layout)
  <= 32 * Z.of_nat (L_message_chunks trained_layout) /\
  exists a w',
    CommonTsetlinMachine.get_hyperliterals (B := Toy.backend) 1 (Toy.trained 2)
    = (inr a, w') /\
    shape a = [L_clauses trained_layout; L_message_literals trained_layout] /\
    gpu w' = gpu (Toy.trained 2).
Proof.
  assert (H3 : (1 <= 8)%nat) by lia.
  split; [exact toy_model_ready|]. split; [exact toy_state_bits|]. split; [exact H3|].
  split; [exact one_is_not_zero|]. split; [exact toy_first_layer|].
  split; [exact toy_message_buffer|]. split; [exact toy_message_extent|].
  split; [exact toy_message_width|].
  destruct (message_hyperliterals (B := Toy.backend) trained_layout (Toy.trained 2) 1 0%nat
              8%nat (replicate 24 3757804987) toy_model_ready toy_state_bits H3
              one_is_not_zero toy_first_layer toy_message_buffer toy_message_extent
              toy_message_width)
    as (a & w' & E & _ & S & G & _).
  exists a, w'. split; [exact E|]. split; [exact S|exact G].
Defined.

Lemma transform_class_sums_witness :
  kernel_frames (B := Toy.backend) (L_kernels trained_layout) /\
  scorable trained_layout Toy.graphs (Toy.trained 2) /\
  (exists n, extent (Toy.trained 2) ta_state_gpu = Some n /\
             (ta_extent (L_kernels trained_layout) <= n)%nat) /\
  exists tX cs w1 w2,
    CommonTsetlinMachine.transform (B := Toy.backend) Toy.graphs (Toy.trained 2)
    = (inr (tX, cs), w1) /\
    CommonTsetlinMachine._score (B := Toy.backend) Toy.graphs (Toy.trained 2)
    = (inr cs, w2) /\
    shape tX = [number_of_graphs Toy.graphs; L_clauses trained_layout].
Proof.
  split; [exact (toy_frames _)|]. split; [exact toy_scorable|].
  split; [exact toy_automata_extent|].
  destruct (transform_class_sums (B := Toy.backend) trained_layout Toy.graphs (Toy.trained 2)
              (toy_frames _) toy_scorable toy_automata_extent)
    as (tX & cs & w1 & w2 & E1 & E2 & _ & S & _).
  exists tX, cs, w1, w2. split; [exact E1|]. split; [exact E2|exact S].
Defined.

Lemma toy_fit_ready :
  fit_ready trained_layout Toy.graphs (Arr2 2 [[10; -10]; [-10; 10]]) (Toy.trained 2).
Proof.
  split; [concrete|].
  split; [exists (Arr1 [42]); split; concrete|].
  split; [exists (Arr2 2 [[10; -10]; [-10; 10]]); split; concrete|].
  split; [exact toy_graphs_ok|].
  split; [exact toy_train_evaluable|].
  split; [concrete|].
  split; [exists [2%float; 2%float]; split; [concrete|split; cbn; lia]|].
  repeat constructor; concrete.
Defined.

Lemma fit_again_witness :
  fit_ready trained_layout Toy.graphs (Arr2 2 [[10; -10]; [-10; 10]]) (Toy.trained 2) /\
  exists w',
    CommonTsetlinMachine._fit (B := Toy.backend) Toy.graphs (Arr2 2 [[10; -10]; [-10; 10]])
      3 false (Toy.trained 2) = (inr tt, w') /\
    stream w'
    = stream (Toy.trained 2) ++ refit_launches false
      ++ concat (replicate 3
                   (concat (replicate (number_of_graphs Toy.graphs)
                              (step_launches trained_layout)))) /\
    gpu w' hypervectors_gpu = gpu (Toy.trained 2) hypervectors_gpu /\
    self w' self_ta_state = Some np_array_nil.
Proof.
  split; [exact toy_fit_ready|].
  destruct (fit_again (B := Toy.backend) trained_layout Toy.graphs
              (Arr2 2 [[10; -10]; [-10; 10]]) 3 false (Toy.trained 2) toy_fit_ready)
    as (w' & E & S & _ & H & _ & _ & _ & _ & T & _).
  exists w'. split; [exact E|]. split; [exact S|]. split; [exact H|exact T].
Defined.

Lemma toy_fittable :
  fittable trained_layout Toy.graphs (Arr2 2 [[10; -10]; [-10; 10]])
    (with_outputs 2 (Toy.constructed 2 false)).
Proof.
  split; [concrete|]. split; [concrete|]. split; [concrete|]. split; [reflexivity|].
  split; [concrete|]. split; [cbn; lia|].
  split.
  { exists 8%nat, 1, 10, 1.0%float, None, 1, 2%nat, 8%nat,
      (default np_array_nil (self (Toy.constructed 2 false) self_hypervectors)),
      [2.0%float; 2.0%float].
    split; [concrete|]. split; [lia|]. split; [concrete|]. split; [concrete|].
    split; [concrete|]. split; [concrete|]. split; [concrete|]. split; [concrete|].
    split; [concrete|]. split; [lia|]. split; [concrete|]. split; [concrete|].
    split; [vm_compute; reflexivity|]. split; [vm_compute; lia|].
    split; [concrete|]. split; [cbn; lia|]. split; [cbn; lia|].
    split; [reflexivity|]. split; [reflexivity|]. reflexivity. }
  split; [concrete|]. split; [concrete|]. split; [concrete|].
  split; [reflexivity|]. split; [reflexivity|].
  split; [reflexivity|]. split; [cbn; lia|].
  split; [exact toy_graphs_ok|]. split; [cbn; lia|].
  concrete.
Defined.

Lemma first_fit_witness :
  fittable trained_layout Toy.graphs (Arr2 2 [[10; -10]; [-10; 10]])
    (with_outputs 2 (Toy.constructed 2 false)) /\
  exists w',
    CommonTsetlinMachine._fit (B := Toy.backend) Toy.graphs (Arr2 2 [[10; -10]; [-10; 10]])
      2 false (with_outputs 2 (Toy.constructed 2 false)) = (inr tt, w') /\
    model_ready trained_layout w' /\
    fit_ready trained_layout Toy.graphs (Arr2 2 [[10; -10]; [-10; 10]]) w' /\
    scorable trained_layout Toy.graphs w'.
Proof.
  split; [exact toy_fittable|].
  destruct (first_fit (B := Toy.backend) trained_layout Toy.graphs
              (Arr2 2 [[10; -10]; [-10; 10]]) 2 false
              (with_outputs 2 (Toy.constructed 2 false)) toy_fittable)
    as (w' & E & _ & MR & FR & SC & _).
  exists w'. split; [exact E|]. split; [exact MR|]. split; [exact FR|exact SC].
Defined.

Lemma construct_fit_score_witness :
  constructible 3 8 2 false /\ Z.of_nat 8 < 2 ^ 31 /\
  (0 < 3)%nat /\ (0 < 8)%nat /\ (0 < 8)%nat /\ (0 < 2)%nat /\ (1 <= 2)%nat /\
  (0 < 2)%nat /\ (0 < length [[1; 0]; [0; 1]])%nat /\
  Forall (fun row : list Z => length row = 2%nat) [[1; 0]; [0; 1]] /\
  graphs_ok Toy.graphs /\ (0 < hypervector_size Toy.graphs)%nat /\
  array_equal np_array_nil (signature Toy.graphs) = false /\
  allocated (boot [1; 2; 3] [3; 1; 4; 1; 5; 9; 2; 6]%nat) g_state /\
  exists w1 w2 a w3,
    MultiOutputGraphTsetlinMachine.__init__ 3 10 (inl 2.0%float)
      1.0%float None 1 8 2 8 2 false (boot [1; 2; 3] [3; 1; 4; 1; 5; 9; 2; 6]%nat)
    = (inr tt, w1) /\
    MultiOutputGraphTsetlinMachine.fit (B := Toy.backend) Toy.graphs
      (Arr2 2 [[1; 0]; [0; 1]]) 1 false w1 = (inr tt, w2) /\
    MultiOutputGraphTsetlinMachine.score (B := Toy.backend) Toy.graphs w2 = (inr a, w3) /\
    shape a = [number_of_graphs Toy.graphs; 2%nat].
Proof.
  assert (H1 : constructible 3 8 2 false) by (right; lia).
  assert (H2 : Z.of_nat 8 < 2 ^ 31) by (cbn; lia).
  assert (H3 : (0 < 3)%nat) by lia.
  assert (H4 : (0 < 8)%nat) by lia.
  assert (H6 : (0 < 2)%nat) by lia.
  assert (H7 : (1 <= 2)%nat) by lia.
  assert (H9 : (0 < length [[1; 0]; [0; 1]])%nat) by (cbn; lia).
  assert (H10 : Forall (fun row : list Z => length row = 2%nat) [[1; 0]; [0; 1]])
    by (repeat constructor).
  assert (H12 : (0 < hypervector_size Toy.graphs)%nat) by (cbn; lia).
  assert (H13 : array_equal np_array_nil (signature Toy.graphs) = false) by reflexivity.
  assert (H14 : allocated (boot [1; 2; 3] [3; 1; 4; 1; 5; 9; 2; 6]%nat) g_state)
    by (eexists; reflexivity).
  split; [exact H1|]. split; [exact H2|]. split; [exact H3|]. split; [exact H4|].
  split; [exact H4|]. split; [exact H6|]. split; [exact H7|]. split; [exact H6|].
  split; [exact H9|]. split; [exact H10|]. split; [exact toy_graphs_ok|].
  split; [exact H12|]. split; [exact H13|]. split; [exact H14|].
  destruct (construct_fit_score (B := Toy.backend) 3 10 (inl 2.0%float) 1.0%float None 1
              8 2 8 2 false Toy.graphs 2 [[1; 0]; [0; 1]] 1 false
              (boot [1; 2; 3] [3; 1; 4; 1; 5; 9; 2; 6]%nat)
              H1 H2 H3 H4 H4 H6 H7 I H6 H9 H10 toy_graphs_ok H12 H13 H14)
    as (w1 & w2 & a & w3 & E1 & E2 & E3 & _ & S).
  exists w1, w2, a, w3. split; [exact E1|]. split; [exact E2|]. split; [exact E3|exact S].
Defined.
